(** * Gesture layer of the smart-mirror kiosk

    A shallow embedding of the gesture interpretation code of
    [src/App.tsx] (top-level navigation, speech commands) and
    [src/components/FittingRoom.tsx] (fitting-room flow and what it
    renders), together with [generateAllLooks], [generateLook] and
    [dataUrlToBase64] of [src/services/imagenService.ts], and the
    properties of the specification proved or refuted on it, followed
    by further properties of the code.

    Conventions of the embedding.
    - Landmark coordinates are JavaScript numbers, that is doubles.  A
      finite double is modelled as the rational [Q] it denotes, and a
      comparison of two doubles is the comparison of these rationals.
      The arithmetic of the code on them ([a - b], [a + b],
      [Math.pow], [Math.sqrt], [Math.hypot]) rounds, and the [Math]
      functions are implementation-approximated: these operations are
      those of an [Engine], and every theorem is proved for every
      engine.  [Binary64.binary64] is the engine that rounds each
      operation to the nearest double; properties are evaluated on
      sample inputs with it.
    - A decimal literal such as [0.15] is written as the rational it
      spells.  The double it denotes is the nearest one, and no double
      lies between the two, so a double is above (below) the one
      exactly when it is above (below) the other for the literals
      compared against here.
    - [Date.now()] and timer delays are integers [Z] (milliseconds).
      Counters and indices are [Z].
    - A landmark array delivered by the detector always holds 21 points;
      it is modelled as the total indexing function [i |-> lm[i]].
    - React state and the refs mirroring it ([phaseRef],
      [selectedIndexRef], [currentItemRef]) are one field each: state
      updates are committed, and their effects run, before the next
      callback (frame, timer, click, promise continuation) is
      delivered.
    - The fitting-room component is a transition system: a state holds
      the [useState] cells, the [useRef] cells, and what the runtime
      holds for the component (pending timers, [generateAllLooks] calls
      in flight, the screen [AnimatePresence] is animating out); an
      input is a frame, a click on a button of the screen that is in
      the document, a timer that fires, a [generateLook] call that
      settles, the resumption of [startGeneration] once
      [Promise.allSettled] has resolved, or the end of an exit
      animation.  The gesture handler also returns the calls it made
      ([goNext], [startCapture], [reset], ...), which are the events
      the claims speak of.
    - A timer fires no earlier than its due time and, as the HTML
      standard prescribes, not before the timers started earlier with
      an equal or smaller delay.
    - The four screens are the children of one [AnimatePresence] in
      mode [wait]: when the phase changes, the screen that was shown
      stays in the document as it was last rendered, its buttons still
      answering clicks, until its exit animation has run; only then is
      the screen of the new phase put in.  The source gives the
      animations no duration; an exit animation is taken to be over by
      the time the phase changes again. *)

From Stdlib Require Import ZArith QArith Qabs List Lia Bool String Permutation.
From stdpp Require Import list.
Import ListNotations.

Local Open Scope Z_scope.

(** ** Numbers *)

(** [a < b] on JavaScript numbers, as a boolean. *)
Definition Qltb (a b : Q) : bool := negb (Qle_bool b a).

(** The arithmetic of the JavaScript engine on doubles. *)
Class Engine : Type := {
  fsub : Q -> Q -> Q;          (* a - b *)
  fadd : Q -> Q -> Q;          (* a + b *)
  Math_pow2 : Q -> Q;          (* Math.pow(a, 2) *)
  Math_sqrt : Q -> Q;          (* Math.sqrt(a) *)
  Math_hypot : Q -> Q -> Q     (* Math.hypot(a, b) *)
}.

(** An engine: IEEE 754 binary64 with every operation rounded to the
    nearest double, ties to even.  A rational that is not a double
    stands for the double nearest to it, as a literal does.  Landmark
    coordinates are far from the magnitudes at which a double
    overflows; infinities and NaN are not modelled. *)
Module Binary64.

(** [m * 2^k]. *)
Definition scaled (m k : Z) : Q :=
  if 0 <=? k then inject_Z (m * 2 ^ k) else m # Z.to_pos (2 ^ (- k)).

(** The integer part of the binary logarithm of [n / d], for positive
    [n] and [d]. *)
Definition exponentOf (n d : Z) : Z :=
  let e := Z.log2 n - Z.log2 d in
  if 0 <=? e then (if n <? d * 2 ^ e then e - 1 else e)
  else (if n * 2 ^ (- e) <? d then e - 1 else e).

(** The integer nearest to [n / d], the even one of two that are
    equally near. *)
Definition nearestEven (n d : Z) : Z :=
  let q := n / d in
  match 2 * (n mod d) ?= d with
  | Lt => q
  | Gt => q + 1
  | Eq => if Z.even q then q else q + 1
  end.

(** The double nearest to [n / d], for positive [n] and [d]: 53
    significant bits, fewer below [2^-1022]. *)
Definition roundPos (n d : Z) : Q :=
  let e := Z.max (exponentOf n d) (-1022) in
  let k := 52 - e in
  let m := if 0 <=? k then nearestEven (n * 2 ^ k) d
           else nearestEven n (d * 2 ^ (- k)) in
  Qred (scaled m (- k)).

Definition round (q : Q) : Q :=
  match Qnum q with
  | Z0 => 0%Q
  | Zpos n => roundPos (Zpos n) (Zpos (Qden q))
  | Zneg n => Qopp (roundPos (Zpos n) (Zpos (Qden q)))
  end.

(** The double nearest to the square root of [q]: the root is bracketed
    between two neighbours of a grid of step [2^-k], finer than a
    quarter of the spacing of the doubles around it, and a point of the
    bracket is rounded. *)
Definition sqrtRound (q : Q) : Q :=
  match Qnum q with
  | Zpos n =>
      let d := Zpos (Qden q) in
      let k := Z.max 0 (58 - exponentOf (Zpos n) d / 2) in
      let s := Z.sqrt ((Zpos n * 4 ^ k) / d) in
      if s * s * d =? Zpos n * 4 ^ k then round (scaled s (- k))
      else round (scaled (2 * s + 1) (- (k + 1)))
  | _ => 0%Q
  end.

Definition binary64 : Engine := {|
  fsub := fun a b => round (round a - round b);
  fadd := fun a b => round (round a + round b);
  Math_pow2 := fun a => round (round a * round a);
  Math_sqrt := fun a => sqrtRound (round a);
  Math_hypot := fun a b => sqrtRound (round a * round a + round b * round b)
|}.

End Binary64.

(** ** Landmark geometry *)

Module Geometry.

Record Landmark : Type := { x : Q; y : Q }.

(** A hand: the landmark at each index of the detector's array. *)
Definition HandLandmarks : Type := nat -> Landmark.

Definition origin : Landmark := {| x := 0; y := 0 |}.

(** The hand whose array is [l]. *)
Definition hand_of_list (l : list Landmark) : HandLandmarks :=
  fun i => nth i l origin.

Definition tips : list nat := [8; 12; 16; 20]%nat.
Definition pips : list nat := [6; 10; 14; 18]%nat.

Section WithEngine.
Context {engine : Engine}.

(** The distance of [p] to the wrist [w] as the code computes it:
    [Math.hypot(p.x - wrist.x, p.y - wrist.y)]. *)
Definition distance (p w : Landmark) : Q :=
  Math_hypot (fsub (x p) (x w)) (fsub (y p) (y w)).

(** [dTip > dPip] for one finger. *)
Definition extended (lm : HandLandmarks) (tip pip : nat) : bool :=
  Qltb (distance (lm pip) (lm 0%nat)) (distance (lm tip) (lm 0%nat)).

(** [dTip < dPip] for one finger. *)
Definition folded (lm : HandLandmarks) (tip pip : nat) : bool :=
  Qltb (distance (lm tip) (lm 0%nat)) (distance (lm pip) (lm 0%nat)).

(** FittingRoom.tsx, [countExtendedFingers]: the loop over the four
    fingers, [count] being its accumulator. *)
Definition countExtendedFingers (lm : HandLandmarks) : Z :=
  fold_left
    (fun count '(tip, pip) => if extended lm tip pip then count + 1 else count)
    (combine tips pips) 0.

(** FittingRoom.tsx, [isFistGesture]. *)
Definition isFistGesture (lm : HandLandmarks) : bool :=
  countExtendedFingers lm =? 0.

(** FittingRoom.tsx, [isThumbsUp]. *)
Definition isThumbsUp (lm : HandLandmarks) : bool :=
  let thumbTip := lm 4%nat in
  let thumbMcp := lm 2%nat in
  let thumbPointingUp := Qltb (y thumbTip) (fsub (y thumbMcp) 0.04) in
  let fingersFolded :=
    forallb (fun '(tip, pip) => folded lm tip pip) (combine tips pips) in
  thumbPointingUp && fingersFolded.

(** App.tsx, [isFingerFolded] of the [onResults] callback. *)
Definition isFingerFolded (tip pip wrist : Landmark) : bool :=
  Qltb (distance tip wrist) (distance pip wrist).

(** App.tsx, [isFist] of the [onResults] callback. *)
Definition isFist (landmarks : HandLandmarks) : bool :=
  isFingerFolded (landmarks 8%nat) (landmarks 6%nat) (landmarks 0%nat) &&
  isFingerFolded (landmarks 12%nat) (landmarks 10%nat) (landmarks 0%nat) &&
  isFingerFolded (landmarks 16%nat) (landmarks 14%nat) (landmarks 0%nat) &&
  isFingerFolded (landmarks 20%nat) (landmarks 18%nat) (landmarks 0%nat).

(** App.tsx, [pinchDistance]. *)
Definition pinchDistance (landmarks : HandLandmarks) : Q :=
  let thumbTip := landmarks 4%nat in
  let indexTip := landmarks 8%nat in
  Math_sqrt (fadd (Math_pow2 (fsub (x thumbTip) (x indexTip)))
                  (Math_pow2 (fsub (y thumbTip) (y indexTip)))).

(** App.tsx, [isPinching]. *)
Definition isPinching (landmarks : HandLandmarks) : bool :=
  Qltb (pinchDistance landmarks) 0.08.

(** No finger's tip and PIP are computed to be at the same distance
    from the wrist. *)
Definition noTie (lm : HandLandmarks) : bool :=
  forallb
    (fun '(tip, pip) =>
       negb (Qeq_bool (distance (lm tip) (lm 0%nat))
                      (distance (lm pip) (lm 0%nat))))
    (combine tips pips).

End WithEngine.

End Geometry.

(** ** Catalog data (src/data/catalog.ts)

    Only the fields the gesture layer and the generation pipeline read
    are kept; the Hebrew display strings, colours, tags and image URLs
    are display metadata. *)

Module Catalog.

Local Open Scope string_scope.

Record Scene : Type := {
  scene_id : string;
  label : string;
  prompt : string
}.

Record ClothingItem : Type := {
  id : string;
  name : string;
  brand : string;
  price : Z;
  scenes : list Scene
}.

Definition SCENES : list Scene := [
  {| scene_id := "street"; label := "Street";
     prompt := "a stylish urban street in Tel Aviv, golden hour lighting, city vibes" |};
  {| scene_id := "cafe"; label := "Cafe";
     prompt := "a cozy modern coffee shop, warm light, cappuccino on the table, relaxed atmosphere" |};
  {| scene_id := "beach"; label := "Beach";
     prompt := "a beautiful Mediterranean beach in Israel, blue sea, sunny day, white sand" |};
  {| scene_id := "office"; label := "Office";
     prompt := "a modern tech startup office, large windows, professional yet casual environment" |}
].

Definition item (i n b : string) (p : Z) : ClothingItem :=
  {| id := i; name := n; brand := b; price := p; scenes := SCENES |}.

Definition CATALOG : list ClothingItem := [
  item "1" "White Linen Shirt" "Zara" 199;
  item "2" "Black Slim Jeans" "Levis" 349;
  item "3" "Floral Summer Dress" "H&M" 279;
  item "4" "Beige Oversized Blazer" "Mango" 449;
  item "5" "Navy Striped T-Shirt" "Gap" 149;
  item "6" "Midi Leather Skirt" "Zara" 329;
  item "7" "Olive Cargo Pants" "Pull&Bear" 249;
  item "8" "White Sneakers" "Nike" 499;
  item "9" "Knit Cream Sweater" "COS" 399;
  item "10" "Denim Jacket" "Levis" 499
].

(** [CATALOG[i]]; the index is kept inside the catalog by every writer
    of [currentIndex], the first item stands for an index outside it. *)
Definition catalogAt (i : Z) : ClothingItem :=
  nth (Z.to_nat i) CATALOG (item "1" "White Linen Shirt" "Zara" 199).

End Catalog.

(** ** Data URLs (src/services/imagenService.ts)

    A JavaScript string is the Rocq string of its UTF-8 bytes; the
    characters these functions look for ([,], [:], [;] and the line
    terminators) are found in it byte by byte. *)

Module DataUrl.
Import Ascii.

Local Open Scope string_scope.

(** [s.split(sep)] for a separator of one character. *)
Fixpoint split (sep : ascii) (s : string) : list string :=
  match s with
  | EmptyString => [EmptyString]
  | String c rest =>
      if Ascii.eqb c sep then EmptyString :: split sep rest
      else
        match split sep rest with
        | piece :: pieces => String c piece :: pieces
        | [] => [String c EmptyString]
        end
  end.

(** U+2028 and U+2029. *)
Definition LS : string :=
  String "226"%char (String "128"%char (String "168"%char "")).
Definition PS : string :=
  String "226"%char (String "128"%char (String "169"%char "")).

(** A line terminator starts [s]: a character the [.] of a regular
    expression does not match. *)
Definition lineTerminatorAt (s : string) : bool :=
  String.prefix (String "010"%char "") s
  || String.prefix (String "013"%char "") s
  || String.prefix LS s || String.prefix PS s.

(** [(.*?);] matched at the start of [s]: the text captured, [None]
    when there is no match. *)
Fixpoint lazyToSemicolon (s : string) : option string :=
  match s with
  | EmptyString => None
  | String c rest =>
      if Ascii.eqb c ";"%char then Some EmptyString
      else if lineTerminatorAt s then None
      else option_map (String c) (lazyToSemicolon rest)
  end.

(** [header.match(/:(.*?);/)?.[1]]: the capture of the leftmost
    match. *)
Fixpoint matchMime (header : string) : option string :=
  match header with
  | EmptyString => None
  | String c rest =>
      if Ascii.eqb c ":"%char then
        match lazyToSemicolon rest with
        | Some m => Some m
        | None => matchMime rest
        end
      else matchMime rest
  end.

(** The object [dataUrlToBase64] returns; [data] is [None] for
    [undefined]. *)
Record Base64 : Type := {
  data : option string;
  mimeType : string
}.

(** [dataUrlToBase64]. *)
Definition dataUrlToBase64 (dataUrl : string) : Base64 :=
  let parts := split ","%char dataUrl in
  let header := nth 0 parts "" in
  {| data := nth_error parts 1;
     mimeType := match matchMime header with
                 | Some m => m
                 | None => "image/jpeg"
                 end |}.

(** The characters of a media type as they occur in data URLs:
    printable ASCII other than the comma and the semicolon. *)
Definition mediaTypeChar (c : ascii) : bool :=
  (33 <=? nat_of_ascii c)%nat && (nat_of_ascii c <=? 126)%nat
  && negb (Ascii.eqb c ","%char) && negb (Ascii.eqb c ";"%char).

Fixpoint allChars (p : ascii -> bool) (s : string) : bool :=
  match s with
  | EmptyString => true
  | String c rest => p c && allChars p rest
  end.

Definition isMediaType (s : string) : bool := allChars mediaTypeChar s.

Definition noComma (s : string) : bool :=
  allChars (fun c => negb (Ascii.eqb c ","%char)) s.

End DataUrl.

(** ** The image of a model response
    (src/services/imagenService.ts, [generateLook]) *)

Module GenerateLook.

Local Open Scope string_scope.

(** How one [generateLook] call settles: it resolves with the data URL
    of the image, or it rejects. *)
Inductive Outcome : Type :=
| Resolved (imageDataUrl : string)
| Rejected.

(** [part.inlineData]: both fields are optional in the response. *)
Record Blob : Type := {
  mimeType : option string;
  data : option string
}.

Record Part : Type := {
  inlineData : option Blob;
  text : option string
}.

(** The errors [generateLook] throws on a response. *)
Inductive Thrown : Type :=
| NoResponseParts      (* "No response parts" *)
| NoImageInResponse.   (* "No image in response" *)

(** The truth value of an optional string. *)
Definition truthy (s : option string) : bool :=
  match s with
  | Some (String _ _) => true
  | _ => false
  end.

(** An optional string inside a template literal. *)
Definition interpolate (s : option string) : string :=
  match s with
  | Some s => s
  | None => "undefined"
  end.

(** [`data:${mimeType};base64,${data}`]. *)
Definition dataUrlOf (mimeType data : string) : string :=
  "data:" ++ mimeType ++ ";base64," ++ data.

(** [part.inlineData?.data] is truthy. *)
Definition hasImage (part : Part) : bool :=
  match inlineData part with
  | Some blob => truthy (data blob)
  | None => false
  end.

(** The loop over the parts: the data URL of the first part with
    inline data. *)
Fixpoint firstImage (parts : list Part) : option string :=
  match parts with
  | [] => None
  | part :: rest =>
      match inlineData part with
      | Some blob =>
          if truthy (data blob) then
            Some (dataUrlOf (interpolate (mimeType blob)) (interpolate (data blob)))
          else firstImage rest
      | None => firstImage rest
      end
  end.

(** What [generateLook] does with the response; [parts] is
    [response.candidates?.[0]?.content?.parts]. *)
Definition imageOfResponse (parts : option (list Part)) : string + Thrown :=
  match parts with
  | None => inr NoResponseParts
  | Some parts =>
      match firstImage parts with
      | Some dataUrl => inl dataUrl
      | None => inr NoImageInResponse
      end
  end.

(** What the network gives one [generateLook] call: whether the
    catalog image could be fetched, and the model's answer ([None] when
    the client cannot be created or [generateContent] throws). *)
Record Network : Type := {
  outfitFetched : bool;
  response : option (option (list Part))
}.

(** How a [generateLook] call settles. *)
Definition generateLook (net : Network) : Outcome :=
  if outfitFetched net then
    match response net with
    | Some parts =>
        match imageOfResponse parts with
        | inl dataUrl => Resolved dataUrl
        | inr _ => Rejected
        end
    | None => Rejected
    end
  else Rejected.

End GenerateLook.

(** ** Generation service (src/services/imagenService.ts,
    [generateAllLooks]) *)

Module Imagen.
Import Catalog GenerateLook.

Local Open Scope string_scope.

Record GeneratedLook : Type := {
  scene : Scene;
  imageBase64 : string;
  isLoading : bool;
  error : option string
}.

(** The entry [generateAllLooks] creates for a scene before any call
    has settled. *)
Definition loadingLook (s : Scene) : GeneratedLook :=
  {| scene := s; imageBase64 := ""; isLoading := true; error := None |}.

(** The entry written into [results[index]] by the [try] branch
    (resolved) or the [catch] branch (rejected) of the per-scene
    callback. *)
Definition settledLook (s : Scene) (o : Outcome) : GeneratedLook :=
  match o with
  | Resolved imageDataUrl =>
      {| scene := s; imageBase64 := imageDataUrl; isLoading := false;
         error := None |}
  | Rejected =>
      {| scene := s; imageBase64 := ""; isLoading := false;
         error := Some "שגיאה בייצור התמונה" |}
  end.

(** One call of [generateAllLooks] in flight: its arguments, its private
    [results] array, and the indices of the per-scene calls that have
    not settled yet. *)
Record Batch : Type := {
  bid : nat;
  userPhotoDataUrl : string;
  bitem : ClothingItem;
  bresults : list GeneratedLook;
  pending : list nat
}.

(** The synchronous prefix of [generateAllLooks]: the [results] array
    is created, every per-scene call is started. *)
Definition startBatch (n : nat) (photo : string) (it : ClothingItem) : Batch :=
  {| bid := n; userPhotoDataUrl := photo; bitem := it;
     bresults := map loadingLook (scenes it);
     pending := seq 0 (length (scenes it)) |}.

(** Does [i] occur in [l]? *)
Definition memb (i : nat) (l : list nat) : bool := existsb (Nat.eqb i) l.

(** The per-scene callback of call [index] once the network has given
    its [generateLook] call what [net] says: the call settles, and
    [results[index]] is written.  [None] when call [index] is not an
    unsettled call of the batch. *)
Definition settleCall (index : nat) (net : Network) (b : Batch) : option Batch :=
  if memb index (pending b) then
    match scenes (bitem b) !! index with
    | Some s =>
        Some {| bid := bid b; userPhotoDataUrl := userPhotoDataUrl b;
                bitem := bitem b;
                bresults := <[index := settledLook s (generateLook net)]>
                              (bresults b);
                pending := List.filter (fun j => negb (Nat.eqb j index)) (pending b) |}
    | None => None
    end
  else None.

(** [Promise.allSettled] has resolved: every per-scene call settled. *)
Definition allSettled (b : Batch) : bool :=
  match pending b with [] => true | _ => false end.

(** [generateAllLooks] run to its end against a schedule of
    completions: the calls settle in the order of the schedule, each
    with what the schedule has the network give it.  The result is the
    array the function returns, [None] when the schedule names a call
    twice, names a call that does not exist, or leaves a call
    unsettled. *)
Fixpoint settleAll (schedule : list (nat * Network)) (b : Batch) : option Batch :=
  match schedule with
  | [] => Some b
  | (index, net) :: rest =>
      match settleCall index net b with
      | Some b' => settleAll rest b'
      | None => None
      end
  end.

Definition generateAllLooks (photo : string) (it : ClothingItem)
    (schedule : list (nat * Network)) : option (list GeneratedLook) :=
  match settleAll schedule (startBatch 0 photo it) with
  | Some b => if allSettled b then Some (bresults b) else None
  | None => None
  end.

(** The message of a look that failed. *)
Definition generationError : string := "שגיאה בייצור התמונה".

(** A look that has settled: not loading, and either an image and no
    error, or the error message and no image. *)
Definition settled (l : GeneratedLook) : Prop :=
  isLoading l = false /\
  ((imageBase64 l <> "" /\ error l = None) \/
   (imageBase64 l = "" /\ error l = Some generationError)).

End Imagen.

(** ** The fitting-room component (src/components/FittingRoom.tsx) *)

Module FittingRoom.
Import Geometry Catalog GenerateLook Imagen.

Inductive FittingRoomPhase : Type := catalog | capturing | generating | results.

Definition phase_eqb (p q : FittingRoomPhase) : bool :=
  match p, q with
  | catalog, catalog | capturing, capturing
  | generating, generating | results, results => true
  | _, _ => false
  end.

Definition COUNTDOWN_SECONDS : Z := 3.
Definition FINGER_STABLE_FRAMES : nat := 8.
Definition THUMBS_UP_FRAMES : Z := 10.

(** [swipeState.current]. *)
Record SwipeState : Type := {
  startX : Q;
  startTime : Z;
  isTracking : bool
}.

(** What a pending [setTimeout] callback of the component does. *)
Inductive TimerAction : Type :=
| ClearCatalogCooldown      (* catalogCooldown.current = false *)
| ClearPostResetCooldown    (* postResetCooldown.current = false *)
| CountdownTick.            (* setCountdown(c => c !== null ? c - 1 : null) *)

(** A pending timer: its handle, the delay it was started with, the
    time it is due, its callback. *)
Record Timer : Type := {
  tid : nat;
  delay : Z;
  due : Z;
  action : TimerAction
}.

(** A screen that [AnimatePresence] is animating out: the phase it is
    the screen of, and the thumbnails it was last rendered with (one
    per look). *)
Record Leaving : Type := {
  screenOf : FittingRoomPhase;
  thumbnails : nat
}.

(** The [useState] cells. *)
Record View : Type := {
  phase : FittingRoomPhase;
  currentIndex : Z;
  countdown : option Z;
  capturedPhoto : option string;
  generatedLooks : list GeneratedLook;
  selectedLookIndex : Z;
  thumbsUpProgress : Q;
  liveFingerCount : option Z
}.

(** The [useRef] cells that are not mirrors of a state cell. *)
Record Refs : Type := {
  catalogCooldown : bool;
  postResetCooldown : bool;
  requireOpenHandAfterReset : bool;
  fistStartTime : option Z;
  thumbsUpBuffer : Z;
  fingerBuffer : list Z;
  swipeState : SwipeState
}.

(** What the JavaScript runtime holds for the component: the pending
    timers in the order they were started, the handle kept by the
    cleanup of the countdown effect, the [generateAllLooks] calls in
    flight, the next fresh handle, the time of the last callback, and
    the screen [AnimatePresence] is animating out, if any. *)
Record Runtime : Type := {
  timers : list Timer;
  countdownTimer : option nat;
  batches : list Batch;
  nextId : nat;
  clock : Z;
  leaving : option Leaving
}.

Record FR : Type := { view : View; refs : Refs; runtime : Runtime }.

(** *** Field updates *)

Definition with_view (f : View -> View) (st : FR) : FR :=
  {| view := f (view st); refs := refs st; runtime := runtime st |}.
Definition with_refs (f : Refs -> Refs) (st : FR) : FR :=
  {| view := view st; refs := f (refs st); runtime := runtime st |}.
Definition with_runtime (f : Runtime -> Runtime) (st : FR) : FR :=
  {| view := view st; refs := refs st; runtime := f (runtime st) |}.

Definition setPhase (p : FittingRoomPhase) : FR -> FR :=
  with_view (fun v =>
    {| phase := p; currentIndex := currentIndex v; countdown := countdown v;
       capturedPhoto := capturedPhoto v; generatedLooks := generatedLooks v;
       selectedLookIndex := selectedLookIndex v;
       thumbsUpProgress := thumbsUpProgress v;
       liveFingerCount := liveFingerCount v |}).
Definition setCurrentIndex (f : Z -> Z) : FR -> FR :=
  with_view (fun v =>
    {| phase := phase v; currentIndex := f (currentIndex v);
       countdown := countdown v;
       capturedPhoto := capturedPhoto v; generatedLooks := generatedLooks v;
       selectedLookIndex := selectedLookIndex v;
       thumbsUpProgress := thumbsUpProgress v;
       liveFingerCount := liveFingerCount v |}).
Definition setCountdown (f : option Z -> option Z) : FR -> FR :=
  with_view (fun v =>
    {| phase := phase v; currentIndex := currentIndex v;
       countdown := f (countdown v);
       capturedPhoto := capturedPhoto v; generatedLooks := generatedLooks v;
       selectedLookIndex := selectedLookIndex v;
       thumbsUpProgress := thumbsUpProgress v;
       liveFingerCount := liveFingerCount v |}).
Definition setCapturedPhoto (p : option string) : FR -> FR :=
  with_view (fun v =>
    {| phase := phase v; currentIndex := currentIndex v; countdown := countdown v;
       capturedPhoto := p; generatedLooks := generatedLooks v;
       selectedLookIndex := selectedLookIndex v;
       thumbsUpProgress := thumbsUpProgress v;
       liveFingerCount := liveFingerCount v |}).
Definition setGeneratedLooks (l : list GeneratedLook) : FR -> FR :=
  with_view (fun v =>
    {| phase := phase v; currentIndex := currentIndex v; countdown := countdown v;
       capturedPhoto := capturedPhoto v; generatedLooks := l;
       selectedLookIndex := selectedLookIndex v;
       thumbsUpProgress := thumbsUpProgress v;
       liveFingerCount := liveFingerCount v |}).
Definition setSelectedLookIndex (i : Z) : FR -> FR :=
  with_view (fun v =>
    {| phase := phase v; currentIndex := currentIndex v; countdown := countdown v;
       capturedPhoto := capturedPhoto v; generatedLooks := generatedLooks v;
       selectedLookIndex := i;
       thumbsUpProgress := thumbsUpProgress v;
       liveFingerCount := liveFingerCount v |}).
Definition setThumbsUpProgress (p : Q) : FR -> FR :=
  with_view (fun v =>
    {| phase := phase v; currentIndex := currentIndex v; countdown := countdown v;
       capturedPhoto := capturedPhoto v; generatedLooks := generatedLooks v;
       selectedLookIndex := selectedLookIndex v;
       thumbsUpProgress := p;
       liveFingerCount := liveFingerCount v |}).
Definition setLiveFingerCount (c : option Z) : FR -> FR :=
  with_view (fun v =>
    {| phase := phase v; currentIndex := currentIndex v; countdown := countdown v;
       capturedPhoto := capturedPhoto v; generatedLooks := generatedLooks v;
       selectedLookIndex := selectedLookIndex v;
       thumbsUpProgress := thumbsUpProgress v;
       liveFingerCount := c |}).

Definition set_catalogCooldown (b : bool) : FR -> FR :=
  with_refs (fun r =>
    {| catalogCooldown := b; postResetCooldown := postResetCooldown r;
       requireOpenHandAfterReset := requireOpenHandAfterReset r;
       fistStartTime := fistStartTime r; thumbsUpBuffer := thumbsUpBuffer r;
       fingerBuffer := fingerBuffer r; swipeState := swipeState r |}).
Definition set_postResetCooldown (b : bool) : FR -> FR :=
  with_refs (fun r =>
    {| catalogCooldown := catalogCooldown r; postResetCooldown := b;
       requireOpenHandAfterReset := requireOpenHandAfterReset r;
       fistStartTime := fistStartTime r; thumbsUpBuffer := thumbsUpBuffer r;
       fingerBuffer := fingerBuffer r; swipeState := swipeState r |}).
Definition set_requireOpenHandAfterReset (b : bool) : FR -> FR :=
  with_refs (fun r =>
    {| catalogCooldown := catalogCooldown r;
       postResetCooldown := postResetCooldown r;
       requireOpenHandAfterReset := b;
       fistStartTime := fistStartTime r; thumbsUpBuffer := thumbsUpBuffer r;
       fingerBuffer := fingerBuffer r; swipeState := swipeState r |}).
Definition set_fistStartTime (t : option Z) : FR -> FR :=
  with_refs (fun r =>
    {| catalogCooldown := catalogCooldown r;
       postResetCooldown := postResetCooldown r;
       requireOpenHandAfterReset := requireOpenHandAfterReset r;
       fistStartTime := t; thumbsUpBuffer := thumbsUpBuffer r;
       fingerBuffer := fingerBuffer r; swipeState := swipeState r |}).
Definition set_thumbsUpBuffer (n : Z) : FR -> FR :=
  with_refs (fun r =>
    {| catalogCooldown := catalogCooldown r;
       postResetCooldown := postResetCooldown r;
       requireOpenHandAfterReset := requireOpenHandAfterReset r;
       fistStartTime := fistStartTime r; thumbsUpBuffer := n;
       fingerBuffer := fingerBuffer r; swipeState := swipeState r |}).
Definition set_fingerBuffer (l : list Z) : FR -> FR :=
  with_refs (fun r =>
    {| catalogCooldown := catalogCooldown r;
       postResetCooldown := postResetCooldown r;
       requireOpenHandAfterReset := requireOpenHandAfterReset r;
       fistStartTime := fistStartTime r; thumbsUpBuffer := thumbsUpBuffer r;
       fingerBuffer := l; swipeState := swipeState r |}).
Definition set_swipeState (s : SwipeState) : FR -> FR :=
  with_refs (fun r =>
    {| catalogCooldown := catalogCooldown r;
       postResetCooldown := postResetCooldown r;
       requireOpenHandAfterReset := requireOpenHandAfterReset r;
       fistStartTime := fistStartTime r; thumbsUpBuffer := thumbsUpBuffer r;
       fingerBuffer := fingerBuffer r; swipeState := s |}).
(** [swipeState.current.isTracking = false]. *)
Definition stopTracking (st : FR) : FR :=
  set_swipeState
    {| startX := startX (swipeState (refs st));
       startTime := startTime (swipeState (refs st));
       isTracking := false |} st.

Definition set_timers (l : list Timer) : FR -> FR :=
  with_runtime (fun r =>
    {| timers := l; countdownTimer := countdownTimer r; batches := batches r;
       nextId := nextId r; clock := clock r; leaving := leaving r |}).
Definition set_countdownTimer (t : option nat) : FR -> FR :=
  with_runtime (fun r =>
    {| timers := timers r; countdownTimer := t; batches := batches r;
       nextId := nextId r; clock := clock r; leaving := leaving r |}).
Definition set_batches (l : list Batch) : FR -> FR :=
  with_runtime (fun r =>
    {| timers := timers r; countdownTimer := countdownTimer r; batches := l;
       nextId := nextId r; clock := clock r; leaving := leaving r |}).
Definition set_nextId (n : nat) : FR -> FR :=
  with_runtime (fun r =>
    {| timers := timers r; countdownTimer := countdownTimer r;
       batches := batches r; nextId := n; clock := clock r;
       leaving := leaving r |}).
Definition set_clock (t : Z) : FR -> FR :=
  with_runtime (fun r =>
    {| timers := timers r; countdownTimer := countdownTimer r;
       batches := batches r; nextId := nextId r; clock := t;
       leaving := leaving r |}).
Definition set_leaving (l : option Leaving) : FR -> FR :=
  with_runtime (fun r =>
    {| timers := timers r; countdownTimer := countdownTimer r;
       batches := batches r; nextId := nextId r; clock := clock r;
       leaving := l |}).

(** The component as mounted. *)
Definition initial : FR :=
  {| view := {| phase := catalog; currentIndex := 0; countdown := None;
                capturedPhoto := None; generatedLooks := [];
                selectedLookIndex := 0; thumbsUpProgress := 0%Q;
                liveFingerCount := None |};
     refs := {| catalogCooldown := false; postResetCooldown := false;
                requireOpenHandAfterReset := false; fistStartTime := None;
                thumbsUpBuffer := 0; fingerBuffer := [];
                swipeState := {| startX := 0%Q; startTime := 0;
                                 isTracking := false |} |};
     runtime := {| timers := []; countdownTimer := None; batches := [];
                   nextId := 0%nat; clock := 0; leaving := None |} |}.

(** *** Timers *)

(** [setTimeout(callback, d)] called at time [now]. *)
Definition setTimeout (now d : Z) (a : TimerAction) (st : FR) : FR :=
  let t := {| tid := nextId (runtime st); delay := d; due := now + d;
              action := a |} in
  set_nextId (S (nextId (runtime st)))
    (set_timers (timers (runtime st) ++ [t]) st).

(** [clearTimeout(t)]. *)
Definition clearTimeout (t : option nat) (st : FR) : FR :=
  match t with
  | Some n =>
      set_timers (List.filter (fun t' => negb (Nat.eqb (tid t') n))
                         (timers (runtime st))) st
  | None => st
  end.

(** The runtime may run the callback of [t] at time [now]: the delay
    has elapsed, and no timer started before [t] with a delay that is
    at most the delay of [t] is still waiting (timer ordering of the
    HTML standard). *)
Definition mayFire (now : Z) (t : Timer) (pendingTimers : list Timer) : bool :=
  (due t <=? now) &&
  forallb (fun t' => negb ((tid t' <? tid t)%nat && (delay t' <=? delay t)))
          pendingTimers.

Definition findTimer (n : nat) (l : list Timer) : option Timer :=
  find (fun t => Nat.eqb (tid t) n) l.

Definition findBatch (n : nat) (l : list Batch) : option Batch :=
  find (fun b => Nat.eqb (bid b) n) l.

(** *** Callbacks of the component *)

(** What the gesture handler did on a frame: the calls it made. *)
Inductive Event : Type :=
| GoNextCalled               (* goNextRef.current() *)
| GoPrevCalled               (* goPrevRef.current() *)
| StartCaptureCalled         (* startCapture() *)
| ResetCalled                (* resetRef.current() *)
| SelectLookCalled (i : Z).  (* setSelectedLookIndex(count - 1) *)

Definition catalogLength : Z := Z.of_nat (length CATALOG).

(** [reset]. *)
Definition reset (now : Z) (st : FR) : FR :=
  let st := setPhase catalog st in
  let st := setCapturedPhoto None st in
  let st := setGeneratedLooks [] st in
  let st := setSelectedLookIndex 0 st in
  let st := setCountdown (fun _ => None) st in
  let st := setThumbsUpProgress 0%Q st in
  let st := set_fistStartTime None st in
  let st := set_thumbsUpBuffer 0 st in
  let st := set_fingerBuffer [] st in
  let st := set_postResetCooldown true st in
  let st := set_requireOpenHandAfterReset true st in
  setTimeout now 500 ClearPostResetCooldown st.

(** [goNext]. *)
Definition goNext (now : Z) (st : FR) : FR :=
  if catalogCooldown (refs st) || negb (phase_eqb (phase (view st)) catalog)
  then st
  else
    let st := set_catalogCooldown true st in
    let st := setCurrentIndex (fun p => Z.rem (p + 1) catalogLength) st in
    setTimeout now 800 ClearCatalogCooldown st.

(** [goPrev]. *)
Definition goPrev (now : Z) (st : FR) : FR :=
  if catalogCooldown (refs st) || negb (phase_eqb (phase (view st)) catalog)
  then st
  else
    let st := set_catalogCooldown true st in
    let st :=
      setCurrentIndex (fun p => Z.rem (p - 1 + catalogLength) catalogLength) st in
    setTimeout now 800 ClearCatalogCooldown st.

(** [startCapture]. *)
Definition startCapture (st : FR) : FR :=
  if negb (phase_eqb (phase (view st)) catalog) then st
  else setCountdown (fun _ => Some COUNTDOWN_SECONDS) (setPhase capturing st).

(** [startGeneration], up to its [await]: the phase and the loading
    looks are set, [generateAllLooks] is called, creates its [results]
    array, reports it through [onProgress] and starts the per-scene
    calls. *)
Definition startGeneration (photoDataUrl : string) (st : FR) : FR :=
  let item := catalogAt (currentIndex (view st)) in
  let st := setPhase generating st in
  let st := setGeneratedLooks (map loadingLook (scenes item)) st in
  let b := startBatch (nextId (runtime st)) photoDataUrl item in
  let st := set_nextId (S (nextId (runtime st)))
              (set_batches (batches (runtime st) ++ [b]) st) in
  setGeneratedLooks (bresults b) st.

(** [takePhoto]; [camera] is the frame the canvas yields as a data URL,
    [None] when the video element, the canvas or its 2D context is
    missing. *)
Definition takePhoto (camera : option string) (st : FR) : FR :=
  match camera with
  | None => st
  | Some dataUrl =>
      let st := setCapturedPhoto (Some dataUrl) st in
      let st := setCountdown (fun _ => None) st in
      startGeneration dataUrl st
  end.

(** The slice [arr.slice(-n)]: the last [n] elements, the whole array
    when it is shorter. *)
Definition sliceLast {A} (n : nat) (l : list A) : list A :=
  skipn (length l - n) l.

Section WithEngine.
Context {engine : Engine}.

(** The swipe branch of the catalog phase. *)
Definition catalogSwipe (now : Z) (lm : HandLandmarks) (st : FR)
    : FR * list Event :=
  let currentX := x (lm 9%nat) in
  let restart := {| startX := currentX; startTime := now; isTracking := true |} in
  if negb (isTracking (swipeState (refs st))) then
    (set_swipeState restart st, [])
  else
    let deltaX := fsub currentX (startX (swipeState (refs st))) in
    let elapsed := now - startTime (swipeState (refs st)) in
    if elapsed <? 500 then
      if Qltb deltaX (-0.15)%Q then
        (stopTracking (goNext now st), [GoNextCalled])
      else if Qltb 0.15%Q deltaX then
        (stopTracking (goPrev now st), [GoPrevCalled])
      else (st, [])
    else
      (set_swipeState restart st, []).

(** The gate on [requireOpenHandAfterReset]: [None] is the early
    [return]. *)
Definition openHandGate (fingerCount : Z) (st : FR) : option FR :=
  if requireOpenHandAfterReset (refs st) then
    if 3 <=? fingerCount then Some (set_requireOpenHandAfterReset false st)
    else None
  else Some st.

(** The catalog branch of [processLandmarks]. *)
Definition processCatalog (now : Z) (lm : option HandLandmarks) (st : FR)
    : FR * list Event :=
  match lm with
  | None => (stopTracking st, [])
  | Some lm =>
      if postResetCooldown (refs st) then (st, [])
      else
        let fingerCount := countExtendedFingers lm in
        let fist := fingerCount =? 0 in
        match openHandGate fingerCount st with
        | None => (st, [])
        | Some st =>
            if fist then
              let st := stopTracking st in
              if negb (catalogCooldown (refs st)) then
                let st := set_catalogCooldown true st in
                let st := startCapture st in
                (setTimeout now 1200 ClearCatalogCooldown st,
                 [StartCaptureCalled])
              else (st, [])
            else catalogSwipe now lm st
        end
  end.

(** [n / THUMBS_UP_FRAMES]. *)
Definition progressOf (n : Z) : Q := (inject_Z n / inject_Z THUMBS_UP_FRAMES)%Q.

(** The results branch of [processLandmarks]. *)
Definition processResults (now : Z) (lm : option HandLandmarks) (st : FR)
    : FR * list Event :=
  match lm with
  | None =>
      let st := set_thumbsUpBuffer 0 st in
      let st := set_fingerBuffer [] st in
      let st := setThumbsUpProgress 0%Q st in
      (setLiveFingerCount None st, [])
  | Some lm =>
      let thumbUp := isThumbsUp lm in
      let count := countExtendedFingers lm in
      if thumbUp then
        let st := set_thumbsUpBuffer
                    (Z.min (thumbsUpBuffer (refs st) + 1) THUMBS_UP_FRAMES) st in
        let progress := progressOf (thumbsUpBuffer (refs st)) in
        let st := setThumbsUpProgress progress st in
        let st := setLiveFingerCount None st in
        let st := set_fingerBuffer [] st in
        if THUMBS_UP_FRAMES <=? thumbsUpBuffer (refs st) then
          let st := set_thumbsUpBuffer 0 st in
          (reset now st, [ResetCalled])
        else (st, [])
      else
        let st := set_thumbsUpBuffer
                    (Z.max (thumbsUpBuffer (refs st) - 1) 0) st in
        let st := setThumbsUpProgress (progressOf (thumbsUpBuffer (refs st))) st in
        if (1 <=? count) && (count <=? 4) then
          let st := setLiveFingerCount (Some count) st in
          let st := set_fingerBuffer
                      (sliceLast (FINGER_STABLE_FRAMES - 1) (fingerBuffer (refs st))
                       ++ [count]) st in
          let buf := fingerBuffer (refs st) in
          if (FINGER_STABLE_FRAMES <=? length buf)%nat
             && forallb (fun c => c =? count) buf
             && negb (count - 1 =? selectedLookIndex (view st))
          then (setSelectedLookIndex (count - 1) st, [SelectLookCalled (count - 1)])
          else (st, [])
        else
          let st := setLiveFingerCount None st in
          (set_fingerBuffer [] st, [])
  end.

(** [processLandmarks]. *)
Definition processLandmarks (now : Z) (lm : option HandLandmarks) (st : FR)
    : FR * list Event :=
  match phase (view st) with
  | catalog => processCatalog now lm st
  | results => processResults now lm st
  | _ => (st, [])
  end.

(** *** Effects *)

Definition countdown_eqb (a b : option Z) : bool :=
  match a, b with
  | None, None => true
  | Some m, Some n => m =? n
  | _, _ => false
  end.

(** The effect on [countdown]: the cleanup of its previous run, then
    its body. *)
Definition countdownEffect (now : Z) (camera : option string) (st : FR) : FR :=
  let st := set_countdownTimer None (clearTimeout (countdownTimer (runtime st)) st) in
  match countdown (view st) with
  | None => st
  | Some c =>
      if c =? 0 then takePhoto camera st
      else
        let t := nextId (runtime st) in
        set_countdownTimer (Some t) (setTimeout now 1000 CountdownTick st)
  end.

(** The render that follows a callback: the effect on [countdown] runs
    when [countdown] has changed, and once more when its own run
    changed it again ([takePhoto] sets it to [null]). *)
Definition commit (now : Z) (camera : option string) (before st : FR) : FR :=
  if countdown_eqb (countdown (view before)) (countdown (view st)) then st
  else
    let st1 := countdownEffect now camera st in
    if countdown_eqb (countdown (view st)) (countdown (view st1)) then st1
    else countdownEffect now camera st1.

(** *** The component as a transition system *)

(** What can be delivered to the component. *)
Inductive Input : Type :=
| Frame (lm : option HandLandmarks)   (* processLandmarks(lm) *)
| ClickPrev                           (* catalog screen: onClick={goPrev} *)
| ClickNext                           (* catalog screen: onClick={goNext} *)
| ClickDot (i : nat)                  (* catalog screen: setCurrentIndex(i) *)
| ClickCapture                        (* catalog screen: onClick={startCapture} *)
| ClickBack                           (* results screen: onClick={reset} *)
| ClickThumbnail (i : nat)            (* results screen: setSelectedLookIndex(i) *)
| TimerFires (t : nat)                (* a setTimeout callback runs *)
| CallSettles (b index : nat) (net : Network)
                                      (* a generateLook call settles *)
| BatchSettles (b : nat)              (* await generateAllLooks(...) resumes *)
| ExitComplete.                       (* an exit animation has run *)

(** The render returns the catalog screen: [phase === 'catalog']. *)
Definition onCatalogScreen (st : FR) : bool :=
  phase_eqb (phase (view st)) catalog.

(** The render returns the results screen:
    [phase === 'results' && generatedLooks.length > 0]. *)
Definition onResultsScreen (st : FR) : bool :=
  phase_eqb (phase (view st)) results
  && negb (Nat.eqb (length (generatedLooks (view st))) 0).

(** The catalog screen is in the document, its buttons can be clicked:
    it is the screen that is leaving, or no screen is leaving and the
    render returns it. *)
Definition catalogInDocument (st : FR) : bool :=
  match leaving (runtime st) with
  | Some l => phase_eqb (screenOf l) catalog
  | None => onCatalogScreen st
  end.

(** The results screen is in the document. *)
Definition resultsInDocument (st : FR) : bool :=
  match leaving (runtime st) with
  | Some l => phase_eqb (screenOf l) results && negb (Nat.eqb (thumbnails l) 0)
  | None => onResultsScreen st
  end.

(** The thumbnails of the results screen in the document. *)
Definition thumbnailsInDocument (st : FR) : nat :=
  match leaving (runtime st) with
  | Some l => thumbnails l
  | None => length (generatedLooks (view st))
  end.

(** [AnimatePresence] after the render that follows a callback: when
    the phase has changed, the screen of the phase before starts to
    leave, as it was last rendered. *)
Definition present (before st : FR) : FR :=
  set_leaving
    (if phase_eqb (phase (view before)) (phase (view st))
     then leaving (runtime st)
     else Some {| screenOf := phase (view before);
                  thumbnails := length (generatedLooks (view before)) |})
    st.

Definition replaceBatch (b : Batch) (l : list Batch) : list Batch :=
  map (fun b' => if Nat.eqb (bid b') (bid b) then b else b') l.

Definition removeBatch (n : nat) (l : list Batch) : list Batch :=
  List.filter (fun b' => negb (Nat.eqb (bid b') n)) l.

(** The callback of timer [t]. *)
Definition fire (t : Timer) (st : FR) : FR :=
  match action t with
  | ClearCatalogCooldown => set_catalogCooldown false st
  | ClearPostResetCooldown => set_postResetCooldown false st
  | CountdownTick =>
      setCountdown (fun c => match c with
                             | Some c => Some (c - 1)
                             | None => None
                             end) st
  end.

(** The callback run for an input, [None] when the input cannot be
    delivered in this state (a button that is not in the document, a
    timer that is not pending or may not fire yet, a call that is not
    in flight, a batch with unsettled calls, no screen leaving). *)
Definition handle (now : Z) (i : Input) (st : FR) : option (FR * list Event) :=
  match i with
  | Frame lm => Some (processLandmarks now lm st)
  | ClickPrev =>
      if catalogInDocument st then Some (goPrev now st, []) else None
  | ClickNext =>
      if catalogInDocument st then Some (goNext now st, []) else None
  | ClickDot i =>
      if catalogInDocument st && (i <? length CATALOG)%nat
      then Some (setCurrentIndex (fun _ => Z.of_nat i) st, [])
      else None
  | ClickCapture =>
      if catalogInDocument st then Some (startCapture st, []) else None
  | ClickBack =>
      if resultsInDocument st then Some (reset now st, []) else None
  | ClickThumbnail i =>
      if resultsInDocument st && (i <? thumbnailsInDocument st)%nat
      then Some (setSelectedLookIndex (Z.of_nat i) st, [])
      else None
  | TimerFires n =>
      match findTimer n (timers (runtime st)) with
      | Some t =>
          if mayFire now t (timers (runtime st)) then
            Some (fire t (clearTimeout (Some n) st), [])
          else None
      | None => None
      end
  | CallSettles n index net =>
      match findBatch n (batches (runtime st)) with
      | Some b =>
          match settleCall index net b with
          | Some b' =>
              (* results[index] = ...; onProgress([...results]) *)
              let st := set_batches (replaceBatch b' (batches (runtime st))) st in
              Some (setGeneratedLooks (bresults b') st, [])
          | None => None
          end
      | None => None
      end
  | BatchSettles n =>
      match findBatch n (batches (runtime st)) with
      | Some b =>
          if allSettled b then
            let st := set_batches (removeBatch n (batches (runtime st))) st in
            let st := setPhase results st in
            Some (setSelectedLookIndex 0 st, [])
          else None
      | None => None
      end
  | ExitComplete =>
      match leaving (runtime st) with
      | Some _ => Some (set_leaving None st, [])
      | None => None
      end
  end.

(** One callback at time [now], with the camera as it is then, the
    render that follows it, and what [AnimatePresence] makes of the
    render.  Time does not run backwards. *)
Definition step (now : Z) (camera : option string) (i : Input) (st : FR)
    : option (FR * list Event) :=
  if clock (runtime st) <=? now then
    match handle now i st with
    | Some (st', evs) =>
        Some (present st (commit now camera st (set_clock now st')), evs)
    | None => None
    end
  else None.

(** A delivery: when, with which camera frame at hand, what. *)
Record Delivery : Type := {
  at_time : Z;
  camera : option string;
  input : Input
}.

(** A run: deliveries one after the other, with the events of each. *)
Fixpoint run (ds : list Delivery) (st : FR) : option (FR * list Event) :=
  match ds with
  | [] => Some (st, [])
  | d :: rest =>
      match step (at_time d) (camera d) (input d) st with
      | Some (st', evs) =>
          match run rest st' with
          | Some (st'', evs') => Some (st'', evs ++ evs')
          | None => None
          end
      | None => None
      end
  end.

(** The states the mounted component can be in. *)
Inductive reachable : FR -> Prop :=
| reachable_initial : reachable initial
| reachable_step st now cam i st' evs :
    reachable st -> step now cam i st = Some (st', evs) -> reachable st'.

End WithEngine.

End FittingRoom.

(** ** The top-level navigation (src/App.tsx) *)

Module App.
Import Geometry.

Definition FITTING_ROOM_INDEX : Z := 5.

(** [widgets.length]. *)
Definition widgetCount : Z := 6.

(** [gestureState.current]. *)
Record GestureState : Type := {
  startX : Q;
  lastX : Q;
  startTime : Z;
  isTracking : bool
}.

Record State : Type := {
  activeWidget : Z;
  showCamera : bool;
  isPlaying : bool;
  handPosition : option (Q * Q);
  gestureState : GestureState;
  cooldown : bool;
  (** due times of the pending [triggerCooldown] timers *)
  cooldownTimers : list Z
}.

(** What the [onResults] callback did on a frame. *)
Inductive NavEvent : Type :=
| PinchCalled          (* handlePinch() *)
| FistCalled           (* handleFist() *)
| NextWidgetCalled     (* nextWidget() *)
| PrevWidgetCalled     (* prevWidget() *)
| Forwarded (lm : option HandLandmarks).
                       (* fittingRoomRef.current?.processLandmarks(lm) *)

Definition set_gestureState (g : GestureState) (s : State) : State :=
  {| activeWidget := activeWidget s; showCamera := showCamera s;
     isPlaying := isPlaying s; handPosition := handPosition s;
     gestureState := g; cooldown := cooldown s;
     cooldownTimers := cooldownTimers s |}.

Definition setHandPosition (p : option (Q * Q)) (s : State) : State :=
  {| activeWidget := activeWidget s; showCamera := showCamera s;
     isPlaying := isPlaying s; handPosition := p;
     gestureState := gestureState s; cooldown := cooldown s;
     cooldownTimers := cooldownTimers s |}.

(** [gestureState.current.isTracking = false]. *)
Definition dropTracking (s : State) : State :=
  set_gestureState
    {| startX := startX (gestureState s); lastX := lastX (gestureState s);
       startTime := startTime (gestureState s); isTracking := false |} s.

(** [triggerCooldown]. *)
Definition triggerCooldown (now : Z) (s : State) : State :=
  {| activeWidget := activeWidget s; showCamera := showCamera s;
     isPlaying := isPlaying s; handPosition := handPosition s;
     gestureState := gestureState s; cooldown := true;
     cooldownTimers := cooldownTimers s ++ [now + 1200] |}.

Definition setActiveWidget (f : Z -> Z) (s : State) : State :=
  {| activeWidget := f (activeWidget s); showCamera := showCamera s;
     isPlaying := isPlaying s; handPosition := handPosition s;
     gestureState := gestureState s; cooldown := cooldown s;
     cooldownTimers := cooldownTimers s |}.

Definition setShowCamera (f : bool -> bool) (s : State) : State :=
  {| activeWidget := activeWidget s; showCamera := f (showCamera s);
     isPlaying := isPlaying s; handPosition := handPosition s;
     gestureState := gestureState s; cooldown := cooldown s;
     cooldownTimers := cooldownTimers s |}.

Definition setIsPlaying (f : bool -> bool) (s : State) : State :=
  {| activeWidget := activeWidget s; showCamera := showCamera s;
     isPlaying := f (isPlaying s); handPosition := handPosition s;
     gestureState := gestureState s; cooldown := cooldown s;
     cooldownTimers := cooldownTimers s |}.

(** [nextWidget]. *)
Definition nextWidget (now : Z) (s : State) : State :=
  if cooldown s then s
  else triggerCooldown now
         (setActiveWidget (fun prev => Z.rem (prev + 1) widgetCount) s).

(** [prevWidget]. *)
Definition prevWidget (now : Z) (s : State) : State :=
  if cooldown s then s
  else triggerCooldown now
         (setActiveWidget
            (fun prev => Z.rem (prev - 1 + widgetCount) widgetCount) s).

(** [handlePinch]. *)
Definition handlePinch (now : Z) (s : State) : State :=
  if cooldown s then s
  else triggerCooldown now (setShowCamera negb s).

(** [handleFist]. *)
Definition handleFist (now : Z) (s : State) : State :=
  if cooldown s then s
  else triggerCooldown now (setIsPlaying negb s).

Section WithEngine.
Context {engine : Engine}.

(** The swipe branch of [onResults]. *)
Definition navSwipe (now : Z) (landmarks : HandLandmarks) (s : State)
    : State * list NavEvent :=
  let currentX := x (landmarks 9%nat) in
  if negb (isTracking (gestureState s)) then
    (set_gestureState
       {| startX := currentX; lastX := currentX; startTime := now;
          isTracking := true |} s, [])
  else
    let deltaX := fsub currentX (startX (gestureState s)) in
    let timeElapsed := now - startTime (gestureState s) in
    if timeElapsed <? 500 then
      if Qltb deltaX (-0.15)%Q then
        (dropTracking (nextWidget now s), [NextWidgetCalled])
      else if Qltb 0.15%Q deltaX then
        (dropTracking (prevWidget now s), [PrevWidgetCalled])
      else (s, [])
    else (dropTracking s, []).

(** The gesture part of the [hands.onResults] callback; [landmarks] is
    [results.multiHandLandmarks[0]], [None] when no hand is detected. *)
Definition onResults (now : Z) (landmarks : option HandLandmarks) (s : State)
    : State * list NavEvent :=
  match landmarks with
  | Some landmarks =>
      let s := setHandPosition
                 (Some (x (landmarks 9%nat), y (landmarks 9%nat))) s in
      if activeWidget s =? FITTING_ROOM_INDEX then
        (s, [Forwarded (Some landmarks)])
      else if isPinching landmarks then
        (dropTracking (handlePinch now s), [PinchCalled])
      else if isFist landmarks then
        (dropTracking (handleFist now s), [FistCalled])
      else navSwipe now landmarks s
  | None =>
      let s := dropTracking (setHandPosition None s) in
      if activeWidget s =? FITTING_ROOM_INDEX then (s, [Forwarded None])
      else (s, [])
  end.

End WithEngine.

End App.

(** ** Sample hands *)

Module Hands.
Import Geometry.

(** A hand held upright: wrist at the bottom, the PIP joints above it,
    an extended finger's tip above its PIP, a folded finger's tip
    curled back below it.  [palmX] is the abscissa of landmark 9,
    [thumbRaised] puts the thumb tip well above the thumb MCP, the four
    booleans say which of index, middle, ring and pinky are extended. *)
Definition hand (palmX : Q) (thumbRaised index middle ring pinky : bool)
    : HandLandmarks :=
  let tipY (e : bool) : Q := if e then 0.4%Q else 0.75%Q in
  fun i =>
    match i with
    | 0%nat => {| x := 0.5; y := 0.9 |}
    | 2%nat => {| x := 0.35; y := 0.8 |}
    | 4%nat => {| x := 0.3; y := if thumbRaised then 0.7%Q else 0.8%Q |}
    | 6%nat => {| x := 0.4; y := 0.6 |}
    | 8%nat => {| x := 0.4; y := tipY index |}
    | 9%nat => {| x := palmX; y := 0.7 |}
    | 10%nat => {| x := 0.5; y := 0.6 |}
    | 12%nat => {| x := 0.5; y := tipY middle |}
    | 14%nat => {| x := 0.6; y := 0.6 |}
    | 16%nat => {| x := 0.6; y := tipY ring |}
    | 18%nat => {| x := 0.7; y := 0.6 |}
    | 20%nat => {| x := 0.7; y := tipY pinky |}
    | _ => {| x := 0.5; y := 0.8 |}
    end.

Definition openHand (palmX : Q) : HandLandmarks := hand palmX false true true true true.
Definition fistHand : HandLandmarks := hand 0.5 false false false false false.
Definition thumbsUpHand : HandLandmarks := hand 0.5 true false false false false.
Definition oneFinger : HandLandmarks := hand 0.5 false true false false false.
Definition twoFingers : HandLandmarks := hand 0.5 false true true false false.
Definition threeFingers : HandLandmarks := hand 0.5 false true true true false.

(** Every landmark on one point: each finger's tip and PIP are at the
    same distance (zero) from the wrist. *)
Definition collapsedHand : HandLandmarks := fun _ => {| x := 0.5; y := 0.5 |}.

(** A hand whose index tip and index PIP lie on either side of the
    wrist's vertical, at the same distance from it; the other fingers
    are folded. *)
Definition tiedHand : HandLandmarks :=
  fun i =>
    match i with
    | 6%nat => {| x := 0.4; y := 0.6 |}
    | 8%nat => {| x := 0.6; y := 0.6 |}
    | _ => fistHand i
    end.

(** A hand, the wrist at the origin, whose index tip is farther from
    the wrist than its index PIP by less than the doubles can tell:
    the PIP at [(0.5, 0)], the tip at [(0.5, 2^-34)]; the other fingers
    are folded. *)
Definition nearTieHand : HandLandmarks :=
  fun i =>
    match i with
    | 0%nat => {| x := 0; y := 0 |}
    | 6%nat => {| x := 0.5; y := 0 |}
    | 8%nat => {| x := 0.5; y := 1 # 17179869184 |}
    | 12%nat | 16%nat | 20%nat => {| x := 0.25; y := 0.25 |}
    | _ => {| x := 0.5; y := 0.5 |}
    end.

End Hands.

(** ** Invariants of the fitting room *)

Module Invariant.
Import Catalog GenerateLook Imagen FittingRoom.

(** A batch in flight is well formed against its item: one slot per
    scene; a call that has not settled has the loading look in its
    slot, a call that has settled has the look of what [generateLook]
    made of some answer of the network. *)
Record batchOK (b : Batch) : Prop := {
  ok_length : length (bresults b) = length (scenes (bitem b));
  ok_slots : forall i s, scenes (bitem b) !! i = Some s ->
    (memb i (pending b) = true /\ bresults b !! i = Some (loadingLook s)) \/
    (memb i (pending b) = false /\
     exists net, bresults b !! i = Some (settledLook s (generateLook net)));
  ok_pending : forall i, memb i (pending b) = true ->
    (i < length (scenes (bitem b)))%nat
}.

(** A result set in which every call of the item has settled: one look
    per scene, each the look of a settled [generateLook] call for that
    scene. *)
Definition looksSettled (ss : list Scene) (looks : list GeneratedLook) : Prop :=
  length looks = length ss /\
  forall i s, ss !! i = Some s ->
    exists net, looks !! i = Some (settledLook s (generateLook net)).

(** The phase that follows a phase. *)
Definition nextPhase (p : FittingRoomPhase) : FittingRoomPhase :=
  match p with
  | catalog => capturing
  | capturing => generating
  | generating => results
  | results => catalog
  end.

(** Two states that agree on every cell the invariant reads. *)
Definition sameCore (a b : FR) : Prop :=
  phase (view a) = phase (view b) /\
  currentIndex (view a) = currentIndex (view b) /\
  countdown (view a) = countdown (view b) /\
  capturedPhoto (view a) = capturedPhoto (view b) /\
  generatedLooks (view a) = generatedLooks (view b) /\
  catalogCooldown (refs a) = catalogCooldown (refs b) /\
  thumbsUpBuffer (refs a) = thumbsUpBuffer (refs b) /\
  fingerBuffer (refs a) = fingerBuffer (refs b) /\
  timers (runtime a) = timers (runtime b) /\
  countdownTimer (runtime a) = countdownTimer (runtime b) /\
  batches (runtime a) = batches (runtime b) /\
  nextId (runtime a) = nextId (runtime b).

Record Inv (st : FR) : Prop := {
  inv_ids : forall t, In t (timers (runtime st)) ->
    (tid t < nextId (runtime st))%nat;
  inv_delay : forall t, In t (timers (runtime st)) ->
    (action t = ClearPostResetCooldown -> delay t = 500) /\
    (action t = CountdownTick -> delay t = 1000);
  inv_cool_off : catalogCooldown (refs st) = false ->
    forall t, In t (timers (runtime st)) -> action t <> ClearCatalogCooldown;
  inv_cool_one : forall t t', In t (timers (runtime st)) ->
    In t' (timers (runtime st)) ->
    action t = ClearCatalogCooldown -> action t' = ClearCatalogCooldown ->
    tid t = tid t';
  inv_tick : forall t, In t (timers (runtime st)) -> action t = CountdownTick ->
    phase (view st) = capturing /\
    countdownTimer (runtime st) = Some (tid t) /\
    exists c, countdown (view st) = Some c /\ 1 <= c <= 3;
  inv_countdown : forall c, countdown (view st) = Some c ->
    phase (view st) = capturing /\ 0 <= c <= 3;
  inv_batches : phase (view st) <> generating -> batches (runtime st) = [];
  inv_generating : phase (view st) = generating ->
    exists b, batches (runtime st) = [b] /\
      generatedLooks (view st) = bresults b /\
      bitem b = catalogAt (currentIndex (view st)) /\
      capturedPhoto (view st) = Some (userPhotoDataUrl b) /\
      batchOK b;
  inv_results : phase (view st) = results ->
    looksSettled (scenes (catalogAt (currentIndex (view st))))
                 (generatedLooks (view st));
  inv_index : 0 <= currentIndex (view st) < catalogLength;
  inv_thumb : 0 <= thumbsUpBuffer (refs st) <= 9;
  inv_finger_len : (length (fingerBuffer (refs st)) <= 8)%nat;
  inv_finger_off : phase (view st) <> results -> fingerBuffer (refs st) = [];
  inv_post_late : phase (view st) = generating \/ phase (view st) = results
                  \/ (exists c, countdown (view st) = Some c /\ c < 3) ->
    forall t, In t (timers (runtime st)) -> action t <> ClearPostResetCooldown;
  inv_post_order : forall t t', In t (timers (runtime st)) ->
    In t' (timers (runtime st)) ->
    action t = ClearPostResetCooldown -> action t' = CountdownTick ->
    (tid t < tid t')%nat
}.

(** A screen that is leaving is the screen of the phase before. *)
Definition staged (st : FR) : Prop :=
  forall l, leaving (runtime st) = Some l ->
    phase (view st) = nextPhase (screenOf l).

(** What a callback does to the phase and to the countdown. *)
Inductive Move (i : Input) (evs : list Event) (st st' : FR) : Prop :=
| move_stay :
    phase (view st') = phase (view st) ->
    countdown (view st') = countdown (view st) ->
    Move i evs st st'
| move_capture :
    phase (view st) = catalog -> phase (view st') = capturing ->
    countdown (view st) = None ->
    countdown (view st') = Some COUNTDOWN_SECONDS ->
    (i = ClickCapture \/ exists lm, i = Frame (Some lm) /\ evs = [StartCaptureCalled]) ->
    Move i evs st st'
| move_tick c :
    phase (view st) = capturing -> phase (view st') = capturing ->
    countdown (view st) = Some c -> 1 <= c <= 3 ->
    countdown (view st') = Some (c - 1) ->
    (exists t, i = TimerFires t) ->
    Move i evs st st'
| move_results n b :
    phase (view st) = generating -> phase (view st') = results ->
    countdown (view st') = countdown (view st) ->
    i = BatchSettles n -> batches (runtime st) = [b] -> allSettled b = true ->
    generatedLooks (view st') = bresults b ->
    Move i evs st st'
| move_reset :
    phase (view st) = results -> phase (view st') = catalog ->
    countdown (view st') = countdown (view st) ->
    (i = ClickBack \/ exists lm, i = Frame (Some lm) /\ evs = [ResetCalled]) ->
    Move i evs st st'.


(** The cooldown flag is set and no timer that clears it is due before
    time [T]. *)
Definition coolUntil (T : Z) (st : FR) : Prop :=
  catalogCooldown (refs st) = true /\
  forall t, In t (timers (runtime st)) ->
    action t = ClearCatalogCooldown -> T <= due t.

(** The post-reset lockout is on and no timer that lifts it is due
    before time [T]. *)
Definition lockedUntil (T : Z) (st : FR) : Prop :=
  postResetCooldown (refs st) = true /\
  forall t, In t (timers (runtime st)) ->
    action t = ClearPostResetCooldown -> T <= due t.

(** On the catalog with the hand-open gate armed, no countdown running
    and no batch in flight. *)
Definition gated (st : FR) : Prop :=
  phase (view st) = catalog /\
  requireOpenHandAfterReset (refs st) = true /\
  countdown (view st) = None /\
  batches (runtime st) = [].

(** A delivery other than a click on the capture button. *)
Definition notCaptureClick (d : Delivery) : bool :=
  match input d with
  | ClickCapture => false
  | _ => true
  end.

Section WithEngine.
Context {engine : Engine}.

(** A delivery that shows no open hand: not a click on the capture
    button, and if it is a frame with a hand, fewer than 3 fingers are
    extended. *)
Definition showsNoOpenHand (d : Delivery) : bool :=
  match input d with
  | Frame (Some lm) => Geometry.countExtendedFingers lm <? 3
  | ClickCapture => false
  | _ => true
  end.

End WithEngine.

(** Every delivery of the run happens before time [T]. *)
Definition allBefore (T : Z) (ds : list Delivery) : Prop :=
  Forall (fun d => at_time d < T) ds.

(** An input that is a click on a button of the screen. *)
Definition isClick (i : Input) : bool :=
  match i with
  | ClickPrev | ClickNext | ClickDot _ | ClickCapture
  | ClickBack | ClickThumbnail _ => true
  | _ => false
  end.

(** No delivery of the run is a click. *)
Definition noClicks (ds : list Delivery) : Prop :=
  Forall (fun d => isClick (input d) = false) ds.

End Invariant.

(** ** Frame sequences of the results phase *)

Module Frames.
Import Geometry FittingRoom.

Section WithEngine.
Context {engine : Engine}.

(** What a frame contributes to the finger-count selection: the count
    when a hand is present, is not a thumbs-up and shows 1 to 4
    extended fingers; nothing otherwise. *)
Definition reading (lm : option HandLandmarks) : option Z :=
  match lm with
  | Some h =>
      if isThumbsUp h then None
      else if (1 <=? countExtendedFingers h) && (countExtendedFingers h <=? 4)
           then Some (countExtendedFingers h)
           else None
  | None => None
  end.

(** [processLandmarks] on one frame after the other, each with its
    time; the calls made, in order. *)
Fixpoint processFrames (fs : list (Z * option HandLandmarks)) (st : FR)
    : FR * list Event :=
  match fs with
  | [] => (st, [])
  | (now, lm) :: rest =>
      let r1 := processLandmarks now lm st in
      let r2 := processFrames rest (fst r1) in
      (fst r2, snd r1 ++ snd r2)
  end.

(** The last [n] frames of [fs] all read the count [k]. *)
Definition stableFor (k : Z) (n : nat) (fs : list (option HandLandmarks)) : Prop :=
  exists before last,
    fs = before ++ last /\ length last = n /\
    Forall (fun f => reading f = Some k) last.

(** The counts read since the last frame that contributed nothing. *)
Definition streak (rs : list (option Z)) : list Z :=
  fold_left (fun acc r => match r with
                          | Some c => acc ++ [c]
                          | None => []
                          end) rs [].

(** The update of [fingerBuffer.current] by one reading. *)
Definition pushReading (buf : list Z) (r : option Z) : list Z :=
  match r with
  | Some c => sliceLast (FINGER_STABLE_FRAMES - 1) buf ++ [c]
  | None => []
  end.

End WithEngine.

End Frames.

(** ** Sample states and runs *)

Module Samples.
Import Geometry Hands.

(** The navigation on the clock widget, tracking a hand since time 0
    from abscissa 0.5. *)
Definition navTracking : App.State :=
  {| App.activeWidget := 0; App.showCamera := false; App.isPlaying := false;
     App.handPosition := None;
     App.gestureState :=
       {| App.startX := 0.5; App.lastX := 0.5; App.startTime := 0;
          App.isTracking := true |};
     App.cooldown := false; App.cooldownTimers := [] |}.

(** The same with the cooldown on. *)
Definition navCooling : App.State :=
  {| App.activeWidget := 0; App.showCamera := false; App.isPlaying := false;
     App.handPosition := None;
     App.gestureState :=
       {| App.startX := 0.5; App.lastX := 0.5; App.startTime := 0;
          App.isTracking := true |};
     App.cooldown := true; App.cooldownTimers := [1200] |}.

(** The double next above the double of [0.15]. *)
Definition above015 : Q := 5404319552844596 # 36028797018963968.

(** The navigation tracking a hand since time 0 from abscissa
    [17 / 2^60]. *)
Definition navTrackingNearZero : App.State :=
  {| App.activeWidget := 0; App.showCamera := false; App.isPlaying := false;
     App.handPosition := None;
     App.gestureState :=
       {| App.startX := 17 # 1152921504606846976;
          App.lastX := 17 # 1152921504606846976; App.startTime := 0;
          App.isTracking := true |};
     App.cooldown := false; App.cooldownTimers := [] |}.

Import GenerateLook FittingRoom.

(** The fitting room on its catalog, tracking a hand since time 0 from
    abscissa 0.5. *)
Definition catalogTracking : FR :=
  set_swipeState {| startX := 0.5; startTime := 0; isTracking := true |} initial.

Definition deliver (t : Z) (i : Input) : Delivery :=
  {| at_time := t; camera := Some "data:image/jpeg;base64,AAAA"%string;
     input := i |}.

(** The network gives a [generateLook] call the catalog image and a
    model answer that carries one PNG image. *)
Definition imageAnswer (data : string) : Network :=
  {| outfitFetched := true;
     response :=
       Some (Some [ {| inlineData := Some {| mimeType := Some "image/png"%string;
                                            data := Some data |};
                       text := None |} ]) |}.

(** The network gives the call the catalog image and a model answer
    that carries text only. *)
Definition textAnswer : Network :=
  {| outfitFetched := true;
     response := Some (Some [ {| inlineData := None;
                                 text := Some "Sorry"%string |} ]) |}.

(** From the catalog to the results: the capture button, three ticks of
    the countdown, the four calls settling (the third one first, the
    second one failing), the batch, and the generating screen gone. *)
Definition toResults : list Delivery :=
  [ deliver 0 ClickCapture;
    deliver 1000 (TimerFires 0); deliver 2000 (TimerFires 1);
    deliver 3000 (TimerFires 2);
    deliver 3500 (CallSettles 3 2 (imageAnswer "CCCC"));
    deliver 3600 (CallSettles 3 0 (imageAnswer "AAAA"));
    deliver 3700 (CallSettles 3 1 textAnswer);
    deliver 3800 (CallSettles 3 3 (imageAnswer "DDDD"));
    deliver 3900 (BatchSettles 3);
    deliver 3950 ExitComplete ].

(** [n] frames showing [lm], 30ms apart, from time [t]. *)
Fixpoint framesOf (n : nat) (t : Z) (lm : HandLandmarks)
    : list (Z * option HandLandmarks) :=
  match n with
  | O => []
  | S n' => (t, Some lm) :: framesOf n' (t + 30) lm
  end.

(** Back to the catalog by the back button, which is clicked a second
    time 100ms later while the results screen is leaving; the results
    screen gone; then the first lockout timer, an open hand and a
    fist. *)
Definition backTwice : list Delivery :=
  [ deliver 4000 ClickBack;
    deliver 4100 ClickBack;
    deliver 4300 ExitComplete;
    deliver 4500 (TimerFires 4);
    deliver 4510 (Frame (Some (openHand 0.5)));
    deliver 4520 (Frame (Some fistHand)) ].

Section WithEngine.
Context {engine : Engine}.

(** The state a run ends in, the start state when it cannot be run. *)
Definition after (ds : list Delivery) (st : FR) : FR :=
  match run ds st with
  | Some (st', _) => st'
  | None => st
  end.

Definition inResults : FR := after toResults initial.

(** The fitting room just after the photo is taken: generating, the
    batch of the capture in flight with none of its calls settled. *)
Definition inGenerating : FR := after (firstn 4 toResults) initial.

End WithEngine.

End Samples.

(** ** What the fitting room renders (src/components/FittingRoom.tsx) *)

Module Screen.
Import Catalog Imagen FittingRoom.

(** [generatedLooks[selectedLookIndex]]. *)
Definition selectedLook (st : FR) : option GeneratedLook :=
  if selectedLookIndex (view st) <? 0 then None
  else generatedLooks (view st) !! Z.to_nat (selectedLookIndex (view st)).

(** The truth value of a string. *)
Definition nonEmpty (s : string) : bool :=
  match s with
  | EmptyString => false
  | String _ _ => true
  end.

(** [!!look.error]. *)
Definition hasError (look : GeneratedLook) : bool :=
  match error look with
  | Some e => nonEmpty e
  | None => false
  end.

(** The [disabled] attribute of the share button for a look. *)
Definition lookDisabled (look : GeneratedLook) : bool :=
  isLoading look || hasError look.

(** The guard of [shareLook] for a look: [true] when the function goes
    on to share it. *)
Definition lookShared (look : GeneratedLook) : bool :=
  negb (negb (nonEmpty (imageBase64 look)) || isLoading look).

(** The [disabled] attribute of the share button. *)
Definition shareDisabled (st : FR) : bool :=
  match selectedLook st with
  | Some look => lookDisabled look
  | None => false
  end.

(** [shareLook] goes past its guard. *)
Definition shareLookRuns (st : FR) : bool :=
  match selectedLook st with
  | Some look => lookShared look
  | None => false
  end.

(** What the main image of the results screen is. *)
Inductive MainImage : Type :=
| Spinner
| ErrorCard
| Picture (src : option string).

Definition mainImage (st : FR) : MainImage :=
  match selectedLook st with
  | Some look =>
      if isLoading look then Spinner
      else if hasError look then ErrorCard
      else Picture (Some (imageBase64 look))
  | None => Picture None
  end.

(** The thumbs-up overlay is rendered:
    [thumbsUpProgress > 0 && phase === 'results']. *)
Definition overlayVisible (st : FR) : bool :=
  Qltb 0 (thumbsUpProgress (view st)) && phase_eqb (phase (view st)) results.

(** The overlay announces the return to the catalog:
    [thumbsUpProgress >= 1]. *)
Definition overlayReturning (st : FR) : bool :=
  Qle_bool 1 (thumbsUpProgress (view st)).

(** The thumbnail whose badge is highlighted:
    [liveFingerCount === i + 1]. *)
Definition badgeLit (i : nat) (st : FR) : bool :=
  match liveFingerCount (view st) with
  | Some c => c =? Z.of_nat i + 1
  | None => false
  end.

End Screen.

(** ** What the fitting room shows against what it holds *)

Module Consistency.
Import Catalog Imagen FittingRoom.

(** The cells behind the results screen agree: the selected index and
    the live finger count name one of the four looks, the progress ring
    shows the thumbs-up accumulator, and the accumulator is empty
    outside the results. *)
Record Shown (st : FR) : Prop := {
  shown_selected : 0 <= selectedLookIndex (view st) <= 3;
  shown_live : forall c, liveFingerCount (view st) = Some c -> 1 <= c <= 4;
  shown_progress :
    (thumbsUpProgress (view st) == progressOf (thumbsUpBuffer (refs st)))%Q;
  shown_idle : phase (view st) <> results -> thumbsUpBuffer (refs st) = 0
}.

(** State [b] holds the cells behind the results screen as state [a]
    does. *)
Definition leaves (a b : FR) : Prop :=
  selectedLookIndex (view b) = selectedLookIndex (view a) /\
  liveFingerCount (view b) = liveFingerCount (view a) /\
  thumbsUpProgress (view b) = thumbsUpProgress (view a) /\
  thumbsUpBuffer (refs b) = thumbsUpBuffer (refs a).

(** The cells of a capture are tidy: the fist hold time is never set,
    no photo and no look is held on the catalog or during the
    countdown, and a photo is held while generating and in the
    results. *)
Record Tidy (st : FR) : Prop := {
  tidy_fist : fistStartTime (refs st) = None;
  tidy_idle : phase (view st) = catalog \/ phase (view st) = capturing ->
    capturedPhoto (view st) = None /\ generatedLooks (view st) = [];
  tidy_photo : phase (view st) = generating \/ phase (view st) = results ->
    exists photo, capturedPhoto (view st) = Some photo
}.

(** State [b] holds the cells of a capture as state [a] does. *)
Definition holds (a b : FR) : Prop :=
  fistStartTime (refs b) = fistStartTime (refs a) /\
  capturedPhoto (view b) = capturedPhoto (view a) /\
  generatedLooks (view b) = generatedLooks (view a).

(** The handles of the pending timers are pairwise distinct. *)
Definition Unique (st : FR) : Prop :=
  List.NoDup (map tid (timers (runtime st))).

(** A timer other than one that lifts the lockout of a [reset]. *)
Definition notLift (t : Timer) : bool :=
  match action t with
  | ClearPostResetCooldown => false
  | _ => true
  end.

(** The countdown is ticking: while capturing, a number from 3 down to
    0 is on display, and as long as it is positive the tick that will
    decrement it is pending. *)
Definition ticking (st : FR) : Prop :=
  phase (view st) = capturing ->
  exists c, countdown (view st) = Some c /\ 0 <= c <= 3 /\
    (1 <= c ->
     exists t, In t (timers (runtime st)) /\ action t = CountdownTick /\
               countdownTimer (runtime st) = Some (tid t)).

End Consistency.

(** ** The countdown of a capture *)

Module Schedule.
Import FittingRoom.

(** The countdown of a capture started at time [t0] is on schedule:
    either three seconds have passed, or the component is capturing
    with [c] seconds left to count and the pending tick is not due
    before the seconds already counted have elapsed. *)
Definition onSchedule (t0 : Z) (st : FR) : Prop :=
  t0 + 3000 <= clock (runtime st) \/
  (phase (view st) = capturing /\
   exists c, countdown (view st) = Some c /\ 1 <= c <= 3 /\
     forall t, In t (timers (runtime st)) -> action t = CountdownTick ->
       t0 + 1000 * (4 - c) <= due t).

(** The capture failed: the countdown is at 0 and the component still
    capturing (the photo could not be taken). *)
Definition stuck (st : FR) : Prop :=
  phase (view st) = capturing /\ countdown (view st) = Some 0.

(** The callback of the cooldown timer, then [goNext]: one step of
    browsing once the cooldown has elapsed. *)
Definition browseNext (now : Z) (st : FR) : FR :=
  goNext now (set_catalogCooldown false st).

Definition browsePrev (now : Z) (st : FR) : FR :=
  goPrev now (set_catalogCooldown false st).

End Schedule.

(** ** The mirror as a transition system (src/App.tsx)

    The inputs of the top-level component that bear on the navigation
    state: a detector result, a recognised phrase, a footer button, the
    settings button, a cooldown timer.  Speech is taken as it comes
    out of [trim().toLowerCase()], and may come at any time (the
    microphone switch is not kept); a detector result is one the
    callback does not drop for want of a canvas.  The toasts
    ([gestureStatus], [voiceCommand]) are display only and left
    out. *)

Module Mirror.
Import Geometry App.

Local Open Scope string_scope.

(** [hay.includes(needle)]. *)
Fixpoint includes (needle hay : string) : bool :=
  String.prefix needle hay ||
  match hay with
  | String _ rest => includes needle rest
  | EmptyString => false
  end.

(** The command chain of [recognition.onresult]. *)
Definition onSpeech (now : Z) (transcript : string) (s : State) : State :=
  if includes "הבא" transcript || includes "שמאלה" transcript then
    nextWidget now s
  else if includes "קודם" transcript || includes "ימינה" transcript then
    prevWidget now s
  else if includes "נגן" transcript || includes "פליי" transcript then
    setIsPlaying (fun _ => true) s
  else if includes "עצור" transcript || includes "פאוז" transcript then
    setIsPlaying (fun _ => false) s
  else if includes "שעון" transcript then setActiveWidget (fun _ => 0) s
  else if includes "מזג" transcript then setActiveWidget (fun _ => 1) s
  else if includes "חדשות" transcript then setActiveWidget (fun _ => 2) s
  else if includes "פגישות" transcript || includes "תורים" transcript then
    setActiveWidget (fun _ => 3) s
  else if includes "מוזיקה" transcript then setActiveWidget (fun _ => 4) s
  else if includes "לבוש" transcript || includes "בגדים" transcript
          || includes "מראה" transcript then
    setActiveWidget (fun _ => 5) s
  else s.

(** The component as mounted. *)
Definition mounted : State :=
  {| activeWidget := 0; showCamera := false; isPlaying := false;
     handPosition := None;
     gestureState := {| startX := 0; lastX := 0; startTime := 0;
                        isTracking := false |};
     cooldown := false; cooldownTimers := [] |}.

Inductive NavInput : Type :=
| Results (landmarks : option HandLandmarks)  (* hands.onResults *)
| Speech (transcript : string)                (* recognition.onresult *)
| FooterButton (i : nat)                      (* setActiveWidget(i) *)
| SettingsButton                              (* setShowCamera(!showCamera) *)
| CooldownElapsed.                            (* the timer of triggerCooldown *)

(** The callback of the oldest pending cooldown timer (the timers all
    have the same delay, they fire in the order they were started). *)
Definition cooldownElapsed (now : Z) (s : State) : option State :=
  match cooldownTimers s with
  | due :: rest =>
      if (due <=? now)%Z then
        Some {| activeWidget := activeWidget s; showCamera := showCamera s;
                isPlaying := isPlaying s; handPosition := handPosition s;
                gestureState := gestureState s; cooldown := false;
                cooldownTimers := rest |}
      else None
  | [] => None
  end.

Record NavDelivery : Type := {
  nav_time : Z;
  nav_input : NavInput
}.

Section WithEngine.
Context {engine : Engine}.

(** The callback run for an input, [None] when the input cannot be
    delivered (a footer button that does not exist, no timer due). *)
Definition receive (now : Z) (i : NavInput) (s : State)
    : option (State * list NavEvent) :=
  match i with
  | Results landmarks => Some (onResults now landmarks s)
  | Speech transcript => Some (onSpeech now transcript s, [])
  | FooterButton i =>
      if (i <? Z.to_nat widgetCount)%nat
      then Some (setActiveWidget (fun _ => Z.of_nat i) s, [])
      else None
  | SettingsButton => Some (setShowCamera negb s, [])
  | CooldownElapsed =>
      match cooldownElapsed now s with
      | Some s' => Some (s', [])
      | None => None
      end
  end.

Fixpoint navigate (ds : list NavDelivery) (s : State) : option (State * list NavEvent) :=
  match ds with
  | [] => Some (s, [])
  | d :: rest =>
      match receive (nav_time d) (nav_input d) s with
      | Some (s', evs) =>
          match navigate rest s' with
          | Some (s'', evs') => Some (s'', (evs ++ evs')%list)
          | None => None
          end
      | None => None
      end
  end.

Inductive attainable : State -> Prop :=
| attainable_initial : attainable mounted
| attainable_step s now i s' evs :
    attainable s -> receive now i s = Some (s', evs) -> attainable s'.

End WithEngine.

(** A delivery made by the hand: a detector result, or the cooldown
    timer. *)
Definition byHand (d : NavDelivery) : bool :=
  match nav_input d with
  | Results _ | CooldownElapsed => true
  | _ => false
  end.

(** The cells a gesture acts on. *)
Definition acted (s : State) : Z * bool * bool :=
  (activeWidget s, showCamera s, isPlaying s).

(** The navigation state is sound: the widget index names a widget,
    and the cooldown flag is set exactly while one timer is pending. *)
Record Sound (s : State) : Prop := {
  sound_widget : 0 <= activeWidget s < widgetCount;
  sound_cooldown :
    (cooldown s = false /\ cooldownTimers s = []) \/
    (cooldown s = true /\ exists due, cooldownTimers s = [due])
}.

(** The cooldown is on and its timer is due at [T]. *)
Definition coolingUntil (T : Z) (s : State) : Prop :=
  cooldown s = true /\ cooldownTimers s = [T].

(** Every delivery of the run is made by the hand, before [T]. *)
Definition handBefore (T : Z) (ds : list NavDelivery) : Prop :=
  Forall (fun d => byHand d = true /\ nav_time d < T) ds.

(** A call of one of the four gesture handlers. *)
Definition isGesture (e : NavEvent) : bool :=
  match e with
  | PinchCalled | FistCalled | NextWidgetCalled | PrevWidgetCalled => true
  | Forwarded _ => false
  end.

(** The timer callback of [triggerCooldown], then a handler. *)
Definition thenNext (now : Z) (s : State) : State :=
  nextWidget now
    {| activeWidget := activeWidget s; showCamera := showCamera s;
       isPlaying := isPlaying s; handPosition := handPosition s;
       gestureState := gestureState s; cooldown := false;
       cooldownTimers := [] |}.

Definition thenPrev (now : Z) (s : State) : State :=
  prevWidget now
    {| activeWidget := activeWidget s; showCamera := showCamera s;
       isPlaying := isPlaying s; handPosition := handPosition s;
       gestureState := gestureState s; cooldown := false;
       cooldownTimers := [] |}.

End Mirror.

(** * Properties *)

(** ** Comparison of numbers *)

Lemma Qltb_lt (a b : Q) : Qltb a b = true <-> (a < b)%Q.
Proof.
  unfold Qltb. rewrite negb_true_iff. split.
  - intros H. apply Qnot_le_lt. intros Hle.
    apply Qle_bool_iff in Hle. congruence.
  - intros H. destruct (Qle_bool b a) eqn:E; [|reflexivity].
    apply Qle_bool_iff in E. exfalso. apply (Qlt_not_le _ _ H E).
Qed.

Lemma Qltb_ge (a b : Q) : Qltb a b = false <-> (b <= a)%Q.
Proof.
  unfold Qltb. rewrite negb_false_iff. apply Qle_bool_iff.
Qed.

Lemma Qltb_asym (a b : Q) : Qltb a b = true -> Qltb b a = false.
Proof.
  rewrite Qltb_lt, Qltb_ge. apply Qlt_le_weak.
Qed.

Lemma Qltb_total (a b : Q) :
  Qltb a b = false -> Qltb b a = false -> Qeq_bool a b = true.
Proof.
  rewrite !Qltb_ge. intros H1 H2. apply Qeq_bool_iff.
  apply Qle_antisym; assumption.
Qed.

(** ** Landmark geometry *)

Module GeometryFacts.
Import Geometry.

Section AnyEngine.
Context {engine : Engine}.

Lemma countExtendedFingers_unfold (lm : HandLandmarks) :
  countExtendedFingers lm =
    (if extended lm 8 6 then 1 else 0) + (if extended lm 12 10 then 1 else 0)
    + (if extended lm 16 14 then 1 else 0) + (if extended lm 20 18 then 1 else 0).
Proof.
  unfold countExtendedFingers. simpl.
  destruct (extended lm 8 6), (extended lm 12 10),
    (extended lm 16 14), (extended lm 20 18); reflexivity.
Qed.

Lemma countExtendedFingers_range (lm : HandLandmarks) :
  0 <= countExtendedFingers lm <= 4.
Proof.
  rewrite countExtendedFingers_unfold.
  destruct (extended lm 8 6), (extended lm 12 10),
    (extended lm 16 14), (extended lm 20 18); lia.
Qed.

(** The count is zero exactly when no finger is extended. *)
Lemma count_zero_none_extended (lm : HandLandmarks) :
  countExtendedFingers lm = 0 <->
  extended lm 8 6 = false /\ extended lm 12 10 = false /\
  extended lm 16 14 = false /\ extended lm 20 18 = false.
Proof.
  rewrite countExtendedFingers_unfold.
  destruct (extended lm 8 6), (extended lm 12 10),
    (extended lm 16 14), (extended lm 20 18);
    split; intros H; try lia; try reflexivity;
    try (repeat split; reflexivity);
    destruct H as (H1 & H2 & H3 & H4); discriminate.
Qed.

Lemma isFist_all_folded (lm : HandLandmarks) :
  isFist lm = true <->
  folded lm 8 6 = true /\ folded lm 12 10 = true /\
  folded lm 16 14 = true /\ folded lm 20 18 = true.
Proof.
  unfold isFist, isFingerFolded, folded. rewrite !andb_true_iff. tauto.
Qed.

Lemma folded_not_extended (lm : HandLandmarks) (tip pip : nat) :
  folded lm tip pip = true -> extended lm tip pip = false.
Proof. apply Qltb_asym. Qed.

(** Without a tie at a finger, not extended is folded. *)
Lemma not_extended_folded (lm : HandLandmarks) (tip pip : nat) :
  Qeq_bool (distance (lm tip) (lm 0%nat)) (distance (lm pip) (lm 0%nat)) = false ->
  extended lm tip pip = false -> folded lm tip pip = true.
Proof.
  unfold extended, folded. intros Hne He.
  destruct (Qltb (distance (lm tip) (lm 0%nat)) (distance (lm pip) (lm 0%nat))) eqn:Hf;
    [reflexivity|].
  rewrite (Qltb_total _ _ Hf He) in Hne. discriminate.
Qed.

(** C8 (amended): [isFistGesture] holds iff [countExtendedFingers] is 0,
    that is iff no finger's tip is strictly farther from the wrist than
    its PIP; the navigation detector [isFist] asks each tip to be
    strictly nearer than its PIP.  [isFist] implies [isFistGesture],
    and the two agree on every hand on which no finger's tip and PIP
    are equally far from the wrist.  The distances are those the code
    computes with [Math.hypot], whatever the engine. *)
Theorem fist_detectors_agree_without_ties (lm : HandLandmarks) :
  (isFistGesture lm = true <-> countExtendedFingers lm = 0) /\
  (countExtendedFingers lm = 0 <->
     forall tip pip, In (tip, pip) (combine tips pips) ->
       (distance (lm tip) (lm 0%nat) <= distance (lm pip) (lm 0%nat))%Q) /\
  (isFist lm = true <->
     forall tip pip, In (tip, pip) (combine tips pips) ->
       (distance (lm tip) (lm 0%nat) < distance (lm pip) (lm 0%nat))%Q) /\
  (isFist lm = true -> isFistGesture lm = true) /\
  (noTie lm = true -> isFist lm = isFistGesture lm).
Proof.
  assert (Hg : isFistGesture lm = true <-> countExtendedFingers lm = 0).
  { unfold isFistGesture. apply Z.eqb_eq. }
  assert (Himp : isFist lm = true -> isFistGesture lm = true).
  { intros H. apply Hg. apply count_zero_none_extended.
    apply isFist_all_folded in H. destruct H as (H1 & H2 & H3 & H4).
    repeat split; apply folded_not_extended; assumption. }
  split; [exact Hg|]. split; [|split; [|split; [exact Himp|]]].
  - rewrite count_zero_none_extended. unfold extended.
    rewrite !Qltb_ge. split.
    + intros (H1 & H2 & H3 & H4) tip pip Hin. simpl in Hin.
      destruct Hin as [Hin|[Hin|[Hin|[Hin|[]]]]]; inversion Hin; subst; assumption.
    + intros H. repeat split; apply H; simpl; auto 10.
  - rewrite isFist_all_folded. unfold folded.
    rewrite !Qltb_lt. split.
    + intros (H1 & H2 & H3 & H4) tip pip Hin. simpl in Hin.
      destruct Hin as [Hin|[Hin|[Hin|[Hin|[]]]]]; inversion Hin; subst; assumption.
    + intros H. repeat split; apply H; simpl; auto 10.
  - intros Hn. unfold noTie in Hn. simpl in Hn.
    rewrite !andb_true_iff, !negb_true_iff in Hn.
    destruct Hn as (N1 & N2 & N3 & N4 & _).
    assert (Hconv : isFistGesture lm = true -> isFist lm = true).
    { intros Eg. apply Hg, count_zero_none_extended in Eg.
      destruct Eg as (H1 & H2 & H3 & H4).
      apply isFist_all_folded.
      repeat split; apply not_extended_folded; assumption. }
    destruct (isFist lm), (isFistGesture lm); auto.
    symmetry. auto.
Qed.

End AnyEngine.

(** *** On sample inputs, with the [binary64] engine *)

Section OnSamples.
#[local] Existing Instance Binary64.binary64.

(** C8, as the claim states it, fails: the navigation detector and
    [isFistGesture] differ on a hand whose index tip and index PIP are
    equally far from the wrist (they lie on either side of the wrist's
    vertical, 0.1 away from it, at the same height). *)
Lemma fist_detectors_differ_on_tie :
  countExtendedFingers Hands.tiedHand = 0 /\
  isFistGesture Hands.tiedHand = true /\
  isFist Hands.tiedHand = false /\
  ~ (forall lm : HandLandmarks, isFist lm = isFistGesture lm).
Proof.
  assert (Eg : isFistGesture Hands.tiedHand = true) by (vm_compute; reflexivity).
  assert (Ef : isFist Hands.tiedHand = false) by (vm_compute; reflexivity).
  split; [vm_compute; reflexivity|]. split; [exact Eg|]. split; [exact Ef|].
  intros H. specialize (H Hands.tiedHand). rewrite Eg, Ef in H. discriminate.
Qed.

(** Rounding makes ties of its own: the index tip of [nearTieHand] is
    farther from the wrist than its PIP, [Math.hypot] gives the two the
    same distance, and the two detectors differ. *)
Example rounding_ties_a_finger :
  let lm := Hands.nearTieHand in
  (x (lm 6%nat) * x (lm 6%nat) + y (lm 6%nat) * y (lm 6%nat)
   < x (lm 8%nat) * x (lm 8%nat) + y (lm 8%nat) * y (lm 8%nat))%Q /\
  distance (lm 8%nat) (lm 0%nat) = (1 # 2)%Q /\
  distance (lm 6%nat) (lm 0%nat) = (1 # 2)%Q /\
  extended lm 8 6 = false /\ folded lm 8 6 = false /\
  countExtendedFingers lm = 0 /\
  isFistGesture lm = true /\ isFist lm = false.
Proof. vm_compute. repeat split; reflexivity. Qed.

Lemma fist_detectors_agree_without_ties_witness :
  noTie Hands.fistHand = true /\
  isFist Hands.fistHand = true /\
  isFistGesture Hands.fistHand = true /\
  isFist Hands.fistHand = isFistGesture Hands.fistHand.
Proof.
  pose proof (fist_detectors_agree_without_ties Hands.fistHand)
    as (_ & _ & _ & Himp & Hagree).
  assert (Hn : noTie Hands.fistHand = true) by (vm_compute; reflexivity).
  assert (Hf : isFist Hands.fistHand = true) by (vm_compute; reflexivity).
  split; [exact Hn|]. split; [exact Hf|].
  split; [exact (Himp Hf)|exact (Hagree Hn)].
Defined.

End OnSamples.

End GeometryFacts.

(** ** The swipe window *)

Module SwipeFacts.
Import Geometry.

Section AnyEngine.
Context {engine : Engine}.

(** Exceeding [0.15] in magnitude. *)
Lemma exceeds_iff (d : Q) :
  (0.15 < Qabs d)%Q <-> Qltb d (-0.15)%Q = true \/ Qltb 0.15%Q d = true.
Proof.
  rewrite !Qltb_lt. split.
  - intros H. destruct (Qlt_le_dec d (-0.15)%Q) as [Hl|Hl]; [left; exact Hl|].
    destruct (Qlt_le_dec 0.15%Q d) as [Hr|Hr]; [right; exact Hr|].
    exfalso. apply (Qlt_not_le _ _ H). apply Qabs_Qle_condition.
    split; assumption.
  - intros H. apply Qnot_le_lt. intros Hle.
    apply Qabs_Qle_condition in Hle. destruct Hle as [H1 H2].
    destruct H as [H|H].
    + apply (Qlt_not_le _ _ H). exact H1.
    + apply (Qlt_not_le _ _ H). exact H2.
Qed.

Lemma not_both (d : Q) :
  Qltb d (-0.15)%Q = true -> Qltb 0.15%Q d = true -> False.
Proof.
  rewrite !Qltb_lt. intros H1 H2.
  assert (H : (0.15 < -0.15)%Q) by (eapply Qlt_trans; eassumption).
  revert H. unfold Qlt. simpl. lia.
Qed.

Section Catalog.
Import FittingRoom.

Variables (now : Z) (lm : HandLandmarks) (st : FR).

Let deltaX : Q := fsub (x (lm 9%nat)) (startX (swipeState (refs st))).
Let elapsed : Z := now - startTime (swipeState (refs st)).
Let restarted : SwipeState :=
  {| startX := x (lm 9%nat); startTime := now; isTracking := true |}.

Hypothesis tracking : isTracking (swipeState (refs st)) = true.

Lemma catalogSwipe_fires :
  (snd (catalogSwipe now lm st) = [GoNextCalled]
     <-> elapsed < 500 /\ Qltb deltaX (-0.15)%Q = true) /\
  (snd (catalogSwipe now lm st) = [GoPrevCalled]
     <-> elapsed < 500 /\ Qltb 0.15%Q deltaX = true) /\
  (snd (catalogSwipe now lm st) = [] \/
   snd (catalogSwipe now lm st) = [GoNextCalled] \/
   snd (catalogSwipe now lm st) = [GoPrevCalled]).
Proof.
  unfold catalogSwipe. rewrite tracking. simpl negb. cbv iota.
  fold deltaX. fold elapsed.
  destruct (elapsed <? 500) eqn:Et.
  - apply Z.ltb_lt in Et.
    destruct (Qltb deltaX (-0.15)%Q) eqn:El.
    + simpl. repeat split; auto; try discriminate.
      intros [_ Hr]. exfalso. exact (not_both _ El Hr).
    + destruct (Qltb 0.15%Q deltaX) eqn:Er; simpl;
        repeat split; auto; try discriminate; intros [_ Hf]; discriminate.
  - apply Z.ltb_ge in Et. simpl.
    repeat split; auto; try discriminate; intros [Hf _]; lia.
Qed.

Lemma catalogSwipe_expired :
  500 <= elapsed ->
  catalogSwipe now lm st = (set_swipeState restarted st, []).
Proof.
  intros H. unfold catalogSwipe. rewrite tracking. simpl negb. cbv iota.
  fold elapsed. apply Z.ltb_ge in H. rewrite H. reflexivity.
Qed.

Lemma catalogSwipe_below :
  elapsed < 500 -> (Qabs deltaX <= 0.15)%Q ->
  catalogSwipe now lm st = (st, []).
Proof.
  intros Ht Hd. unfold catalogSwipe. rewrite tracking. simpl negb. cbv iota.
  fold deltaX. fold elapsed. apply Z.ltb_lt in Ht. rewrite Ht.
  destruct (Qltb deltaX (-0.15)%Q) eqn:El.
  - exfalso. apply (Qle_not_lt _ _ Hd). apply exceeds_iff. auto.
  - destruct (Qltb 0.15%Q deltaX) eqn:Er; [|reflexivity].
    exfalso. apply (Qle_not_lt _ _ Hd). apply exceeds_iff. auto.
Qed.

Lemma catalogSwipe_fired_stops :
  snd (catalogSwipe now lm st) <> [] ->
  isTracking (swipeState (refs (fst (catalogSwipe now lm st)))) = false.
Proof.
  unfold catalogSwipe. rewrite tracking. simpl negb. cbv iota.
  destruct (_ <? 500).
  - destruct (Qltb _ (-0.15)%Q); [reflexivity|].
    destruct (Qltb 0.15%Q _); [reflexivity|]. simpl. congruence.
  - simpl. congruence.
Qed.

End Catalog.

Section Navigation.
Import App.

Variables (now : Z) (lm : HandLandmarks) (s : State).

Let deltaX : Q := fsub (x (lm 9%nat)) (startX (gestureState s)).
Let elapsed : Z := now - startTime (gestureState s).

Hypothesis tracking : isTracking (gestureState s) = true.

Lemma navSwipe_fires :
  (snd (navSwipe now lm s) = [NextWidgetCalled]
     <-> elapsed < 500 /\ Qltb deltaX (-0.15)%Q = true) /\
  (snd (navSwipe now lm s) = [PrevWidgetCalled]
     <-> elapsed < 500 /\ Qltb 0.15%Q deltaX = true) /\
  (snd (navSwipe now lm s) = [] \/
   snd (navSwipe now lm s) = [NextWidgetCalled] \/
   snd (navSwipe now lm s) = [PrevWidgetCalled]).
Proof.
  unfold navSwipe. rewrite tracking. simpl negb. cbv iota.
  fold deltaX. fold elapsed.
  destruct (elapsed <? 500) eqn:Et.
  - apply Z.ltb_lt in Et.
    destruct (Qltb deltaX (-0.15)%Q) eqn:El.
    + simpl. repeat split; auto; try discriminate.
      intros [_ Hr]. exfalso. exact (not_both _ El Hr).
    + destruct (Qltb 0.15%Q deltaX) eqn:Er; simpl;
        repeat split; auto; try discriminate; intros [_ Hf]; discriminate.
  - apply Z.ltb_ge in Et. simpl.
    repeat split; auto; try discriminate; intros [Hf _]; lia.
Qed.

Lemma navSwipe_expired :
  500 <= elapsed -> navSwipe now lm s = (dropTracking s, []).
Proof.
  intros H. unfold navSwipe. rewrite tracking. simpl negb. cbv iota.
  fold elapsed. apply Z.ltb_ge in H. rewrite H. reflexivity.
Qed.

End Navigation.

Lemma navSwipe_starts (now : Z) (lm : HandLandmarks) (s : App.State) :
  App.isTracking (App.gestureState s) = false ->
  App.navSwipe now lm s =
    (App.set_gestureState
       {| App.startX := x (lm 9%nat); App.lastX := x (lm 9%nat);
          App.startTime := now; App.isTracking := true |} s, []).
Proof.
  intros H. unfold App.navSwipe. rewrite H. reflexivity.
Qed.

(** While the cooldown flag is set the swipe handlers do nothing. *)
Lemma catalogSwipe_cooldown (now : Z) (lm : HandLandmarks)
    (st : FittingRoom.FR) :
  FittingRoom.catalogCooldown (FittingRoom.refs st) = true ->
  FittingRoom.currentIndex
    (FittingRoom.view (fst (FittingRoom.catalogSwipe now lm st)))
  = FittingRoom.currentIndex (FittingRoom.view st).
Proof.
  intros H. unfold FittingRoom.catalogSwipe, FittingRoom.goNext,
    FittingRoom.goPrev. rewrite H. cbn [orb].
  destruct (negb _); [reflexivity|].
  destruct (_ <? 500); [|reflexivity].
  destruct (Qltb _ (-0.15)%Q); [reflexivity|].
  destruct (Qltb 0.15%Q _); reflexivity.
Qed.

Lemma navSwipe_cooldown (now : Z) (lm : HandLandmarks) (s : App.State) :
  App.cooldown s = true ->
  App.activeWidget (fst (App.navSwipe now lm s)) = App.activeWidget s.
Proof.
  intros H. unfold App.navSwipe, App.nextWidget, App.prevWidget. rewrite H.
  destruct (negb _); [reflexivity|].
  destruct (_ <? 500); [|reflexivity].
  destruct (Qltb _ (-0.15)%Q); [reflexivity|].
  destruct (Qltb 0.15%Q _); reflexivity.
Qed.

(** One step round a ring of more than one place leaves the place. *)
Lemma rem_next_differs (p n : Z) : 1 < n -> Z.rem (p + 1) n <> p.
Proof.
  intros Hn H. pose proof (Z.quot_rem' (p + 1) n) as E. rewrite H in E.
  assert (E1 : n * ((p + 1) ÷ n) = 1) by lia.
  destruct (Z.mul_eq_1 _ _ E1); lia.
Qed.

Lemma rem_prev_differs (p n : Z) : 1 < n -> Z.rem (p - 1 + n) n <> p.
Proof.
  intros Hn H. pose proof (Z.quot_rem' (p - 1 + n) n) as E. rewrite H in E.
  assert (E1 : n * (1 - (p - 1 + n) ÷ n) = 1) by lia.
  destruct (Z.mul_eq_1 _ _ E1); lia.
Qed.

(** A tracked catalog swipe moves the browse index exactly when it
    fires with the cooldown off. *)
Lemma catalogSwipe_moves (now : Z) (lm : HandLandmarks) (st : FittingRoom.FR) :
  FittingRoom.isTracking (FittingRoom.swipeState (FittingRoom.refs st)) = true ->
  FittingRoom.phase (FittingRoom.view st) = FittingRoom.catalog ->
  FittingRoom.currentIndex
    (FittingRoom.view (fst (FittingRoom.catalogSwipe now lm st)))
  <> FittingRoom.currentIndex (FittingRoom.view st)
  <->
  snd (FittingRoom.catalogSwipe now lm st) <> [] /\
  FittingRoom.catalogCooldown (FittingRoom.refs st) = false.
Proof.
  intros Ht Hp. unfold FittingRoom.catalogSwipe. rewrite Ht. cbn [negb].
  unfold FittingRoom.goNext, FittingRoom.goPrev. rewrite Hp.
  cbn [FittingRoom.phase_eqb negb orb].
  destruct (_ <? 500); [|cbn; split; [congruence|intros [H _]; congruence]].
  destruct (Qltb _ (-0.15)%Q).
  { destruct (FittingRoom.catalogCooldown (FittingRoom.refs st)); cbn.
    - split; [congruence|intros [_ H]; discriminate].
    - split; [intros _; split; [discriminate|reflexivity]|intros _].
      apply rem_next_differs. reflexivity. }
  destruct (Qltb 0.15%Q _).
  { destruct (FittingRoom.catalogCooldown (FittingRoom.refs st)); cbn.
    - split; [congruence|intros [_ H]; discriminate].
    - split; [intros _; split; [discriminate|reflexivity]|intros _].
      apply rem_prev_differs. reflexivity. }
  cbn. split; [congruence|intros [H _]; congruence].
Qed.

(** A tracked navigation swipe changes the widget exactly when it fires
    with the cooldown off. *)
Lemma navSwipe_moves (now : Z) (lm : HandLandmarks) (s : App.State) :
  App.isTracking (App.gestureState s) = true ->
  App.activeWidget (fst (App.navSwipe now lm s)) <> App.activeWidget s
  <->
  snd (App.navSwipe now lm s) <> [] /\ App.cooldown s = false.
Proof.
  intros Ht. unfold App.navSwipe. rewrite Ht. cbn [negb].
  unfold App.nextWidget, App.prevWidget.
  destruct (_ <? 500); [|cbn; split; [congruence|intros [H _]; congruence]].
  destruct (Qltb _ (-0.15)%Q).
  { destruct (App.cooldown s); cbn.
    - split; [congruence|intros [_ H]; discriminate].
    - split; [intros _; split; [discriminate|reflexivity]|intros _].
      apply rem_next_differs. reflexivity. }
  destruct (Qltb 0.15%Q _).
  { destruct (App.cooldown s); cbn.
    - split; [congruence|intros [_ H]; discriminate].
    - split; [intros _; split; [discriminate|reflexivity]|intros _].
      apply rem_prev_differs. reflexivity. }
  cbn. split; [congruence|intros [H _]; congruence].
Qed.

End AnyEngine.

End SwipeFacts.

(** ** C3: when a swipe fires *)

Module SwipeClaim.
Import Geometry.

Section AnyEngine.
Context {engine : Engine}.

Lemma processLandmarks_reaches_swipe (now : Z) (lm : HandLandmarks)
    (st : FittingRoom.FR) :
  FittingRoom.phase (FittingRoom.view st) = FittingRoom.catalog ->
  FittingRoom.postResetCooldown (FittingRoom.refs st) = false ->
  (FittingRoom.requireOpenHandAfterReset (FittingRoom.refs st) = false
   \/ 3 <= countExtendedFingers lm) ->
  countExtendedFingers lm <> 0 ->
  exists st1,
    FittingRoom.processLandmarks now (Some lm) st
      = FittingRoom.catalogSwipe now lm st1 /\
    FittingRoom.swipeState (FittingRoom.refs st1)
      = FittingRoom.swipeState (FittingRoom.refs st) /\
    FittingRoom.catalogCooldown (FittingRoom.refs st1)
      = FittingRoom.catalogCooldown (FittingRoom.refs st) /\
    FittingRoom.currentIndex (FittingRoom.view st1)
      = FittingRoom.currentIndex (FittingRoom.view st) /\
    FittingRoom.phase (FittingRoom.view st1)
      = FittingRoom.phase (FittingRoom.view st).
Proof.
  intros Hp Hc Hg Hf.
  unfold FittingRoom.processLandmarks. rewrite Hp.
  unfold FittingRoom.processCatalog. rewrite Hc.
  apply Z.eqb_neq in Hf. rewrite Hf.
  unfold FittingRoom.openHandGate.
  destruct (FittingRoom.requireOpenHandAfterReset (FittingRoom.refs st)) eqn:Er.
  - destruct Hg as [Hg|Hg]; [discriminate|].
    apply Z.leb_le in Hg. rewrite Hg.
    eexists. repeat split; first [reflexivity|exact Hp].
  - eexists. repeat split; first [reflexivity|exact Hp].
Qed.

Lemma fired_iff {A} (l : list A) (a b : A) :
  l = [] \/ l = [a] \/ l = [b] -> (l <> [] <-> l = [a] \/ l = [b]).
Proof.
  intros [->|[->| ->]]; split; try tauto; try discriminate.
  intros [H|H]; discriminate.
Qed.

(** C3 (amended): on a frame with a hand tracked that reaches the swipe
    logic (it is no fist, in the navigation it is no pinch, and in the
    fitting room neither the post-reset lockout nor the armed hand-open
    gate holds it back), a swipe event fires, that is a swipe handler
    is called, iff the x-displacement of landmark 9 from the tracking
    start, as the code computes it (the double [currentX - startX]),
    exceeds 0.15 in magnitude and less than 500ms have elapsed since
    the tracking start (leftwards calls the next handler, rightwards
    the previous one); the call navigates iff the cooldown is off.
    Once 500ms have elapsed nothing fires; the fitting-room catalog
    interpreter then restarts the window from the current position,
    whereas the navigation interpreter clears the tracking, and the
    next frame that reaches its swipe logic starts a window from its
    own position. *)
Theorem swipe_fires_iff_threshold_within_window :
  (forall (now : Z) (lm : HandLandmarks) (st : FittingRoom.FR),
     FittingRoom.phase (FittingRoom.view st) = FittingRoom.catalog ->
     FittingRoom.postResetCooldown (FittingRoom.refs st) = false ->
     (FittingRoom.requireOpenHandAfterReset (FittingRoom.refs st) = false
      \/ 3 <= countExtendedFingers lm) ->
     countExtendedFingers lm <> 0 ->
     FittingRoom.isTracking (FittingRoom.swipeState (FittingRoom.refs st)) = true ->
     let deltaX :=
       fsub (x (lm 9%nat))
            (FittingRoom.startX (FittingRoom.swipeState (FittingRoom.refs st))) in
     let elapsed :=
       now - FittingRoom.startTime (FittingRoom.swipeState (FittingRoom.refs st)) in
     let r := FittingRoom.processLandmarks now (Some lm) st in
     ((snd r = [FittingRoom.GoNextCalled] \/ snd r = [FittingRoom.GoPrevCalled])
        <-> elapsed < 500 /\ (0.15 < Qabs deltaX)%Q) /\
     (snd r = [FittingRoom.GoNextCalled]
        <-> elapsed < 500 /\ (deltaX < -0.15)%Q) /\
     (snd r = [FittingRoom.GoPrevCalled]
        <-> elapsed < 500 /\ (0.15 < deltaX)%Q) /\
     (snd r = [] \/ snd r = [FittingRoom.GoNextCalled]
      \/ snd r = [FittingRoom.GoPrevCalled]) /\
     (FittingRoom.currentIndex (FittingRoom.view (fst r))
        <> FittingRoom.currentIndex (FittingRoom.view st)
        <-> elapsed < 500 /\ (0.15 < Qabs deltaX)%Q /\
            FittingRoom.catalogCooldown (FittingRoom.refs st) = false) /\
     (500 <= elapsed ->
        snd r = [] /\
        FittingRoom.swipeState (FittingRoom.refs (fst r)) =
          {| FittingRoom.startX := x (lm 9%nat); FittingRoom.startTime := now;
             FittingRoom.isTracking := true |})) /\
  (forall (now : Z) (lm : HandLandmarks) (s : App.State),
     App.activeWidget s <> App.FITTING_ROOM_INDEX ->
     isPinching lm = false -> isFist lm = false ->
     App.isTracking (App.gestureState s) = true ->
     let deltaX := fsub (x (lm 9%nat)) (App.startX (App.gestureState s)) in
     let elapsed := now - App.startTime (App.gestureState s) in
     let r := App.onResults now (Some lm) s in
     ((snd r = [App.NextWidgetCalled] \/ snd r = [App.PrevWidgetCalled])
        <-> elapsed < 500 /\ (0.15 < Qabs deltaX)%Q) /\
     (snd r = [App.NextWidgetCalled] <-> elapsed < 500 /\ (deltaX < -0.15)%Q) /\
     (snd r = [App.PrevWidgetCalled] <-> elapsed < 500 /\ (0.15 < deltaX)%Q) /\
     (snd r = [] \/ snd r = [App.NextWidgetCalled]
      \/ snd r = [App.PrevWidgetCalled]) /\
     (App.activeWidget (fst r) <> App.activeWidget s
        <-> elapsed < 500 /\ (0.15 < Qabs deltaX)%Q /\ App.cooldown s = false) /\
     (500 <= elapsed ->
        snd r = [] /\
        App.isTracking (App.gestureState (fst r)) = false /\
        forall (now' : Z) (lm' : HandLandmarks),
          isPinching lm' = false -> isFist lm' = false ->
          snd (App.onResults now' (Some lm') (fst r)) = [] /\
          App.gestureState (fst (App.onResults now' (Some lm') (fst r))) =
            {| App.startX := x (lm' 9%nat); App.lastX := x (lm' 9%nat);
               App.startTime := now'; App.isTracking := true |})).
Proof.
  split.
  - intros now lm st Hp Hc Hg Hf Ht deltaX elapsed r.
    destruct (processLandmarks_reaches_swipe now lm st Hp Hc Hg Hf)
      as (st1 & Heq & Hsw & Hcool & Hidx & Hph).
    assert (Ht1 : FittingRoom.isTracking
                    (FittingRoom.swipeState (FittingRoom.refs st1)) = true)
      by (rewrite Hsw; exact Ht).
    assert (Hp1 : FittingRoom.phase (FittingRoom.view st1) = FittingRoom.catalog)
      by congruence.
    pose proof (SwipeFacts.catalogSwipe_fires now lm st1 Ht1) as (Hn & Hv & Hcases).
    pose proof (SwipeFacts.catalogSwipe_expired now lm st1 Ht1) as Hexp.
    pose proof (SwipeFacts.catalogSwipe_moves now lm st1 Ht1 Hp1) as Hmv.
    rewrite Hsw in Hn, Hv, Hexp.
    rewrite <- Heq in Hn, Hv, Hcases, Hexp, Hmv. rewrite Hidx, Hcool in Hmv.
    fold r in Hn, Hv, Hcases, Hexp, Hmv.
    fold deltaX in Hn, Hv. fold elapsed in Hn, Hv, Hexp.
    rewrite Qltb_lt in Hn, Hv.
    assert (Hany : (snd r = [FittingRoom.GoNextCalled]
                    \/ snd r = [FittingRoom.GoPrevCalled])
                   <-> elapsed < 500 /\ (0.15 < Qabs deltaX)%Q).
    { rewrite SwipeFacts.exceeds_iff, !Qltb_lt. tauto. }
    split; [exact Hany|].
    split; [exact Hn|split; [exact Hv|split; [exact Hcases|split]]].
    + rewrite Hmv, (fired_iff _ _ _ Hcases), Hany. tauto.
    + intros He. rewrite (Hexp He). split; reflexivity.
  - intros now lm s Ha Hpi Hfi Ht deltaX elapsed r.
    assert (Hr : r = App.navSwipe now lm
                   (App.setHandPosition (Some (x (lm 9%nat), y (lm 9%nat))) s)).
    { unfold r, App.onResults. simpl App.activeWidget.
      apply Z.eqb_neq in Ha. rewrite Ha, Hpi, Hfi. reflexivity. }
    set (s1 := App.setHandPosition (Some (x (lm 9%nat), y (lm 9%nat))) s) in *.
    assert (Ht1 : App.isTracking (App.gestureState s1) = true) by exact Ht.
    pose proof (SwipeFacts.navSwipe_fires now lm s1 Ht1) as (Hn & Hv & Hcases).
    pose proof (SwipeFacts.navSwipe_expired now lm s1 Ht1) as Hexp.
    pose proof (SwipeFacts.navSwipe_moves now lm s1 Ht1) as Hmv.
    rewrite <- Hr in Hn, Hv, Hcases, Hexp, Hmv.
    change (App.gestureState s1) with (App.gestureState s) in Hn, Hv, Hexp.
    change (App.activeWidget s1) with (App.activeWidget s) in Hmv.
    change (App.cooldown s1) with (App.cooldown s) in Hmv.
    fold deltaX in Hn, Hv. fold elapsed in Hn, Hv, Hexp.
    rewrite Qltb_lt in Hn, Hv.
    assert (Hany : (snd r = [App.NextWidgetCalled] \/ snd r = [App.PrevWidgetCalled])
                   <-> elapsed < 500 /\ (0.15 < Qabs deltaX)%Q).
    { rewrite SwipeFacts.exceeds_iff, !Qltb_lt. tauto. }
    split; [exact Hany|].
    split; [exact Hn|split; [exact Hv|split; [exact Hcases|split]]].
    + rewrite Hmv, (fired_iff _ _ _ Hcases), Hany. tauto.
    + intros He. rewrite (Hexp He).
      split; [reflexivity|]. split; [reflexivity|].
      intros now' lm' Hpi' Hfi'.
      unfold App.onResults. simpl App.activeWidget.
      apply Z.eqb_neq in Ha. rewrite Ha, Hpi', Hfi'.
      rewrite SwipeFacts.navSwipe_starts by reflexivity.
      split; reflexivity.
Qed.

End AnyEngine.

(** *** On sample inputs, with the [binary64] engine *)

Section OnSamples.
#[local] Existing Instance Binary64.binary64.

(** C3, as the claim states it, fails.  (1) In the navigation, a
    displacement of 0.16 reached 501ms after the tracking start does
    not restart the window from the current position: the tracking is
    cleared and the old start kept.  (2) The displacement compared is
    the rounded difference of doubles: from the start [17 / 2^60] to
    the double next above 0.15 the displacement exceeds 0.15, the
    difference the code computes does not, and nothing fires.  (3) A
    tracked hand that is a fist fires no swipe, however far it has
    moved inside the window: the fist handler is called in the
    navigation, [startCapture] in the fitting room.  (4) With the
    cooldown on, the handler called by a swipe leaves the widget as it
    is. *)
Lemma nav_expired_window_is_dropped :
  (let r := App.onResults 501 (Some (Hands.openHand 0.66)) Samples.navTracking in
   snd r = [] /\
   App.isTracking (App.gestureState (fst r)) = false /\
   App.startX (App.gestureState (fst r)) = 0.5%Q /\
   App.startTime (App.gestureState (fst r)) = 0 /\
   App.gestureState (fst r) <>
     {| App.startX := 0.66; App.lastX := 0.66; App.startTime := 501;
        App.isTracking := true |}) /\
  (let lm := Hands.openHand Samples.above015 in
   let s := Samples.navTrackingNearZero in
   (0.15 < Qabs (x (lm 9%nat) - App.startX (App.gestureState s)))%Q /\
   100 - App.startTime (App.gestureState s) < 500 /\
   isPinching lm = false /\ isFist lm = false /\
   snd (App.onResults 100 (Some lm) s) = []) /\
  (let lm := Hands.hand 0.7 false false false false false in
   (0.15 < Qabs (x (lm 9%nat) - 0.5))%Q /\
   snd (App.onResults 100 (Some lm) Samples.navTracking) = [App.FistCalled] /\
   snd (FittingRoom.processLandmarks 100 (Some lm) Samples.catalogTracking)
     = [FittingRoom.StartCaptureCalled]) /\
  (let r := App.onResults 400 (Some (Hands.openHand 0.66)) Samples.navCooling in
   snd r = [App.PrevWidgetCalled] /\
   App.activeWidget (fst r) = App.activeWidget Samples.navCooling).
Proof.
  cbv zeta. split; [|split; [|split]].
  - vm_compute. repeat split; try reflexivity. discriminate.
  - repeat split; vm_compute; reflexivity.
  - repeat split; vm_compute; reflexivity.
  - split; vm_compute; reflexivity.
Qed.

(** At 501ms a displacement of 0.16 fires nothing in the fitting room
    and the window restarts from the current position. *)
Lemma swipe_fires_iff_threshold_within_window_witness :
  snd (FittingRoom.processLandmarks 501 (Some (Hands.openHand 0.66))
         Samples.catalogTracking) = [] /\
  FittingRoom.swipeState
    (FittingRoom.refs
       (fst (FittingRoom.processLandmarks 501 (Some (Hands.openHand 0.66))
               Samples.catalogTracking))) =
    {| FittingRoom.startX := 0.66; FittingRoom.startTime := 501;
       FittingRoom.isTracking := true |}.
Proof.
  refine (proj2 (proj2 (proj2 (proj2 (proj2
    (proj1 swipe_fires_iff_threshold_within_window 501
       (Hands.openHand 0.66) Samples.catalogTracking
       eq_refl eq_refl (or_introl eq_refl) _ eq_refl))))) _).
  - vm_compute. discriminate.
  - vm_compute. discriminate.
Defined.

(** The two boundary cases of the claim, in both interpreters: 0.149
    inside the window fires nothing, and leaves the window as it is. *)
Example displacement_0149_does_not_fire :
  FittingRoom.processLandmarks 400 (Some (Hands.openHand 0.649))
    Samples.catalogTracking = (Samples.catalogTracking, []) /\
  snd (App.onResults 400 (Some (Hands.openHand 0.649)) Samples.navTracking) = [] /\
  App.gestureState
    (fst (App.onResults 400 (Some (Hands.openHand 0.649)) Samples.navTracking))
  = App.gestureState Samples.navTracking.
Proof. vm_compute. repeat split; reflexivity. Qed.

(** A displacement of 0.16 inside the window fires, in both. *)
Example displacement_016_fires_in_window :
  snd (FittingRoom.processLandmarks 400 (Some (Hands.openHand 0.66))
         Samples.catalogTracking) = [FittingRoom.GoPrevCalled] /\
  snd (App.onResults 400 (Some (Hands.openHand 0.66)) Samples.navTracking)
  = [App.PrevWidgetCalled].
Proof. vm_compute. split; reflexivity. Qed.

End OnSamples.

End SwipeClaim.

(** ** Data URLs *)

Module DataUrlFacts.
Import Ascii DataUrl.

Local Open Scope string_scope.

Lemma allChars_app (p : ascii -> bool) (a b : string) :
  allChars p (a ++ b) = allChars p a && allChars p b.
Proof.
  induction a as [|c a IH]; cbn; [reflexivity|].
  rewrite IH. apply andb_assoc.
Qed.

Lemma split_nonempty (sep : ascii) (s : string) : split sep s <> [].
Proof.
  destruct s as [|c s]; cbn; [discriminate|].
  destruct (Ascii.eqb c sep); [discriminate|].
  destruct (split sep s); discriminate.
Qed.

Lemma split_noComma (s : string) :
  noComma s = true -> split "," s = [s].
Proof.
  unfold noComma.
  induction s as [|c s IH]; cbn; [reflexivity|].
  intros H. apply andb_prop in H. destruct H as [Hc Hs].
  apply negb_true_iff in Hc. rewrite Hc, (IH Hs). reflexivity.
Qed.

Lemma split_at_comma (p d : string) :
  noComma p = true -> split "," (p ++ String "," d) = p :: split "," d.
Proof.
  unfold noComma.
  induction p as [|c p IH]; cbn; [reflexivity|].
  intros H. apply andb_prop in H. destruct H as [Hc Hp].
  apply negb_true_iff in Hc. rewrite Hc, (IH Hp). reflexivity.
Qed.

(** Every piece of a split is free of the separator. *)
Lemma split_pieces (s : string) :
  Forall (fun p => noComma p = true) (split "," s).
Proof.
  induction s as [|c s IH]; cbn.
  - repeat constructor.
  - destruct (Ascii.eqb c ",") eqn:E.
    + constructor; [reflexivity|exact IH].
    + destruct (split "," s) as [|p ps].
      * repeat constructor. cbn. rewrite E. reflexivity.
      * inversion IH as [|? ? Hp Hps]; subst.
        constructor; [|exact Hps]. unfold noComma in *. cbn. rewrite E, Hp. reflexivity.
Qed.

(** More than one piece exactly when the separator occurs. *)
Lemma split_one_piece (s : string) :
  nth_error (split "," s) 1 = None <-> noComma s = true.
Proof.
  unfold noComma.
  induction s as [|c s IH]; cbn; [tauto|].
  destruct (Ascii.eqb c ",") eqn:E; cbn.
  - pose proof (split_nonempty "," s) as Hne.
    destruct (split "," s); [congruence|]. cbn. split; discriminate.
  - destruct (split "," s) as [|p ps]; cbn in *; [tauto|exact IH].
Qed.

Lemma prefix_head (a c : ascii) (s r : string) :
  a <> c -> String.prefix (String a s) (String c r) = false.
Proof.
  intros H. cbn. destruct (ascii_dec a c); [contradiction|reflexivity].
Qed.

Lemma mediaTypeChar_code (c : ascii) :
  mediaTypeChar c = true ->
  (33 <= nat_of_ascii c <= 126)%nat /\ c <> ","%char /\ c <> ";"%char.
Proof.
  unfold mediaTypeChar. intros H.
  apply andb_prop in H. destruct H as [H Hs].
  apply andb_prop in H. destruct H as [H Hc].
  apply andb_prop in H. destruct H as [Hlo Hhi].
  apply Nat.leb_le in Hlo. apply Nat.leb_le in Hhi.
  apply negb_true_iff in Hs, Hc.
  apply Ascii.eqb_neq in Hs, Hc. repeat split; assumption.
Qed.

Lemma mediaTypeChar_no_terminator (c : ascii) (r : string) :
  mediaTypeChar c = true -> lineTerminatorAt (String c r) = false.
Proof.
  intros H. apply mediaTypeChar_code in H. destruct H as [[Hlo Hhi] _].
  unfold lineTerminatorAt, LS, PS.
  rewrite !prefix_head; [reflexivity| | | |];
    intros E; subst c; vm_compute in Hlo, Hhi; lia.
Qed.

Lemma lazyToSemicolon_media (m rest : string) :
  isMediaType m = true ->
  lazyToSemicolon (m ++ String ";" rest) = Some m.
Proof.
  induction m as [|c m IH]; intros H.
  - reflexivity.
  - cbn in H. apply andb_prop in H. destruct H as [Hc Hm].
    change ((String c m ++ String ";" rest))
      with (String c (m ++ String ";" rest)).
    cbn [lazyToSemicolon].
    rewrite (mediaTypeChar_no_terminator c _ Hc).
    apply mediaTypeChar_code in Hc. destruct Hc as (_ & _ & Hs).
    apply Ascii.eqb_neq in Hs. rewrite Hs, (IH Hm). reflexivity.
Qed.

Lemma isMediaType_noComma (m : string) :
  isMediaType m = true -> noComma m = true.
Proof.
  unfold isMediaType, noComma.
  induction m as [|c m IH]; cbn; [reflexivity|].
  intros H. apply andb_prop in H. destruct H as [Hc Hm].
  apply mediaTypeChar_code in Hc. destruct Hc as (_ & Hc & _).
  apply Ascii.eqb_neq in Hc. rewrite Hc, (IH Hm). reflexivity.
Qed.

(** The text captured by [(.*?);] holds no semicolon. *)
Lemma lazyToSemicolon_capture (s m : string) :
  lazyToSemicolon s = Some m ->
  allChars (fun c => negb (Ascii.eqb c ";")) m = true /\
  (noComma s = true -> noComma m = true).
Proof.
  unfold noComma.
  revert m. induction s as [|c s IH]; intros m; cbn [lazyToSemicolon].
  - discriminate.
  - destruct (Ascii.eqb c ";") eqn:E.
    + intros [= <-]. split; reflexivity.
    + destruct (lineTerminatorAt (String c s)); [discriminate|].
      destruct (lazyToSemicolon s) as [m'|]; [|discriminate].
      intros [= <-]. destruct (IH m' eq_refl) as [H1 H2].
      split.
      * cbn. rewrite E, H1. reflexivity.
      * cbn. intros H. apply andb_prop in H. destruct H as [Hc Hs].
        rewrite Hc, (H2 Hs). reflexivity.
Qed.

Lemma matchMime_capture (s m : string) :
  matchMime s = Some m ->
  allChars (fun c => negb (Ascii.eqb c ";")) m = true /\
  (noComma s = true -> noComma m = true).
Proof.
  revert m. induction s as [|c s IH]; intros m; cbn [matchMime].
  - discriminate.
  - unfold noComma in *.
    assert (Hrest : matchMime s = Some m ->
              allChars (fun c => negb (Ascii.eqb c ";")) m = true /\
              (allChars (fun c => negb (Ascii.eqb c ",")) (String c s) = true ->
               allChars (fun c => negb (Ascii.eqb c ",")) m = true)).
    { intros H. destruct (IH m H) as [H1 H2]. split; [exact H1|].
      cbn. intros H3. apply andb_prop in H3. tauto. }
    destruct (Ascii.eqb c ":"); [|exact Hrest].
    destruct (lazyToSemicolon s) as [m'|] eqn:E; [|exact Hrest].
    intros [= <-]. destruct (lazyToSemicolon_capture s m' E) as [H1 H2].
    split; [exact H1|]. cbn. intros H3. apply andb_prop in H3. tauto.
Qed.

(** Round trip: the data URL [data:<type>;base64,<data>] (what
    [canvas.toDataURL] yields and what [generateLook] builds) is taken
    apart by [dataUrlToBase64] into the very type and data it was made
    of, for a media type of printable ASCII characters without comma
    and semicolon, and data without a comma. *)
Theorem dataUrlToBase64_round_trip (type payload : string) :
  isMediaType type = true ->
  noComma payload = true ->
  dataUrlToBase64 (GenerateLook.dataUrlOf type payload)
    = {| data := Some payload; mimeType := type |}.
Proof.
  intros Ht Hp. unfold dataUrlToBase64, GenerateLook.dataUrlOf.
  assert (Hurl : "data:" ++ type ++ ";base64," ++ payload
                 = ("data:" ++ type ++ ";base64") ++ String "," payload).
  { cbn. do 5 f_equal. clear Ht. induction type as [|c t IH]; cbn; [reflexivity|].
    f_equal. apply IH. }
  rewrite Hurl, split_at_comma, (split_noComma payload Hp).
  - cbn [nth nth_error]. f_equal.
    change ("data:" ++ type ++ ";base64")
      with (String "d" (String "a" (String "t" (String "a"
              (String ":" (type ++ String ";" "base64")))))).
    cbn [matchMime]. cbn [Ascii.eqb Bool.eqb].
    rewrite (lazyToSemicolon_media type "base64" Ht). reflexivity.
  - change ("data:" ++ type ++ ";base64")
      with (String "d" (String "a" (String "t" (String "a"
              (String ":" (type ++ ";base64")))))).
    pose proof (isMediaType_noComma type Ht) as Hn.
    unfold noComma in *. cbn. rewrite allChars_app, Hn. reflexivity.
Qed.

Lemma dataUrlToBase64_round_trip_witness :
  dataUrlToBase64 "data:image/jpeg;base64,AAAA"
    = {| data := Some "AAAA"; mimeType := "image/jpeg" |}.
Proof.
  exact (dataUrlToBase64_round_trip "image/jpeg" "AAAA" eq_refl eq_refl).
Defined.

(** Whatever the string, [dataUrlToBase64] returns fields free of the
    separators: [data] is [undefined] exactly when the string holds no
    comma and holds no comma itself otherwise; [mimeType] holds neither
    a comma nor a semicolon; it is [image/jpeg] when the header has no
    [:...;]. *)
Theorem dataUrlToBase64_fields (dataUrl : string) :
  let r := dataUrlToBase64 dataUrl in
  (data r = None <-> noComma dataUrl = true) /\
  (forall d, data r = Some d -> noComma d = true) /\
  allChars (fun c => negb (Ascii.eqb c ";")) (mimeType r) = true /\
  noComma (mimeType r) = true /\
  (matchMime (nth 0 (split "," dataUrl) "") = None ->
   mimeType r = "image/jpeg").
Proof.
  cbn zeta. unfold dataUrlToBase64. cbn [data mimeType].
  pose proof (split_pieces dataUrl) as Hall.
  split; [apply split_one_piece|].
  split.
  { intros d Hd. apply nth_error_In in Hd.
    rewrite List.Forall_forall in Hall. exact (Hall d Hd). }
  assert (Hh : noComma (nth 0 (split "," dataUrl) "") = true).
  { pose proof (split_nonempty "," dataUrl) as Hne.
    destruct (split "," dataUrl) as [|h t]; [congruence|].
    inversion Hall; subst. assumption. }
  destruct (matchMime (nth 0 (split "," dataUrl) "")) as [m|] eqn:E.
  - destruct (matchMime_capture _ m E) as [H1 H2].
    repeat split; [exact H1|exact (H2 Hh)|discriminate].
  - repeat split; reflexivity.
Qed.

(** Parameters of the media type are dropped, an empty type is kept,
    a string that is no data URL gets the default type and no data. *)
Example dataUrlToBase64_samples :
  dataUrlToBase64 "data:text/plain;charset=utf-8;base64,SGk="
    = {| data := Some "SGk="; mimeType := "text/plain" |} /\
  dataUrlToBase64 "data:;base64,SGk="
    = {| data := Some "SGk="; mimeType := "" |} /\
  dataUrlToBase64 "hello"
    = {| data := None; mimeType := "image/jpeg" |} /\
  dataUrlToBase64 "data:image/png,a,b"
    = {| data := Some "a"; mimeType := "image/jpeg" |}.
Proof. vm_compute. repeat split; reflexivity. Qed.

End DataUrlFacts.

(** ** The image of a model response *)

Module GenerateLookFacts.
Import Imagen GenerateLook.

Local Open Scope string_scope.
Local Open Scope list_scope.

Lemma truthy_Some (s : option string) :
  truthy s = true <-> exists payload, s = Some payload /\ payload <> "".
Proof.
  destruct s as [[|c r]|]; cbn; split; try discriminate.
  - intros (p & [= <-] & H). congruence.
  - intros _. eexists. split; [reflexivity|discriminate].
  - reflexivity.
  - intros (p & H & _). discriminate.
Qed.

(** The loop returns the data URL of the first part that holds an
    image, and nothing when no part does. *)
Lemma firstImage_spec (parts : list Part) (dataUrl : string) :
  firstImage parts = Some dataUrl <->
  exists before part after blob payload,
    parts = before ++ part :: after /\
    forallb (fun p => negb (hasImage p)) before = true /\
    inlineData part = Some blob /\
    data blob = Some payload /\ payload <> "" /\
    dataUrl = dataUrlOf (interpolate (mimeType blob)) payload.
Proof.
  induction parts as [|p parts IH]; cbn [firstImage].
  - split; [discriminate|].
    intros (before & ? & ? & ? & ? & H & _). destruct before; discriminate.
  - split.
    + destruct (inlineData p) as [blob|] eqn:Eb.
      * destruct (truthy (data blob)) eqn:Et.
        -- intros [= <-]. apply truthy_Some in Et.
           destruct Et as (payload & Hd & Hne).
           exists [], p, parts, blob, payload.
           rewrite Hd. cbn. auto 10.
        -- intros H. apply IH in H.
           destruct H as (before & part & after & b & payload & -> & Hb & H).
           exists (p :: before), part, after, b, payload.
           split; [reflexivity|]. split; [|exact H].
           cbn. unfold hasImage at 1. rewrite Eb, Et. exact Hb.
      * intros H. apply IH in H.
        destruct H as (before & part & after & b & payload & -> & Hb & H).
        exists (p :: before), part, after, b, payload.
        split; [reflexivity|]. split; [|exact H].
        cbn. unfold hasImage at 1. rewrite Eb. exact Hb.
    + intros (before & part & after & blob & payload & Hp & Hb & Hi & Hd & Hne & ->).
      destruct before as [|q before]; cbn in Hp; inversion Hp; subst.
      * rewrite Hi.
        assert (Ht : truthy (data blob) = true)
          by (apply truthy_Some; eauto).
        rewrite Ht, Hd. reflexivity.
      * cbn in Hb. apply andb_prop in Hb. destruct Hb as [Hq Hb].
        apply negb_true_iff in Hq. unfold hasImage in Hq.
        assert (Hrest : firstImage (before ++ part :: after)
                        = Some (dataUrlOf (interpolate (mimeType blob)) payload)).
        { apply IH. exists before, part, after, blob, payload. auto 10. }
        destruct (inlineData q) as [bq|]; [rewrite Hq|]; exact Hrest.
Qed.

(** [generateLook] resolves exactly when the catalog image was
    fetched, the model answered with parts, and some part holds inline
    data; it then resolves with the data URL of the first such part
    (and rejects in every other case, a call settling in one of the
    two ways). *)
Theorem generateLook_resolves_with_first_image (net : Network) (dataUrl : string) :
  generateLook net = Resolved dataUrl <->
  outfitFetched net = true /\
  exists parts before part after blob payload,
    response net = Some (Some parts) /\
    parts = before ++ part :: after /\
    forallb (fun p => negb (hasImage p)) before = true /\
    inlineData part = Some blob /\
    data blob = Some payload /\ payload <> "" /\
    dataUrl = dataUrlOf (interpolate (mimeType blob)) payload.
Proof.
  unfold generateLook, imageOfResponse. split.
  - destruct (outfitFetched net); [|discriminate].
    destruct (response net) as [[parts|]|]; try discriminate.
    destruct (firstImage parts) as [u|] eqn:E; [|discriminate].
    intros [= <-]. split; [reflexivity|].
    apply firstImage_spec in E.
    destruct E as (before & part & after & blob & payload & H).
    exists parts, before, part, after, blob, payload. tauto.
  - intros (Hf & parts & before & part & after & blob & payload & Hr & H).
    rewrite Hf, Hr.
    assert (E : firstImage parts
                = Some (dataUrlOf (interpolate (mimeType blob)) payload)).
    { apply firstImage_spec. exists before, part, after, blob, payload.
      tauto. }
    rewrite E. f_equal. symmetry. tauto.
Qed.

(** A text part before the image is skipped, the first of two images
    wins, a missing media type is spelled [undefined]; a response of
    text only, an empty image, no parts at all, a failed fetch: all
    reject. *)
Example generateLook_samples :
  let image m d := {| inlineData := Some {| mimeType := m; data := Some d |};
                      text := None |} in
  let words := {| inlineData := None; text := Some "here is your look" |} in
  let net parts := {| outfitFetched := true; response := Some parts |} in
  generateLook (net (Some [words; image (Some "image/png") "AAAA";
                           image (Some "image/jpeg") "BBBB"]))
    = Resolved "data:image/png;base64,AAAA" /\
  generateLook (net (Some [image None "AAAA"]))
    = Resolved "data:undefined;base64,AAAA" /\
  generateLook (net (Some [words])) = Rejected /\
  generateLook (net (Some [image (Some "image/png") ""])) = Rejected /\
  generateLook (net (Some [])) = Rejected /\
  generateLook (net None) = Rejected /\
  generateLook {| outfitFetched := true; response := None |} = Rejected /\
  generateLook {| outfitFetched := false;
                  response := Some (Some [image (Some "image/png") "AAAA"]) |}
    = Rejected.
Proof. vm_compute. repeat split; reflexivity. Qed.

Lemma firstImage_nonEmpty (parts : list Part) (dataUrl : string) :
  firstImage parts = Some dataUrl -> Screen.nonEmpty dataUrl = true.
Proof.
  induction parts as [|p parts IH]; cbn [firstImage]; [discriminate|].
  destruct (inlineData p) as [blob|]; [|exact IH].
  destruct (truthy (data blob)); [|exact IH].
  intros [= <-]. reflexivity.
Qed.

Lemma generateLook_image_nonEmpty (net : Network) (dataUrl : string) :
  generateLook net = Resolved dataUrl -> Screen.nonEmpty dataUrl = true.
Proof.
  unfold generateLook, imageOfResponse.
  destruct (outfitFetched net); [|discriminate].
  destruct (response net) as [[parts|]|]; try discriminate.
  destruct (firstImage parts) as [u|] eqn:E; [|discriminate].
  intros [= <-]. exact (firstImage_nonEmpty parts u E).
Qed.

End GenerateLookFacts.

(** ** The generation batch *)

Module BatchFacts.
Import Catalog GenerateLook Imagen Invariant.

Local Open Scope string_scope.

Lemma memb_In (i : nat) (l : list nat) : memb i l = true <-> In i l.
Proof.
  unfold memb. rewrite existsb_exists. split.
  - intros (j & Hj & He). apply Nat.eqb_eq in He. subst. exact Hj.
  - intros H. exists i. split; [exact H|apply Nat.eqb_refl].
Qed.

Lemma memb_remove (i j : nat) (l : list nat) :
  memb j (List.filter (fun k => negb (Nat.eqb k i)) l)
  = memb j l && negb (Nat.eqb j i).
Proof.
  apply eq_true_iff_eq.
  rewrite andb_true_iff, !memb_In, filter_In, negb_true_iff. reflexivity.
Qed.

Lemma startBatch_ok (n : nat) (photo : string) (it : ClothingItem) :
  batchOK (startBatch n photo it).
Proof.
  constructor; cbn.
  - apply length_map.
  - intros i s Hs. left. split.
    + apply memb_In, in_seq. apply lookup_lt_Some in Hs. lia.
    + rewrite list_lookup_fmap, Hs. reflexivity.
  - intros i Hi. apply memb_In, in_seq in Hi. lia.
Qed.

Lemma settleCall_inv (index : nat) (net : Network) (b b' : Batch) :
  settleCall index net b = Some b' ->
  exists s, memb index (pending b) = true /\
    scenes (bitem b) !! index = Some s /\
    b' = {| bid := bid b; userPhotoDataUrl := userPhotoDataUrl b;
            bitem := bitem b;
            bresults := <[index := settledLook s (generateLook net)]>
                          (bresults b);
            pending := List.filter (fun j => negb (Nat.eqb j index)) (pending b) |}.
Proof.
  unfold settleCall. destruct (memb index (pending b)); [|discriminate].
  destruct (scenes (bitem b) !! index) as [s|]; [|discriminate].
  intros H. inversion H. exists s. auto.
Qed.

Lemma settleCall_ok (index : nat) (net : Network) (b b' : Batch) :
  batchOK b -> settleCall index net b = Some b' ->
  batchOK b' /\ bitem b' = bitem b /\ bid b' = bid b.
Proof.
  intros [Hlen Hslots Hpend] H.
  apply settleCall_inv in H. destruct H as (s & Hm & Hs & ->).
  split; [|split; reflexivity].
  constructor; cbn [bresults pending bitem].
  - rewrite length_insert. exact Hlen.
  - intros i s' Hs'. rewrite memb_remove.
    destruct (Nat.eqb i index) eqn:E.
    + apply Nat.eqb_eq in E. subst i. right. split.
      * rewrite andb_false_r. reflexivity.
      * exists net. rewrite Hs in Hs'. inversion Hs'. subst s'.
        apply list_lookup_insert_eq. rewrite Hlen.
        apply lookup_lt_Some in Hs. exact Hs.
    + apply Nat.eqb_neq in E. rewrite andb_true_r.
      rewrite list_lookup_insert_ne by congruence.
      apply Hslots. exact Hs'.
  - intros i Hi. rewrite memb_remove in Hi.
    apply andb_true_iff in Hi. apply Hpend. tauto.
Qed.

(** A batch with no unsettled call holds a settled result set. *)
Lemma allSettled_looksSettled (b : Batch) :
  batchOK b -> allSettled b = true ->
  looksSettled (scenes (bitem b)) (bresults b).
Proof.
  intros [Hlen Hslots Hpend] H. unfold allSettled in H.
  destruct (pending b) eqn:E; [|discriminate].
  split; [exact Hlen|].
  intros i s Hs. destruct (Hslots i s Hs) as [[Hm _]|[_ Ho]].
  - rewrite ?E in Hm. discriminate.
  - exact Ho.
Qed.

(** The look of a settled call: not loading, in its scene, and either
    the image the call resolved with, which is not empty, and no error,
    or no image and the error message. *)
Lemma settledLook_settled (s : Scene) (net : Network) :
  let look := settledLook s (generateLook net) in
  settled look /\ scene look = s /\
  match generateLook net with
  | Resolved imageDataUrl =>
      look = {| scene := s; imageBase64 := imageDataUrl; isLoading := false;
                error := None |} /\ imageDataUrl <> ""
  | Rejected =>
      look = {| scene := s; imageBase64 := ""; isLoading := false;
                error := Some generationError |}
  end.
Proof.
  cbv zeta. destruct (generateLook net) as [img|] eqn:E; cbn.
  - assert (Hne : img <> "").
    { apply GenerateLookFacts.generateLook_image_nonEmpty in E.
      intros ->. discriminate. }
    split; [|split; [reflexivity|split; [reflexivity|exact Hne]]].
    split; [reflexivity|]. left. split; [exact Hne|reflexivity].
  - split; [|split; reflexivity].
    split; [reflexivity|]. right. split; reflexivity.
Qed.

End BatchFacts.

(** ** The invariant holds in every reachable state *)

Module InvariantFacts.
Import Catalog GenerateLook Imagen FittingRoom Invariant.

Arguments catalogAt : simpl never.
Arguments catalogLength : simpl never.

Section AnyEngine.
Context {engine : Engine}.

Lemma phase_eqb_eq (p q : FittingRoomPhase) : phase_eqb p q = true <-> p = q.
Proof. destruct p, q; simpl; split; congruence. Qed.

Lemma phase_eqb_neq (p q : FittingRoomPhase) : phase_eqb p q = false <-> p <> q.
Proof. destruct p, q; simpl; split; congruence. Qed.

Lemma countdown_eqb_eq (a b : option Z) : countdown_eqb a b = true <-> a = b.
Proof.
  destruct a, b; simpl; split; try congruence.
  - intros H. apply Z.eqb_eq in H. congruence.
  - intros H. inversion H. apply Z.eqb_refl.
Qed.

Lemma commit_unchanged (now : Z) (cam : option string) (before st : FR) :
  countdown (view st) = countdown (view before) ->
  commit now cam before st = st.
Proof.
  intros H. unfold commit.
  rewrite (proj2 (countdown_eqb_eq _ _)) by congruence. reflexivity.
Qed.

Lemma Inv_initial : Inv initial.
Proof.
  constructor; simpl; try (intros; contradiction); try discriminate; try lia;
    try reflexivity; try (intros; discriminate).
  all: try (unfold catalogLength; simpl; lia).
  all: intros; try reflexivity.
Qed.

Lemma Inv_core (a b : FR) : sameCore a b -> Inv a -> Inv b.
Proof.
  destruct a as [[] [] []], b as [[] [] []]. unfold sameCore. simpl.
  intros (?&?&?&?&?&?&?&?&?&?&?&?). subst.
  intros []. constructor; assumption.
Qed.

Lemma catalogLength_pos : 0 < catalogLength.
Proof. unfold catalogLength. simpl. lia. Qed.

End AnyEngine.

(** Membership in the timers after one more [setTimeout]. *)
Ltac new_timer H :=
  apply in_app_iff in H; simpl In in H;
  destruct H as [H|[H|[]]]; [|subst].

Ltac break_in :=
  repeat match goal with
  | H : In _ (_ ++ [_]) |- _ =>
      apply in_app_iff in H; simpl In in H; destruct H as [H|[H|[]]]; [|subst]
  | H : In _ (List.filter _ _) |- _ =>
      apply filter_In in H; destruct H as [H ?]
  end.

Ltac open_inv H :=
  destruct H as [Hids Hdelay Hoff Hone Htick Hcd Hb Hgen Hres Hidx Hth
                 Hfl Hfo Hlate Hord].

Section AnyEngine.
Context {engine : Engine}.

(** Dropping timers keeps the invariant. *)
Lemma Inv_drop_timers (f : Timer -> bool) (st : FR) :
  Inv st -> Inv (set_timers (List.filter f (timers (runtime st))) st).
Proof.
  intros HI. open_inv HI. constructor; cbn; auto.
  - intros t Ht. apply filter_In in Ht. apply Hids. tauto.
  - intros t Ht. apply filter_In in Ht. apply Hdelay. tauto.
  - intros Hc t Ht. apply filter_In in Ht. apply Hoff; tauto.
  - intros t t' Ht Ht'. apply filter_In in Ht, Ht'. apply Hone; tauto.
  - intros t Ht. apply filter_In in Ht. apply Htick. tauto.
  - intros Hp t Ht. apply filter_In in Ht. apply Hlate; tauto.
  - intros t t' Ht Ht'. apply filter_In in Ht, Ht'. apply Hord; tauto.
Qed.

Lemma Inv_clearTimeout (t : option nat) (st : FR) :
  Inv st -> Inv (clearTimeout t st).
Proof.
  destruct t; [apply Inv_drop_timers|auto].
Qed.

End AnyEngine.

Ltac use_ids :=
  repeat match goal with
  | Hids : forall t, In t (timers _) -> (tid t < _)%nat,
    H : In ?t (timers _) |- _ =>
      lazymatch goal with
      | _ : (tid t < _)%nat |- _ => fail
      | _ => pose proof (Hids _ H)
      end
  end.

Ltac inv_simpl := constructor; cbn; intros; break_in; cbn in *; use_ids.

Ltac inv_solve :=
  try solve [ eauto | discriminate | congruence | lia
            | split; discriminate | split; intro; congruence
            | exfalso; eauto ].

Section AnyEngine.
Context {engine : Engine}.

Lemma Inv_goNext_like (now : Z) (f : Z -> Z) (st : FR) :
  (forall p, 0 <= p < catalogLength -> 0 <= f p < catalogLength) ->
  catalogCooldown (refs st) = false ->
  phase (view st) = catalog ->
  Inv st ->
  Inv (setTimeout now 800 ClearCatalogCooldown
         (setCurrentIndex f (set_catalogCooldown true st))).
Proof.
  intros Hf Hc Hp HI. open_inv HI. inv_simpl; inv_solve.
  all: exfalso; eapply Hoff; eauto.
Qed.

Lemma Inv_goNext (now : Z) (st : FR) : Inv st -> Inv (goNext now st).
Proof.
  intros HI. unfold goNext.
  destruct (catalogCooldown (refs st)) eqn:Ec; simpl; [exact HI|].
  destruct (phase_eqb (phase (view st)) catalog) eqn:Ep; simpl; [|exact HI].
  apply phase_eqb_eq in Ep.
  apply Inv_goNext_like; auto.
  intros p Hp. pose proof catalogLength_pos.
  pose proof (Z.rem_bound_pos (p + 1) catalogLength). lia.
Qed.

Lemma Inv_goPrev (now : Z) (st : FR) : Inv st -> Inv (goPrev now st).
Proof.
  intros HI. unfold goPrev.
  destruct (catalogCooldown (refs st)) eqn:Ec; simpl; [exact HI|].
  destruct (phase_eqb (phase (view st)) catalog) eqn:Ep; simpl; [|exact HI].
  apply phase_eqb_eq in Ep.
  apply Inv_goNext_like; auto.
  intros p Hp. pose proof catalogLength_pos.
  pose proof (Z.rem_bound_pos (p - 1 + catalogLength) catalogLength). lia.
Qed.


(** After the cleanup of the countdown effect no tick is pending. *)
Lemma Inv_cleanup (st : FR) :
  Inv st ->
  Inv (set_countdownTimer None (clearTimeout (countdownTimer (runtime st)) st)) /\
  forall t,
    In t (timers (runtime (clearTimeout (countdownTimer (runtime st)) st))) ->
    action t <> CountdownTick.
Proof.
  intros HI.
  assert (Hno : forall t,
    In t (timers (runtime (clearTimeout (countdownTimer (runtime st)) st))) ->
    action t <> CountdownTick).
  { open_inv HI. intros t Ht Ha.
    destruct (countdownTimer (runtime st)) as [n|] eqn:En; cbn in Ht; break_in.
    - destruct (Htick _ Ht Ha) as (_ & Hn & _). inversion Hn. subst n.
      rewrite Nat.eqb_refl in H. discriminate.
    - destruct (Htick _ Ht Ha) as (_ & Hn & _). discriminate. }
  split; [|exact Hno].
  pose proof (Inv_clearTimeout (countdownTimer (runtime st)) st HI) as HI'.
  revert Hno. generalize dependent (clearTimeout (countdownTimer (runtime st)) st).
  intros st1 HI1 Hno. open_inv HI1. inv_simpl; inv_solve.
  exfalso. eapply Hno; eauto.
Qed.

Lemma Inv_startGeneration (photo : string) (st : FR) :
  Inv st ->
  countdown (view st) = Some 0 ->
  (forall t, In t (timers (runtime st)) -> action t <> CountdownTick) ->
  Inv (startGeneration photo
         (setCountdown (fun _ => None) (setCapturedPhoto (Some photo) st))).
Proof.
  intros HI Hc Hno. open_inv HI.
  destruct (Hcd _ Hc) as [Hp _].
  assert (Hbs : batches (runtime st) = []) by (apply Hb; congruence).
  assert (Hpost : forall t, In t (timers (runtime st)) ->
                            action t <> ClearPostResetCooldown).
  { apply Hlate. right. right. exists 0. split; [exact Hc|lia]. }
  inv_simpl; inv_solve.
  - exfalso. eapply Hno; eauto.
  - rewrite Hbs. cbn. eexists. split; [reflexivity|].
    split; [reflexivity|]. split; [reflexivity|]. split; [reflexivity|].
    apply BatchFacts.startBatch_ok.
  - apply Hfo. congruence.
Qed.

Lemma Inv_countdownEffect (now : Z) (cam : option string) (st : FR) :
  Inv st -> Inv (countdownEffect now cam st).
Proof.
  intros HI. unfold countdownEffect.
  destruct (Inv_cleanup st HI) as [HI1 Hno].
  assert (Hno1 : forall t,
    In t (timers (runtime (set_countdownTimer None
            (clearTimeout (countdownTimer (runtime st)) st)))) ->
    action t <> CountdownTick) by exact Hno.
  clear Hno. revert HI1 Hno1.
  generalize (set_countdownTimer None
                (clearTimeout (countdownTimer (runtime st)) st)).
  clear st HI. intros st HI Hno.
  destruct (countdown (view st)) as [c|] eqn:Ec; [|exact HI].
  destruct (c =? 0) eqn:E0.
  - apply Z.eqb_eq in E0. subst c. unfold takePhoto.
    destruct cam as [photo|]; [|exact HI].
    apply Inv_startGeneration; assumption.
  - apply Z.eqb_neq in E0. open_inv HI.
    destruct (Hcd _ Ec) as [Hp Hr].
    inv_simpl; inv_solve.
    + exfalso. eapply Hno; eauto.
    + repeat split; auto. exists c. split; [assumption|lia].
Qed.

Lemma Inv_commit (now : Z) (cam : option string) (before st : FR) :
  Inv st -> Inv (commit now cam before st).
Proof.
  intros HI. unfold commit.
  destruct (countdown_eqb _ _); [exact HI|].
  destruct (countdown_eqb _ _); repeat apply Inv_countdownEffect; exact HI.
Qed.

Lemma Inv_set_clock (now : Z) (st : FR) : Inv st -> Inv (set_clock now st).
Proof. apply Inv_core. repeat split. Qed.


Lemma Inv_startCapture (st : FR) : Inv st -> Inv (startCapture st).
Proof.
  intros HI. unfold startCapture.
  destruct (phase_eqb (phase (view st)) catalog) eqn:Ep; simpl; [|exact HI].
  apply phase_eqb_eq in Ep. open_inv HI.
  unfold COUNTDOWN_SECONDS. inv_simpl; inv_solve.
  - destruct (Htick _ H H0) as (Hp & _). congruence.
  - inversion H. subst. split; [reflexivity|lia].
  - apply Hb. congruence.
  - apply Hfo. congruence.
  - destruct H as [H|[H|(c & H & Hc)]]; try discriminate.
    inversion H. lia.
Qed.

Lemma Inv_arm_cooldown (now d : Z) (st : FR) :
  catalogCooldown (refs st) = false ->
  Inv st ->
  Inv (setTimeout now d ClearCatalogCooldown (set_catalogCooldown true st)).
Proof.
  intros Hc HI. open_inv HI. inv_simpl; inv_solve.
  all: exfalso; eapply Hoff; eauto.
Qed.

Lemma startCapture_refs (st : FR) :
  refs (startCapture st) = refs st /\ runtime (startCapture st) = runtime st.
Proof.
  unfold startCapture. destruct (negb _); split; reflexivity.
Qed.

Lemma startCapture_set_catalogCooldown (b : bool) (st : FR) :
  startCapture (set_catalogCooldown b st)
  = set_catalogCooldown b (startCapture st).
Proof.
  unfold startCapture. cbn. destruct (negb _); reflexivity.
Qed.

(** The fist branch of the catalog phase, once the cooldown is off. *)
Lemma Inv_fistCapture (now : Z) (st : FR) :
  catalogCooldown (refs st) = false ->
  Inv st ->
  Inv (setTimeout now 1200 ClearCatalogCooldown
         (startCapture (set_catalogCooldown true st))).
Proof.
  intros Hc HI. rewrite startCapture_set_catalogCooldown.
  apply Inv_arm_cooldown.
  - rewrite (proj1 (startCapture_refs st)). exact Hc.
  - apply Inv_startCapture. exact HI.
Qed.

(** [reset] is invoked in the results phase, or on the catalog while
    the results screen is leaving. *)
Lemma Inv_reset (now : Z) (st : FR) :
  phase (view st) = results \/ phase (view st) = catalog ->
  Inv st -> Inv (reset now st).
Proof.
  intros Hp HI. open_inv HI. unfold reset. inv_simpl; inv_solve.
  all: try (apply Hb; destruct Hp; congruence).
  all: try match goal with
           | H : _ \/ _ \/ _ |- _ =>
               destruct H as [H|[H|(c & H & _)]]; discriminate
           end.
  all: match goal with
       | Hin : In ?u (timers _), Ha : action ?u = CountdownTick |- _ =>
           destruct (Htick _ Hin Ha) as (Hx & _); destruct Hp; congruence
       end.
Qed.

End AnyEngine.

Arguments sliceLast : simpl never.

Section AnyEngine.
Context {engine : Engine}.

Lemma sliceLast_length {A} (n : nat) (l : list A) :
  (length (sliceLast n l) <= n)%nat.
Proof. unfold sliceLast. rewrite length_skipn. lia. Qed.

End AnyEngine.

(** An update that leaves the cells of the invariant alone. *)
Ltac same_core HI := refine (Inv_core _ _ _ HI); repeat split.

Section AnyEngine.
Context {engine : Engine}.

Lemma Inv_catalogSwipe (now : Z) (lm : Geometry.HandLandmarks) (st : FR) :
  Inv st -> Inv (fst (catalogSwipe now lm st)).
Proof.
  intros HI. unfold catalogSwipe.
  destruct (negb _); [same_core HI|].
  destruct (_ <? 500); [|same_core HI].
  destruct (Qltb _ (-0.15)%Q).
  { pose proof (Inv_goNext now st HI) as H. cbn. same_core H. }
  destruct (Qltb 0.15%Q _).
  { pose proof (Inv_goPrev now st HI) as H. cbn. same_core H. }
  exact HI.
Qed.

Lemma Inv_processCatalog (now : Z) (lm : option Geometry.HandLandmarks) (st : FR) :
  Inv st -> Inv (fst (processCatalog now lm st)).
Proof.
  intros HI. unfold processCatalog.
  destruct lm as [lm|]; [|same_core HI].
  destruct (postResetCooldown (refs st)); [exact HI|].
  unfold openHandGate.
  assert (Hgate : forall b, Inv (set_requireOpenHandAfterReset b st))
    by (intros b; same_core HI).
  destruct (requireOpenHandAfterReset (refs st)).
  - destruct (3 <=? _); [|exact HI].
    destruct (_ =? 0); [|apply Inv_catalogSwipe; apply Hgate].
    cbn [negb catalogCooldown refs stopTracking set_swipeState with_refs
         set_requireOpenHandAfterReset].
    destruct (catalogCooldown (refs st)) eqn:Ec; cbn [negb fst].
    + same_core HI.
    + apply Inv_fistCapture; [exact Ec|]. same_core HI.
  - destruct (_ =? 0); [|apply Inv_catalogSwipe; exact HI].
    cbn [negb catalogCooldown refs stopTracking set_swipeState with_refs].
    destruct (catalogCooldown (refs st)) eqn:Ec; cbn [negb fst].
    + same_core HI.
    + apply Inv_fistCapture; [exact Ec|]. same_core HI.
Qed.

Lemma Inv_processResults (now : Z) (lm : option Geometry.HandLandmarks) (st : FR) :
  phase (view st) = results ->
  Inv st -> Inv (fst (processResults now lm st)).
Proof.
  intros Hp HI. unfold processResults.
  destruct lm as [lm|].
  2:{ open_inv HI. inv_simpl; inv_solve. }
  destruct (Geometry.isThumbsUp lm).
  - cbn [thumbsUpBuffer refs set_thumbsUpBuffer with_refs set_fingerBuffer
         setLiveFingerCount setThumbsUpProgress with_view].
    unfold THUMBS_UP_FRAMES.
    destruct (10 <=? _) eqn:E; cbn [fst].
    + apply Inv_reset; [left; exact Hp|]. open_inv HI. inv_simpl; inv_solve.
    + apply Z.leb_gt in E. open_inv HI. inv_simpl; inv_solve.
  - destruct (_ && _).
    + cbn [selectedLookIndex view fingerBuffer refs set_thumbsUpBuffer with_refs
           set_fingerBuffer setLiveFingerCount setThumbsUpProgress with_view].
      assert (Hl : (length (sliceLast (FINGER_STABLE_FRAMES - 1)
                              (fingerBuffer (refs st)) ++
                            [Geometry.countExtendedFingers lm]) <= 8)%nat).
      { rewrite length_app. cbn [length].
        pose proof (sliceLast_length (FINGER_STABLE_FRAMES - 1)
                      (fingerBuffer (refs st))).
        unfold FINGER_STABLE_FRAMES in *. simpl in *. lia. }
      destruct (_ && _); cbn [fst]; open_inv HI; inv_simpl; inv_solve.
    + open_inv HI. inv_simpl; inv_solve.
Qed.

Lemma Inv_processLandmarks (now : Z) (lm : option Geometry.HandLandmarks)
    (st : FR) :
  Inv st -> Inv (fst (processLandmarks now lm st)).
Proof.
  intros HI. unfold processLandmarks.
  destruct (phase (view st)) eqn:Ep; try exact HI.
  - apply Inv_processCatalog; exact HI.
  - apply Inv_processResults; assumption.
Qed.


Lemma findTimer_Some (n : nat) (l : list Timer) (t : Timer) :
  findTimer n l = Some t -> In t l /\ tid t = n.
Proof.
  unfold findTimer. intros H. apply find_some in H.
  destruct H as [H1 H2]. apply Nat.eqb_eq in H2. auto.
Qed.

Lemma mayFire_blocks (now : Z) (t t' : Timer) (l : list Timer) :
  mayFire now t l = true -> In t' l ->
  (tid t' < tid t)%nat -> delay t' <= delay t -> False.
Proof.
  unfold mayFire. intros H Hin Hlt Hle.
  apply andb_true_iff in H. destruct H as [_ H].
  rewrite forallb_forall in H. specialize (H _ Hin).
  apply Nat.ltb_lt in Hlt. apply Z.leb_le in Hle.
  rewrite Hlt, Hle in H. discriminate.
Qed.

Lemma mayFire_due (now : Z) (t : Timer) (l : list Timer) :
  mayFire now t l = true -> due t <= now.
Proof.
  unfold mayFire. intros H. apply andb_true_iff in H.
  destruct H as [H _]. apply Z.leb_le. exact H.
Qed.

Lemma Inv_fire (now : Z) (n : nat) (t : Timer) (st : FR) :
  findTimer n (timers (runtime st)) = Some t ->
  mayFire now t (timers (runtime st)) = true ->
  Inv st -> Inv (fire t (clearTimeout (Some n) st)).
Proof.
  intros Hf Hm HI. apply findTimer_Some in Hf. destruct Hf as [Hin Hn].
  unfold fire. destruct (action t) eqn:Ea.
  - open_inv HI. inv_simpl; inv_solve.
    intros Ha0.
    match goal with
    | Hin0 : In ?u (timers _), Hneg : negb (tid ?u =? n)%nat = true |- _ =>
        rewrite (Hone u t Hin0 Hin Ha0 Ea), Hn, Nat.eqb_refl in Hneg
    end.
    discriminate.
  - pose proof (Inv_clearTimeout (Some n) st HI) as H. same_core H.
  - open_inv HI. destruct (Htick _ Hin Ea) as (Hp & Hct & c & Hc & Hr).
    assert (Hpost : forall t', In t' (timers (runtime st)) ->
                               action t' <> ClearPostResetCooldown).
    { intros t' Hin' Ha'.
      apply (mayFire_blocks now t t' _ Hm Hin').
      - apply Hord; assumption.
      - destruct (Hdelay _ Hin') as [Hd _]. destruct (Hdelay _ Hin) as [_ Hd'].
        rewrite Hd, Hd' by assumption. lia. }
    inv_simpl; rewrite ?Hc in *; inv_solve.
    + match goal with
      | Hin0 : In ?u (timers _), Ha0 : action ?u = CountdownTick,
        Hneg : negb (tid ?u =? n)%nat = true |- _ =>
          destruct (Htick _ Hin0 Ha0) as (_ & Hct' & _);
          rewrite Hct in Hct'; inversion Hct' as [Hct''];
          rewrite <- Hct'', Hn, Nat.eqb_refl in Hneg
      end.
      discriminate.
    + match goal with
      | Hs : Some _ = Some _ |- _ => inversion Hs
      end.
      split; [exact Hp|lia].
Qed.


Lemma findBatch_Some (n : nat) (l : list Batch) (b : Batch) :
  findBatch n l = Some b -> In b l /\ bid b = n.
Proof.
  unfold findBatch. intros H. apply find_some in H.
  destruct H as [H1 H2]. apply Nat.eqb_eq in H2. auto.
Qed.

(** A batch is in flight only while generating, and then it is the
    only one. *)
Lemma batch_in_flight (n : nat) (b : Batch) (st : FR) :
  Inv st -> findBatch n (batches (runtime st)) = Some b ->
  phase (view st) = generating /\ batches (runtime st) = [b] /\
  generatedLooks (view st) = bresults b /\
  bitem b = catalogAt (currentIndex (view st)) /\
  capturedPhoto (view st) = Some (userPhotoDataUrl b) /\
  batchOK b /\ bid b = n.
Proof.
  intros HI Hf. apply findBatch_Some in Hf. destruct Hf as [Hin Hn].
  destruct (phase (view st)) eqn:Ep;
    try (rewrite (inv_batches _ HI) in Hin by congruence; contradiction).
  destruct (inv_generating _ HI Ep) as (b0 & Hb0 & Hl & Hi & Hph & Hok).
  rewrite Hb0 in Hin. destruct Hin as [<-|[]]. auto 10.
Qed.

Lemma Inv_callSettles (n index : nat) (net : Network) (b b' : Batch) (st : FR) :
  findBatch n (batches (runtime st)) = Some b ->
  settleCall index net b = Some b' ->
  Inv st ->
  Inv (setGeneratedLooks (bresults b')
         (set_batches (replaceBatch b' (batches (runtime st))) st)).
Proof.
  intros Hf Hs HI.
  destruct (batch_in_flight _ _ _ HI Hf)
    as (Hp & Hbs & Hl & Hi & Hph & Hok & Hn).
  destruct (BatchFacts.settleCall_ok _ _ _ _ Hok Hs) as (Hok' & Hi' & Hn').
  assert (Hph' : userPhotoDataUrl b' = userPhotoDataUrl b).
  { apply BatchFacts.settleCall_inv in Hs. destruct Hs as (s & _ & _ & ->).
    reflexivity. }
  assert (Hrep : replaceBatch b' (batches (runtime st)) = [b']).
  { rewrite Hbs. unfold replaceBatch. cbn.
    rewrite Hn', Nat.eqb_refl. reflexivity. }
  rewrite Hrep. open_inv HI. inv_simpl; inv_solve.
  eexists. split; [reflexivity|]. split; [reflexivity|].
  split; [congruence|]. split; [congruence|assumption].
Qed.

Lemma Inv_batchSettles (n : nat) (b : Batch) (st : FR) :
  findBatch n (batches (runtime st)) = Some b ->
  allSettled b = true ->
  Inv st ->
  Inv (setSelectedLookIndex 0
         (setPhase results
            (set_batches (removeBatch n (batches (runtime st))) st))).
Proof.
  intros Hf Hs HI.
  destruct (batch_in_flight _ _ _ HI Hf)
    as (Hp & Hbs & Hl & Hi & Hph & Hok & Hn).
  assert (Hrem : removeBatch n (batches (runtime st)) = []).
  { rewrite Hbs. unfold removeBatch. cbn.
    rewrite Hn, Nat.eqb_refl. reflexivity. }
  rewrite Hrem. open_inv HI. inv_simpl; inv_solve.
  - match goal with
    | Hin0 : In ?u (timers _), Ha0 : action ?u = CountdownTick |- _ =>
        destruct (Htick _ Hin0 Ha0) as (Hx & _); congruence
    end.
  - match goal with
    | Hc0 : countdown _ = Some _ |- _ =>
        destruct (Hcd _ Hc0) as (Hx & _); congruence
    end.
  - rewrite Hl, <- Hi. apply BatchFacts.allSettled_looksSettled; assumption.
Qed.

(** Where the buttons of a screen can be clicked. *)
Lemma catalogInDocument_phase (st : FR) :
  staged st -> catalogInDocument st = true ->
  (leaving (runtime st) = None /\ phase (view st) = catalog) \/
  phase (view st) = capturing.
Proof.
  intros Hs H. unfold catalogInDocument in H.
  destruct (leaving (runtime st)) as [l|] eqn:El.
  - right. apply phase_eqb_eq in H. rewrite (Hs l El), H. reflexivity.
  - left. apply phase_eqb_eq in H. auto.
Qed.

Lemma resultsInDocument_phase (st : FR) :
  staged st -> resultsInDocument st = true ->
  (leaving (runtime st) = None /\ phase (view st) = results) \/
  phase (view st) = catalog.
Proof.
  intros Hs H. unfold resultsInDocument in H.
  destruct (leaving (runtime st)) as [l|] eqn:El.
  - right. apply andb_true_iff in H. destruct H as [H _].
    apply phase_eqb_eq in H. rewrite (Hs l El), H. reflexivity.
  - left. apply andb_true_iff in H. destruct H as [H _].
    apply phase_eqb_eq in H. auto.
Qed.

Lemma Inv_handle (now : Z) (i : Input) (st st' : FR) (evs : list Event) :
  Inv st -> staged st -> handle now i st = Some (st', evs) -> Inv st'.
Proof.
  intros HI HS H. destruct i; cbn [handle] in H.
  - inversion H. rewrite (surjective_pairing (processLandmarks now lm st)) in H1.
    inversion H1. apply Inv_processLandmarks. exact HI.
  - destruct (catalogInDocument st); inversion H. apply Inv_goPrev. exact HI.
  - destruct (catalogInDocument st); inversion H. apply Inv_goNext. exact HI.
  - destruct (catalogInDocument st) eqn:Ec; [|discriminate].
    destruct (i <? length CATALOG)%nat eqn:Ei; inversion H.
    apply Nat.ltb_lt in Ei.
    assert (Hp : phase (view st) = catalog \/ phase (view st) = capturing).
    { destruct (catalogInDocument_phase st HS Ec) as [[_ Hp]|Hp]; auto. }
    open_inv HI. inv_simpl; inv_solve.
    all: try (destruct Hp; congruence).
    unfold catalogLength. cbn. lia.
  - destruct (catalogInDocument st); inversion H. apply Inv_startCapture. exact HI.
  - destruct (resultsInDocument st) eqn:Ec; inversion H.
    apply Inv_reset; [|exact HI].
    destruct (resultsInDocument_phase st HS Ec) as [[_ Hp]|Hp]; auto.
  - destruct (_ && _); inversion H. same_core HI.
  - destruct (findTimer t _) as [tm|] eqn:Ef; [|discriminate].
    destruct (mayFire now tm _) eqn:Em; inversion H.
    eapply Inv_fire; eassumption.
  - destruct (findBatch b _) as [bt|] eqn:Ef; [|discriminate].
    destruct (settleCall index net bt) as [bt'|] eqn:Es; inversion H.
    eapply Inv_callSettles; eassumption.
  - destruct (findBatch b _) as [bt|] eqn:Ef; [|discriminate].
    destruct (allSettled bt) eqn:Es; inversion H.
    eapply Inv_batchSettles; eassumption.
  - destruct (leaving (runtime st)); inversion H. same_core HI.
Qed.

(** *** What a callback does to the phase *)

Lemma goNext_phase (now : Z) (st : FR) :
  phase (view (goNext now st)) = phase (view st) /\
  countdown (view (goNext now st)) = countdown (view st).
Proof. unfold goNext. destruct (_ || _); split; reflexivity. Qed.

Lemma goPrev_phase (now : Z) (st : FR) :
  phase (view (goPrev now st)) = phase (view st) /\
  countdown (view (goPrev now st)) = countdown (view st).
Proof. unfold goPrev. destruct (_ || _); split; reflexivity. Qed.

Lemma catalogSwipe_phase (now : Z) (lm : Geometry.HandLandmarks) (st : FR) :
  phase (view (fst (catalogSwipe now lm st))) = phase (view st) /\
  countdown (view (fst (catalogSwipe now lm st))) = countdown (view st).
Proof.
  unfold catalogSwipe.
  destruct (negb _); [split; reflexivity|].
  destruct (_ <? 500); [|split; reflexivity].
  destruct (Qltb _ (-0.15)%Q); [apply goNext_phase|].
  destruct (Qltb 0.15%Q _); [apply goPrev_phase|]. split; reflexivity.
Qed.

Lemma processLandmarks_move (now : Z) (lm : option Geometry.HandLandmarks)
    (st : FR) :
  Inv st ->
  Move (Frame lm) (snd (processLandmarks now lm st)) st
       (fst (processLandmarks now lm st)).
Proof.
  intros HI. unfold processLandmarks.
  destruct (phase (view st)) eqn:Ep; try (apply move_stay; reflexivity).
  - (* catalog *)
    assert (Hc : countdown (view st) = None).
    { destruct (countdown (view st)) as [c|] eqn:Ec; [|reflexivity].
      destruct (inv_countdown _ HI _ Ec). congruence. }
    unfold processCatalog.
    destruct lm as [lm|]; [|apply move_stay; reflexivity].
    destruct (postResetCooldown (refs st)); [apply move_stay; reflexivity|].
    unfold openHandGate.
    destruct (requireOpenHandAfterReset (refs st)).
    + destruct (3 <=? _); [|apply move_stay; reflexivity].
      destruct (_ =? 0).
      * cbn [negb catalogCooldown refs stopTracking set_swipeState with_refs
             set_requireOpenHandAfterReset].
        destruct (catalogCooldown (refs st)); cbn [negb fst snd];
          [apply move_stay; reflexivity|].
        apply move_capture; auto.
        -- unfold startCapture. cbn. rewrite Ep. reflexivity.
        -- unfold startCapture. cbn. rewrite Ep. reflexivity.
        -- right. eexists. split; reflexivity.
      * apply move_stay; [etransitivity; [apply catalogSwipe_phase|]
                         |etransitivity; [apply catalogSwipe_phase|]];
          reflexivity.
    + destruct (_ =? 0).
      * cbn [negb catalogCooldown refs stopTracking set_swipeState with_refs].
        destruct (catalogCooldown (refs st)); cbn [negb fst snd];
          [apply move_stay; reflexivity|].
        apply move_capture; auto.
        -- unfold startCapture. cbn. rewrite Ep. reflexivity.
        -- unfold startCapture. cbn. rewrite Ep. reflexivity.
        -- right. eexists. split; reflexivity.
      * apply move_stay; [etransitivity; [apply catalogSwipe_phase|]
                         |etransitivity; [apply catalogSwipe_phase|]];
          reflexivity.
  - (* results *)
    assert (Hc : countdown (view st) = None).
    { destruct (countdown (view st)) as [c|] eqn:Ec; [|reflexivity].
      destruct (inv_countdown _ HI _ Ec). congruence. }
    unfold processResults.
    destruct lm as [lm|]; [|apply move_stay; reflexivity].
    destruct (Geometry.isThumbsUp lm).
    + cbn [thumbsUpBuffer refs set_thumbsUpBuffer with_refs set_fingerBuffer
           setLiveFingerCount setThumbsUpProgress with_view].
      destruct (_ <=? _); cbn [fst snd]; [|apply move_stay; reflexivity].
      apply move_reset; auto; try reflexivity.
      right. eexists. split; reflexivity.
    + destruct (_ && _); [|apply move_stay; reflexivity].
      cbn [selectedLookIndex view fingerBuffer refs set_thumbsUpBuffer with_refs
           set_fingerBuffer setLiveFingerCount setThumbsUpProgress with_view].
      destruct (_ && _); apply move_stay; reflexivity.
Qed.

Lemma handle_move (now : Z) (i : Input) (st st' : FR) (evs : list Event) :
  Inv st -> staged st -> handle now i st = Some (st', evs) -> Move i evs st st'.
Proof.
  intros HI HS H.
  assert (Hcd : phase (view st) <> capturing -> countdown (view st) = None).
  { intros Hp. destruct (countdown (view st)) as [c|] eqn:Ec; [|reflexivity].
    destruct (inv_countdown _ HI _ Ec). congruence. }
  destruct i; cbn [handle] in H.
  - inversion H. rewrite (surjective_pairing (processLandmarks now lm st)) in H1.
    inversion H1. apply processLandmarks_move. exact HI.
  - destruct (catalogInDocument st); inversion H.
    apply move_stay; [apply goPrev_phase|apply goPrev_phase].
  - destruct (catalogInDocument st); inversion H.
    apply move_stay; [apply goNext_phase|apply goNext_phase].
  - destruct (_ && _); inversion H. apply move_stay; reflexivity.
  - destruct (catalogInDocument st) eqn:Ec; inversion H.
    destruct (catalogInDocument_phase st HS Ec) as [[_ Hp]|Hp].
    + apply move_capture; auto; try (apply Hcd; congruence).
      * unfold startCapture. rewrite Hp. reflexivity.
      * unfold startCapture. rewrite Hp. reflexivity.
    + unfold startCapture. rewrite Hp. apply move_stay; reflexivity.
  - destruct (resultsInDocument st) eqn:Ec; inversion H.
    destruct (resultsInDocument_phase st HS Ec) as [[_ Hp]|Hp].
    + apply move_reset; auto; try reflexivity.
      rewrite Hcd by congruence. reflexivity.
    + apply move_stay; [symmetry; exact Hp|].
      rewrite Hcd by congruence. reflexivity.
  - destruct (_ && _); inversion H. apply move_stay; reflexivity.
  - destruct (findTimer t _) as [tm|] eqn:Ef; [|discriminate].
    destruct (mayFire now tm _) eqn:Em; inversion H.
    apply findTimer_Some in Ef. destruct Ef as [Hin Hn].
    unfold fire. destruct (action tm) eqn:Ea;
      try (apply move_stay; reflexivity).
    destruct (inv_tick _ HI _ Hin Ea) as (Hp & _ & c & Hc & Hr).
    apply (move_tick _ _ _ _ c); auto.
    + cbn. rewrite Hc. reflexivity.
    + eexists. reflexivity.
  - destruct (findBatch b _) as [bt|] eqn:Ef; [|discriminate].
    destruct (settleCall index net bt) as [bt'|] eqn:Es; inversion H.
    apply move_stay; reflexivity.
  - destruct (findBatch b _) as [bt|] eqn:Ef; [|discriminate].
    destruct (allSettled bt) eqn:Es; inversion H.
    destruct (batch_in_flight _ _ _ HI Ef)
      as (Hp & Hbs & Hl & Hi & Hph & Hok & Hn).
    apply (move_results _ _ _ _ b bt); auto.
  - destruct (leaving (runtime st)); inversion H. apply move_stay; reflexivity.
Qed.


(** What one run of the countdown effect does. *)
Lemma countdownEffect_cases (now : Z) (cam : option string) (st : FR) :
  (phase (view (countdownEffect now cam st)) = phase (view st) /\
   generatedLooks (view (countdownEffect now cam st)) = generatedLooks (view st) /\
   countdown (view (countdownEffect now cam st)) = countdown (view st) /\
   (countdown (view st) <> Some 0 \/ cam = None))
  \/
  (countdown (view st) = Some 0 /\
   exists photo, cam = Some photo /\
     phase (view (countdownEffect now cam st)) = generating /\
     capturedPhoto (view (countdownEffect now cam st)) = Some photo /\
     countdown (view (countdownEffect now cam st)) = None).
Proof.
  unfold countdownEffect.
  assert (Hcl : countdown (view (clearTimeout (countdownTimer (runtime st)) st))
                = countdown (view st) /\
                phase (view (clearTimeout (countdownTimer (runtime st)) st))
                = phase (view st) /\
                generatedLooks (view (clearTimeout (countdownTimer (runtime st)) st))
                = generatedLooks (view st)).
  { destruct (countdownTimer (runtime st)); repeat split. }
  revert Hcl.
  generalize (clearTimeout (countdownTimer (runtime st)) st).
  intros s1 (Hc & Hp & Hg).
  cbn [countdown view set_countdownTimer with_runtime]. rewrite Hc.
  destruct (countdown (view st)) as [c|] eqn:Ec.
  - destruct (c =? 0) eqn:E0.
    + apply Z.eqb_eq in E0. subst c.
      destruct cam as [photo|].
      * right. split; [reflexivity|].
        exists photo. split; [reflexivity|]. cbn. repeat split.
      * left. cbn. auto.
    + left. apply Z.eqb_neq in E0. cbn.
      split; [exact Hp|]. split; [exact Hg|]. split; [exact Hc|].
      left. congruence.
  - left. cbn. split; [exact Hp|]. split; [exact Hg|]. split; [exact Hc|].
    left. discriminate.
Qed.

(** The render after a callback moves the phase only by taking the
    photo, when the countdown has just reached 0. *)
Lemma commit_phase (now : Z) (cam : option string) (before st : FR) :
  (phase (view (commit now cam before st)) = phase (view st) /\
   generatedLooks (view (commit now cam before st)) = generatedLooks (view st) /\
   (countdown (view st) <> Some 0 \/ cam = None
    \/ countdown (view before) = countdown (view st)))
  \/
  (countdown (view st) = Some 0 /\
   countdown (view before) <> countdown (view st) /\
   exists photo, cam = Some photo /\
     phase (view (commit now cam before st)) = generating /\
     capturedPhoto (view (commit now cam before st)) = Some photo).
Proof.
  unfold commit.
  destruct (countdown_eqb (countdown (view before)) (countdown (view st))) eqn:E.
  { left. apply countdown_eqb_eq in E. auto. }
  assert (Hne : countdown (view before) <> countdown (view st)).
  { intros Heq. apply countdown_eqb_eq in Heq. congruence. }
  destruct (countdownEffect_cases now cam st)
    as [(Hp & Hg & Hc & Hz)|(Hz & photo & Hcam & Hp & Hph & Hc)].
  - rewrite Hc, (proj2 (countdown_eqb_eq _ _)) by reflexivity.
    left. split; [exact Hp|]. split; [exact Hg|]. tauto.
  - rewrite Hc, Hz. cbn [countdown_eqb].
    right. split; [reflexivity|]. split; [congruence|].
    exists photo. split; [exact Hcam|].
    destruct (countdownEffect_cases now cam (countdownEffect now cam st))
      as [(Hp' & Hg' & Hc' & Hz')|(Hz' & _)]; [|congruence].
    rewrite Hp'. split; [exact Hp|].
    revert Hph Hc. generalize (countdownEffect now cam st). intros s2 Hph Hc.
    unfold countdownEffect. rewrite <- Hph.
    destruct (countdownTimer (runtime s2)); cbn; rewrite Hc; reflexivity.
Qed.

(** [AnimatePresence] touches the leaving screen only. *)
Lemma present_view (before st : FR) : view (present before st) = view st.
Proof. reflexivity. Qed.

Lemma present_refs (before st : FR) : refs (present before st) = refs st.
Proof. reflexivity. Qed.

Lemma present_runtime (before st : FR) :
  timers (runtime (present before st)) = timers (runtime st) /\
  countdownTimer (runtime (present before st)) = countdownTimer (runtime st) /\
  batches (runtime (present before st)) = batches (runtime st) /\
  nextId (runtime (present before st)) = nextId (runtime st) /\
  clock (runtime (present before st)) = clock (runtime st).
Proof. repeat split. Qed.

Lemma Inv_present (before st : FR) : Inv st -> Inv (present before st).
Proof. apply Inv_core. repeat split. Qed.

Lemma step_inv (now : Z) (cam : option string) (i : Input) (st st' : FR)
    (evs : list Event) :
  step now cam i st = Some (st', evs) ->
  clock (runtime st) <= now /\
  exists st1, handle now i st = Some (st1, evs) /\
              st' = present st (commit now cam st (set_clock now st1)).
Proof.
  unfold step. destruct (_ <=? now) eqn:Ec; [|discriminate].
  destruct (handle now i st) as [[st1 evs1]|]; [|discriminate].
  intros H. inversion H. subst. apply Z.leb_le in Ec. eauto.
Qed.

(** The phase a step leaves the component in: the phase it found, or
    the next one. *)
Lemma step_phase (now : Z) (cam : option string) (i : Input) (st st' : FR)
    (evs : list Event) :
  Inv st -> staged st -> step now cam i st = Some (st', evs) ->
  phase (view st') = phase (view st) \/
  phase (view st') = nextPhase (phase (view st)).
Proof.
  intros HI HS Hs. apply step_inv in Hs. destruct Hs as (_ & st1 & Hh & ->).
  rewrite present_view.
  pose proof (handle_move _ _ _ _ _ HI HS Hh) as Hm.
  pose proof (commit_phase now cam st (set_clock now st1)) as Hc.
  change (phase (view (set_clock now st1))) with (phase (view st1)) in Hc.
  change (countdown (view (set_clock now st1))) with (countdown (view st1)) in Hc.
  destruct Hm as [Hp Hcd|Hp Hp' Hcd Hcd' Hi|c Hp Hp' Hcd Hrg Hcd' Hi
                 |n b Hp Hp' Hcd Hi Hb Ha Hg|Hp Hp' Hcd Hi].
  - left. destruct Hc as [(Hx & _)|(_ & Hne & _)]; congruence.
  - right. destruct Hc as [(Hx & _)|(Hz & _)].
    + rewrite Hx, Hp', Hp. reflexivity.
    + unfold COUNTDOWN_SECONDS in Hcd'. congruence.
  - destruct Hc as [(Hx & _)|(Hz & Hne & photo & Hcam & Hg & Hph)].
    + left. congruence.
    + right. rewrite Hg, Hp. reflexivity.
  - right. destruct Hc as [(Hx & _)|(_ & Hne & _)]; [|congruence].
    rewrite Hx, Hp', Hp. reflexivity.
  - right. destruct Hc as [(Hx & _)|(_ & Hne & _)]; [|congruence].
    rewrite Hx, Hp', Hp. reflexivity.
Qed.

Lemma nextPhase_differs (p : FittingRoomPhase) : nextPhase p <> p.
Proof. destruct p; discriminate. Qed.

Lemma processLandmarks_leaving (now : Z) (lm : option Geometry.HandLandmarks)
    (st : FR) :
  leaving (runtime (fst (processLandmarks now lm st))) = leaving (runtime st).
Proof.
  assert (G : forall n f r, openHandGate n f = Some r ->
                leaving (runtime r) = leaving (runtime f)).
  { intros n f r. unfold openHandGate.
    destruct (requireOpenHandAfterReset (refs f)); [destruct (3 <=? n)|];
      intros E; inversion E; reflexivity. }
  unfold processLandmarks, processCatalog, processResults.
  destruct (phase (view st)); try reflexivity.
  - destruct lm as [h|]; [|reflexivity].
    destruct (postResetCooldown (refs st)); [reflexivity|].
    destruct (openHandGate (Geometry.countExtendedFingers h) st) as [r|] eqn:E;
      [|reflexivity].
    apply G in E. rewrite <- E.
    unfold catalogSwipe, goNext, goPrev, startCapture.
    repeat match goal with
    | |- context [if ?c then _ else _] => destruct c
    | |- context [match ?c with _ => _ end] => destruct c
    end; reflexivity.
  - unfold reset.
    repeat match goal with
    | |- context [if ?c then _ else _] => destruct c
    | |- context [match ?c with _ => _ end] => destruct c
    end; reflexivity.
Qed.

Lemma handle_leaving (now : Z) (i : Input) (st st' : FR) (evs : list Event) :
  handle now i st = Some (st', evs) ->
  leaving (runtime st') = leaving (runtime st) \/ leaving (runtime st') = None.
Proof.
  intros H. destruct i; cbn [handle] in H.
  - inversion H as [Heq]. left.
    rewrite <- (processLandmarks_leaving now lm st), Heq. reflexivity.
  - destruct (catalogInDocument st); inversion H. left.
    unfold goPrev. destruct (_ || _); reflexivity.
  - destruct (catalogInDocument st); inversion H. left.
    unfold goNext. destruct (_ || _); reflexivity.
  - destruct (_ && _); inversion H. left. reflexivity.
  - destruct (catalogInDocument st); inversion H. left.
    unfold startCapture. destruct (negb _); reflexivity.
  - destruct (resultsInDocument st); inversion H. left. reflexivity.
  - destruct (_ && _); inversion H. left. reflexivity.
  - destruct (findTimer t _) as [tm|]; [|discriminate].
    destruct (mayFire now tm _); inversion H. left.
    unfold fire. destruct (action tm); reflexivity.
  - destruct (findBatch b _) as [bt|]; [|discriminate].
    destruct (settleCall index net bt); inversion H. left. reflexivity.
  - destruct (findBatch b _) as [bt|]; [|discriminate].
    destruct (allSettled bt); inversion H. left. reflexivity.
  - destruct (leaving (runtime st)); inversion H. right. reflexivity.
Qed.

Lemma countdownEffect_leaving (now : Z) (cam : option string) (st : FR) :
  leaving (runtime (countdownEffect now cam st)) = leaving (runtime st).
Proof.
  unfold countdownEffect, takePhoto.
  destruct (countdownTimer (runtime st)); cbn;
    repeat match goal with
    | |- context [match ?c with _ => _ end] => destruct c
    end; reflexivity.
Qed.

Lemma commit_leaving (now : Z) (cam : option string) (before st : FR) :
  leaving (runtime (commit now cam before st)) = leaving (runtime st).
Proof.
  unfold commit. destruct (countdown_eqb _ _); [reflexivity|].
  destruct (countdown_eqb _ _); rewrite ?countdownEffect_leaving; reflexivity.
Qed.

Lemma Inv_step (now : Z) (cam : option string) (i : Input) (st st' : FR)
    (evs : list Event) :
  Inv st -> staged st -> step now cam i st = Some (st', evs) ->
  Inv st' /\ staged st'.
Proof.
  intros HI HS H. pose proof (step_phase _ _ _ _ _ _ HI HS H) as Hph.
  apply step_inv in H. destruct H as (_ & st1 & Hh & ->). split.
  - apply Inv_present, Inv_commit, Inv_set_clock. eapply Inv_handle; eassumption.
  - rewrite present_view in Hph. intros l.
    unfold present. cbn [leaving runtime set_leaving with_runtime view].
    rewrite commit_leaving. cbn [leaving runtime set_clock with_runtime].
    destruct (phase_eqb _ _) eqn:Ep.
    + apply phase_eqb_eq in Ep. rewrite <- Ep.
      destruct (handle_leaving _ _ _ _ _ Hh) as [-> | ->]; [apply HS|discriminate].
    + apply phase_eqb_neq in Ep. intros [= <-]. cbn [screenOf].
      destruct Hph as [Hph|Hph]; [congruence|exact Hph].
Qed.

(** Every reachable state satisfies the invariant, and the screen that
    is leaving in it, if any, is the screen of the phase before. *)
Lemma reachable_Inv_staged (st : FR) : reachable st -> Inv st /\ staged st.
Proof.
  induction 1 as [|st now cam i st' evs Hr [HI HS] Hs].
  - split; [apply Inv_initial|intros l Hl; discriminate].
  - eapply Inv_step; eassumption.
Qed.

Lemma reachable_Inv (st : FR) : reachable st -> Inv st.
Proof. intros H. apply reachable_Inv_staged, H. Qed.

Lemma reachable_staged (st : FR) : reachable st -> staged st.
Proof. intros H. apply reachable_Inv_staged, H. Qed.

Lemma run_reachable (ds : list Delivery) (st st' : FR) (evs : list Event) :
  reachable st -> run ds st = Some (st', evs) -> reachable st'.
Proof.
  revert st st' evs. induction ds as [|d ds IH]; intros st st' evs Hr H.
  - inversion H. subst. exact Hr.
  - cbn [run] in H.
    destruct (step _ _ _ st) as [[st1 evs1]|] eqn:Es; [|discriminate].
    destruct (run ds st1) as [[st2 evs2]|] eqn:Er; inversion H. subst.
    eapply IH; [|exact Er]. eapply reachable_step; eassumption.
Qed.

End AnyEngine.

End InvariantFacts.

(** ** C2: the edges of the phase machine *)

Module PhaseFacts.
Import Catalog Imagen FittingRoom Invariant InvariantFacts.

Section AnyEngine.
Context {engine : Engine}.

(** C2: the phase is one of [catalog], [capturing], [generating],
    [results], and a step of the component from a reachable state
    either keeps the phase or follows one of four edges:
    catalog -> capturing (by [startCapture]: the capture button, or a
    frame on which the handler calls it), capturing -> generating (a
    timer fires and the photo is taken), generating -> results (the
    batch, all of whose calls have settled, resumes [startGeneration]),
    results -> catalog (by [reset]: the back button, or a frame on
    which the handler calls it). *)
Theorem phase_edges (now : Z) (cam : option string) (i : Input)
    (st st' : FR) (evs : list Event) :
  reachable st ->
  step now cam i st = Some (st', evs) ->
  (forall p : FittingRoomPhase,
     p = catalog \/ p = capturing \/ p = generating \/ p = results) /\
  (phase (view st') = phase (view st)
   \/ (phase (view st) = catalog /\ phase (view st') = capturing /\
       (i = ClickCapture \/
        exists lm, i = Frame (Some lm) /\ evs = [StartCaptureCalled]))
   \/ (phase (view st) = capturing /\ phase (view st') = generating /\
       (exists t, i = TimerFires t) /\
       exists photo, cam = Some photo /\
                     capturedPhoto (view st') = Some photo)
   \/ (phase (view st) = generating /\ phase (view st') = results /\
       exists n b, i = BatchSettles n /\ batches (runtime st) = [b] /\
                   allSettled b = true)
   \/ (phase (view st) = results /\ phase (view st') = catalog /\
       (i = ClickBack \/
        exists lm, i = Frame (Some lm) /\ evs = [ResetCalled]))).
Proof.
  intros Hr Hs. split; [intros []; auto|].
  apply reachable_Inv_staged in Hr. destruct Hr as [Hr HS].
  apply step_inv in Hs. destruct Hs as (_ & st1 & Hh & ->).
  rewrite !present_view.
  pose proof (handle_move _ _ _ _ _ Hr HS Hh) as Hm.
  pose proof (commit_phase now cam st (set_clock now st1)) as Hc.
  change (phase (view (set_clock now st1))) with (phase (view st1)) in Hc.
  change (countdown (view (set_clock now st1))) with (countdown (view st1)) in Hc.
  destruct Hm as [Hp Hcd|Hp Hp' Hcd Hcd' Hi|c Hp Hp' Hcd Hrg Hcd' Hi
                 |n b Hp Hp' Hcd Hi Hb Ha Hg|Hp Hp' Hcd Hi].
  - left. destruct Hc as [(Hx & _)|(_ & Hne & _)]; congruence.
  - right. left. destruct Hc as [(Hx & _)|(Hz & _)].
    + split; [exact Hp|]. split; [congruence|exact Hi].
    + unfold COUNTDOWN_SECONDS in Hcd'. congruence.
  - destruct Hc as [(Hx & _)|(Hz & Hne & photo & Hcam & Hg & Hph)].
    + left. congruence.
    + right. right. left. split; [exact Hp|]. split; [exact Hg|].
      split; [exact Hi|]. exists photo. auto.
  - right. right. right. left.
    destruct Hc as [(Hx & _)|(_ & Hne & _)]; [|congruence].
    split; [exact Hp|]. split; [congruence|]. exists n, b. auto.
  - right. right. right. right.
    destruct Hc as [(Hx & _)|(_ & Hne & _)]; [|congruence].
    split; [exact Hp|]. split; [congruence|exact Hi].
Qed.

End AnyEngine.

(** *** On sample inputs, with the [binary64] engine *)

Section OnSamples.
#[local] Existing Instance Binary64.binary64.

Lemma phase_edges_witness :
  let st' := Samples.after [Samples.deliver 0 ClickCapture] initial in
  reachable initial /\
  step 0 (Some "data:image/jpeg;base64,AAAA"%string) ClickCapture initial
    = Some (st', []) /\
  phase (view initial) = catalog /\ phase (view st') = capturing.
Proof.
  intros st'.
  assert (Es : step 0 (Some "data:image/jpeg;base64,AAAA"%string)
                 ClickCapture initial = Some (st', []))
    by (vm_compute; reflexivity).
  split; [exact reachable_initial|]. split; [exact Es|].
  destruct (proj2 (phase_edges _ _ _ _ _ _ reachable_initial Es))
    as [H|[(H & H' & _)|[(H & _)|[(H & _)|(H & _)]]]];
    try (vm_compute in H; discriminate).
  split; assumption.
Defined.

End OnSamples.

End PhaseFacts.

(** ** C1: a generation batch settles as a whole *)

Module GenerationFacts.
Import Catalog GenerateLook Imagen FittingRoom Invariant InvariantFacts BatchFacts
  PhaseFacts.

Local Open Scope string_scope.

Section AnyEngine.
Context {engine : Engine}.

Lemma memb_cons (j k : nat) (l : list nat) :
  memb j (k :: l) = Nat.eqb j k || memb j l.
Proof. reflexivity. Qed.

Lemma memb_none_nil (l : list nat) : (forall j, memb j l = false) -> l = [].
Proof.
  destruct l as [|k l]; [reflexivity|]. intros H. specialize (H k).
  rewrite memb_cons, Nat.eqb_refl in H. discriminate.
Qed.

(** Running a schedule of distinct unsettled calls: every call of the
    schedule ends with the look of its own outcome in its slot, the
    other slots are untouched. *)
Lemma settleAll_spec (schedule : list (nat * Network)) :
  forall b : Batch,
  batchOK b ->
  List.NoDup (map fst schedule) ->
  (forall k, In k (map fst schedule) -> memb k (pending b) = true) ->
  exists b',
    settleAll schedule b = Some b' /\ batchOK b' /\ bitem b' = bitem b /\
    (forall j, memb j (pending b')
               = memb j (pending b) && negb (memb j (map fst schedule))) /\
    (forall k net, In (k, net) schedule ->
       exists s, scenes (bitem b) !! k = Some s /\
                 bresults b' !! k = Some (settledLook s (generateLook net))) /\
    (forall j, ~ In j (map fst schedule) -> bresults b' !! j = bresults b !! j).
Proof.
  induction schedule as [|[k net] rest IH]; intros b Hok Hnd Hpend.
  - exists b. cbn [settleAll map]. split; [reflexivity|]. split; [exact Hok|].
    split; [reflexivity|]. split; [|split].
    + intros j. cbn. rewrite andb_true_r. reflexivity.
    + intros k net [].
    + reflexivity.
  - cbn [map fst] in Hnd, Hpend. inversion Hnd as [|? ? Hnot Hnd']. subst.
    assert (Hk : memb k (pending b) = true) by (apply Hpend; left; reflexivity).
    assert (Hlt : (k < length (scenes (bitem b)))%nat)
      by (apply (ok_pending _ Hok); exact Hk).
    destruct (lookup_lt_is_Some_2 (scenes (bitem b)) k Hlt) as [s Hs].
    assert (Hset : settleCall k net b =
      Some {| bid := bid b; userPhotoDataUrl := userPhotoDataUrl b;
              bitem := bitem b;
              bresults := <[k := settledLook s (generateLook net)]> (bresults b);
              pending := List.filter (fun j => negb (Nat.eqb j k)) (pending b) |}).
    { unfold settleCall. rewrite Hk, Hs. reflexivity. }
    destruct (settleCall_ok _ _ _ _ Hok Hset) as (Hok1 & _ & _).
    cbn [settleAll]. rewrite Hset.
    match type of Hset with _ = Some ?b1 => set (b1' := b1) in * end.
    destruct (IH b1' Hok1 Hnd') as (b' & Hrun & Hok' & Hit & Hp & Hr & Hu).
    { intros k' Hk'. unfold b1'. cbn [pending]. rewrite memb_remove.
      rewrite (Hpend k') by (right; exact Hk'). cbn.
      apply negb_true_iff, Nat.eqb_neq. intros ->. contradiction. }
    exists b'. split; [exact Hrun|]. split; [exact Hok'|].
    split; [exact Hit|]. split; [|split].
    + intros j. rewrite Hp. unfold b1'. cbn [pending map fst].
      rewrite memb_remove, memb_cons, negb_orb, andb_assoc. reflexivity.
    + intros k' net' [Heq|Hin].
      * inversion Heq. subst k' net'. exists s. split; [exact Hs|].
        rewrite Hu by exact Hnot. unfold b1'. cbn [bresults].
        apply list_lookup_insert_eq. rewrite (ok_length _ Hok). exact Hlt.
      * apply Hr. exact Hin.
    + intros j Hj. cbn [map fst] in Hj.
      rewrite Hu by (intros Hx; apply Hj; right; exact Hx).
      unfold b1'. cbn [bresults].
      apply list_lookup_insert_ne. intros ->. apply Hj. left. reflexivity.
Qed.

(** [generateAllLooks] against any schedule that settles each call
    once. *)
Lemma generateAllLooks_spec (photo : string) (it : ClothingItem)
    (schedule : list (nat * Network)) :
  Permutation (map fst schedule) (seq 0 (length (scenes it))) ->
  exists looks, generateAllLooks photo it schedule = Some looks /\
    length looks = length (scenes it) /\
    forall k net, In (k, net) schedule ->
      exists s, scenes it !! k = Some s /\
                looks !! k = Some (settledLook s (generateLook net)).
Proof.
  intros Hperm.
  assert (Hnd : List.NoDup (map fst schedule)).
  { apply (Permutation_NoDup (Permutation_sym Hperm)). apply seq_NoDup. }
  destruct (settleAll_spec schedule (startBatch 0 photo it)
              (startBatch_ok 0 photo it) Hnd)
    as (b' & Hrun & Hok' & Hit & Hp & Hr & _).
  { intros k Hk. apply memb_In. cbn [pending startBatch].
    apply (Permutation_in _ Hperm). exact Hk. }
  assert (Hnil : pending b' = []).
  { apply memb_none_nil. intros j. rewrite Hp.
    destruct (memb j (pending (startBatch 0 photo it))) eqn:Ej; [|reflexivity].
    apply memb_In in Ej. cbn [pending startBatch] in Ej.
    apply (Permutation_in _ (Permutation_sym Hperm)), memb_In in Ej.
    rewrite Ej. reflexivity. }
  exists (bresults b'). unfold generateAllLooks. rewrite Hrun.
  unfold allSettled. rewrite Hnil. split; [reflexivity|]. split.
  - rewrite (ok_length _ Hok'), Hit. reflexivity.
  - exact Hr.
Qed.


(** C1: (1) the machine leaves [generating] for [results] only by the
    resumption of [startGeneration] after a batch all of whose calls
    have settled, and the result set is then the batch's; (2) in
    [results] the result set has one look per scene of the item, each
    in the scene of its slot, not loading and holding either an image
    (a non-empty [imageBase64]) and no error, or the error message and
    no image; (3) whatever the order in which the calls settle, and
    whichever of them fail, [generateAllLooks] returns one look per
    scene, and the look in the slot of a call is the one of that call
    alone: the image the call resolved with and no error, or no image
    and the error message when the call rejected. *)
Theorem generation_batch_settles_as_a_whole :
  (forall (now : Z) (cam : option string) (i : Input) (st st' : FR)
          (evs : list Event),
     reachable st -> step now cam i st = Some (st', evs) ->
     phase (view st) = generating -> phase (view st') = results ->
     exists n b, i = BatchSettles n /\ batches (runtime st) = [b] /\
       pending b = [] /\ generatedLooks (view st') = bresults b) /\
  (forall st : FR,
     reachable st -> phase (view st) = results ->
     length (generatedLooks (view st))
       = length (scenes (catalogAt (currentIndex (view st)))) /\
     forall k look, generatedLooks (view st) !! k = Some look ->
       isLoading look = false /\
       ((imageBase64 look <> "" /\ error look = None) \/
        (imageBase64 look = "" /\
         error look = Some "שגיאה בייצור התמונה")) /\
       scenes (catalogAt (currentIndex (view st))) !! k = Some (scene look)) /\
  (forall (photo : string) (it : ClothingItem) (schedule : list (nat * Network)),
     Permutation (map fst schedule) (seq 0 (length (scenes it))) ->
     exists looks, generateAllLooks photo it schedule = Some looks /\
       length looks = length (scenes it) /\
       forall k net, In (k, net) schedule ->
         exists s, scenes it !! k = Some s /\
           match generateLook net with
           | Resolved imageDataUrl =>
               imageDataUrl <> "" /\
               looks !! k = Some {| scene := s; imageBase64 := imageDataUrl;
                                    isLoading := false; error := None |}
           | Rejected =>
               looks !! k = Some {| scene := s; imageBase64 := "";
                                    isLoading := false;
                                    error := Some "שגיאה בייצור התמונה" |}
           end).
Proof.
  split; [|split].
  - intros now cam i st st' evs Hr Hs Hp Hp'.
    apply reachable_Inv_staged in Hr. destruct Hr as [Hr HS].
    apply step_inv in Hs. destruct Hs as (_ & st1 & Hh & ->).
    rewrite present_view in Hp' |- *.
    pose proof (handle_move _ _ _ _ _ Hr HS Hh) as Hm.
    pose proof (commit_phase now cam st (set_clock now st1)) as Hc.
    change (phase (view (set_clock now st1))) with (phase (view st1)) in Hc.
    change (generatedLooks (view (set_clock now st1)))
      with (generatedLooks (view st1)) in Hc.
    destruct Hc as [(Hx & Hg & _)|(_ & _ & photo & _ & Hx & _)];
      [|congruence].
    destruct Hm as [Hq Hcd|Hq Hq' Hcd Hcd' Hi|c Hq Hq' Hcd Hrg Hcd' Hi
                   |n b Hq Hq' Hcd Hi Hb Ha Hgl|Hq Hq' Hcd Hi];
      try congruence.
    exists n, b. split; [exact Hi|]. split; [exact Hb|]. split.
    + unfold allSettled in Ha. destruct (pending b); [reflexivity|discriminate].
    + congruence.
  - intros st Hr Hp. apply reachable_Inv in Hr.
    destruct (inv_results _ Hr Hp) as [Hlen Hall].
    split; [exact Hlen|]. intros k look Hk.
    assert (Hlt : (k < length (scenes (catalogAt (currentIndex (view st)))))%nat).
    { rewrite <- Hlen. apply lookup_lt_Some in Hk. exact Hk. }
    destruct (lookup_lt_is_Some_2 _ _ Hlt) as [s Hs].
    destruct (Hall k s Hs) as [net Ho].
    rewrite Hk in Ho. inversion Ho. subst look.
    destruct (settledLook_settled s net) as ([Hl Hst] & Hsc & _).
    split; [exact Hl|]. split; [exact Hst|]. rewrite Hsc. exact Hs.
  - intros photo it schedule Hperm.
    destruct (generateAllLooks_spec photo it schedule Hperm)
      as (looks & Hrun & Hlen & Hall).
    exists looks. split; [exact Hrun|]. split; [exact Hlen|].
    intros k net Hin. destruct (Hall k net Hin) as (s & Hs & Hk).
    exists s. split; [exact Hs|]. rewrite Hk.
    pose proof (settledLook_settled s net) as (_ & _ & Hm).
    destruct (generateLook net) as [img|].
    + destruct Hm as [_ Hne]. split; [exact Hne|reflexivity].
    + reflexivity.
Qed.

End AnyEngine.

(** *** On sample inputs, with the [binary64] engine *)

Section OnSamples.
#[local] Existing Instance Binary64.binary64.

(** The third call settles first and the second one fails: three looks
    with an image, one with the error, each in its own slot. *)
Lemma generation_batch_settles_as_a_whole_witness :
  let schedule :=
    [ (2%nat, Samples.imageAnswer "CCCC"); (0%nat, Samples.imageAnswer "AAAA");
      (1%nat, Samples.textAnswer); (3%nat, Samples.imageAnswer "DDDD") ] in
  Permutation (map fst schedule) (seq 0 (length (scenes (catalogAt 0)))) /\
  exists looks,
    generateAllLooks "data:image/jpeg;base64,AAAA" (catalogAt 0) schedule
      = Some looks /\
    length looks = 4%nat /\
    map imageBase64 looks
      = [ "data:image/png;base64,AAAA"; ""; "data:image/png;base64,CCCC";
          "data:image/png;base64,DDDD" ] /\
    map error looks = [ None; Some generationError; None; None ].
Proof.
  intros schedule.
  assert (Hperm : Permutation (map fst schedule)
                    (seq 0 (length (scenes (catalogAt 0))))).
  { change (Permutation [2; 0; 1; 3]%nat [0; 1; 2; 3]%nat).
    apply perm_trans with (l' := [0; 2; 1; 3]%nat).
    - apply perm_swap.
    - apply perm_skip. apply perm_swap. }
  split; [exact Hperm|].
  destruct (proj2 (proj2 generation_batch_settles_as_a_whole)
              "data:image/jpeg;base64,AAAA" (catalogAt 0) schedule Hperm)
    as (looks & Hrun & Hlen & Hall).
  exists looks. split; [exact Hrun|]. split; [exact Hlen|].
  vm_compute in Hrun. inversion Hrun. split; reflexivity.
Defined.

End OnSamples.

End GenerationFacts.

(** ** C7: completions and the capture they belong to *)

Module StaleWriteFacts.
Import Catalog GenerateLook Imagen FittingRoom Invariant InvariantFacts BatchFacts
  PhaseFacts.

Section AnyEngine.
Context {engine : Engine}.


End AnyEngine.

(** *** On sample inputs, with the [binary64] engine *)

Section OnSamples.
#[local] Existing Instance Binary64.binary64.


End OnSamples.

End StaleWriteFacts.

(** ** C9: one cooldown for swipe and capture *)

Module CooldownFacts.
Import Geometry Catalog Imagen FittingRoom Invariant InvariantFacts PhaseFacts.

Ltac cool_solve :=
  split; [reflexivity || assumption
         | cbn; intros; break_in; cbn in *; eauto; try discriminate].

Section AnyEngine.
Context {engine : Engine}.

Lemma coolUntil_core (T : Z) (a b : FR) :
  catalogCooldown (refs a) = catalogCooldown (refs b) ->
  timers (runtime a) = timers (runtime b) ->
  coolUntil T a -> coolUntil T b.
Proof.
  unfold coolUntil. intros Hc Ht [H1 H2]. rewrite <- Hc, <- Ht. auto.
Qed.

Lemma coolUntil_clearTimeout (T : Z) (t : option nat) (st : FR) :
  coolUntil T st -> coolUntil T (clearTimeout t st).
Proof.
  intros [H1 H2]. destruct t; [|split; assumption]. cool_solve.
Qed.

Lemma coolUntil_countdownEffect (T now : Z) (cam : option string) (st : FR) :
  coolUntil T st -> coolUntil T (countdownEffect now cam st).
Proof.
  intros H. unfold countdownEffect.
  apply (coolUntil_clearTimeout T (countdownTimer (runtime st))) in H.
  revert H. generalize (clearTimeout (countdownTimer (runtime st)) st).
  intros s1 [H1 H2].
  cbn [countdown view set_countdownTimer with_runtime].
  destruct (countdown (view s1)) as [c|]; [|cool_solve].
  destruct (c =? 0).
  - unfold takePhoto. destruct cam; cool_solve.
  - cool_solve.
Qed.

Lemma coolUntil_commit (T now : Z) (cam : option string) (before st : FR) :
  coolUntil T st -> coolUntil T (commit now cam before st).
Proof.
  intros H. unfold commit.
  destruct (countdown_eqb _ _); [exact H|].
  destruct (countdown_eqb _ _); repeat apply coolUntil_countdownEffect; exact H.
Qed.

Lemma coolUntil_present (T : Z) (before st : FR) :
  coolUntil T st -> coolUntil T (present before st).
Proof. apply coolUntil_core; reflexivity. Qed.

Lemma goNext_cool (now : Z) (st : FR) :
  catalogCooldown (refs st) = true -> goNext now st = st.
Proof. intros H. unfold goNext. rewrite H. reflexivity. Qed.

Lemma goPrev_cool (now : Z) (st : FR) :
  catalogCooldown (refs st) = true -> goPrev now st = st.
Proof. intros H. unfold goPrev. rewrite H. reflexivity. Qed.

(** While the cooldown is on, a frame calls neither [startCapture] nor
    changes the browse index, and the cooldown stays as it is. *)
Lemma processLandmarks_cool (T now : Z) (lm : option HandLandmarks) (st : FR) :
  coolUntil T st ->
  coolUntil T (fst (processLandmarks now lm st)) /\
  ~ In StartCaptureCalled (snd (processLandmarks now lm st)) /\
  currentIndex (view (fst (processLandmarks now lm st))) = currentIndex (view st).
Proof.
  intros [H1 H2]. unfold processLandmarks.
  assert (Hst : coolUntil T st) by (split; assumption).
  assert (Hno : forall e, e <> StartCaptureCalled ->
                          ~ In StartCaptureCalled [e]).
  { intros e He [Hx|[]]. congruence. }
  destruct (phase (view st)); try (split; [exact Hst|split; [intros []|reflexivity]]).
  - unfold processCatalog.
    destruct lm as [lm|];
      [|split; [cool_solve|split; [intros []|reflexivity]]].
    destruct (postResetCooldown (refs st));
      [split; [exact Hst|split; [intros []|reflexivity]]|].
    unfold openHandGate.
    assert (Hsw : forall s1, catalogCooldown (refs s1) = true ->
              timers (runtime s1) = timers (runtime st) ->
              currentIndex (view s1) = currentIndex (view st) ->
              coolUntil T (fst (catalogSwipe now lm s1)) /\
              ~ In StartCaptureCalled (snd (catalogSwipe now lm s1)) /\
              currentIndex (view (fst (catalogSwipe now lm s1)))
                = currentIndex (view st)).
    { intros s1 Hc Ht Hi. unfold catalogSwipe.
      rewrite (goNext_cool now s1 Hc), (goPrev_cool now s1 Hc).
      assert (Hs1 : coolUntil T s1) by (split; [exact Hc|rewrite Ht; exact H2]).
      destruct Hs1 as [G1 G2].
      destruct (negb _); [split; [cool_solve|split; [intros []|exact Hi]]|].
      destruct (_ <? 500); [|split; [cool_solve|split; [intros []|exact Hi]]].
      destruct (Qltb _ (-0.15)%Q);
        [split; [cool_solve|split; [apply Hno; discriminate|exact Hi]]|].
      destruct (Qltb 0.15%Q _);
        [split; [cool_solve|split; [apply Hno; discriminate|exact Hi]]|].
      split; [cool_solve|split; [intros []|exact Hi]]. }
    destruct (requireOpenHandAfterReset (refs st)).
    + destruct (3 <=? _); [|split; [exact Hst|split; [intros []|reflexivity]]].
      destruct (_ =? 0); [|apply Hsw; auto].
      cbn [negb catalogCooldown refs stopTracking set_swipeState with_refs
           set_requireOpenHandAfterReset].
      rewrite H1. cbn [negb fst snd].
      split; [cool_solve|split; [intros []|reflexivity]].
    + destruct (_ =? 0); [|apply Hsw; auto].
      cbn [negb catalogCooldown refs stopTracking set_swipeState with_refs].
      rewrite H1. cbn [negb fst snd].
      split; [cool_solve|split; [intros []|reflexivity]].
  - unfold processResults.
    destruct lm as [lm|];
      [|split; [cool_solve|split; [intros []|reflexivity]]].
    destruct (isThumbsUp lm).
    + cbn [thumbsUpBuffer refs set_thumbsUpBuffer with_refs set_fingerBuffer
           setLiveFingerCount setThumbsUpProgress with_view].
      destruct (_ <=? _); cbn [fst snd].
      * split; [unfold reset; cool_solve
               |split; [apply Hno; discriminate|reflexivity]].
      * split; [cool_solve|split; [intros []|reflexivity]].
    + destruct (_ && _);
        [|split; [cool_solve|split; [intros []|reflexivity]]].
      cbn [selectedLookIndex view fingerBuffer refs set_thumbsUpBuffer with_refs
           set_fingerBuffer setLiveFingerCount setThumbsUpProgress with_view].
      destruct (_ && _); cbn [fst snd].
      * split; [cool_solve|split; [apply Hno; discriminate|reflexivity]].
      * split; [cool_solve|split; [intros []|reflexivity]].
Qed.


Lemma countdownEffect_index (now : Z) (cam : option string) (st : FR) :
  currentIndex (view (countdownEffect now cam st)) = currentIndex (view st).
Proof.
  unfold countdownEffect.
  assert (H : currentIndex (view (clearTimeout (countdownTimer (runtime st)) st))
              = currentIndex (view st))
    by (destruct (countdownTimer (runtime st)); reflexivity).
  revert H. generalize (clearTimeout (countdownTimer (runtime st)) st).
  intros s1 H. cbn [countdown view set_countdownTimer with_runtime].
  destruct (countdown (view s1)) as [c|]; [|exact H].
  destruct (c =? 0); [|exact H].
  unfold takePhoto. destruct cam; exact H.
Qed.

Lemma commit_index (now : Z) (cam : option string) (before st : FR) :
  currentIndex (view (commit now cam before st)) = currentIndex (view st).
Proof.
  unfold commit. destruct (countdown_eqb _ _); [reflexivity|].
  destruct (countdown_eqb _ _); rewrite ?countdownEffect_index; reflexivity.
Qed.

Lemma handle_cool (T now : Z) (i : Input) (st st' : FR) (evs : list Event) :
  coolUntil T st -> now < T ->
  handle now i st = Some (st', evs) ->
  coolUntil T st' /\ ~ In StartCaptureCalled evs /\
  (isClick i = false -> currentIndex (view st') = currentIndex (view st)).
Proof.
  intros Hc Hnow H. pose proof Hc as [H1 H2].
  destruct i; cbn [handle] in H.
  - inversion H. rewrite (surjective_pairing (processLandmarks now lm st)) in H3.
    inversion H3. destruct (processLandmarks_cool T now lm st Hc) as (A & B & C).
    auto.
  - destruct (catalogInDocument st); inversion H.
    rewrite goPrev_cool by exact H1. split; [exact Hc|].
    split; [intros []|discriminate].
  - destruct (catalogInDocument st); inversion H.
    rewrite goNext_cool by exact H1. split; [exact Hc|].
    split; [intros []|discriminate].
  - destruct (_ && _); inversion H.
    split; [cool_solve|]. split; [intros []|discriminate].
  - destruct (catalogInDocument st); inversion H.
    split; [|split; [intros []|discriminate]].
    unfold startCapture. destruct (negb _); cool_solve.
  - destruct (resultsInDocument st); inversion H.
    split; [unfold reset; cool_solve|]. split; [intros []|discriminate].
  - destruct (_ && _); inversion H.
    split; [cool_solve|]. split; [intros []|discriminate].
  - destruct (findTimer t _) as [tm|] eqn:Ef; [|discriminate].
    destruct (mayFire now tm _) eqn:Em; inversion H.
    apply findTimer_Some in Ef. destruct Ef as [Hin Hn].
    apply mayFire_due in Em.
    split; [|split; [intros []|]].
    + unfold fire. destruct (action tm) eqn:Ea.
      * specialize (H2 _ Hin Ea). lia.
      * cool_solve.
      * cool_solve.
    + intros _. unfold fire. destruct (action tm); reflexivity.
  - destruct (findBatch b _) as [bt|]; [|discriminate].
    destruct (settleCall index net bt) as [bt'|]; inversion H.
    split; [cool_solve|]. split; [intros []|reflexivity].
  - destruct (findBatch b _) as [bt|]; [|discriminate].
    destruct (allSettled bt); inversion H.
    split; [cool_solve|]. split; [intros []|reflexivity].
  - destruct (leaving (runtime st)); inversion H.
    split; [cool_solve|]. split; [intros []|reflexivity].
Qed.

Lemma step_cool (T now : Z) (cam : option string) (i : Input) (st st' : FR)
    (evs : list Event) :
  coolUntil T st -> now < T ->
  step now cam i st = Some (st', evs) ->
  coolUntil T st' /\ ~ In StartCaptureCalled evs /\
  (isClick i = false -> currentIndex (view st') = currentIndex (view st)).
Proof.
  intros Hc Hnow Hs. apply step_inv in Hs. destruct Hs as (_ & st1 & Hh & ->).
  destruct (handle_cool _ _ _ _ _ _ Hc Hnow Hh) as (A & B & C).
  split; [|split; [exact B|]].
  - apply coolUntil_present, coolUntil_commit. revert A. apply coolUntil_core; reflexivity.
  - intros Hi. rewrite present_view, commit_index. apply C. exact Hi.
Qed.

(** While every delivery happens before [T], the cooldown stays on,
    no frame calls [startCapture], and without clicks the browse index
    stays where it is. *)
Lemma run_cool (T : Z) (ds : list Delivery) :
  forall (st st' : FR) (evs : list Event),
  coolUntil T st -> allBefore T ds ->
  run ds st = Some (st', evs) ->
  coolUntil T st' /\ ~ In StartCaptureCalled evs /\
  (noClicks ds -> currentIndex (view st') = currentIndex (view st)).
Proof.
  induction ds as [|d ds IH]; intros st st' evs Hc Hb Hr.
  - inversion Hr. subst. split; [exact Hc|]. split; [intros []|reflexivity].
  - cbn [run] in Hr.
    destruct (step _ _ _ st) as [[st1 evs1]|] eqn:Es; [|discriminate].
    destruct (run ds st1) as [[st2 evs2]|] eqn:Er; inversion Hr. subst.
    inversion Hb as [|? ? Hd Hb']. subst.
    destruct (step_cool _ _ _ _ _ _ _ Hc Hd Es) as (A & B & C).
    destruct (IH _ _ _ A Hb' Er) as (A' & B' & C').
    split; [exact A'|]. split.
    + intros Hin. apply in_app_iff in Hin. tauto.
    + intros Hn. inversion Hn as [|? ? Hi Hn']. subst.
      rewrite C' by exact Hn'. apply C. exact Hi.
Qed.


Lemma next_index_differs (p : Z) :
  0 <= p < catalogLength ->
  Z.rem (p + 1) catalogLength <> p /\
  Z.rem (p - 1 + catalogLength) catalogLength <> p.
Proof.
  unfold catalogLength. cbn. intros Hp.
  assert (Hc : p = 0 \/ p = 1 \/ p = 2 \/ p = 3 \/ p = 4 \/ p = 5 \/ p = 6
               \/ p = 7 \/ p = 8 \/ p = 9) by lia.
  destruct Hc as [->|[->|[->|[->|[->|[->|[->|[->|[->| ->]]]]]]]]];
    cbn; split; discriminate.
Qed.

(** A swipe that finds the cooldown off moves the browse index and sets
    the cooldown for 800ms. *)
Lemma catalogSwipe_arms (now : Z) (lm : HandLandmarks) (st : FR) :
  phase (view st) = catalog ->
  catalogCooldown (refs st) = false ->
  0 <= currentIndex (view st) < catalogLength ->
  (forall t, In t (timers (runtime st)) -> action t <> ClearCatalogCooldown) ->
  (In GoNextCalled (snd (catalogSwipe now lm st))
   \/ In GoPrevCalled (snd (catalogSwipe now lm st))) ->
  coolUntil (now + 800) (fst (catalogSwipe now lm st)) /\
  currentIndex (view (fst (catalogSwipe now lm st))) <> currentIndex (view st).
Proof.
  intros Hp Hc Hi Hno. unfold catalogSwipe, goNext, goPrev.
  rewrite Hc, Hp. cbn [phase_eqb negb orb].
  destruct (next_index_differs _ Hi) as [Hn Hv].
  destruct (negb _); [intros [[]|[]]|].
  destruct (_ <? 500); [|intros [[]|[]]].
  destruct (Qltb _ (-0.15)%Q).
  { intros _. split; [|exact Hn]. split; [reflexivity|].
    cbn. intros t Ht Ha. break_in; [exfalso; eapply Hno; eauto|cbn; lia]. }
  destruct (Qltb 0.15%Q _).
  { intros _. split; [|exact Hv]. split; [reflexivity|].
    cbn. intros t Ht Ha. break_in; [exfalso; eapply Hno; eauto|cbn; lia]. }
  intros [[]|[]].
Qed.

Lemma frame_arms_cooldown (now : Z) (lm : HandLandmarks) (st : FR) :
  Inv st ->
  (catalogCooldown (refs st) = false ->
   In GoNextCalled (snd (processLandmarks now (Some lm) st))
   \/ In GoPrevCalled (snd (processLandmarks now (Some lm) st)) ->
   coolUntil (now + 800) (fst (processLandmarks now (Some lm) st)) /\
   currentIndex (view (fst (processLandmarks now (Some lm) st)))
     <> currentIndex (view st)) /\
  (In StartCaptureCalled (snd (processLandmarks now (Some lm) st)) ->
   catalogCooldown (refs st) = false /\
   phase (view st) = catalog /\
   isFistGesture lm = true /\
   coolUntil (now + 1200) (fst (processLandmarks now (Some lm) st))).
Proof.
  intros HI.
  assert (Hne : forall e e' : Event, e <> e' -> ~ In e [e']).
  { intros e e' He [Hx|[]]. congruence. }
  unfold processLandmarks.
  destruct (phase (view st)) eqn:Ep;
    try (split; [intros _ [[]|[]]|intros []]).
  - unfold processCatalog.
    destruct (postResetCooldown (refs st)); [split; [intros _ [[]|[]]|intros []]|].
    unfold openHandGate, isFistGesture.
    assert (Hsw : forall s1,
              phase (view s1) = catalog ->
              catalogCooldown (refs s1) = catalogCooldown (refs st) ->
              currentIndex (view s1) = currentIndex (view st) ->
              timers (runtime s1) = timers (runtime st) ->
              (catalogCooldown (refs st) = false ->
               In GoNextCalled (snd (catalogSwipe now lm s1))
               \/ In GoPrevCalled (snd (catalogSwipe now lm s1)) ->
               coolUntil (now + 800) (fst (catalogSwipe now lm s1)) /\
               currentIndex (view (fst (catalogSwipe now lm s1)))
                 <> currentIndex (view st)) /\
              (In StartCaptureCalled (snd (catalogSwipe now lm s1)) ->
               catalogCooldown (refs st) = false /\ catalog = catalog /\
               false = true /\
               coolUntil (now + 1200) (fst (catalogSwipe now lm s1)))).
    { intros s1 Hp1 Hc1 Hi1 Ht1. split.
      - intros Hc Hev. rewrite <- Hi1. apply catalogSwipe_arms; auto.
        + congruence.
        + rewrite Hi1. apply (inv_index _ HI).
        + rewrite Ht1. apply (inv_cool_off _ HI). exact Hc.
      - unfold catalogSwipe.
        destruct (negb _); [intros []|].
        destruct (_ <? 500); [|intros []].
        destruct (Qltb _ (-0.15)%Q); [intros Hx; exfalso; revert Hx;
                                      apply Hne; discriminate|].
        destruct (Qltb 0.15%Q _); [intros Hx; exfalso; revert Hx;
                                   apply Hne; discriminate|].
        intros []. }
    assert (Hfist : forall s1,
              phase (view s1) = catalog ->
              catalogCooldown (refs s1) = catalogCooldown (refs st) ->
              timers (runtime s1) = timers (runtime st) ->
              catalogCooldown (refs st) = false ->
              coolUntil (now + 1200)
                (setTimeout now 1200 ClearCatalogCooldown
                   (startCapture (set_catalogCooldown true s1)))).
    { intros s1 Hp1 Hc1 Ht1 Hc. unfold startCapture. cbn. rewrite Hp1. cbn.
      split; [reflexivity|]. cbn. rewrite Ht1. intros t Ht Ha.
      break_in; [exfalso; eapply (inv_cool_off _ HI); eauto|cbn; lia]. }
    destruct (requireOpenHandAfterReset (refs st)).
    + destruct (3 <=? _); [|split; [intros _ [[]|[]]|intros []]].
      destruct (_ =? 0) eqn:Ez; [|apply Hsw; auto].
      cbn [negb catalogCooldown refs stopTracking set_swipeState with_refs
           set_requireOpenHandAfterReset].
      destruct (catalogCooldown (refs st)) eqn:Ec; cbn [negb fst snd].
      * split; [intros _ [[]|[]]|intros []].
      * split.
        -- intros _ [Hx|Hx]; exfalso; revert Hx; apply Hne; discriminate.
        -- intros _. split; [reflexivity|]. split; [reflexivity|].
           split; [reflexivity|]. apply (Hfist (set_requireOpenHandAfterReset
                                                  false (stopTracking st)));
             auto.
    + destruct (_ =? 0) eqn:Ez; [|apply Hsw; auto].
      cbn [negb catalogCooldown refs stopTracking set_swipeState with_refs].
      destruct (catalogCooldown (refs st)) eqn:Ec; cbn [negb fst snd].
      * split; [intros _ [[]|[]]|intros []].
      * split.
        -- intros _ [Hx|Hx]; exfalso; revert Hx; apply Hne; discriminate.
        -- intros _. split; [reflexivity|]. split; [reflexivity|].
           split; [reflexivity|]. apply (Hfist (stopTracking st)); auto.
  - unfold processResults.
    destruct (isThumbsUp lm).
    + cbn [thumbsUpBuffer refs set_thumbsUpBuffer with_refs set_fingerBuffer
           setLiveFingerCount setThumbsUpProgress with_view].
      destruct (_ <=? _); cbn [fst snd].
      * split; [intros _ [Hx|Hx]|intros Hx]; exfalso; revert Hx;
          apply Hne; discriminate.
      * split; [intros _ [[]|[]]|intros []].
    + destruct (_ && _); [|split; [intros _ [[]|[]]|intros []]].
      cbn [selectedLookIndex view fingerBuffer refs set_thumbsUpBuffer with_refs
           set_fingerBuffer setLiveFingerCount setThumbsUpProgress with_view].
      destruct (_ && _); cbn [fst snd].
      * split; [intros _ [Hx|Hx]|intros Hx]; exfalso; revert Hx;
          apply Hne; discriminate.
      * split; [intros _ [[]|[]]|intros []].
Qed.


Lemma frame_step_inv (now : Z) (cam : option string)
    (lm : option HandLandmarks) (st st1 : FR) (evs : list Event) :
  step now cam (Frame lm) st = Some (st1, evs) ->
  st1 = present st
          (commit now cam st
             (set_clock now (fst (processLandmarks now lm st)))) /\
  evs = snd (processLandmarks now lm st).
Proof.
  intros Hs. apply step_inv in Hs. destruct Hs as (_ & s1 & Hh & ->).
  cbn [handle] in Hh. inversion Hh as [Heq]. rewrite Heq. split; reflexivity.
Qed.

(** C9: the swipe and the fist of the catalog phase share the one
    cooldown flag.  (1) When a swipe frame finds the flag off, the
    browse index moves, the flag is set, and as long as everything
    happens less than 800ms after that frame the flag stays set and no
    frame, a fist included, calls [startCapture].  (2) When a frame
    calls [startCapture] it is a fist frame that found the flag off;
    the flag is set, and as long as everything happens less than 1200ms
    after that frame the flag stays set and, clicks apart, the browse
    index does not change. *)
Theorem swipe_and_capture_share_one_cooldown :
  (forall (now : Z) (cam : option string) (lm : HandLandmarks)
          (st st1 : FR) (evs : list Event),
     reachable st ->
     step now cam (Frame (Some lm)) st = Some (st1, evs) ->
     catalogCooldown (refs st) = false ->
     In GoNextCalled evs \/ In GoPrevCalled evs ->
     currentIndex (view st1) <> currentIndex (view st) /\
     catalogCooldown (refs st1) = true /\
     forall (ds : list Delivery) (st2 : FR) (evs2 : list Event),
       allBefore (now + 800) ds -> run ds st1 = Some (st2, evs2) ->
       catalogCooldown (refs st2) = true /\
       ~ In StartCaptureCalled evs2) /\
  (forall (now : Z) (cam : option string) (lm : HandLandmarks)
          (st st1 : FR) (evs : list Event),
     reachable st ->
     step now cam (Frame (Some lm)) st = Some (st1, evs) ->
     In StartCaptureCalled evs ->
     isFistGesture lm = true /\
     catalogCooldown (refs st) = false /\
     catalogCooldown (refs st1) = true /\
     forall (ds : list Delivery) (st2 : FR) (evs2 : list Event),
       allBefore (now + 1200) ds -> run ds st1 = Some (st2, evs2) ->
       catalogCooldown (refs st2) = true /\
       (noClicks ds -> currentIndex (view st2) = currentIndex (view st1))).
Proof.
  split.
  - intros now cam lm st st1 evs Hr Hs Hc Hev.
    apply reachable_Inv in Hr.
    apply frame_step_inv in Hs. destruct Hs as [-> ->].
    destruct (proj1 (frame_arms_cooldown now lm st Hr) Hc Hev) as [Hcool Hidx].
    assert (Hcool1 : coolUntil (now + 800)
              (present st
                 (commit now cam st
                    (set_clock now (fst (processLandmarks now (Some lm) st)))))).
    { apply coolUntil_present, coolUntil_commit. revert Hcool.
      apply coolUntil_core; reflexivity. }
    split; [rewrite present_view, commit_index; exact Hidx|].
    split; [apply Hcool1|].
    intros ds st2 evs2 Hb Hrun.
    destruct (run_cool _ _ _ _ _ Hcool1 Hb Hrun) as ([A _] & B & _). auto.
  - intros now cam lm st st1 evs Hr Hs Hev.
    apply reachable_Inv in Hr.
    apply frame_step_inv in Hs. destruct Hs as [-> ->].
    destruct (proj2 (frame_arms_cooldown now lm st Hr) Hev)
      as (Hc & Hp & Hf & Hcool).
    assert (Hcool1 : coolUntil (now + 1200)
              (present st
                 (commit now cam st
                    (set_clock now (fst (processLandmarks now (Some lm) st)))))).
    { apply coolUntil_present, coolUntil_commit. revert Hcool.
      apply coolUntil_core; reflexivity. }
    split; [exact Hf|]. split; [exact Hc|]. split; [apply Hcool1|].
    intros ds st2 evs2 Hb Hrun.
    destruct (run_cool _ _ _ _ _ Hcool1 Hb Hrun) as ([A _] & _ & C). auto.
Qed.

End AnyEngine.

(** *** On sample inputs, with the [binary64] engine *)

Section OnSamples.
#[local] Existing Instance Binary64.binary64.

(** A swipe at 400ms, then a fist at 600ms: the fist does not trigger
    the capture. *)
Lemma swipe_and_capture_share_one_cooldown_witness :
  let cam := Some "data:image/jpeg;base64,AAAA"%string in
  let st := Samples.catalogTracking in
  let st1 := Samples.after
               [Samples.deliver 400 (Frame (Some (Hands.openHand 0.66)))] st in
  let ds := [Samples.deliver 600 (Frame (Some Hands.fistHand))] in
  let st2 := Samples.after ds st1 in
  reachable st /\
  step 400 cam (Frame (Some (Hands.openHand 0.66))) st
    = Some (st1, [GoPrevCalled]) /\
  catalogCooldown (refs st) = false /\
  allBefore (400 + 800) ds /\
  run ds st1 = Some (st2, []) /\
  phase (view st2) = catalog /\
  catalogCooldown (refs st2) = true.
Proof.
  intros cam st st1 ds st2.
  assert (Hr : reachable st).
  { apply (reachable_step initial 0 cam (Frame (Some (Hands.openHand 0.5)))
             st [] reachable_initial).
    vm_compute. reflexivity. }
  assert (Es : step 400 cam (Frame (Some (Hands.openHand 0.66))) st
               = Some (st1, [GoPrevCalled])) by (vm_compute; reflexivity).
  assert (Hb : allBefore (400 + 800) ds).
  { repeat constructor. }
  assert (Er : run ds st1 = Some (st2, [])) by (vm_compute; reflexivity).
  split; [exact Hr|]. split; [exact Es|]. split; [reflexivity|].
  split; [exact Hb|]. split; [exact Er|]. split; [vm_compute; reflexivity|].
  destruct (proj1 swipe_and_capture_share_one_cooldown
              400 cam (Hands.openHand 0.66) st st1 [GoPrevCalled]
              Hr Es eq_refl (or_intror (or_introl eq_refl)))
    as (_ & _ & H).
  exact (proj1 (H ds st2 [] Hb Er)).
Defined.

End OnSamples.

End CooldownFacts.

(** ** C10 and C6: the hand-open gate and [reset] *)

Module GateFacts.
Import Geometry Catalog Imagen FittingRoom Invariant InvariantFacts PhaseFacts
       CooldownFacts.

Section AnyEngine.
Context {engine : Engine}.

(** A catalog frame with a hand is dropped during the lockout, and
    while the gate is armed and fewer than 3 fingers are extended. *)
Lemma processLandmarks_ignored (now : Z) (lm : HandLandmarks) (st : FR) :
  phase (view st) = catalog ->
  postResetCooldown (refs st) = true \/
  (requireOpenHandAfterReset (refs st) = true /\ countExtendedFingers lm < 3) ->
  processLandmarks now (Some lm) st = (st, []).
Proof.
  intros Hp H. unfold processLandmarks. rewrite Hp. unfold processCatalog.
  destruct (postResetCooldown (refs st)); [reflexivity|].
  destruct H as [H|[Hg Hc]]; [discriminate|].
  unfold openHandGate. rewrite Hg.
  apply Z.ltb_lt in Hc. rewrite Z.leb_antisym, Hc. reflexivity.
Qed.

(** C10: in the catalog phase, while the hand-open gate is armed, a
    frame with a hand that shows fewer than 3 extended fingers does
    nothing at all: no call is made (no swipe, no capture) and no cell
    of the component changes, the swipe tracking included; the step
    only advances the clock, and any sequence of such frames leaves the
    component as it was.  Once the lockout is over, a frame with
    at least 3 extended fingers clears the gate. *)
Theorem armed_gate_ignores_closed_hand (now : Z) (lm : HandLandmarks) (st : FR) :
  phase (view st) = catalog ->
  requireOpenHandAfterReset (refs st) = true ->
  countExtendedFingers lm < 3 ->
  processLandmarks now (Some lm) st = (st, []) /\
  (forall cam, clock (runtime st) <= now ->
     step now cam (Frame (Some lm)) st = Some (set_clock now st, [])) /\
  (forall fs : list (Z * option HandLandmarks),
     Forall (fun f => exists h, snd f = Some h /\ countExtendedFingers h < 3) fs ->
     Frames.processFrames fs st = (st, [])) /\
  (forall lm', 3 <= countExtendedFingers lm' ->
     postResetCooldown (refs st) = false ->
     requireOpenHandAfterReset
       (refs (fst (processLandmarks now (Some lm') st))) = false).
Proof.
  intros Hp Hg Hc.
  assert (Hpl : processLandmarks now (Some lm) st = (st, []))
    by (apply processLandmarks_ignored; auto).
  split; [exact Hpl|]. split; [|split].
  2:{ intros fs Hall. induction Hall as [|tf fs Htf Hall IH].
      - reflexivity.
      - destruct tf as [t f]. destruct Htf as (h & Hf & Hh).
        cbn [snd] in Hf. subst f. cbn [Frames.processFrames].
        rewrite (processLandmarks_ignored t h st Hp) by auto.
        cbn [fst snd]. rewrite IH. reflexivity. }
  - intros cam Hclk. unfold step. apply Z.leb_le in Hclk. rewrite Hclk.
    cbn [handle]. rewrite Hpl. rewrite commit_unchanged by reflexivity.
    unfold present. cbn [view set_clock with_runtime]. rewrite Hp.
    reflexivity.
  - intros lm' Hc' Hpost. unfold processLandmarks. rewrite Hp.
    unfold processCatalog. rewrite Hpost. unfold openHandGate. rewrite Hg.
    apply Z.leb_le in Hc'. rewrite Hc'.
    destruct (_ =? 0).
    + cbn [negb catalogCooldown refs stopTracking set_swipeState with_refs
           set_requireOpenHandAfterReset].
      destruct (catalogCooldown (refs st)); cbn [negb fst].
      * reflexivity.
      * unfold startCapture. destruct (negb _); reflexivity.
    + unfold catalogSwipe, goNext, goPrev.
      destruct (negb _); [reflexivity|].
      destruct (_ <? 500); [|reflexivity].
      destruct (Qltb _ (-0.15)%Q).
      { cbn. destruct (_ || _); reflexivity. }
      destruct (Qltb 0.15%Q _).
      { cbn. destruct (_ || _); reflexivity. }
      reflexivity.
Qed.

End AnyEngine.

Ltac gate_solve :=
  repeat split; cbn; intros; break_in; cbn in *; eauto;
  try discriminate; try contradiction.

Section AnyEngine.
Context {engine : Engine}.

Lemma goNext_gated (now T : Z) (st : FR) :
  gated st ->
  gated (goNext now st) /\ gated (goPrev now st) /\
  (lockedUntil T st -> lockedUntil T (goNext now st)
                       /\ lockedUntil T (goPrev now st)).
Proof.
  intros Hg. pose proof Hg as (G1 & G2 & G3 & G4). unfold goNext, goPrev.
  destruct (_ || _).
  - split; [exact Hg|]. split; [exact Hg|]. intros HL. split; exact HL.
  - split; [gate_solve|]. split; [gate_solve|].
    intros [L1 L2]. gate_solve.
Qed.

Lemma gated_present (before st : FR) : gated st -> gated (present before st).
Proof. intros H. exact H. Qed.

Lemma lockedUntil_present (T : Z) (before st : FR) :
  lockedUntil T st -> lockedUntil T (present before st).
Proof. intros H. exact H. Qed.

(** One step that shows no open hand, or falls inside the lockout,
    leaves the gate armed and calls no [startCapture]; a lockout that
    has 500ms at most to run is not lifted by a step before its end. *)
Lemma step_gated (d : Delivery) (st st' : FR) (evs : list Event) :
  gated st ->
  notCaptureClick d = true ->
  (forall lm, input d = Frame (Some lm) ->
     postResetCooldown (refs st) = true \/ countExtendedFingers lm < 3) ->
  step (at_time d) (camera d) (input d) st = Some (st', evs) ->
  gated st' /\ ~ In StartCaptureCalled evs /\
  clock (runtime st) <= at_time d /\ clock (runtime st') = at_time d /\
  (forall T, lockedUntil T st -> at_time d < T -> T <= at_time d + 500 ->
             lockedUntil T st').
Proof.
  intros Hg Hn Hf Hs. pose proof Hg as (G1 & G2 & G3 & G4).
  apply step_inv in Hs. destruct Hs as (Hclk & st1 & Hh & ->).
  assert (Hmain : gated st1 /\ ~ In StartCaptureCalled evs /\
            (forall T, lockedUntil T st -> at_time d < T ->
                       T <= at_time d + 500 -> lockedUntil T st1)).
  { destruct d as [now cam i]. cbn [at_time camera input] in *.
    unfold notCaptureClick in Hn. cbn [input] in Hn.
    destruct i; cbn [handle] in Hh; try discriminate.
    - (* Frame *)
      destruct lm as [lm|].
      + rewrite processLandmarks_ignored in Hh.
        * inversion Hh. subst.
          split; [exact Hg|]. split; [intros []|auto].
        * exact G1.
        * destruct (Hf lm eq_refl) as [Hx|Hx]; auto.
      + inversion Hh as [Heq]. clear Hh. revert Heq.
        unfold processLandmarks. rewrite G1. unfold processCatalog.
        intros Heq. inversion Heq. subst.
        split; [gate_solve|]. split; [intros []|].
        intros T [L1 L2] _ _. gate_solve.
    - destruct (catalogInDocument st); inversion Hh. subst.
      split; [apply (goNext_gated now 0 st Hg)|]. split; [intros []|].
      intros T HL _ _. apply (goNext_gated now T st Hg). exact HL.
    - destruct (catalogInDocument st); inversion Hh. subst.
      split; [apply (goNext_gated now 0 st Hg)|]. split; [intros []|].
      intros T HL _ _. apply (goNext_gated now T st Hg). exact HL.
    - destruct (_ && _); inversion Hh. subst.
      split; [gate_solve|]. split; [intros []|].
      intros T [L1 L2] _ _. gate_solve.
    - (* the back button of a results screen that is leaving *)
      destruct (resultsInDocument st); inversion Hh. subst.
      split; [unfold reset; gate_solve|]. split; [intros []|].
      intros T [L1 L2] _ HT. split; [reflexivity|].
      unfold reset. cbn. intros t Ht Ha. break_in; [eauto|cbn; lia].
    - destruct (_ && _); inversion Hh. subst.
      split; [gate_solve|]. split; [intros []|].
      intros T [L1 L2] _ _. gate_solve.
    - destruct (findTimer t _) as [tm|] eqn:Ef; [|discriminate].
      destruct (mayFire now tm _) eqn:Em; inversion Hh. subst.
      apply findTimer_Some in Ef. destruct Ef as [Hin _].
      apply mayFire_due in Em.
      split; [|split; [intros []|]].
      + unfold fire. destruct (action tm); gate_solve.
        all: rewrite G3; reflexivity.
      + intros T [L1 L2] HT _. unfold fire. destruct (action tm) eqn:Ea.
        * gate_solve.
        * specialize (L2 _ Hin Ea). lia.
        * gate_solve.
    - rewrite G4 in Hh. discriminate.
    - rewrite G4 in Hh. discriminate.
    - destruct (leaving (runtime st)); inversion Hh. subst.
      split; [gate_solve|]. split; [intros []|].
      intros T [L1 L2] _ _. gate_solve. }
  destruct Hmain as ((H1 & H2 & H3 & H4) & Hev & HL).
  rewrite commit_unchanged by (cbn; congruence).
  split; [repeat split; assumption|]. split; [exact Hev|].
  split; [exact Hclk|]. split; [reflexivity|].
  intros T HT Hlt Hle. destruct (HL T HT Hlt Hle) as [L1 L2]. split; assumption.
Qed.


(** As long as no open hand is shown, the gate stays armed. *)
Lemma run_gated_shut (ds : list Delivery) :
  forall (st st' : FR) (evs : list Event),
  gated st -> Forall (fun d => showsNoOpenHand d = true) ds ->
  run ds st = Some (st', evs) ->
  gated st' /\ ~ In StartCaptureCalled evs.
Proof.
  induction ds as [|d ds IH]; intros st st' evs Hg Hall Hr.
  - inversion Hr. subst. split; [exact Hg|intros []].
  - cbn [run] in Hr.
    destruct (step _ _ _ st) as [[st1 evs1]|] eqn:Es; [|discriminate].
    destruct (run ds st1) as [[st2 evs2]|] eqn:Er; inversion Hr. subst.
    inversion Hall as [|? ? Hd Hall']. subst.
    destruct (step_gated d st st1 evs1 Hg) as (A & B & _); auto.
    + unfold showsNoOpenHand in Hd. unfold notCaptureClick.
      destruct (input d); auto.
    + intros lm Hi. right. unfold showsNoOpenHand in Hd. rewrite Hi in Hd.
      apply Z.ltb_lt. exact Hd.
    + destruct (IH _ _ _ A Hall' Er) as (A' & B').
      split; [exact A'|]. intros Hin. apply in_app_iff in Hin. tauto.
Qed.

(** During a lockout that has 500ms at most to run the gate stays
    armed whatever the hand shows. *)
Lemma run_gated_locked (T : Z) (ds : list Delivery) :
  forall (st st' : FR) (evs : list Event),
  gated st -> lockedUntil T st -> T <= clock (runtime st) + 500 ->
  allBefore T ds ->
  Forall (fun d => notCaptureClick d = true) ds ->
  run ds st = Some (st', evs) ->
  gated st' /\ lockedUntil T st' /\ ~ In StartCaptureCalled evs.
Proof.
  induction ds as [|d ds IH]; intros st st' evs Hg HL Hclk Hb Hall Hr.
  - inversion Hr. subst. split; [exact Hg|]. split; [exact HL|intros []].
  - cbn [run] in Hr.
    destruct (step _ _ _ st) as [[st1 evs1]|] eqn:Es; [|discriminate].
    destruct (run ds st1) as [[st2 evs2]|] eqn:Er; inversion Hr. subst.
    inversion Hall as [|? ? Hd Hall']. subst.
    inversion Hb as [|? ? Ht Hb']. subst.
    destruct (step_gated d st st1 evs1 Hg Hd) as (A & B & C1 & C2 & C); auto.
    + intros lm _. left. apply HL.
    + assert (HL1 : lockedUntil T st1) by (apply C; [exact HL|exact Ht|lia]).
      destruct (IH _ _ _ A HL1 ltac:(lia) Hb' Hall' Er) as (A' & L' & B').
      split; [exact A'|]. split; [exact L'|].
      intros Hin. apply in_app_iff in Hin. tauto.
Qed.

(** What [reset] leaves behind. *)
Lemma reset_fields (now : Z) (st : FR) :
  phase (view (reset now st)) = catalog /\
  selectedLookIndex (view (reset now st)) = 0 /\
  generatedLooks (view (reset now st)) = [] /\
  countdown (view (reset now st)) = None /\
  capturedPhoto (view (reset now st)) = None /\
  thumbsUpBuffer (refs (reset now st)) = 0 /\
  fingerBuffer (refs (reset now st)) = [] /\
  postResetCooldown (refs (reset now st)) = true /\
  requireOpenHandAfterReset (refs (reset now st)) = true /\
  In {| tid := nextId (runtime st); delay := 500; due := now + 500;
        action := ClearPostResetCooldown |}
     (timers (runtime (reset now st))).
Proof.
  repeat split. cbn. apply in_app_iff. right. left. reflexivity.
Qed.

(** The two ways [reset] is invoked: the back button, of the results
    screen shown or of a results screen that is leaving, and the frame
    on which the thumbs-up hold completes. *)
Lemma handle_reset (now : Z) (i : Input) (st st1 : FR) (evs : list Event) :
  staged st ->
  handle now i st = Some (st1, evs) ->
  i = ClickBack \/ In ResetCalled evs ->
  exists s0, st1 = reset now s0 /\
    (phase (view st) = results \/ phase (view st) = catalog) /\
    phase (view s0) = phase (view st) /\
    countdown (view s0) = countdown (view st) /\
    timers (runtime s0) = timers (runtime st) /\
    batches (runtime s0) = batches (runtime st).
Proof.
  assert (Hne : forall e e' : Event, e <> e' -> ~ In e [e']).
  { intros e e' He [Hx|[]]. congruence. }
  intros HS Hh Hi. destruct i; cbn [handle] in Hh;
    try (destruct Hi as [Hi|Hi]; [discriminate|]).
  - inversion Hh as [Heq]. clear Hh. revert Heq Hi.
    unfold processLandmarks.
    destruct (phase (view st)) eqn:Ep;
      try (intros Heq; inversion Heq; subst; intros []).
    + unfold processCatalog.
      destruct lm as [lm|]; [|intros Heq; inversion Heq; subst; intros []].
      destruct (postResetCooldown (refs st));
        [intros Heq; inversion Heq; subst; intros []|].
      destruct (openHandGate _ st) as [s1|];
        [|intros Heq; inversion Heq; subst; intros []].
      destruct (_ =? 0).
      * cbv zeta. destruct (negb _); intros Heq; inversion Heq; subst;
          [intros Hx; exfalso; revert Hx; apply Hne; discriminate|intros []].
      * unfold catalogSwipe.
        destruct (negb _); [intros Heq; inversion Heq; subst; intros []|].
        destruct (_ <? 500); [|intros Heq; inversion Heq; subst; intros []].
        destruct (Qltb _ (-0.15)%Q);
          [intros Heq; inversion Heq; subst; intros Hx; exfalso; revert Hx;
           apply Hne; discriminate|].
        destruct (Qltb 0.15%Q _);
          [intros Heq; inversion Heq; subst; intros Hx; exfalso; revert Hx;
           apply Hne; discriminate|].
        intros Heq; inversion Heq; subst; intros [].
    + unfold processResults.
      destruct lm as [lm|]; [|intros Heq; inversion Heq; subst; intros []].
      destruct (isThumbsUp lm).
      * cbv zeta.
        destruct (_ <=? _); intros Heq; inversion Heq; subst;
          [|intros []].
        intros _. eexists. split; [reflexivity|]. split; [left; reflexivity|].
        repeat split; exact Ep.
      * destruct (_ && _); [|intros Heq; inversion Heq; subst; intros []].
        cbv zeta.
        destruct (_ && _); intros Heq; inversion Heq; subst;
          [intros Hx; exfalso; revert Hx; apply Hne; discriminate|intros []].
  - destruct (catalogInDocument st); inversion Hh. subst. destruct Hi.
  - destruct (catalogInDocument st); inversion Hh. subst. destruct Hi.
  - destruct (_ && _); inversion Hh. subst. destruct Hi.
  - destruct (catalogInDocument st); inversion Hh. subst. destruct Hi.
  - destruct (resultsInDocument st) eqn:Er; inversion Hh. subst.
    exists st. split; [reflexivity|]. split; [|repeat split].
    destruct (resultsInDocument_phase st HS Er) as [[_ Hx]|Hx]; auto.
  - destruct (_ && _); inversion Hh. subst. destruct Hi.
  - destruct (findTimer t _) as [tm|]; [|discriminate].
    destruct (mayFire now tm _); inversion Hh. subst. destruct Hi.
  - destruct (findBatch b _) as [bt|]; [|discriminate].
    destruct (settleCall index net bt); inversion Hh. subst. destruct Hi.
  - destruct (findBatch b _) as [bt|]; [|discriminate].
    destruct (allSettled bt); inversion Hh. subst. destruct Hi.
  - destruct (leaving (runtime st)); inversion Hh. subst. destruct Hi.
Qed.


(** What [reset] does, and what follows when the component invokes
    it.  (1) [reset] puts the machine in [catalog] with selected look
    0, no generated look, no countdown, no captured photo, the
    thumbs-up accumulator and the finger buffer zeroed, the lockout on
    (its lift scheduled 500ms later) and the hand-open gate armed.
    (2) Whenever the component invokes it (the back button, or the
    frame that completes a thumbs-up hold), no countdown tick is
    pending either, and as long as no hand frame shows 3 extended
    fingers or more and the capture button is not clicked, the machine
    stays on the catalog with the gate armed and no frame calls
    [startCapture].  (3) When it is invoked in the results phase, then
    whatever the hand shows during the 500ms that follow, the lockout
    stays on, the gate stays armed and no frame calls
    [startCapture]. *)
Theorem reset_arms_gate_and_lockout :
  (forall (now : Z) (st : FR),
     phase (view (reset now st)) = catalog /\
     selectedLookIndex (view (reset now st)) = 0 /\
     generatedLooks (view (reset now st)) = [] /\
     countdown (view (reset now st)) = None /\
     capturedPhoto (view (reset now st)) = None /\
     thumbsUpBuffer (refs (reset now st)) = 0 /\
     fingerBuffer (refs (reset now st)) = [] /\
     postResetCooldown (refs (reset now st)) = true /\
     requireOpenHandAfterReset (refs (reset now st)) = true /\
     In {| tid := nextId (runtime st); delay := 500; due := now + 500;
           action := ClearPostResetCooldown |}
        (timers (runtime (reset now st)))) /\
  (forall (now : Z) (cam : option string) (i : Input) (st st1 : FR)
          (evs : list Event),
     reachable st -> step now cam i st = Some (st1, evs) ->
     i = ClickBack \/ In ResetCalled evs ->
     (phase (view st1) = catalog /\
      selectedLookIndex (view st1) = 0 /\
      generatedLooks (view st1) = [] /\
      countdown (view st1) = None /\
      thumbsUpBuffer (refs st1) = 0 /\
      fingerBuffer (refs st1) = [] /\
      postResetCooldown (refs st1) = true /\
      requireOpenHandAfterReset (refs st1) = true /\
      (forall t, In t (timers (runtime st1)) -> action t <> CountdownTick)) /\
     (forall (ds : list Delivery) (st2 : FR) (evs2 : list Event),
        Forall (fun d => showsNoOpenHand d = true) ds ->
        run ds st1 = Some (st2, evs2) ->
        phase (view st2) = catalog /\
        requireOpenHandAfterReset (refs st2) = true /\
        ~ In StartCaptureCalled evs2) /\
     (phase (view st) = results ->
      forall (ds : list Delivery) (st2 : FR) (evs2 : list Event),
        allBefore (now + 500) ds ->
        Forall (fun d => notCaptureClick d = true) ds ->
        run ds st1 = Some (st2, evs2) ->
        phase (view st2) = catalog /\
        postResetCooldown (refs st2) = true /\
        requireOpenHandAfterReset (refs st2) = true /\
        ~ In StartCaptureCalled evs2)).
Proof.
  split; [exact reset_fields|].
  intros now cam i st st1 evs Hr Hs Hi.
  assert (HI1 : Inv st1).
  { apply reachable_Inv. eapply reachable_step; eassumption. }
  apply reachable_Inv_staged in Hr. destruct Hr as [Hr HS]. revert HI1.
  apply step_inv in Hs. destruct Hs as (_ & s1 & Hh & ->).
  destruct (handle_reset _ _ _ _ _ HS Hh Hi)
    as (s0 & -> & Hp & Hp0 & Hc0 & Ht0 & Hb0).
  intros HI1.
  assert (Hcd : countdown (view st) = None).
  { destruct (countdown (view st)) as [c|] eqn:Ec; [|reflexivity].
    destruct (inv_countdown _ Hr _ Ec). destruct Hp; congruence. }
  rewrite commit_unchanged in * by (cbn; congruence).
  assert (Hg : gated (present st (set_clock now (reset now s0)))).
  { repeat split. cbn. rewrite Hb0. apply (inv_batches _ Hr).
    destruct Hp; congruence. }
  split.
  { repeat split. intros t Ht Ha.
    destruct (inv_tick _ HI1 _ Ht Ha) as (Hx & _). discriminate. }
  split.
  - intros ds st2 evs2 Hall Hrun.
    destruct (run_gated_shut _ _ _ _ Hg Hall Hrun) as ((A & B & _) & C). auto.
  - intros Hres ds st2 evs2 Hb Hall Hrun.
    assert (HL : lockedUntil (now + 500)
                   (present st (set_clock now (reset now s0)))).
    { split; [reflexivity|]. cbn. rewrite Ht0. intros t Ht Ha. break_in.
      - exfalso. eapply (inv_post_late _ Hr); eauto.
      - cbn. lia. }
    destruct (run_gated_locked _ _ _ _ _ Hg HL ltac:(cbn; lia) Hb Hall Hrun)
      as ((A & B & _) & (L & _) & C).
    auto.
Qed.

End AnyEngine.

(** *** On sample inputs, with the [binary64] engine *)

Section OnSamples.
#[local] Existing Instance Binary64.binary64.

Lemma armed_gate_ignores_closed_hand_witness :
  let st := reset 0 Samples.inResults in
  phase (view st) = catalog /\
  requireOpenHandAfterReset (refs st) = true /\
  countExtendedFingers Hands.twoFingers < 3 /\
  processLandmarks 700 (Some Hands.twoFingers) st = (st, []).
Proof.
  intros st.
  assert (Hp : phase (view st) = catalog) by reflexivity.
  assert (Hg : requireOpenHandAfterReset (refs st) = true) by reflexivity.
  assert (Hc : countExtendedFingers Hands.twoFingers < 3)
    by (vm_compute; reflexivity).
  split; [exact Hp|]. split; [exact Hg|]. split; [exact Hc|].
  exact (proj1 (armed_gate_ignores_closed_hand 700 Hands.twoFingers st Hp Hg Hc)).
Defined.


(** Back from the results at 4000ms.  A fist at 4100ms, the lift of the
    lockout at 4600ms, a fist again at 4700ms: no capture.  And an open
    hand at 4200ms with a fist at 4300ms, inside the lockout: no
    capture either. *)
Lemma reset_arms_gate_and_lockout_witness :
  let cam := Some "data:image/jpeg;base64,AAAA"%string in
  let st := Samples.inResults in
  let st1 := Samples.after [Samples.deliver 4000 ClickBack] st in
  let ds := [ Samples.deliver 4100 (Frame (Some Hands.fistHand));
              Samples.deliver 4600 (TimerFires 4);
              Samples.deliver 4700 (Frame (Some Hands.fistHand)) ] in
  let st2 := Samples.after ds st1 in
  let ds' := [ Samples.deliver 4200 (Frame (Some (Hands.openHand 0.5)));
               Samples.deliver 4300 (Frame (Some Hands.fistHand)) ] in
  let st2' := Samples.after ds' st1 in
  reachable st /\
  step 4000 cam ClickBack st = Some (st1, []) /\
  phase (view st) = results /\
  Forall (fun d => showsNoOpenHand d = true) ds /\
  run ds st1 = Some (st2, []) /\
  postResetCooldown (refs st2) = false /\
  (phase (view st2) = catalog /\
   requireOpenHandAfterReset (refs st2) = true) /\
  allBefore (4000 + 500) ds' /\
  Forall (fun d => notCaptureClick d = true) ds' /\
  run ds' st1 = Some (st2', []) /\
  (phase (view st2') = catalog /\
   postResetCooldown (refs st2') = true /\
   requireOpenHandAfterReset (refs st2') = true).
Proof.
  intros cam st st1 ds st2 ds' st2'.
  assert (Hr : reachable st).
  { apply (run_reachable Samples.toResults initial st [] reachable_initial).
    vm_compute. reflexivity. }
  assert (Es : step 4000 cam ClickBack st = Some (st1, []))
    by (vm_compute; reflexivity).
  assert (Hp : phase (view st) = results) by (vm_compute; reflexivity).
  assert (Hall : Forall (fun d => showsNoOpenHand d = true) ds).
  { repeat constructor. }
  assert (Er : run ds st1 = Some (st2, [])) by (vm_compute; reflexivity).
  assert (Hb' : allBefore (4000 + 500) ds').
  { repeat constructor. }
  assert (Hall' : Forall (fun d => notCaptureClick d = true) ds').
  { repeat constructor. }
  assert (Er' : run ds' st1 = Some (st2', [])) by (vm_compute; reflexivity).
  destruct (proj2 reset_arms_gate_and_lockout
              4000 cam ClickBack st st1 [] Hr Es (or_introl eq_refl))
    as (_ & H & H').
  destruct (H ds st2 [] Hall Er) as (A & B & _).
  destruct (H' Hp ds' st2' [] Hb' Hall' Er') as (A' & B' & C' & _).
  split; [exact Hr|]. split; [exact Es|]. split; [exact Hp|].
  split; [exact Hall|]. split; [exact Er|]. split; [vm_compute; reflexivity|].
  split; [split; assumption|]. split; [exact Hb'|]. split; [exact Hall'|].
  split; [exact Er'|]. repeat split; assumption.
Defined.

(** C6: the lockout of a [reset] can end before its 500ms have run.
    The back button of the results screen stays in the document, and
    answers clicks, while the screen is leaving.  Clicked at 4000ms and
    again at 4100ms it invokes [reset] twice: the machine is in
    [catalog], the lockout is on, the gate is armed, and two timers that
    lift the lockout are pending, due at 4500ms and at 4600ms.  The
    first one lifts the lockout of the second [reset] at 4500ms; an
    open hand at 4510ms clears the gate and the fist at 4520ms, 420ms
    after the second [reset], calls [startCapture]. *)
Theorem second_reset_lockout_is_cut_short :
  let clicks := firstn 3 Samples.backTwice in
  let rest := skipn 3 Samples.backTwice in
  exists st1 st2 : FR,
    reachable Samples.inResults /\
    phase (view Samples.inResults) = results /\
    clicks = [ Samples.deliver 4000 ClickBack; Samples.deliver 4100 ClickBack;
               Samples.deliver 4300 ExitComplete ] /\
    run clicks Samples.inResults = Some (st1, []) /\
    phase (view st1) = catalog /\
    selectedLookIndex (view st1) = 0 /\
    generatedLooks (view st1) = [] /\
    countdown (view st1) = None /\
    postResetCooldown (refs st1) = true /\
    requireOpenHandAfterReset (refs st1) = true /\
    map (fun t => (action t, due t)) (timers (runtime st1))
      = [ (ClearPostResetCooldown, 4500); (ClearPostResetCooldown, 4600) ] /\
    rest = [ Samples.deliver 4500 (TimerFires 4);
             Samples.deliver 4510 (Frame (Some (Hands.openHand 0.5)));
             Samples.deliver 4520 (Frame (Some Hands.fistHand)) ] /\
    allBefore (4100 + 500) rest /\
    Forall (fun d => notCaptureClick d = true) rest /\
    run rest st1 = Some (st2, [StartCaptureCalled]) /\
    phase (view st2) = capturing.
Proof.
  cbv zeta.
  exists (Samples.after (firstn 3 Samples.backTwice) Samples.inResults).
  exists (Samples.after Samples.backTwice Samples.inResults).
  split.
  { apply (run_reachable Samples.toResults initial _ [] reachable_initial).
    vm_compute. reflexivity. }
  split; [vm_compute; reflexivity|]. split; [reflexivity|].
  split; [vm_compute; reflexivity|].
  do 6 (split; [vm_compute; reflexivity|]).
  split; [vm_compute; reflexivity|]. split; [reflexivity|].
  split; [repeat constructor|]. split; [repeat constructor|].
  split; vm_compute; reflexivity.
Qed.

End OnSamples.

End GateFacts.

(** ** C4 and C5: the gestures of the results phase *)

Module ResultsFacts.
Import Geometry Catalog Imagen FittingRoom Frames Invariant InvariantFacts.

Section AnyEngine.
Context {engine : Engine}.

(** *** Lists *)

Lemma sliceLast_app_one {A} (n : nat) (l : list A) (c : A) :
  sliceLast (S n) (l ++ [c]) = sliceLast n l ++ [c].
Proof.
  unfold sliceLast. rewrite length_app. cbn [length].
  rewrite skipn_app.
  replace (length l + 1 - S n)%nat with (length l - n)%nat by lia.
  replace (length l - n - length l)%nat with 0%nat by lia.
  reflexivity.
Qed.

Lemma sliceLast_sliceLast {A} (m n : nat) (l : list A) :
  (m <= n)%nat -> sliceLast m (sliceLast n l) = sliceLast m l.
Proof.
  intros H. unfold sliceLast. rewrite length_skipn, skipn_skipn.
  f_equal. lia.
Qed.

Lemma sliceLast_all {A} (n : nat) (a b : list A) :
  length b = n -> sliceLast n (a ++ b) = b.
Proof.
  intros H. unfold sliceLast. rewrite length_app, skipn_app.
  replace (length a + length b - n)%nat with (length a) by lia.
  rewrite skipn_all, Nat.sub_diag. reflexivity.
Qed.

Lemma sliceLast_split {A} (n : nat) (l : list A) :
  l = firstn (length l - n) l ++ sliceLast n l.
Proof. unfold sliceLast. symmetry. apply firstn_skipn. Qed.

Lemma sliceLast_full_length {A} (n : nat) (l : list A) :
  (n <= length (sliceLast n l))%nat -> length (sliceLast n l) = n.
Proof. pose proof (sliceLast_length n l). lia. Qed.

(** *** Readings *)

Lemma streak_snoc (rs : list (option Z)) (r : option Z) :
  streak (rs ++ [r]) = match r with
                       | Some c => streak rs ++ [c]
                       | None => []
                       end.
Proof. unfold streak. rewrite fold_left_app. reflexivity. Qed.

Lemma streak_app_values (rs : list (option Z)) (vs : list Z) :
  streak (rs ++ map Some vs) = streak rs ++ vs.
Proof.
  induction vs as [|v vs IH] using rev_ind.
  - cbn. rewrite !app_nil_r. reflexivity.
  - rewrite map_app, app_assoc. cbn [map]. rewrite streak_snoc, IH, app_assoc.
    reflexivity.
Qed.

(** The readings end with their streak. *)
Lemma streak_suffix (rs : list (option Z)) :
  exists before, rs = before ++ map Some (streak rs).
Proof.
  induction rs as [|r rs IH] using rev_ind.
  - exists []. reflexivity.
  - rewrite streak_snoc. destruct r as [c|].
    + destruct IH as [before Hb]. exists before.
      rewrite map_app, app_assoc, <- Hb. reflexivity.
    + exists (rs ++ [None]). cbn. rewrite app_nil_r. reflexivity.
Qed.

(** The buffer after a sequence of readings, from the empty buffer. *)
Lemma pushReading_fold (rs : list (option Z)) :
  fold_left pushReading rs [] = sliceLast FINGER_STABLE_FRAMES (streak rs).
Proof.
  induction rs as [|r rs IH] using rev_ind.
  - reflexivity.
  - rewrite fold_left_app, streak_snoc. cbn [fold_left]. rewrite IH.
    destruct r as [c|]; [|reflexivity].
    unfold pushReading, FINGER_STABLE_FRAMES. cbn [Nat.sub].
    rewrite sliceLast_sliceLast by lia.
    rewrite sliceLast_app_one. reflexivity.
Qed.

Lemma Forall_map_Some (k : Z) (vs : list Z) :
  Forall (fun r => r = Some k) (map Some vs) <-> Forall (fun v => v = k) vs.
Proof.
  rewrite Forall_map. apply Forall_iff. intros v. split; congruence.
Qed.

(** The last 8 readings are all [k] iff the last 8 entries of the
    streak are there and are all [k]. *)
Lemma stable_streak (k : Z) (rs : list (option Z)) :
  (exists before last, rs = before ++ last /\ length last = 8%nat /\
                       Forall (fun r => r = Some k) last)
  <->
  ((8 <= length (sliceLast 8 (streak rs)))%nat /\
   Forall (fun v => v = k) (sliceLast 8 (streak rs))).
Proof.
  split.
  - intros (before & last & -> & Hlen & Hall).
    assert (Hl : last = map Some (repeat k 8)).
    { rewrite <- Hlen. clear Hlen. induction Hall as [|r l Hr Hall IH].
      - reflexivity.
      - cbn. rewrite Hr. f_equal. exact IH. }
    rewrite Hl, streak_app_values.
    rewrite sliceLast_all by apply repeat_length.
    rewrite repeat_length. split; [lia|].
    apply List.Forall_forall. intros v Hv. apply repeat_spec in Hv. exact Hv.
  - intros [Hlen Hall].
    destruct (streak_suffix rs) as [before Hb].
    exists (before ++ map Some (firstn (length (streak rs) - 8) (streak rs))),
           (map Some (sliceLast 8 (streak rs))).
    split; [|split].
    + rewrite <- app_assoc, <- map_app, <- sliceLast_split. exact Hb.
    + rewrite length_map. apply sliceLast_full_length. exact Hlen.
    + apply Forall_map_Some. exact Hall.
Qed.


(** *** One frame of the results phase *)

Lemma forallb_all_eq (c : Z) (l : list Z) :
  forallb (fun c' => c' =? c) l = true <-> Forall (fun v => v = c) l.
Proof.
  rewrite forallb_forall, List.Forall_forall.
  split; intros H v Hv; specialize (H v Hv); apply Z.eqb_eq; exact H.
Qed.

Lemma reading_Some (lm : option HandLandmarks) (c : Z) :
  reading lm = Some c <->
  exists h, lm = Some h /\ isThumbsUp h = false /\
            countExtendedFingers h = c /\ 1 <= c <= 4.
Proof.
  unfold reading. split.
  - destruct lm as [h|]; [|discriminate].
    destruct (isThumbsUp h) eqn:Et; [discriminate|].
    destruct (_ && _) eqn:E; [|discriminate].
    intros H. inversion H. subst c. exists h.
    apply andb_true_iff in E. destruct E as [E1 E2].
    apply Z.leb_le in E1, E2. repeat split; first [reflexivity|assumption].
  - intros (h & -> & Ht & Hc & Hr). rewrite Ht, Hc.
    destruct Hr as [H1 H2]. apply Z.leb_le in H1, H2. rewrite H1, H2.
    reflexivity.
Qed.

(** A thumbs-up shows no extended finger, so a frame contributes its
    count exactly when a hand is present with 1 to 4 extended
    fingers. *)
Lemma thumbsUp_count_zero (h : HandLandmarks) :
  isThumbsUp h = true -> countExtendedFingers h = 0.
Proof.
  unfold isThumbsUp. intros H. apply andb_true_iff in H. destruct H as [_ H].
  cbn [forallb combine tips pips] in H.
  rewrite !andb_true_iff in H. destruct H as (H1 & H2 & H3 & H4 & _).
  apply GeometryFacts.count_zero_none_extended.
  repeat split; apply GeometryFacts.folded_not_extended; assumption.
Qed.

Lemma reading_is_count (lm : option HandLandmarks) (k : Z) :
  reading lm = Some k <->
  exists h, lm = Some h /\ countExtendedFingers h = k /\ 1 <= k <= 4.
Proof.
  rewrite reading_Some. split.
  - intros (h & A & _ & B & C). exists h. auto.
  - intros (h & A & B & C). exists h. split; [exact A|]. split; [|auto].
    destruct (isThumbsUp h) eqn:Et; [|reflexivity].
    apply thumbsUp_count_zero in Et. lia.
Qed.

(** What a frame of the results phase does to the finger buffer, and
    when it selects a look. *)
Lemma results_frame_fingers (now : Z) (lm : option HandLandmarks) (st : FR) :
  phase (view st) = results ->
  fingerBuffer (refs (fst (processLandmarks now lm st)))
    = pushReading (fingerBuffer (refs st)) (reading lm) /\
  (forall i,
     In (SelectLookCalled i) (snd (processLandmarks now lm st)) <->
     exists c, reading lm = Some c /\ i = c - 1 /\
       (8 <= length (pushReading (fingerBuffer (refs st)) (Some c)))%nat /\
       Forall (fun v => v = c) (pushReading (fingerBuffer (refs st)) (Some c)) /\
       c - 1 <> selectedLookIndex (view st)) /\
  (forall i,
     In (SelectLookCalled i) (snd (processLandmarks now lm st)) ->
     selectedLookIndex (view (fst (processLandmarks now lm st))) = i).
Proof.
  intros Hp. unfold processLandmarks. rewrite Hp.
  unfold processResults, reading.
  assert (Hnone : forall (s : FR),
            (forall i, In (SelectLookCalled i) (@nil Event) <->
               exists c : Z, @None Z = Some c /\ i = c - 1 /\
                 (8 <= length (pushReading (fingerBuffer (refs st)) (Some c)))%nat /\
                 Forall (fun v => v = c)
                   (pushReading (fingerBuffer (refs st)) (Some c)) /\
                 c - 1 <> selectedLookIndex (view st)) /\
            (forall i, In (SelectLookCalled i) (@nil Event) ->
                       selectedLookIndex (view s) = i)).
  { intros s. split; [|intros i []].
    intros i. split; [intros []|intros (c & Hc & _); discriminate]. }
  destruct lm as [h|]; [|split; [reflexivity|apply Hnone]].
  destruct (isThumbsUp h).
  - cbn [thumbsUpBuffer refs set_thumbsUpBuffer with_refs set_fingerBuffer
         setLiveFingerCount setThumbsUpProgress with_view].
    destruct (_ <=? _); cbn [fst snd].
    + split; [reflexivity|]. split; [|intros i [Hx|[]]; discriminate].
      intros i. split; [intros [Hx|[]]; discriminate
                       |intros (c & Hc & _); discriminate].
    + split; [reflexivity|apply Hnone].
  - destruct (_ && _) eqn:Er; [|split; [reflexivity|apply Hnone]].
    cbn [selectedLookIndex view fingerBuffer refs set_thumbsUpBuffer with_refs
         set_fingerBuffer setLiveFingerCount setThumbsUpProgress with_view].
    set (c := countExtendedFingers h) in *.
    set (buf := sliceLast (FINGER_STABLE_FRAMES - 1) (fingerBuffer (refs st))
                ++ [c]).
    assert (Hcond :
      (FINGER_STABLE_FRAMES <=? length buf)%nat
      && forallb (fun c' => c' =? c) buf
      && negb (c - 1 =? selectedLookIndex (view st)) = true <->
      (8 <= length buf)%nat /\ Forall (fun v => v = c) buf /\
      c - 1 <> selectedLookIndex (view st)).
    { rewrite !andb_true_iff, negb_true_iff, Z.eqb_neq, forallb_all_eq.
      unfold FINGER_STABLE_FRAMES. rewrite Nat.leb_le. tauto. }
    destruct (_ && _ && _) eqn:Ec; cbn [fst snd].
    + split; [reflexivity|]. apply proj1 in Hcond. specialize (Hcond eq_refl).
      split.
      * intros i. split.
        -- intros [Hx|[]]. inversion Hx. exists c. auto.
        -- intros (c' & Hc' & -> & _). inversion Hc'. left. reflexivity.
      * intros i [Hx|[]]. inversion Hx. reflexivity.
    + split; [reflexivity|]. split; [|intros i []].
      intros i. split; [intros []|].
      intros (c' & Hc' & -> & H1 & H2 & H3). inversion Hc'. subst c'.
      exfalso. apply proj2 in Hcond.
      assert (Hx : false = true) by (apply Hcond; auto).
      discriminate.
Qed.

Lemma frame_not_to_results (now : Z) (lm : option HandLandmarks) (st : FR) :
  phase (view (fst (processLandmarks now lm st))) = results ->
  phase (view st) = results.
Proof.
  unfold processLandmarks.
  destruct (phase (view st)) eqn:Ep; try (cbn; congruence).
  unfold processCatalog.
  destruct lm as [h|]; [|cbn; congruence].
  destruct (postResetCooldown (refs st)); [cbn; congruence|].
  destruct (openHandGate _ st) as [s1|] eqn:Eg; [|cbn; congruence].
  assert (Hp1 : phase (view s1) = catalog).
  { unfold openHandGate in Eg.
    destruct (requireOpenHandAfterReset (refs st)).
    - destruct (3 <=? _); inversion Eg. exact Ep.
    - inversion Eg. subst. exact Ep. }
  destruct (_ =? 0).
  - cbv zeta. destruct (negb _); cbn [fst].
    + unfold startCapture. cbn. rewrite Hp1. cbn. discriminate.
    + cbn. congruence.
  - rewrite (proj1 (InvariantFacts.catalogSwipe_phase now h s1)). congruence.
Qed.

Lemma processFrames_phase (fs : list (Z * option HandLandmarks)) :
  forall st, phase (view (fst (processFrames fs st))) = results ->
             phase (view st) = results.
Proof.
  induction fs as [|[now lm] rest IH]; intros st H; [exact H|].
  cbn [processFrames fst] in H. apply IH in H.
  apply frame_not_to_results in H. exact H.
Qed.

(** The finger buffer after a sequence of frames that stays in the
    results phase. *)
Lemma processFrames_fingers (fs : list (Z * option HandLandmarks)) :
  forall st,
  phase (view (fst (processFrames fs st))) = results ->
  fingerBuffer (refs (fst (processFrames fs st)))
    = fold_left pushReading (map (fun f => reading (snd f)) fs)
                (fingerBuffer (refs st)).
Proof.
  induction fs as [|[now lm] rest IH]; intros st H; [reflexivity|].
  cbn [processFrames fst] in *. rewrite (IH _ H).
  pose proof (processFrames_phase _ _ H) as H1.
  apply frame_not_to_results in H1.
  rewrite (proj1 (results_frame_fingers now lm st H1)). reflexivity.
Qed.


(** *** C5 *)

Lemma stableFor_readings (k : Z) (n : nat) (fs : list (option HandLandmarks)) :
  stableFor k n fs <->
  exists before last, map reading fs = before ++ last /\ length last = n /\
                      Forall (fun r => r = Some k) last.
Proof.
  unfold stableFor. split.
  - intros (before & last & -> & Hlen & Hall).
    exists (map reading before), (map reading last).
    split; [apply map_app|]. split; [rewrite length_map; exact Hlen|].
    apply Forall_map. exact Hall.
  - intros (before & last & Heq & Hlen & Hall).
    apply map_eq_app in Heq. destruct Heq as (l1 & l2 & -> & <- & <-).
    exists l1, l2. split; [reflexivity|].
    split; [rewrite length_map in Hlen; exact Hlen|].
    apply Forall_map in Hall. exact Hall.
Qed.

Lemma stable_last (k : Z) (n : nat) (rs : list (option Z)) (r : option Z) :
  (exists before last, rs ++ [r] = before ++ last /\ length last = S n /\
                       Forall (fun x => x = Some k) last) ->
  r = Some k.
Proof.
  intros (before & last & Heq & Hlen & Hall).
  destruct (exists_last (l := last)) as (l' & x & ->).
  { intros ->. discriminate. }
  rewrite app_assoc in Heq. apply app_inj_tail in Heq. destruct Heq as [_ ->].
  apply List.Forall_forall with (x := x) in Hall; [exact Hall|].
  apply in_app_iff. right. left. reflexivity.
Qed.

(** The buffer the next frame is pushed on, after frames that stayed in
    the results phase from an empty buffer. *)
Lemma buffer_after_frames (fs : list (Z * option HandLandmarks)) (st0 : FR)
    (r : option Z) :
  fingerBuffer (refs st0) = [] ->
  phase (view (fst (processFrames fs st0))) = results ->
  pushReading (fingerBuffer (refs (fst (processFrames fs st0)))) r
  = sliceLast FINGER_STABLE_FRAMES
      (streak (map (fun f => reading (snd f)) fs ++ [r])).
Proof.
  intros H0 Hp. rewrite (processFrames_fingers fs st0 Hp), H0.
  rewrite <- pushReading_fold, fold_left_app. reflexivity.
Qed.

(** C5: in the results phase, from the empty finger buffer the phase
    is entered with, a frame selects look [k - 1] by finger count iff
    the last 8 frames, this one included, each showed a hand that is
    not a thumbs-up with the same count [k] of extended fingers, [k]
    between 1 and 4, and [k - 1] is not the look already selected; the
    selected index is then [k - 1].  (A frame reads the count [k] when
    it shows a hand with [k] extended fingers, [k] between 1 and 4; a
    thumbs-up shows none.)  When the 7 frames before read [k]
    and this one reads another count [j], nothing is selected and the
    buffer holds the seven [k] followed by the single [j]: the new
    value starts at one reading. *)
Theorem finger_selection_needs_eight_stable_frames
    (fs : list (Z * option HandLandmarks)) (now : Z)
    (lm : option HandLandmarks) (st0 : FR) :
  fingerBuffer (refs st0) = [] ->
  phase (view (fst (processFrames fs st0))) = results ->
  (forall i,
     In (SelectLookCalled i)
        (snd (processLandmarks now lm (fst (processFrames fs st0)))) <->
     exists k, i = k - 1 /\ 1 <= k <= 4 /\
       stableFor k FINGER_STABLE_FRAMES (map snd fs ++ [lm]) /\
       k - 1 <> selectedLookIndex (view (fst (processFrames fs st0)))) /\
  (forall i,
     In (SelectLookCalled i)
        (snd (processLandmarks now lm (fst (processFrames fs st0)))) ->
     selectedLookIndex
       (view (fst (processLandmarks now lm (fst (processFrames fs st0))))) = i) /\
  (forall k j,
     k <> j -> stableFor k 7 (map snd fs) -> reading lm = Some j ->
     (forall i, ~ In (SelectLookCalled i)
                  (snd (processLandmarks now lm (fst (processFrames fs st0))))) /\
     fingerBuffer
       (refs (fst (processLandmarks now lm (fst (processFrames fs st0)))))
     = repeat k 7 ++ [j]) /\
  (forall (f : option HandLandmarks) (k : Z),
     reading f = Some k <->
     exists h, f = Some h /\ countExtendedFingers h = k /\ 1 <= k <= 4).
Proof.
  intros H0 Hp.
  destruct (results_frame_fingers now lm (fst (processFrames fs st0)) Hp)
    as (Hbuf & Hsel & Hidx).
  assert (Hrs : map reading (map snd fs ++ [lm])
                = map (fun f => reading (snd f)) fs ++ [reading lm]).
  { rewrite map_app, map_map. reflexivity. }
  assert (Hiff : forall i,
     In (SelectLookCalled i)
        (snd (processLandmarks now lm (fst (processFrames fs st0)))) <->
     exists k, i = k - 1 /\ 1 <= k <= 4 /\
       stableFor k FINGER_STABLE_FRAMES (map snd fs ++ [lm]) /\
       k - 1 <> selectedLookIndex (view (fst (processFrames fs st0)))).
  { intros i. rewrite Hsel. split.
    - intros (c & Hc & -> & Hlen & Hall & Hne).
      exists c. split; [reflexivity|].
      split; [apply reading_Some in Hc; destruct Hc as (h & _ & _ & _ & Hr);
              exact Hr|].
      split; [|exact Hne].
      apply stableFor_readings. rewrite Hrs, Hc.
      apply stable_streak.
      rewrite (buffer_after_frames fs st0 (Some c) H0 Hp) in Hlen, Hall.
      split; assumption.
    - intros (k & -> & Hr & Hst & Hne).
      apply stableFor_readings in Hst. rewrite Hrs in Hst.
      pose proof (stable_last _ _ _ _ Hst) as Hk.
      exists k. split; [exact Hk|]. split; [reflexivity|].
      rewrite Hk in Hst. apply stable_streak in Hst.
      rewrite (buffer_after_frames fs st0 (Some k) H0 Hp).
      destruct Hst as [A B]. auto. }
  split; [exact Hiff|]. split; [exact Hidx|].
  split; [|exact reading_is_count].
  intros k j Hkj Hst Hj.
  apply stableFor_readings in Hst. rewrite map_map in Hst.
  destruct Hst as (before & last & Heq & Hlen & Hall).
  assert (Hl : last = map Some (repeat k 7)).
  { rewrite <- Hlen. clear Hlen Heq. induction Hall as [|r l Hr Hall IH].
    - reflexivity.
    - cbn. rewrite Hr. f_equal. exact IH. }
  split.
  - intros i Hin. apply Hiff in Hin.
    destruct Hin as (k' & _ & _ & Hst' & _).
    apply stableFor_readings in Hst'. rewrite Hrs in Hst'.
    pose proof (stable_last _ _ _ _ Hst') as Hk'.
    assert (k' = j) by congruence. subst k'.
    destruct Hst' as (before' & last' & Heq' & Hlen' & Hall').
    destruct (exists_last (l := last')) as (l1 & x & ->).
    { intros ->. discriminate. }
    rewrite app_assoc in Heq'. apply app_inj_tail in Heq'.
    destruct Heq' as [Heq' _]. rewrite Heq, Hl in Heq'.
    rewrite length_app in Hlen'. unfold FINGER_STABLE_FRAMES in Hlen'.
    cbn in Hlen'.
    destruct (exists_last (l := l1)) as (l2 & y & ->).
    { intros ->. cbn in Hlen'. lia. }
    change (repeat k 7) with (repeat k 6 ++ [k]) in Heq'.
    rewrite map_app, !app_assoc in Heq'. cbn [map] in Heq'.
    apply app_inj_tail in Heq'. destruct Heq' as [_ Hy].
    apply List.Forall_forall with (x := y) in Hall'.
    + congruence.
    + apply in_app_iff. left. apply in_app_iff. right. left. reflexivity.
  - rewrite Hbuf, (buffer_after_frames fs st0 (reading lm) H0 Hp).
    rewrite Hj, streak_snoc, Heq, Hl, streak_app_values.
    unfold FINGER_STABLE_FRAMES. rewrite <- app_assoc.
    apply sliceLast_all. rewrite length_app, repeat_length. reflexivity.
Qed.


(** *** C4 *)

(** C4: in every reachable state the thumbs-up accumulator is within
    0..10.  On a frame of the results phase: with a hand in thumbs-up
    it is incremented by one, capped at 10, and when that reaches 10
    [reset] is called exactly once and the accumulator is back to 0;
    with a hand not in thumbs-up it is decremented by one, floored at
    0, and [reset] is not called; without a hand it is zeroed and
    nothing is called. *)
Theorem thumbsUp_accumulator_bounded (st : FR) :
  reachable st ->
  0 <= thumbsUpBuffer (refs st) <= 10 /\
  forall (now : Z) (lm : option HandLandmarks),
    phase (view st) = results ->
    0 <= thumbsUpBuffer (refs (fst (processLandmarks now lm st))) <= 10 /\
    match lm with
    | Some h =>
        if isThumbsUp h then
          (Z.min (thumbsUpBuffer (refs st) + 1) THUMBS_UP_FRAMES
             < THUMBS_UP_FRAMES ->
           thumbsUpBuffer (refs (fst (processLandmarks now lm st)))
             = thumbsUpBuffer (refs st) + 1 /\
           snd (processLandmarks now lm st) = []) /\
          (Z.min (thumbsUpBuffer (refs st) + 1) THUMBS_UP_FRAMES
             = THUMBS_UP_FRAMES ->
           snd (processLandmarks now lm st) = [ResetCalled] /\
           thumbsUpBuffer (refs (fst (processLandmarks now lm st))) = 0 /\
           phase (view (fst (processLandmarks now lm st))) = catalog)
        else
          thumbsUpBuffer (refs (fst (processLandmarks now lm st)))
            = Z.max (thumbsUpBuffer (refs st) - 1) 0 /\
          ~ In ResetCalled (snd (processLandmarks now lm st))
    | None =>
        thumbsUpBuffer (refs (fst (processLandmarks now lm st))) = 0 /\
        snd (processLandmarks now lm st) = []
    end.
Proof.
  intros Hr. apply reachable_Inv in Hr.
  pose proof (inv_thumb _ Hr) as Hth.
  split; [lia|]. intros now lm Hp.
  pose proof (Inv_processLandmarks now lm st Hr) as HI'.
  split; [pose proof (inv_thumb _ HI'); lia|].
  unfold processLandmarks. rewrite Hp. unfold processResults.
  destruct lm as [h|]; [|split; reflexivity].
  unfold THUMBS_UP_FRAMES.
  destruct (isThumbsUp h).
  - cbn [thumbsUpBuffer refs set_thumbsUpBuffer with_refs set_fingerBuffer
         setLiveFingerCount setThumbsUpProgress with_view].
    destruct (10 <=? _) eqn:E; cbn [fst snd].
    + apply Z.leb_le in E. split; [lia|]. intros _. repeat split.
    + apply Z.leb_gt in E. split; [|lia]. intros _. cbn. split; [lia|reflexivity].
  - destruct (_ && _).
    + cbn [selectedLookIndex view fingerBuffer refs set_thumbsUpBuffer with_refs
           set_fingerBuffer setLiveFingerCount setThumbsUpProgress with_view].
      destruct (_ && _); cbn [fst snd]; (split; [reflexivity|]).
      * intros [Hx|[]]. discriminate.
      * intros [].
    + cbn. split; [reflexivity|]. intros [].
Qed.

End AnyEngine.

(** *** On sample inputs, with the [binary64] engine *)

Section OnSamples.
#[local] Existing Instance Binary64.binary64.

(** Seven frames with two fingers, then an eighth: look 1 is selected. *)
Lemma finger_selection_needs_eight_stable_frames_witness :
  let fs := Samples.framesOf 7 5000 Hands.twoFingers in
  let st0 := Samples.inResults in
  fingerBuffer (refs st0) = [] /\
  phase (view (fst (processFrames fs st0))) = results /\
  In (SelectLookCalled 1)
     (snd (processLandmarks 5210 (Some Hands.twoFingers)
             (fst (processFrames fs st0)))) /\
  exists k, 1 = k - 1 /\ 1 <= k <= 4 /\
    stableFor k FINGER_STABLE_FRAMES (map snd fs ++ [Some Hands.twoFingers]) /\
    k - 1 <> selectedLookIndex (view (fst (processFrames fs st0))).
Proof.
  intros fs st0.
  assert (H0 : fingerBuffer (refs st0) = []) by (vm_compute; reflexivity).
  assert (Hp : phase (view (fst (processFrames fs st0))) = results)
    by (vm_compute; reflexivity).
  assert (Hin : In (SelectLookCalled 1)
                   (snd (processLandmarks 5210 (Some Hands.twoFingers)
                           (fst (processFrames fs st0)))))
    by (vm_compute; left; reflexivity).
  split; [exact H0|]. split; [exact Hp|]. split; [exact Hin|].
  exact (proj1 (proj1 (finger_selection_needs_eight_stable_frames
                         fs 5210 (Some Hands.twoFingers) st0 H0 Hp) 1) Hin).
Defined.

(** Nine thumbs-up frames leave the accumulator at 9; the tenth calls
    [reset] once and zeroes it. *)
Lemma thumbsUp_accumulator_bounded_witness :
  let st := Samples.after
              (map (fun f => Samples.deliver (fst f) (Frame (snd f)))
                   (Samples.framesOf 9 5000 Hands.thumbsUpHand))
              Samples.inResults in
  reachable st /\
  phase (view st) = results /\
  thumbsUpBuffer (refs st) = 9 /\
  snd (processLandmarks 5270 (Some Hands.thumbsUpHand) st) = [ResetCalled] /\
  thumbsUpBuffer (refs (fst (processLandmarks 5270 (Some Hands.thumbsUpHand) st)))
    = 0.
Proof.
  intros st.
  assert (Hr0 : reachable Samples.inResults).
  { apply (run_reachable Samples.toResults initial Samples.inResults []
             reachable_initial).
    vm_compute. reflexivity. }
  assert (Hr : reachable st).
  { apply (run_reachable
             (map (fun f => Samples.deliver (fst f) (Frame (snd f)))
                  (Samples.framesOf 9 5000 Hands.thumbsUpHand))
             Samples.inResults st [] Hr0).
    vm_compute. reflexivity. }
  assert (Hp : phase (view st) = results) by (vm_compute; reflexivity).
  assert (Hb : thumbsUpBuffer (refs st) = 9) by (vm_compute; reflexivity).
  split; [exact Hr|]. split; [exact Hp|]. split; [exact Hb|].
  destruct (proj2 (thumbsUp_accumulator_bounded st Hr) 5270
              (Some Hands.thumbsUpHand) Hp) as [_ H].
  assert (Ht : isThumbsUp Hands.thumbsUpHand = true) by (vm_compute; reflexivity).
  rewrite Ht in H. destruct H as [_ H].
  destruct H as (A & B & _); [rewrite Hb; reflexivity|].
  split; assumption.
Defined.

(** Ten thumbs-up frames in a row call [reset] exactly once. *)
Example thumbsUp_hold_fires_once :
  snd (processFrames (Samples.framesOf 10 5000 Hands.thumbsUpHand)
         Samples.inResults) = [ResetCalled].
Proof. vm_compute. reflexivity. Qed.

(** Seven frames with two fingers and seven with three select
    nothing; an eighth frame with three fingers selects look 2. *)
Example seven_then_another_value_starts_over :
  snd (processFrames (Samples.framesOf 7 5000 Hands.twoFingers
                      ++ Samples.framesOf 7 6000 Hands.threeFingers)
         Samples.inResults) = [] /\
  snd (processFrames (Samples.framesOf 7 5000 Hands.twoFingers
                      ++ Samples.framesOf 8 6000 Hands.threeFingers)
         Samples.inResults) = [SelectLookCalled 2].
Proof. vm_compute. split; reflexivity. Qed.

End OnSamples.

End ResultsFacts.

(** ** Scenarios *)

Module Scenarios.
Import Geometry Catalog GenerateLook Imagen FittingRoom.

(** *** On sample inputs, with the [binary64] engine *)

Section OnSamples.
#[local] Existing Instance Binary64.binary64.

(** From the catalog at index 0, a fist starts the capture: the
    countdown goes 3, 2, 1 at one-second ticks, and at 0 the photo is
    taken and the machine is generating, four looks loading. *)
Example fist_capture_end_to_end :
  let fist := Samples.deliver 100 (Frame (Some Hands.fistHand)) in
  let tick n t := Samples.deliver t (TimerFires n) in
  let observe ds :=
    match run ds initial with
    | Some (st, evs) =>
        Some (phase (view st), countdown (view st),
              length (generatedLooks (view st)), evs)
    | None => None
    end in
  observe [fist] = Some (capturing, Some 3, 0%nat, [StartCaptureCalled]) /\
  observe [fist; tick 1%nat 1100]
    = Some (capturing, Some 2, 0%nat, [StartCaptureCalled]) /\
  observe [fist; tick 1%nat 1100; tick 2%nat 2100]
    = Some (capturing, Some 1, 0%nat, [StartCaptureCalled]) /\
  observe [fist; tick 1%nat 1100; tick 2%nat 2100; tick 3%nat 3100]
    = Some (generating, None, 4%nat, [StartCaptureCalled]) /\
  observe [fist; tick 1%nat 1099] = None.
Proof. vm_compute. repeat split; reflexivity. Qed.

(** With four scenes of which the second fails, whatever the order of
    completion: three looks with an image, one with an error. *)
Example one_failure_among_four :
  let outcome_of looks :=
    map (fun l => (isLoading l, match error l with
                                | Some _ => true
                                | None => false
                                end)) looks in
  option_map outcome_of
    (generateAllLooks "data:image/jpeg;base64,AAAA" (catalogAt 0)
       [ (2%nat, Samples.imageAnswer "CCCC");
         (0%nat, Samples.imageAnswer "AAAA");
         (1%nat, Samples.textAnswer);
         (3%nat, Samples.imageAnswer "DDDD") ])
  = Some [(false, false); (false, true); (false, false); (false, false)] /\
  generateAllLooks "data:image/jpeg;base64,AAAA" (catalogAt 0)
    [ (2%nat, Samples.imageAnswer "CCCC");
      (0%nat, Samples.imageAnswer "AAAA");
      (1%nat, Samples.textAnswer);
      (3%nat, Samples.imageAnswer "DDDD") ]
  = generateAllLooks "data:image/jpeg;base64,AAAA" (catalogAt 0)
      [ (0%nat, Samples.imageAnswer "AAAA");
        (1%nat, Samples.textAnswer);
        (2%nat, Samples.imageAnswer "CCCC");
        (3%nat, Samples.imageAnswer "DDDD") ].
Proof. vm_compute. split; reflexivity. Qed.

(** After a reset, a countdown tick cannot overtake the lift of the
    lockout: the tick of a capture started at once has to wait for
    it. *)
Example lockout_lift_precedes_tick :
  let observe ds :=
    match run ds Samples.inResults with
    | Some (st, _) => Some (phase (view st), countdown (view st),
                            postResetCooldown (refs st))
    | None => None
    end in
  observe [ Samples.deliver 4000 ClickBack; Samples.deliver 4050 ExitComplete;
            Samples.deliver 4100 ClickCapture ]
    = Some (capturing, Some 3, true) /\
  observe [ Samples.deliver 4000 ClickBack; Samples.deliver 4050 ExitComplete;
            Samples.deliver 4100 ClickCapture;
            Samples.deliver 5100 (TimerFires 5) ] = None /\
  observe [ Samples.deliver 4000 ClickBack; Samples.deliver 4050 ExitComplete;
            Samples.deliver 4100 ClickCapture;
            Samples.deliver 4600 (TimerFires 4);
            Samples.deliver 5100 (TimerFires 5) ]
    = Some (capturing, Some 2, false).
Proof. vm_compute. repeat split; reflexivity. Qed.

End OnSamples.

End Scenarios.

(** ** What the fitting room shows *)

Module ScreenFacts.
Import Geometry Catalog GenerateLook Imagen FittingRoom Invariant InvariantFacts
  BatchFacts PhaseFacts.
Import Consistency Screen.

Section AnyEngine.
Context {engine : Engine}.

Lemma scenes_catalogAt (i : Z) : scenes (catalogAt i) = SCENES.
Proof.
  unfold catalogAt, CATALOG. generalize (Z.to_nat i). intros n.
  do 10 (destruct n as [|n]; [reflexivity|]). destruct n; reflexivity.
Qed.

(** The share button and [shareLook] agree on every look the
    generation can put on the screen: for a look that is loading the
    button is disabled and [shareLook] returns at once; for a look
    settled from a [generateLook] call the button is enabled exactly
    when [shareLook] goes on to share, which is when the call resolved
    (an image and no error), not when it rejected (an error, no
    image). *)
Theorem share_button_agrees_with_shareLook (s : Scene) (net : GenerateLook.Network) :
  let look := settledLook s (GenerateLook.generateLook net) in
  lookDisabled (loadingLook s) = true /\
  lookShared (loadingLook s) = false /\
  lookDisabled look = negb (lookShared look) /\
  (lookShared look = true <->
   exists dataUrl, GenerateLook.generateLook net = Resolved dataUrl) /\
  hasError look = negb (nonEmpty (imageBase64 look)).
Proof.
  cbn zeta. split; [reflexivity|]. split; [reflexivity|].
  destruct (GenerateLook.generateLook net) as [u|] eqn:E.
  - apply GenerateLookFacts.generateLook_image_nonEmpty in E.
    unfold lookDisabled, lookShared, hasError. cbn. rewrite E. cbn.
    repeat split; eauto.
  - unfold lookDisabled, lookShared, hasError. cbn.
    repeat split; try discriminate. intros [u Hu]. discriminate.
Qed.

(** A results screen that is leaving shows four thumbnails. *)
Lemma reachable_thumbnails (st : FR) :
  reachable st ->
  forall l, leaving (runtime st) = Some l -> screenOf l = results ->
            thumbnails l = 4%nat.
Proof.
  induction 1 as [|st now cam i st' evs Hr IH Hs]; [discriminate|].
  apply reachable_Inv in Hr.
  apply step_inv in Hs. destruct Hs as (_ & st1 & Hh & ->).
  intros l. unfold present. cbn [leaving runtime set_leaving with_runtime view].
  rewrite commit_leaving. cbn [leaving runtime set_clock with_runtime].
  destruct (phase_eqb _ _).
  - destruct (handle_leaving _ _ _ _ _ Hh) as [-> | ->]; [apply IH|discriminate].
  - intros [= <-]. cbn [screenOf thumbnails]. intros Hp.
    destruct (inv_results _ Hr Hp) as [Hlen _].
    rewrite scenes_catalogAt in Hlen. exact Hlen.
Qed.

(** *** The cells behind the results screen *)

Lemma Shown_initial : Shown initial.
Proof.
  constructor; cbn; try lia; try discriminate; reflexivity.
Qed.

Lemma Shown_leaves (a b : FR) :
  Shown a -> leaves a b ->
  (phase (view b) <> results -> phase (view a) <> results) ->
  Shown b.
Proof.
  intros [Hs Hl Hp Hi] (E1 & E2 & E3 & E4) Hph.
  constructor; rewrite ?E1, ?E2, ?E3, ?E4; auto.
Qed.

End AnyEngine.

Ltac split_ifs :=
  repeat match goal with
  | |- context [if ?b then _ else _] => destruct b
  | |- context [match ?o with Some _ => _ | None => _ end] => destruct o
  end.

Section AnyEngine.
Context {engine : Engine}.

Lemma processCatalog_leaves (now : Z) (lm : option HandLandmarks) (st : FR) :
  leaves st (fst (processCatalog now lm st)).
Proof.
  unfold processCatalog, openHandGate, catalogSwipe, goNext, goPrev,
    startCapture, leaves.
  split_ifs; cbn; repeat split; reflexivity.
Qed.

Lemma Shown_processLandmarks (now : Z) (lm : option HandLandmarks) (st : FR) :
  Shown st -> Shown (fst (processLandmarks now lm st)).
Proof.
  intros HS. unfold processLandmarks.
  destruct (phase (view st)) eqn:Ep; try exact HS.
  - apply (Shown_leaves st); [exact HS|apply processCatalog_leaves|].
    intros _. congruence.
  - destruct HS as [Hs Hl Hp Hi]. unfold processResults.
    destruct lm as [lm|].
    + set (count := countExtendedFingers lm). clearbody count.
      destruct (isThumbsUp lm).
      * cbn [thumbsUpBuffer refs set_thumbsUpBuffer with_refs set_fingerBuffer
             setLiveFingerCount setThumbsUpProgress with_view].
        destruct (_ <=? _); cbn [fst].
        -- constructor; cbn; try lia; try discriminate; reflexivity.
        -- constructor; cbn; try lia; try discriminate; try reflexivity;
           try (intros Hx; congruence).
      * destruct ((1 <=? count) && (count <=? 4)) eqn:Ec.
        -- apply andb_prop in Ec. destruct Ec as [E1 E4].
           apply Z.leb_le in E1, E4.
           cbn [selectedLookIndex view fingerBuffer refs set_thumbsUpBuffer
                with_refs set_fingerBuffer setLiveFingerCount
                setThumbsUpProgress with_view].
           destruct (_ && _); cbn [fst];
             constructor; cbn; try lia; try reflexivity;
             try (intros c [= <-]; lia); try (intros Hx; congruence).
        -- constructor; cbn; try lia; try discriminate; try reflexivity;
           try (intros Hx; congruence).
    + constructor; cbn; try lia; try discriminate; try reflexivity;
           try (intros Hx; congruence).
Qed.

Lemma countdownEffect_leaves (now : Z) (cam : option string) (st : FR) :
  leaves st (countdownEffect now cam st).
Proof.
  unfold countdownEffect, takePhoto, clearTimeout, leaves.
  split_ifs; cbn; repeat split; reflexivity.
Qed.

Lemma leaves_trans (a b c : FR) : leaves a b -> leaves b c -> leaves a c.
Proof.
  unfold leaves. intros (A1 & A2 & A3 & A4) (B1 & B2 & B3 & B4).
  repeat split; congruence.
Qed.

Lemma commit_leaves (now : Z) (cam : option string) (before st : FR) :
  leaves st (commit now cam before st).
Proof.
  unfold commit. destruct (countdown_eqb _ _); [repeat split|].
  destruct (countdown_eqb _ _).
  - apply countdownEffect_leaves.
  - eapply leaves_trans; apply countdownEffect_leaves.
Qed.

Lemma Shown_commit (now : Z) (cam : option string) (before st : FR) :
  Inv st -> Shown st -> Shown (commit now cam before st).
Proof.
  intros HI HS. apply (Shown_leaves st); [exact HS|apply commit_leaves|].
  destruct (commit_phase now cam before st) as [(Hp & _)|(Hz & _)].
  - rewrite Hp. auto.
  - intros _. destruct (inv_countdown _ HI _ Hz) as [Hc _]. congruence.
Qed.

Lemma Shown_handle (now : Z) (i : Input) (st st' : FR) (evs : list Event) :
  reachable st -> Shown st -> handle now i st = Some (st', evs) -> Shown st'.
Proof.
  intros Hr HS H. pose proof (reachable_Inv _ Hr) as HI.
  destruct i; cbn [handle] in H.
  - inversion H. rewrite (surjective_pairing (processLandmarks now lm st)) in H1.
    inversion H1. apply Shown_processLandmarks. exact HS.
  - destruct (catalogInDocument st); inversion H.
    apply (Shown_leaves st); [exact HS| |];
      unfold goPrev, leaves; split_ifs; cbn; auto.
  - destruct (catalogInDocument st); inversion H.
    apply (Shown_leaves st); [exact HS| |];
      unfold goNext, leaves; split_ifs; cbn; auto.
  - destruct (_ && _); inversion H.
    apply (Shown_leaves st); [exact HS|repeat split|auto].
  - destruct (catalogInDocument st) eqn:Ec; inversion H.
    apply (Shown_leaves st); [exact HS| |].
    + unfold startCapture, leaves; split_ifs; cbn; auto.
    + unfold startCapture. destruct (negb _) eqn:E; [auto|].
      apply negb_false_iff, phase_eqb_eq in E. intros _. congruence.
  - destruct (resultsInDocument st); inversion H.
    destruct HS as [Hs Hl Hp Hi].
    constructor; cbn; try lia; try reflexivity; auto.
  - destruct (resultsInDocument st) eqn:Ec; [|discriminate].
    destruct (i <? _)%nat eqn:Ei; inversion H.
    apply Nat.ltb_lt in Ei.
    assert (Hlt : (i < 4)%nat).
    { unfold resultsInDocument in Ec. unfold thumbnailsInDocument in Ei.
      destruct (leaving (runtime st)) as [l|] eqn:El.
      - apply andb_prop in Ec. destruct Ec as [Ec _].
        apply phase_eqb_eq in Ec.
        rewrite (reachable_thumbnails st Hr l El Ec) in Ei. exact Ei.
      - apply andb_prop in Ec. destruct Ec as [Ec _].
        apply phase_eqb_eq in Ec.
        destruct (inv_results _ HI Ec) as [Hlen _].
        rewrite scenes_catalogAt in Hlen. cbn in Hlen. lia. }
    destruct HS as [Hs Hl Hp Hi].
    constructor; cbn; auto. lia.
  - destruct (findTimer t _) as [tm|]; [|discriminate].
    destruct (mayFire now tm _); inversion H.
    apply (Shown_leaves st); [exact HS| |];
      unfold fire, leaves; destruct (action tm); cbn; auto.
  - destruct (findBatch b _) as [bt|]; [|discriminate].
    destruct (settleCall index net bt) as [bt'|]; inversion H.
    apply (Shown_leaves st); [exact HS|repeat split|auto].
  - destruct (findBatch b _) as [bt|]; [|discriminate].
    destruct (allSettled bt); inversion H.
    destruct HS as [Hs Hl Hp Hi].
    constructor; cbn; auto; try lia; congruence.
  - destruct (leaving (runtime st)); inversion H.
    apply (Shown_leaves st); [exact HS|repeat split|auto].
Qed.

Lemma Shown_step (now : Z) (cam : option string) (i : Input) (st st' : FR)
    (evs : list Event) :
  reachable st -> Shown st -> step now cam i st = Some (st', evs) -> Shown st'.
Proof.
  intros Hr HS H. destruct (reachable_Inv_staged _ Hr) as [HI HG].
  apply step_inv in H. destruct H as (_ & st1 & Hh & ->).
  apply (Shown_leaves (commit now cam st (set_clock now st1)));
    [|repeat split|auto].
  apply Shown_commit.
  - apply Inv_set_clock. eapply Inv_handle; eassumption.
  - apply (Shown_leaves st1); [|repeat split|auto].
    eapply Shown_handle; eassumption.
Qed.

Lemma reachable_Shown (st : FR) : reachable st -> Shown st.
Proof.
  induction 1 as [|st now cam i st' evs Hr IH Hs]; [apply Shown_initial|].
  eapply Shown_step; [exact Hr|exact IH|exact Hs].
Qed.

Lemma progressOf_bounds (n : Z) :
  0 <= n <= 9 ->
  (0 <= progressOf n)%Q /\ (progressOf n < 1)%Q /\
  ((0 < progressOf n)%Q <-> 0 < n).
Proof.
  intros Hn. unfold progressOf, THUMBS_UP_FRAMES, Qle, Qlt. cbn. lia.
Qed.

(** In the results phase the screen is the results screen with its
    four looks, and the selected index names one of them, a look that
    has settled: the main image is either the picture of the look, and
    the look then holds an image that is not empty and no error, or the
    error card, and the look then holds the error message and no
    image; it is never a spinner and never an image without a source.
    A finger count on display lights the badge of one of the
    thumbnails. *)
Theorem results_screen_shows_a_settled_look (st : FR) :
  reachable st ->
  phase (view st) = results ->
  onResultsScreen st = true /\
  length (generatedLooks (view st)) = 4%nat /\
  (exists look, selectedLook st = Some look /\ isLoading look = false /\
     ((mainImage st = Picture (Some (imageBase64 look)) /\
       imageBase64 look <> ""%string /\ error look = None) \/
      (mainImage st = ErrorCard /\
       imageBase64 look = ""%string /\
       error look = Some "שגיאה בייצור התמונה"%string))) /\
  mainImage st <> Spinner /\ mainImage st <> Picture None /\
  mainImage st <> Picture (Some ""%string) /\
  (forall c, liveFingerCount (view st) = Some c ->
     exists i, (i < length (generatedLooks (view st)))%nat /\
               badgeLit i st = true).
Proof.
  intros Hr Hp.
  pose proof (reachable_Inv _ Hr) as HI.
  destruct (reachable_Shown _ Hr) as [Hs Hl _ _].
  destruct (inv_results _ HI Hp) as [Hlen Hslots].
  rewrite scenes_catalogAt in Hlen, Hslots. cbn in Hlen.
  assert (Hat : forall n, (n < 4)%nat ->
            exists s net, generatedLooks (view st) !! n
                          = Some (settledLook s (generateLook net))).
  { intros n Hn.
    assert (Hsc : exists s, SCENES !! n = Some s).
    { do 4 (destruct n as [|n]; [eexists; reflexivity|]). lia. }
    destruct Hsc as [s Hsc]. destruct (Hslots n s Hsc) as [net Ho]. eauto. }
  split.
  { unfold onResultsScreen. rewrite Hp, Hlen. reflexivity. }
  split; [exact Hlen|].
  destruct (Hat (Z.to_nat (selectedLookIndex (view st)))) as (s & net & Hsel);
    [lia|].
  assert (Hlook : selectedLook st = Some (settledLook s (generateLook net))).
  { unfold selectedLook. destruct (_ <? 0) eqn:E; [|exact Hsel].
    apply Z.ltb_lt in E. lia. }
  assert (Hmain :
    let look := settledLook s (generateLook net) in
    isLoading look = false /\
    ((mainImage st = Picture (Some (imageBase64 look)) /\
      imageBase64 look <> ""%string /\ error look = None) \/
     (mainImage st = ErrorCard /\
      imageBase64 look = ""%string /\
      error look = Some "שגיאה בייצור התמונה"%string))).
  { cbv zeta. unfold mainImage. rewrite Hlook.
    pose proof (settledLook_settled s net) as (_ & _ & Hm).
    destruct (generateLook net) as [img|].
    - destruct Hm as [_ Hne]. split; [reflexivity|]. left.
      split; [reflexivity|]. split; [exact Hne|reflexivity].
    - split; [reflexivity|]. right. repeat split. }
  destruct Hmain as [Hload Hmain].
  split; [|split; [|split; [|split]]].
  - exists (settledLook s (generateLook net)). auto.
  - destruct Hmain as [(-> & _)|(-> & _)]; discriminate.
  - destruct Hmain as [(-> & _)|(-> & _)]; discriminate.
  - destruct Hmain as [(-> & Hne & _)|(-> & _)]; [|discriminate].
    intros [= Hx]. apply Hne. exact Hx.
  - intros c Hc. specialize (Hl c Hc).
    exists (Z.to_nat (c - 1)). split; [lia|].
    unfold badgeLit. rewrite Hc. apply Z.eqb_eq. lia.
Qed.

(** Outside the results phase both gesture buffers are empty and the
    thumbs-up overlay is off: every visit of the results starts from an
    empty accumulator and an empty finger buffer, nothing is carried
    over from an earlier visit. *)
Theorem gesture_buffers_empty_outside_results (st : FR) :
  reachable st ->
  phase (view st) <> results ->
  thumbsUpBuffer (refs st) = 0 /\
  fingerBuffer (refs st) = [] /\
  (thumbsUpProgress (view st) == 0)%Q /\
  overlayVisible st = false.
Proof.
  intros Hr Hp.
  pose proof (reachable_Inv _ Hr) as HI.
  destruct (reachable_Shown _ Hr) as [_ _ Hpr Hi].
  specialize (Hi Hp). rewrite Hi in Hpr.
  split; [exact Hi|]. split; [exact (inv_finger_off _ HI Hp)|].
  split; [rewrite Hpr; reflexivity|].
  unfold overlayVisible. apply phase_eqb_neq in Hp. rewrite Hp.
  apply andb_false_r.
Qed.

(** The progress ring always shows the thumbs-up accumulator divided
    by ten, a value from 0 up to but not including 1: after a callback
    the ring is never full, so the overlay never announces the return
    to the catalog; the overlay is on exactly in the results phase with
    a positive accumulator. *)
Theorem progress_ring_shows_the_accumulator (st : FR) :
  reachable st ->
  (thumbsUpProgress (view st) == progressOf (thumbsUpBuffer (refs st)))%Q /\
  (0 <= thumbsUpProgress (view st))%Q /\
  (thumbsUpProgress (view st) < 1)%Q /\
  overlayReturning st = false /\
  (overlayVisible st = true <->
   phase (view st) = results /\ 0 < thumbsUpBuffer (refs st)).
Proof.
  intros Hr.
  pose proof (inv_thumb _ (reachable_Inv _ Hr)) as Hth.
  destruct (reachable_Shown _ Hr) as [_ _ Hpr _].
  destruct (progressOf_bounds _ Hth) as (H0 & H1 & Hpos).
  split; [exact Hpr|]. split; [rewrite Hpr; exact H0|].
  split; [rewrite Hpr; exact H1|]. split.
  - unfold overlayReturning. destruct (Qle_bool _ _) eqn:E; [|reflexivity].
    apply Qle_bool_iff in E. rewrite Hpr in E.
    exfalso. exact (Qlt_not_le _ _ H1 E).
  - unfold overlayVisible. rewrite andb_true_iff, Qltb_lt, phase_eqb_eq.
    rewrite Hpr, Hpos. tauto.
Qed.

End AnyEngine.

(** *** On sample inputs, with the [binary64] engine *)

Section OnSamples.
#[local] Existing Instance Binary64.binary64.

Lemma results_screen_shows_a_settled_look_witness :
  reachable Samples.inResults /\
  phase (view Samples.inResults) = results /\
  length (generatedLooks (view Samples.inResults)) = 4%nat /\
  mainImage Samples.inResults <> Spinner /\
  mainImage Samples.inResults = Picture (Some "data:image/png;base64,AAAA"%string).
Proof.
  assert (Hr : reachable Samples.inResults).
  { apply (run_reachable Samples.toResults initial Samples.inResults []
             reachable_initial).
    vm_compute. reflexivity. }
  assert (Hp : phase (view Samples.inResults) = results)
    by (vm_compute; reflexivity).
  split; [exact Hr|]. split; [exact Hp|].
  destruct (results_screen_shows_a_settled_look _ Hr Hp)
    as (_ & Hlen & _ & Hm & _).
  split; [exact Hlen|]. split; [exact Hm|]. vm_compute. reflexivity.
Defined.

Lemma gesture_buffers_empty_outside_results_witness :
  reachable Samples.inGenerating /\
  thumbsUpBuffer (refs Samples.inGenerating) = 0 /\
  fingerBuffer (refs Samples.inGenerating) = [].
Proof.
  assert (Hr : reachable Samples.inGenerating).
  { apply (run_reachable (firstn 4 Samples.toResults) initial
             Samples.inGenerating [] reachable_initial).
    vm_compute. reflexivity. }
  assert (Hp : phase (view Samples.inGenerating) <> results)
    by (vm_compute; discriminate).
  split; [exact Hr|].
  destruct (gesture_buffers_empty_outside_results _ Hr Hp) as (A & B & _).
  split; assumption.
Defined.

Lemma progress_ring_shows_the_accumulator_witness :
  let st' := Samples.after
               (map (fun f => Samples.deliver (fst f) (Frame (snd f)))
                    (Samples.framesOf 3 5000 Hands.thumbsUpHand))
               Samples.inResults in
  reachable st' /\
  thumbsUpBuffer (refs st') = 3 /\
  overlayVisible st' = true /\ overlayReturning st' = false.
Proof.
  intros st'.
  assert (Hr0 : reachable Samples.inResults).
  { apply (run_reachable Samples.toResults initial Samples.inResults []
             reachable_initial).
    vm_compute. reflexivity. }
  assert (Hr : reachable st').
  { apply (run_reachable
             (map (fun f => Samples.deliver (fst f) (Frame (snd f)))
                  (Samples.framesOf 3 5000 Hands.thumbsUpHand))
             Samples.inResults st' [] Hr0).
    vm_compute. reflexivity. }
  assert (Hb : thumbsUpBuffer (refs st') = 3) by (vm_compute; reflexivity).
  assert (Hp : phase (view st') = results) by (vm_compute; reflexivity).
  split; [exact Hr|]. split; [exact Hb|].
  destruct (progress_ring_shows_the_accumulator st' Hr) as (_ & _ & _ & A & B).
  split; [|exact A]. apply B. split; [exact Hp|]. rewrite Hb. lia.
Defined.

End OnSamples.

End ScreenFacts.

(** ** The flow of the fitting room *)

Module FlowFacts.
Import Geometry Catalog GenerateLook Imagen FittingRoom Invariant InvariantFacts
  BatchFacts PhaseFacts.
Import Schedule.

Section AnyEngine.
Context {engine : Engine}.

(** The browse index always names an item of the catalog:
    [CATALOG[currentIndex]] is never [undefined], and the item has the
    four scenes. *)
Theorem current_item_exists (st : FR) :
  reachable st ->
  0 <= currentIndex (view st) < Z.of_nat (length CATALOG) /\
  CATALOG !! Z.to_nat (currentIndex (view st))
    = Some (catalogAt (currentIndex (view st))) /\
  scenes (catalogAt (currentIndex (view st))) = SCENES.
Proof.
  intros Hr. pose proof (inv_index _ (reachable_Inv _ Hr)) as Hi.
  unfold catalogLength in Hi. split; [exact Hi|].
  split; [|apply ScreenFacts.scenes_catalogAt].
  unfold catalogAt. cbn in Hi.
  assert (Hn : (Z.to_nat (currentIndex (view st)) < 10)%nat) by lia.
  revert Hn. generalize (Z.to_nat (currentIndex (view st))). intros n Hn.
  do 10 (destruct n as [|n]; [reflexivity|]). lia.
Qed.

Lemma processLandmarks_index (now : Z) (lm : option HandLandmarks) (st : FR) :
  phase (view st) <> catalog ->
  currentIndex (view (fst (processLandmarks now lm st))) = currentIndex (view st).
Proof.
  intros Hp. unfold processLandmarks.
  destruct (phase (view st)); try reflexivity; [congruence|].
  unfold processResults, reset.
  ScreenFacts.split_ifs; reflexivity.
Qed.

(** Outside the catalog phase the browse index moves only by a click
    on a dot of a catalog screen that is leaving.  No frame, timer,
    completion or other click that the component accepts changes the
    item on display while it is capturing, generating or showing
    results.  A dot can be clicked only while the component is
    capturing and the catalog screen has not left the document yet;
    the browse index is then the one of the dot, and the component
    goes on capturing. *)
Theorem browse_index_moves_only_by_a_leaving_dot (now : Z) (cam : option string)
    (i : Input) (st st' : FR) (evs : list Event) :
  reachable st ->
  phase (view st) <> catalog ->
  step now cam i st = Some (st', evs) ->
  ((forall k, i <> ClickDot k) /\
   currentIndex (view st') = currentIndex (view st)) \/
  (exists k, i = ClickDot k /\ (k < length CATALOG)%nat /\
     phase (view st) = capturing /\
     (exists l, leaving (runtime st) = Some l /\ screenOf l = catalog) /\
     currentIndex (view st') = Z.of_nat k /\
     phase (view st') = capturing /\
     countdown (view st') = countdown (view st)).
Proof.
  intros Hr Hp Hs. destruct (reachable_Inv_staged _ Hr) as [_ HS].
  apply step_inv in Hs. destruct Hs as (_ & st1 & Hh & ->).
  rewrite !present_view.
  destruct i; cbn [handle] in Hh;
    try (left; split; [discriminate|]; rewrite CooldownFacts.commit_index;
         change (currentIndex (view (set_clock now st1)))
           with (currentIndex (view st1))).
  - inversion Hh. rewrite (surjective_pairing (processLandmarks now lm st)) in H0.
    inversion H0. apply processLandmarks_index. exact Hp.
  - destruct (catalogInDocument st); inversion Hh.
    unfold goPrev. apply phase_eqb_neq in Hp. rewrite Hp.
    rewrite orb_true_r. reflexivity.
  - destruct (catalogInDocument st); inversion Hh.
    unfold goNext. apply phase_eqb_neq in Hp. rewrite Hp.
    rewrite orb_true_r. reflexivity.
  - right. destruct (catalogInDocument st) eqn:Ec; [|discriminate].
    destruct (i <? length CATALOG)%nat eqn:Ei; inversion Hh. subst st1 evs.
    apply Nat.ltb_lt in Ei.
    assert (Hcap : phase (view st) = capturing).
    { destruct (catalogInDocument_phase st HS Ec) as [[_ Hx]|Hx];
        [contradiction|exact Hx]. }
    exists i. split; [reflexivity|]. split; [exact Ei|].
    split; [exact Hcap|]. split.
    { unfold catalogInDocument in Ec.
      destruct (leaving (runtime st)) as [l|].
      - exists l. split; [reflexivity|]. apply phase_eqb_eq. exact Ec.
      - unfold onCatalogScreen in Ec. apply phase_eqb_eq in Ec. contradiction. }
    rewrite commit_unchanged by reflexivity.
    split; [reflexivity|]. split; [exact Hcap|reflexivity].
  - destruct (catalogInDocument st); inversion Hh.
    unfold startCapture. apply phase_eqb_neq in Hp. rewrite Hp. reflexivity.
  - destruct (resultsInDocument st); inversion Hh. reflexivity.
  - destruct (_ && _); inversion Hh. reflexivity.
  - destruct (findTimer t _) as [tm|]; [|discriminate].
    destruct (mayFire now tm _); inversion Hh.
    unfold fire. destruct (action tm); reflexivity.
  - destruct (findBatch b _) as [bt|]; [|discriminate].
    destruct (settleCall index net bt) as [bt'|]; inversion Hh. reflexivity.
  - destruct (findBatch b _) as [bt|]; [|discriminate].
    destruct (allSettled bt); inversion Hh. reflexivity.
  - destruct (leaving (runtime st)); inversion Hh. reflexivity.
Qed.

Lemma map_scene_eq (looks : list GeneratedLook) :
  forall ss : list Scene,
  length looks = length ss ->
  (forall i s, ss !! i = Some s ->
     exists l, looks !! i = Some l /\ scene l = s) ->
  map scene looks = ss.
Proof.
  induction looks as [|l looks IH]; intros [|s ss] Hlen H;
    try discriminate; [reflexivity|].
  cbn. f_equal.
  - destruct (H 0%nat s eq_refl) as (l0 & [= <-] & Hs). exact Hs.
  - apply IH; [cbn in Hlen; lia|].
    intros i s' Hi. exact (H (S i) s' Hi).
Qed.

(** While generating and in the results, the looks on the screen are
    those of the item on display, scene by scene and in the order of
    its scenes. *)
Theorem looks_are_those_of_the_item_on_display (st : FR) :
  reachable st ->
  phase (view st) = generating \/ phase (view st) = results ->
  map scene (generatedLooks (view st))
    = scenes (catalogAt (currentIndex (view st))).
Proof.
  intros Hr Hp. pose proof (reachable_Inv _ Hr) as HI.
  destruct Hp as [Hp|Hp].
  - destruct (inv_generating _ HI Hp) as (b & _ & Hl & Hitem & _ & [Hlen Hslots _]).
    rewrite Hl, <- Hitem. apply map_scene_eq; [exact Hlen|].
    intros i s Hi. destruct (Hslots i s Hi) as [[_ H]|[_ [net H]]].
    + eexists. split; [exact H|reflexivity].
    + eexists. split; [exact H|]. apply settledLook_settled.
  - destruct (inv_results _ HI Hp) as [Hlen Hslots].
    apply map_scene_eq; [exact Hlen|].
    intros i s Hi. destruct (Hslots i s Hi) as [net H].
    eexists. split; [exact H|]. apply settledLook_settled.
Qed.

(** While generating, the looks on the screen follow the calls in
    flight.  (1) There is one batch, one look per scene of its item,
    each look in the scene of its slot, and a look shows the spinner
    exactly when its call has not settled yet; a look that shows the
    spinner holds no image and no error, a look that does not holds
    either an image that is not empty and no error, or the error
    message and no image.  (2) When a call settles, it is a call of
    that batch that had not settled, its look showed the spinner, the
    look in its slot becomes the look of that very call (the image it
    resolved with and no error, or no image and the error message when
    it rejected), and the looks of the other slots stay as they
    were. *)
Theorem spinners_are_the_unsettled_calls :
  (forall st : FR,
     reachable st ->
     phase (view st) = generating ->
     exists b, batches (runtime st) = [b] /\
       length (generatedLooks (view st)) = length (scenes (bitem b)) /\
       forall i look, generatedLooks (view st) !! i = Some look ->
         (isLoading look = true <-> memb i (pending b) = true) /\
         scenes (bitem b) !! i = Some (scene look) /\
         (isLoading look = true ->
          imageBase64 look = ""%string /\ error look = None) /\
         (isLoading look = false ->
          (imageBase64 look <> ""%string /\ error look = None) \/
          (imageBase64 look = ""%string /\
           error look = Some "שגיאה בייצור התמונה"%string))) /\
  (forall (now : Z) (cam : option string) (n k : nat) (net : Network)
          (st st' : FR) (evs : list Event),
     reachable st ->
     step now cam (CallSettles n k net) st = Some (st', evs) ->
     exists b s,
       phase (view st) = generating /\ phase (view st') = generating /\
       batches (runtime st) = [b] /\ bid b = n /\
       memb k (pending b) = true /\
       scenes (bitem b) !! k = Some s /\
       generatedLooks (view st) !! k = Some (loadingLook s) /\
       match generateLook net with
       | Resolved imageDataUrl =>
           imageDataUrl <> ""%string /\
           generatedLooks (view st') !! k
             = Some {| scene := s; imageBase64 := imageDataUrl;
                       isLoading := false; error := None |}
       | Rejected =>
           generatedLooks (view st') !! k
             = Some {| scene := s; imageBase64 := ""%string;
                       isLoading := false;
                       error := Some "שגיאה בייצור התמונה"%string |}
       end /\
       (forall j, j <> k ->
          generatedLooks (view st') !! j = generatedLooks (view st) !! j) /\
       exists b', batches (runtime st') = [b'] /\
         forall j, memb j (pending b')
                   = memb j (pending b) && negb (Nat.eqb j k)).
Proof.
  split.
  - intros st Hr Hp.
    destruct (inv_generating _ (reachable_Inv _ Hr) Hp)
      as (b & Hb & Hl & _ & _ & [Hlen Hslots _]).
    exists b. split; [exact Hb|]. rewrite Hl. split; [exact Hlen|].
    intros i look Hi.
    assert (Hs : exists s, scenes (bitem b) !! i = Some s).
    { apply lookup_lt_is_Some. rewrite <- Hlen.
      apply lookup_lt_is_Some. eauto. }
    destruct Hs as [s Hs].
    destruct (Hslots i s Hs) as [[Hm H]|[Hm [net H]]];
      rewrite Hi in H; inversion H; subst look; rewrite Hm.
    + split; [split; reflexivity|]. split; [exact Hs|].
      split; [intros _; split; reflexivity|discriminate].
    + destruct (settledLook_settled s net) as ([Hload Hst] & Hsc & _).
      split; [rewrite Hload; split; discriminate|].
      split; [rewrite Hsc; exact Hs|].
      split; [rewrite Hload; discriminate|intros _; exact Hst].
  - intros now cam n k net st st' evs Hr Hs.
    apply reachable_Inv in Hr.
    apply step_inv in Hs. destruct Hs as (_ & st1 & Hh & ->).
    cbn [handle] in Hh.
    destruct (findBatch n _) as [b|] eqn:Ef; [|discriminate].
    destruct (settleCall k net b) as [b'|] eqn:Es; [|discriminate].
    inversion Hh. subst st1 evs. clear Hh.
    destruct (batch_in_flight _ _ _ Hr Ef)
      as (Hp & Hbs & Hl & Hi & Hph & Hok & Hn).
    destruct (settleCall_ok _ _ _ _ Hok Es) as (_ & _ & Hn').
    apply settleCall_inv in Es. destruct Es as (s & Hm & Hsc & Hb').
    rewrite commit_unchanged by reflexivity.
    destruct Hok as [Hlen Hslots _].
    exists b, s. split; [exact Hp|]. split; [exact Hp|].
    split; [exact Hbs|]. split; [exact Hn|]. split; [exact Hm|].
    split; [exact Hsc|]. split.
    { rewrite Hl. destruct (Hslots k s Hsc) as [[_ H]|[Hx _]]; [exact H|].
      congruence. }
    assert (Hlt : (k < length (bresults b))%nat).
    { rewrite Hlen. apply lookup_lt_Some in Hsc. exact Hsc. }
    assert (Hlooks : generatedLooks
                       (view (present st
                          (set_clock now
                             (setGeneratedLooks (bresults b')
                                (set_batches
                                   (replaceBatch b' (batches (runtime st))) st)))))
                     = <[k := settledLook s (generateLook net)]> (bresults b)).
    { rewrite Hb'. reflexivity. }
    rewrite Hlooks. split; [|split].
    + rewrite list_lookup_insert_eq by exact Hlt.
      pose proof (settledLook_settled s net) as (_ & _ & Hmatch).
      destruct (generateLook net) as [img|].
      * destruct Hmatch as [_ Hne]. split; [exact Hne|reflexivity].
      * reflexivity.
    + intros j Hj. rewrite Hl. apply list_lookup_insert_ne. congruence.
    + exists b'. split.
      * cbn. rewrite Hbs. unfold replaceBatch. cbn.
        rewrite Hn', Nat.eqb_refl. reflexivity.
      * intros j. rewrite Hb'. cbn [pending]. apply memb_remove.
Qed.

(** *** The countdown *)

Lemma countdownEffect_clock (now : Z) (cam : option string) (st : FR) :
  clock (runtime (countdownEffect now cam st)) = clock (runtime st).
Proof.
  unfold countdownEffect, takePhoto, clearTimeout.
  ScreenFacts.split_ifs; reflexivity.
Qed.

Lemma commit_clock (now : Z) (cam : option string) (before st : FR) :
  clock (runtime (commit now cam before st)) = clock (runtime st).
Proof.
  unfold commit. destruct (countdown_eqb _ _); [reflexivity|].
  destruct (countdown_eqb _ _); rewrite ?countdownEffect_clock; reflexivity.
Qed.

(** The render after the countdown has changed to a positive value:
    the tick of the previous value is cleared, one tick is started, due
    a second later. *)
Lemma commit_restarts_tick (now : Z) (cam : option string) (before st : FR)
    (c : Z) :
  Inv st ->
  countdown (view st) = Some c -> c <> 0 ->
  countdown (view before) <> Some c ->
  phase (view (commit now cam before st)) = phase (view st) /\
  countdown (view (commit now cam before st)) = Some c /\
  forall t, In t (timers (runtime (commit now cam before st))) ->
    action t = CountdownTick -> due t = now + 1000.
Proof.
  intros HI Hc Hc0 Hb. unfold commit.
  destruct (countdown_eqb (countdown (view before)) (countdown (view st))) eqn:E.
  { apply countdown_eqb_eq in E. congruence. }
  assert (Heff : phase (view (countdownEffect now cam st)) = phase (view st) /\
                 countdown (view (countdownEffect now cam st)) = Some c /\
                 forall t, In t (timers (runtime (countdownEffect now cam st))) ->
                   action t = CountdownTick -> due t = now + 1000).
  { unfold countdownEffect.
    assert (Hold : forall t,
              In t (timers (runtime (clearTimeout (countdownTimer (runtime st)) st))) ->
              action t <> CountdownTick).
    { intros t Ht Ha. unfold clearTimeout in Ht.
      destruct (countdownTimer (runtime st)) as [n|] eqn:En.
      - cbn in Ht. apply filter_In in Ht. destruct Ht as [Ht Hn].
        destruct (inv_tick _ HI _ Ht Ha) as (_ & Hid & _).
        rewrite En in Hid. inversion Hid. subst n.
        rewrite Nat.eqb_refl in Hn. discriminate.
      - destruct (inv_tick _ HI _ Ht Ha) as (_ & Hid & _). congruence. }
    assert (Hv : view (clearTimeout (countdownTimer (runtime st)) st) = view st)
      by (destruct (countdownTimer (runtime st)); reflexivity).
    revert Hold Hv.
    generalize (clearTimeout (countdownTimer (runtime st)) st).
    intros s1 Hold Hv.
    cbn [countdown view set_countdownTimer with_runtime]. rewrite Hv, Hc.
    apply Z.eqb_neq in Hc0. rewrite Hc0. cbn.
    rewrite Hv. split; [reflexivity|]. split; [exact Hc|].
    intros t Ht Ha. apply in_app_iff in Ht. destruct Ht as [Ht|[<-|[]]].
    - exfalso. exact (Hold t Ht Ha).
    - reflexivity. }
  destruct Heff as (Hp & Hcd & Ht).
  rewrite Hcd, Hc. cbn [countdown_eqb]. rewrite Z.eqb_refl.
  auto.
Qed.

(** While capturing the results screen is not in the document. *)
Lemma not_capturing_screens (st : FR) :
  staged st -> phase (view st) = capturing -> resultsInDocument st = false.
Proof.
  intros HS Hp. destruct (resultsInDocument st) eqn:E; [|reflexivity].
  destruct (resultsInDocument_phase st HS E) as [[_ Hx]|Hx]; congruence.
Qed.

(** While capturing the buttons of a catalog screen that is leaving do
    nothing to the capture. *)
Lemma capturing_clicks (now : Z) (st : FR) :
  phase (view st) = capturing ->
  goPrev now st = st /\ goNext now st = st /\ startCapture st = st.
Proof.
  intros Hp. unfold goPrev, goNext, startCapture. rewrite Hp. cbn.
  rewrite !orb_true_r. auto.
Qed.

Lemma onSchedule_present (t0 : Z) (before st : FR) :
  onSchedule t0 st -> onSchedule t0 (present before st).
Proof. intros H. exact H. Qed.

Lemma no_batch_while_capturing (n : nat) (st : FR) :
  Inv st -> phase (view st) = capturing ->
  findBatch n (batches (runtime st)) = None.
Proof.
  intros HI Hp. rewrite (inv_batches _ HI); [reflexivity|congruence].
Qed.

Lemma onSchedule_step (t0 now : Z) (cam : option string) (i : Input)
    (st st' : FR) (evs : list Event) :
  Inv st -> staged st -> onSchedule t0 st ->
  step now cam i st = Some (st', evs) -> onSchedule t0 st'.
Proof.
  intros HI HS Hon Hs. apply step_inv in Hs.
  destruct Hs as (Hclock & st1 & Hh & ->).
  apply onSchedule_present.
  destruct Hon as [Hlate|(Hp & c & Hc & Hrange & Hdue)].
  { left. rewrite commit_clock. cbn. lia. }
  pose proof (not_capturing_screens st HS Hp) as Hrs.
  destruct (capturing_clicks now st Hp) as (Hgp & Hgn & Hsc).
  pose proof (Inv_set_clock now _ (Inv_handle _ _ _ _ _ HI HS Hh)) as HI1.
  assert (Hsame : countdown (view st1) = countdown (view st) ->
                  phase (view st1) = phase (view st) ->
                  (forall t, In t (timers (runtime st1)) ->
                             In t (timers (runtime st))) ->
                  onSchedule t0 (commit now cam st (set_clock now st1))).
  { intros E1 E2 E3. rewrite commit_unchanged by exact E1.
    right. split; [cbn; congruence|]. exists c.
    split; [cbn; congruence|]. split; [exact Hrange|].
    intros t Ht. apply Hdue. apply E3. exact Ht. }
  destruct i; cbn [handle] in Hh; rewrite ?Hrs, ?Hgp, ?Hgn, ?Hsc in Hh;
    try discriminate.
  - unfold processLandmarks in Hh. rewrite Hp in Hh. inversion Hh. subst.
    apply Hsame; auto.
  - destruct (catalogInDocument st); inversion Hh. subst. apply Hsame; auto.
  - destruct (catalogInDocument st); inversion Hh. subst. apply Hsame; auto.
  - destruct (_ && _); inversion Hh. subst. apply Hsame; auto.
  - destruct (catalogInDocument st); inversion Hh. subst. apply Hsame; auto.
  - destruct (findTimer t _) as [tm|] eqn:Ef; [|discriminate].
    destruct (mayFire now tm _) eqn:Em; inversion Hh. subst st1 evs.
    apply findTimer_Some in Ef. destruct Ef as [Hin Hn].
    apply mayFire_due in Em.
    assert (Hsub : forall t', In t' (timers (runtime (clearTimeout (Some t) st))) ->
                              In t' (timers (runtime st))).
    { intros t' Ht'. cbn in Ht'. apply filter_In in Ht'. tauto. }
    unfold fire in *. destruct (action tm) eqn:Ea.
    + apply Hsame; auto.
    + apply Hsame; auto.
    + specialize (Hdue _ Hin Ea).
      change (onSchedule t0
                (commit now cam st
                   (set_clock now
                      (setCountdown
                         (fun c => match c with
                                   | Some c => Some (c - 1)
                                   | None => None
                                   end) (clearTimeout (Some t) st))))).
      destruct (Z.eq_dec c 1) as [->|Hc1].
      * left. rewrite commit_clock. cbn. lia.
      * destruct (commit_restarts_tick now cam st
                    (set_clock now
                       (setCountdown
                          (fun c => match c with
                                    | Some c => Some (c - 1)
                                    | None => None
                                    end) (clearTimeout (Some t) st)))
                    (c - 1) HI1) as (A & B & C).
        -- cbn. rewrite Hc. reflexivity.
        -- lia.
        -- rewrite Hc. intros [= Hx]. lia.
        -- right. split; [rewrite A; cbn; exact Hp|].
           exists (c - 1). split; [exact B|]. split; [lia|].
           intros t' Ht' Ha'. rewrite (C t' Ht' Ha'). lia.
  - rewrite (no_batch_while_capturing _ _ HI Hp) in Hh. discriminate.
  - rewrite (no_batch_while_capturing _ _ HI Hp) in Hh. discriminate.
  - destruct (leaving (runtime st)); inversion Hh. subst. apply Hsame; auto.
Qed.

Lemma capture_starts_schedule (t0 : Z) (cam : option string) (i : Input)
    (st st1 : FR) (evs : list Event) :
  Inv st -> staged st -> phase (view st) = catalog ->
  step t0 cam i st = Some (st1, evs) ->
  phase (view st1) = capturing ->
  onSchedule t0 st1.
Proof.
  intros HI HS Hp Hs Hp1. apply step_inv in Hs.
  destruct Hs as (_ & sth & Hh & ->).
  rewrite present_view in Hp1. apply onSchedule_present.
  pose proof (Inv_set_clock t0 _ (Inv_handle _ _ _ _ _ HI HS Hh)) as HIh.
  destruct (handle_move _ _ _ _ _ HI HS Hh)
    as [Hph Hcd|Hph Hph' Hcd Hcd' Hi|c Hph|n b Hph|Hph]; try congruence.
  - rewrite commit_unchanged in Hp1 by exact Hcd. cbn in Hp1. congruence.
  - destruct (commit_restarts_tick t0 cam st (set_clock t0 sth)
                COUNTDOWN_SECONDS HIh) as (A & B & C).
    + exact Hcd'.
    + discriminate.
    + rewrite Hcd. discriminate.
    + right. split; [exact Hp1|]. exists COUNTDOWN_SECONDS.
      split; [exact B|]. unfold COUNTDOWN_SECONDS. split; [lia|].
      intros t Ht Ha. rewrite (C t Ht Ha). lia.
Qed.

Lemma onSchedule_run (t0 : Z) (ds : list Delivery) :
  forall (st st' : FR) (evs : list Event),
  reachable st -> onSchedule t0 st ->
  run ds st = Some (st', evs) -> onSchedule t0 st'.
Proof.
  induction ds as [|d ds IH]; intros st st' evs Hr Hon H.
  - inversion H. subst. exact Hon.
  - cbn [run] in H.
    destruct (step _ _ _ st) as [[st1 evs1]|] eqn:Es; [|discriminate].
    destruct (run ds st1) as [[st2 evs2]|] eqn:Er; inversion H. subst.
    apply (IH st1 st' evs2); [|
      exact (onSchedule_step _ _ _ _ _ _ _ (reachable_Inv _ Hr)
               (reachable_staged _ Hr) Hon Es)|exact Er].
    eapply reachable_step; eassumption.
Qed.

(** The countdown lasts three seconds: when a callback at time [t0]
    takes the component from the catalog into the capture, whatever is
    delivered afterwards, the component has not left the capturing
    phase (the photo is not taken) before time [t0 + 3000]. *)
Theorem countdown_lasts_three_seconds (t0 : Z) (cam : option string)
    (i : Input) (st st1 st2 : FR) (evs evs' : list Event)
    (ds : list Delivery) :
  reachable st ->
  phase (view st) = catalog ->
  step t0 cam i st = Some (st1, evs) ->
  phase (view st1) = capturing ->
  run ds st1 = Some (st2, evs') ->
  phase (view st2) <> capturing ->
  t0 + 3000 <= clock (runtime st2).
Proof.
  intros Hr Hp Hs Hp1 Hrun Hp2.
  pose proof (capture_starts_schedule _ _ _ _ _ _ (reachable_Inv _ Hr)
                (reachable_staged _ Hr) Hp Hs Hp1) as Hon.
  assert (Hr1 : reachable st1) by (eapply reachable_step; eassumption).
  destruct (onSchedule_run _ _ _ _ _ Hr1 Hon Hrun) as [H|(H & _)];
    [exact H|contradiction].
Qed.

(** *** A photo that cannot be taken *)

Lemma stuck_step (now : Z) (cam : option string) (i : Input)
    (st st' : FR) (evs : list Event) :
  Inv st -> staged st -> stuck st ->
  step now cam i st = Some (st', evs) ->
  stuck st' /\ evs = [] /\
  generatedLooks (view st') = generatedLooks (view st).
Proof.
  intros HI HS [Hp Hc] Hs. apply step_inv in Hs.
  destruct Hs as (_ & st1 & Hh & ->).
  change (stuck (commit now cam st (set_clock now st1)) /\ evs = [] /\
          generatedLooks (view (commit now cam st (set_clock now st1)))
          = generatedLooks (view st)).
  pose proof (not_capturing_screens st HS Hp) as Hrs.
  destruct (capturing_clicks now st Hp) as (Hgp & Hgn & Hsc).
  assert (Hsame : countdown (view st1) = countdown (view st) ->
                  phase (view st1) = phase (view st) ->
                  generatedLooks (view st1) = generatedLooks (view st) ->
                  stuck (commit now cam st (set_clock now st1)) /\
                  generatedLooks (view (commit now cam st (set_clock now st1)))
                  = generatedLooks (view st)).
  { intros E1 E2 E3. rewrite commit_unchanged by exact E1.
    split; [split; cbn; congruence|exact E3]. }
  destruct i; cbn [handle] in Hh; rewrite ?Hrs, ?Hgp, ?Hgn, ?Hsc in Hh;
    try discriminate.
  - unfold processLandmarks in Hh. rewrite Hp in Hh. inversion Hh. subst.
    destruct Hsame as [A B]; auto.
  - destruct (catalogInDocument st); inversion Hh. subst.
    destruct Hsame as [A B]; auto.
  - destruct (catalogInDocument st); inversion Hh. subst.
    destruct Hsame as [A B]; auto.
  - destruct (_ && _); inversion Hh. subst.
    destruct Hsame as [A B]; [reflexivity..|]. auto.
  - destruct (catalogInDocument st); inversion Hh. subst.
    destruct Hsame as [A B]; auto.
  - destruct (findTimer t _) as [tm|] eqn:Ef; [|discriminate].
    destruct (mayFire now tm _) eqn:Em; inversion Hh. subst st1 evs.
    apply findTimer_Some in Ef. destruct Ef as [Hin Hn].
    unfold fire in *. destruct (action tm) eqn:Ea.
    + destruct Hsame as [A B]; [reflexivity..|]. auto.
    + destruct Hsame as [A B]; [reflexivity..|]. auto.
    + destruct (inv_tick _ HI _ Hin Ea) as (_ & _ & c & Hc' & Hr).
      rewrite Hc in Hc'. inversion Hc'. lia.
  - rewrite (no_batch_while_capturing _ _ HI Hp) in Hh. discriminate.
  - rewrite (no_batch_while_capturing _ _ HI Hp) in Hh. discriminate.
  - destruct (leaving (runtime st)); inversion Hh. subst.
    destruct Hsame as [A B]; [reflexivity..|]. auto.
Qed.

(** A photo that cannot be taken is a dead end.  When the countdown
    has reached 0 and the component is still capturing (the video
    element, the canvas or its context was missing when the photo was
    due), nothing that can be delivered afterwards moves it: it stays
    capturing with the countdown at 0, no gesture is acted on and no
    look is generated. *)
Theorem failed_photo_is_a_dead_end (st st' : FR) (ds : list Delivery)
    (evs : list Event) :
  reachable st -> stuck st ->
  run ds st = Some (st', evs) ->
  stuck st' /\ evs = [] /\
  generatedLooks (view st') = generatedLooks (view st).
Proof.
  revert st st' evs. induction ds as [|d ds IH]; intros st st' evs Hr Hst H.
  - inversion H. subst. auto.
  - cbn [run] in H.
    destruct (step _ _ _ st) as [[st1 evs1]|] eqn:Es; [|discriminate].
    destruct (run ds st1) as [[st2 evs2]|] eqn:Er; inversion H. subst.
    destruct (stuck_step _ _ _ _ _ _ (reachable_Inv _ Hr)
                (reachable_staged _ Hr) Hst Es) as (A & -> & C).
    assert (Hr1 : reachable st1) by (eapply reachable_step; eassumption).
    destruct (IH _ _ _ Hr1 A Er) as (A' & -> & C').
    split; [exact A'|]. split; [reflexivity|congruence].
Qed.

(** *** Browsing *)

Lemma browseNext_index (now : Z) (st : FR) :
  phase (view st) = catalog ->
  phase (view (browseNext now st)) = catalog /\
  currentIndex (view (browseNext now st))
    = Z.rem (currentIndex (view st) + 1) catalogLength.
Proof.
  intros Hp. unfold browseNext, goNext. cbn. rewrite Hp. cbn. auto.
Qed.

Lemma browsePrev_index (now : Z) (st : FR) :
  phase (view st) = catalog ->
  phase (view (browsePrev now st)) = catalog /\
  currentIndex (view (browsePrev now st))
    = Z.rem (currentIndex (view st) - 1 + catalogLength) catalogLength.
Proof.
  intros Hp. unfold browsePrev, goPrev. cbn. rewrite Hp. cbn. auto.
Qed.

Lemma browseNext_iter (now : Z) (n : nat) (st : FR) :
  phase (view st) = catalog ->
  0 <= currentIndex (view st) < catalogLength ->
  phase (view (Nat.iter n (browseNext now) st)) = catalog /\
  currentIndex (view (Nat.iter n (browseNext now) st))
    = (currentIndex (view st) + Z.of_nat n) mod catalogLength.
Proof.
  intros Hp Hi. change catalogLength with 10 in *.
  induction n as [|n [IHp IHi]].
  - cbn [Nat.iter]. split; [exact Hp|].
    rewrite Z.add_0_r, Z.mod_small; [reflexivity|exact Hi].
  - change (Nat.iter (S n) (browseNext now) st)
      with (browseNext now (Nat.iter n (browseNext now) st)).
    destruct (browseNext_index now _ IHp) as [A B].
    split; [exact A|]. rewrite B, IHi. change catalogLength with 10.
    rewrite Z.rem_mod_nonneg by
      (pose proof (Z.mod_pos_bound (currentIndex (view st) + Z.of_nat n) 10);
       lia).
    rewrite Zplus_mod_idemp_l. f_equal. lia.
Qed.

(** Browsing wraps around and its two directions undo each other.
    On the catalog, once the cooldown has elapsed, [goNext] moves from
    the last item to the first and [goPrev] from the first to the
    last; [goPrev] after [goNext], or [goNext] after [goPrev], is back
    on the item it started from; as many [goNext] as the catalog has
    items come back to it too.  Without the cooldown elapsing, the
    second call does nothing. *)
Theorem browsing_wraps_and_inverts (st : FR) (t1 t2 : Z) :
  reachable st ->
  phase (view st) = catalog ->
  currentIndex (view (browsePrev t2 (browseNext t1 st)))
    = currentIndex (view st) /\
  currentIndex (view (browseNext t2 (browsePrev t1 st)))
    = currentIndex (view st) /\
  currentIndex (view (Nat.iter (length CATALOG) (browseNext t1) st))
    = currentIndex (view st) /\
  (currentIndex (view st) = Z.of_nat (length CATALOG) - 1 ->
   currentIndex (view (browseNext t1 st)) = 0) /\
  (currentIndex (view st) = 0 ->
   currentIndex (view (browsePrev t1 st)) = Z.of_nat (length CATALOG) - 1) /\
  goPrev t2 (browseNext t1 st) = browseNext t1 st /\
  goNext t2 (browsePrev t1 st) = browsePrev t1 st.
Proof.
  intros Hr Hp. pose proof (inv_index _ (reachable_Inv _ Hr)) as Hi.
  destruct (browseNext_index t1 st Hp) as [Np Ni].
  destruct (browsePrev_index t1 st Hp) as [Pp Pi].
  destruct (browsePrev_index t2 _ Np) as [_ PNi].
  destruct (browseNext_index t2 _ Pp) as [_ NPi].
  destruct (browseNext_iter t1 (length CATALOG) st Hp Hi) as [_ Hit].
  rewrite PNi, NPi, Ni, Pi, Hit.
  change catalogLength with 10 in *. change (length CATALOG) with 10%nat.
  assert (Hcases : currentIndex (view st) = 0 \/ currentIndex (view st) = 1
                   \/ currentIndex (view st) = 2 \/ currentIndex (view st) = 3
                   \/ currentIndex (view st) = 4 \/ currentIndex (view st) = 5
                   \/ currentIndex (view st) = 6 \/ currentIndex (view st) = 7
                   \/ currentIndex (view st) = 8 \/ currentIndex (view st) = 9)
    by lia.
  split; [|split; [|split; [|split; [|split; [|split]]]]].
  - destruct Hcases as [H|[H|[H|[H|[H|[H|[H|[H|[H|H]]]]]]]]];
      rewrite H; reflexivity.
  - destruct Hcases as [H|[H|[H|[H|[H|[H|[H|[H|[H|H]]]]]]]]];
      rewrite H; reflexivity.
  - destruct Hcases as [H|[H|[H|[H|[H|[H|[H|[H|[H|H]]]]]]]]];
      rewrite H; reflexivity.
  - intros H. rewrite H. reflexivity.
  - intros H. rewrite H. reflexivity.
  - apply CooldownFacts.goPrev_cool.
    unfold browseNext, goNext. cbn. rewrite Hp. reflexivity.
  - apply CooldownFacts.goNext_cool.
    unfold browsePrev, goPrev. cbn. rewrite Hp. reflexivity.
Qed.

End AnyEngine.

(** *** On sample inputs, with the [binary64] engine *)

Section OnSamples.
#[local] Existing Instance Binary64.binary64.

Lemma current_item_exists_witness :
  reachable Samples.inResults /\
  CATALOG !! Z.to_nat (currentIndex (view Samples.inResults))
    = Some (catalogAt (currentIndex (view Samples.inResults))).
Proof.
  assert (Hr : reachable Samples.inResults).
  { apply (run_reachable Samples.toResults initial Samples.inResults []
             reachable_initial).
    vm_compute. reflexivity. }
  split; [exact Hr|].
  exact (proj1 (proj2 (current_item_exists _ Hr))).
Defined.

(** A frame in the results leaves the browse index alone; a click on
    the eighth dot of the catalog screen, while it leaves after the
    capture button was clicked, moves the index to 7 during the
    countdown. *)
Lemma browse_index_moves_only_by_a_leaving_dot_witness :
  let cam := Some "data:image/jpeg;base64,AAAA"%string in
  let frame := Frame (Some (Hands.openHand 0.2)) in
  let st := Samples.after [Samples.deliver 0 ClickCapture] initial in
  let st' := Samples.after [Samples.deliver 100 (ClickDot 7)] st in
  reachable Samples.inResults /\
  phase (view Samples.inResults) <> catalog /\
  step 5000 cam frame Samples.inResults
    = Some (Samples.after [Samples.deliver 5000 frame] Samples.inResults, []) /\
  currentIndex (view (Samples.after [Samples.deliver 5000 frame]
                        Samples.inResults))
    = currentIndex (view Samples.inResults) /\
  reachable st /\ phase (view st) <> catalog /\
  step 100 cam (ClickDot 7) st = Some (st', []) /\
  currentIndex (view st) = 0 /\ currentIndex (view st') = 7 /\
  phase (view st') = capturing.
Proof.
  intros cam frame st st'.
  assert (Hr : reachable Samples.inResults).
  { apply (run_reachable Samples.toResults initial Samples.inResults []
             reachable_initial).
    vm_compute. reflexivity. }
  assert (Hp : phase (view Samples.inResults) <> catalog)
    by (vm_compute; discriminate).
  assert (Es : step 5000 cam frame Samples.inResults
               = Some (Samples.after [Samples.deliver 5000 frame]
                         Samples.inResults, []))
    by (vm_compute; reflexivity).
  assert (Hr' : reachable st).
  { apply (run_reachable [Samples.deliver 0 ClickCapture] initial st []
             reachable_initial).
    vm_compute. reflexivity. }
  assert (Hp' : phase (view st) <> catalog) by (vm_compute; discriminate).
  assert (Es' : step 100 cam (ClickDot 7) st = Some (st', []))
    by (vm_compute; reflexivity).
  split; [exact Hr|]. split; [exact Hp|]. split; [exact Es|]. split.
  { destruct (browse_index_moves_only_by_a_leaving_dot _ _ _ _ _ _ Hr Hp Es)
      as [[_ H]|(k & Hk & _)]; [exact H|discriminate]. }
  split; [exact Hr'|]. split; [exact Hp'|]. split; [exact Es'|].
  split; [reflexivity|].
  destruct (browse_index_moves_only_by_a_leaving_dot _ _ _ _ _ _ Hr' Hp' Es')
    as [[H _]|(k & Hk & _ & _ & _ & Hi & Hc & _)].
  - exfalso. exact (H 7%nat eq_refl).
  - inversion Hk. subst k. split; [exact Hi|exact Hc].
Defined.

Lemma looks_are_those_of_the_item_on_display_witness :
  reachable Samples.inGenerating /\
  map scene (generatedLooks (view Samples.inGenerating)) = SCENES.
Proof.
  assert (Hr : reachable Samples.inGenerating).
  { apply (run_reachable (firstn 4 Samples.toResults) initial
             Samples.inGenerating [] reachable_initial).
    vm_compute. reflexivity. }
  assert (Hp : phase (view Samples.inGenerating) = generating)
    by (vm_compute; reflexivity).
  split; [exact Hr|].
  rewrite (looks_are_those_of_the_item_on_display _ Hr (or_introl Hp)).
  apply ScreenFacts.scenes_catalogAt.
Defined.

(** The third call settles first, with an image: its look holds the
    image, the three others go on showing the spinner. *)
Lemma spinners_are_the_unsettled_calls_witness :
  let cam := Some "data:image/jpeg;base64,AAAA"%string in
  let call := CallSettles 3 2 (Samples.imageAnswer "CCCC") in
  let st := Samples.after [Samples.deliver 3500 call] Samples.inGenerating in
  reachable Samples.inGenerating /\
  step 3500 cam call Samples.inGenerating = Some (st, []) /\
  phase (view st) = generating /\
  map isLoading (generatedLooks (view st)) = [true; true; false; true] /\
  map imageBase64 (generatedLooks (view st))
    = [""; ""; "data:image/png;base64,CCCC"; ""]%string /\
  (exists b s,
     batches (runtime Samples.inGenerating) = [b] /\
     scenes (bitem b) !! 2%nat = Some s /\
     generatedLooks (view st) !! 2%nat
       = Some {| scene := s; imageBase64 := "data:image/png;base64,CCCC"%string;
                 isLoading := false; error := None |}) /\
  exists b, batches (runtime st) = [b] /\
            length (generatedLooks (view st)) = length (scenes (bitem b)).
Proof.
  intros cam call st.
  assert (Hr0 : reachable Samples.inGenerating).
  { apply (run_reachable (firstn 4 Samples.toResults) initial
             Samples.inGenerating [] reachable_initial).
    vm_compute. reflexivity. }
  assert (Es : step 3500 cam call Samples.inGenerating = Some (st, []))
    by (vm_compute; reflexivity).
  assert (Hr : reachable st) by (eapply reachable_step; eassumption).
  assert (Hp : phase (view st) = generating) by (vm_compute; reflexivity).
  split; [exact Hr0|]. split; [exact Es|]. split; [exact Hp|].
  split; [vm_compute; reflexivity|]. split; [vm_compute; reflexivity|].
  split.
  - destruct (proj2 spinners_are_the_unsettled_calls _ _ _ _ _ _ _ _ Hr0 Es)
      as (b & s & _ & _ & Hb & _ & _ & Hs & _ & Hm & _).
    exists b, s. split; [exact Hb|]. split; [exact Hs|].
    change (generateLook (Samples.imageAnswer "CCCC"))
      with (Resolved "data:image/png;base64,CCCC") in Hm.
    exact (proj2 Hm).
  - destruct (proj1 spinners_are_the_unsettled_calls st Hr Hp)
      as (b & Hb & Hlen & _).
    exists b. split; assumption.
Defined.

Lemma countdown_lasts_three_seconds_witness :
  let cam := Some "data:image/jpeg;base64,AAAA"%string in
  let st1 := Samples.after [Samples.deliver 100 ClickCapture] initial in
  let ticks := [Samples.deliver 1100 (TimerFires 0);
                Samples.deliver 2100 (TimerFires 1);
                Samples.deliver 3100 (TimerFires 2)] in
  let st2 := Samples.after ticks st1 in
  phase (view st2) = generating /\ 100 + 3000 <= clock (runtime st2).
Proof.
  intros cam st1 ticks st2.
  assert (Es : step 100 cam ClickCapture initial = Some (st1, []))
    by (vm_compute; reflexivity).
  assert (Er : run ticks st1 = Some (st2, [])) by (vm_compute; reflexivity).
  assert (Hp1 : phase (view st1) = capturing) by (vm_compute; reflexivity).
  assert (Hp2 : phase (view st2) = generating) by (vm_compute; reflexivity).
  split; [exact Hp2|].
  apply (countdown_lasts_three_seconds 100 cam ClickCapture initial st1 st2
           [] [] ticks reachable_initial eq_refl Es Hp1 Er).
  rewrite Hp2. discriminate.
Defined.

Lemma failed_photo_is_a_dead_end_witness :
  let noCamera t i := {| at_time := t; camera := None; input := i |} in
  let st := Samples.after [noCamera 0 ClickCapture;
                           noCamera 1000 (TimerFires 0);
                           noCamera 2000 (TimerFires 1);
                           noCamera 3000 (TimerFires 2)] initial in
  let later := [Samples.deliver 4000 (Frame (Some Hands.fistHand));
                Samples.deliver 5000 (Frame (Some Hands.thumbsUpHand))] in
  stuck st /\ stuck (Samples.after later st).
Proof.
  intros noCamera st later.
  assert (Hr : reachable st).
  { apply (run_reachable [noCamera 0 ClickCapture;
                          noCamera 1000 (TimerFires 0);
                          noCamera 2000 (TimerFires 1);
                          noCamera 3000 (TimerFires 2)] initial st []
             reachable_initial).
    vm_compute. reflexivity. }
  assert (Hst : stuck st) by (split; vm_compute; reflexivity).
  assert (Er : run later st = Some (Samples.after later st, []))
    by (vm_compute; reflexivity).
  split; [exact Hst|].
  exact (proj1 (failed_photo_is_a_dead_end _ _ _ _ Hr Hst Er)).
Defined.

Lemma browsing_wraps_and_inverts_witness :
  currentIndex (view (browsePrev 900 (browseNext 0 initial))) = 0 /\
  currentIndex (view (browsePrev 0 initial)) = 9.
Proof.
  destruct (browsing_wraps_and_inverts initial 0 900 reachable_initial eq_refl)
    as (A & _ & _ & _ & B & _).
  split; [exact A|]. exact (B eq_refl).
Defined.

End OnSamples.

End FlowFacts.

(** ** Finger counts *)

Module FingerFacts.
Import Geometry FittingRoom.

Section AnyEngine.
Context {engine : Engine}.

(** [countExtendedFingers] counts the fingers, among index, middle,
    ring and pinky, whose tip is farther from the wrist than their PIP
    joint, the two distances being those the code computes with
    [Math.hypot] from the differences of the coordinates; whatever the
    landmarks, the count is between 0 and 4, it is 4 exactly when the
    four are extended and 0 exactly when none is. *)
Theorem countExtendedFingers_counts (lm : HandLandmarks) :
  (forall tip pip : nat,
     extended lm tip pip = true <->
     (Math_hypot (fsub (x (lm pip)) (x (lm 0%nat)))
                 (fsub (y (lm pip)) (y (lm 0%nat)))
      < Math_hypot (fsub (x (lm tip)) (x (lm 0%nat)))
                   (fsub (y (lm tip)) (y (lm 0%nat))))%Q) /\
  countExtendedFingers lm
    = Z.of_nat (length (List.filter (fun '(tip, pip) => extended lm tip pip)
                                    (combine tips pips))) /\
  0 <= countExtendedFingers lm <= 4 /\
  (countExtendedFingers lm = 4 <->
   forallb (fun '(tip, pip) => extended lm tip pip) (combine tips pips) = true) /\
  (countExtendedFingers lm = 0 <->
   existsb (fun '(tip, pip) => extended lm tip pip) (combine tips pips) = false).
Proof.
  split; [intros tip pip; apply Qltb_lt|].
  rewrite GeometryFacts.countExtendedFingers_unfold. cbn.
  destruct (extended lm 8 6), (extended lm 12 10),
    (extended lm 16 14), (extended lm 20 18); cbn;
    repeat split; try lia; try discriminate; try reflexivity.
Qed.

(** A thumbs-up is a fist with the thumb raised: [isThumbsUp] is the
    navigation's strict fist test together with the thumb test.  A
    thumbs-up therefore counts no extended finger, and on the catalog
    the fitting room treats a frame with a thumbs-up exactly as it
    treats a frame with a fist, whichever hand shows the fist. *)
Theorem thumbs_up_is_a_fist (lm : HandLandmarks) :
  isThumbsUp lm
    = Qltb (y (lm 4%nat)) (fsub (y (lm 2%nat)) 0.04) && isFist lm /\
  (isThumbsUp lm = true ->
   isFistGesture lm = true /\ countExtendedFingers lm = 0 /\
   forall (now : Z) (st : FR) (fist : HandLandmarks),
     phase (view st) = catalog ->
     isFistGesture fist = true ->
     processLandmarks now (Some lm) st
       = processLandmarks now (Some fist) st).
Proof.
  split.
  - unfold isThumbsUp, isFist, isFingerFolded, folded. cbn.
    destruct (Qltb (y (lm 4%nat)) _); cbn; [|reflexivity].
    destruct (Qltb (distance (lm 8%nat) _) _); cbn; [|reflexivity].
    destruct (Qltb (distance (lm 12%nat) _) _); cbn; [|reflexivity].
    destruct (Qltb (distance (lm 16%nat) _) _); cbn; [|reflexivity].
    destruct (Qltb (distance (lm 20%nat) _) _); reflexivity.
  - intros H. pose proof (ResultsFacts.thumbsUp_count_zero lm H) as Hc.
    split; [unfold isFistGesture; rewrite Hc; reflexivity|].
    split; [exact Hc|]. intros now st fist Hp Hfist.
    assert (Hf : countExtendedFingers fist = 0)
      by (apply Z.eqb_eq; exact Hfist).
    unfold processLandmarks. rewrite Hp. unfold processCatalog.
    rewrite Hc, Hf. reflexivity.
Qed.

End AnyEngine.

(** *** On sample inputs, with the [binary64] engine *)

Section OnSamples.
#[local] Existing Instance Binary64.binary64.

Lemma thumbs_up_is_a_fist_witness :
  isThumbsUp Hands.thumbsUpHand = true /\
  isFistGesture Hands.fistHand = true /\
  isFistGesture Hands.thumbsUpHand = true /\
  snd (processLandmarks 100 (Some Hands.thumbsUpHand) initial)
    = [StartCaptureCalled].
Proof.
  assert (H : isThumbsUp Hands.thumbsUpHand = true) by (vm_compute; reflexivity).
  assert (F : isFistGesture Hands.fistHand = true) by (vm_compute; reflexivity).
  destruct (proj2 (thumbs_up_is_a_fist Hands.thumbsUpHand) H) as (A & _ & B).
  split; [exact H|]. split; [exact F|]. split; [exact A|].
  rewrite (B 100 initial Hands.fistHand eq_refl F). vm_compute. reflexivity.
Defined.

End OnSamples.

End FingerFacts.

(** ** The mirror *)

Module MirrorFacts.
Import Geometry App Mirror.

Section AnyEngine.
Context {engine : Engine}.

Lemma Sound_mounted : Sound mounted.
Proof.
  constructor; cbn; [unfold widgetCount; lia|left; auto].
Qed.

Lemma next_in_range (a : Z) :
  0 <= a < widgetCount -> 0 <= Z.rem (a + 1) widgetCount < widgetCount.
Proof.
  unfold widgetCount. intros H.
  rewrite Z.rem_mod_nonneg by lia. apply Z.mod_pos_bound. lia.
Qed.

Lemma prev_in_range (a : Z) :
  0 <= a < widgetCount ->
  0 <= Z.rem (a - 1 + widgetCount) widgetCount < widgetCount.
Proof.
  unfold widgetCount. intros H.
  rewrite Z.rem_mod_nonneg by lia. apply Z.mod_pos_bound. lia.
Qed.

(** A state that differs from a sound one in the hand position and the
    swipe tracking only. *)
Lemma Sound_same (a b : State) :
  activeWidget b = activeWidget a -> cooldown b = cooldown a ->
  cooldownTimers b = cooldownTimers a -> Sound a -> Sound b.
Proof.
  intros E1 E2 E3 [Hw Hc]. constructor; rewrite ?E1, ?E2, ?E3; assumption.
Qed.

Lemma Sound_nextWidget (now : Z) (s : State) : Sound s -> Sound (nextWidget now s).
Proof.
  intros HS. pose proof HS as [Hw Hc]. unfold nextWidget.
  destruct (cooldown s) eqn:E; [exact HS|].
  destruct Hc as [[_ Ht]|[Hx _]]; [|congruence].
  constructor; cbn; [apply next_in_range; exact Hw|].
  right. rewrite Ht. eauto.
Qed.

Lemma Sound_prevWidget (now : Z) (s : State) : Sound s -> Sound (prevWidget now s).
Proof.
  intros HS. pose proof HS as [Hw Hc]. unfold prevWidget.
  destruct (cooldown s) eqn:E; [exact HS|].
  destruct Hc as [[_ Ht]|[Hx _]]; [|congruence].
  constructor; cbn; [apply prev_in_range; exact Hw|].
  right. rewrite Ht. eauto.
Qed.

Lemma Sound_handlePinch (now : Z) (s : State) : Sound s -> Sound (handlePinch now s).
Proof.
  intros HS. pose proof HS as [Hw Hc]. unfold handlePinch.
  destruct (cooldown s) eqn:E; [exact HS|].
  destruct Hc as [[_ Ht]|[Hx _]]; [|congruence].
  constructor; cbn; [exact Hw|]. right. rewrite Ht. eauto.
Qed.

Lemma Sound_handleFist (now : Z) (s : State) : Sound s -> Sound (handleFist now s).
Proof.
  intros HS. pose proof HS as [Hw Hc]. unfold handleFist.
  destruct (cooldown s) eqn:E; [exact HS|].
  destruct Hc as [[_ Ht]|[Hx _]]; [|congruence].
  constructor; cbn; [exact Hw|]. right. rewrite Ht. eauto.
Qed.

Lemma Sound_onResults (now : Z) (lm : option HandLandmarks) (s : State) :
  Sound s -> Sound (fst (onResults now lm s)).
Proof.
  intros HS. unfold onResults. destruct lm as [lm|].
  - cbn [activeWidget setHandPosition].
    destruct (activeWidget s =? FITTING_ROOM_INDEX);
      [revert HS; apply Sound_same; reflexivity|].
    assert (HS1 : Sound (setHandPosition (Some (x (lm 9%nat), y (lm 9%nat))) s))
      by (revert HS; apply Sound_same; reflexivity).
    revert HS1. generalize (setHandPosition (Some (x (lm 9%nat), y (lm 9%nat))) s).
    intros s1 HS1.
    destruct (isPinching lm).
    { cbn [fst]. apply (Sound_same (handlePinch now s1)); try reflexivity.
      apply Sound_handlePinch. exact HS1. }
    destruct (isFist lm).
    { cbn [fst]. apply (Sound_same (handleFist now s1)); try reflexivity.
      apply Sound_handleFist. exact HS1. }
    unfold navSwipe. destruct (negb _).
    { cbn [fst]. revert HS1. apply Sound_same; reflexivity. }
    destruct (_ <? 500).
    + destruct (Qltb _ (-0.15)%Q).
      { cbn [fst]. apply (Sound_same (nextWidget now s1)); try reflexivity.
        apply Sound_nextWidget. exact HS1. }
      destruct (Qltb 0.15%Q _).
      { cbn [fst]. apply (Sound_same (prevWidget now s1)); try reflexivity.
        apply Sound_prevWidget. exact HS1. }
      exact HS1.
    + cbn [fst]. revert HS1. apply Sound_same; reflexivity.
  - cbn [activeWidget setHandPosition dropTracking set_gestureState].
    destruct (_ =? FITTING_ROOM_INDEX); cbn [fst];
      revert HS; apply Sound_same; reflexivity.
Qed.

Lemma Sound_onSpeech (now : Z) (transcript : string) (s : State) :
  Sound s -> Sound (onSpeech now transcript s).
Proof.
  intros HS. unfold onSpeech.
  repeat match goal with
  | |- context [if ?b then _ else _] => destruct b
  end;
  try (apply Sound_nextWidget; exact HS);
  try (apply Sound_prevWidget; exact HS);
  try exact HS;
  destruct HS as [Hw Hc]; constructor; cbn; try assumption;
  unfold widgetCount; lia.
Qed.

Lemma Sound_receive (now : Z) (i : NavInput) (s s' : State) (evs : list NavEvent) :
  Sound s -> receive now i s = Some (s', evs) -> Sound s'.
Proof.
  intros HS H. destruct i; cbn [receive] in H.
  - inversion H. rewrite (surjective_pairing (onResults now landmarks s)) in H1.
    inversion H1. apply Sound_onResults. exact HS.
  - inversion H. apply Sound_onSpeech. exact HS.
  - destruct (i <? _)%nat eqn:Ei; inversion H.
    apply Nat.ltb_lt in Ei. destruct HS as [Hw Hc].
    constructor; cbn; [|exact Hc].
    unfold widgetCount in *. cbn in Ei. lia.
  - inversion H. revert HS. apply Sound_same; reflexivity.
  - unfold cooldownElapsed in H.
    destruct (cooldownTimers s) as [|due rest] eqn:Et; [discriminate|].
    destruct (due <=? now); inversion H.
    destruct HS as [Hw Hc]. constructor; cbn; [exact Hw|].
    left. split; [reflexivity|].
    destruct Hc as [[_ Hx]|[_ [d Hx]]]; congruence.
Qed.

Lemma attainable_Sound (s : State) : attainable s -> Sound s.
Proof.
  induction 1 as [|s now i s' evs Hr IH Hh]; [apply Sound_mounted|].
  eapply Sound_receive; eassumption.
Qed.

Lemma navigate_attainable (ds : list NavDelivery) :
  forall (s s' : State) (evs : list NavEvent),
  attainable s -> navigate ds s = Some (s', evs) -> attainable s'.
Proof.
  induction ds as [|d ds IH]; intros s s' evs Hr H.
  - inversion H. subst. exact Hr.
  - cbn [navigate] in H.
    destruct (receive _ _ s) as [[s1 evs1]|] eqn:Eh; [|discriminate].
    destruct (navigate ds s1) as [[s2 evs2]|] eqn:Er; inversion H. subst.
    eapply IH; [|exact Er]. eapply attainable_step; eassumption.
Qed.

(** The widget index always names one of the six widgets, whatever
    gestures, phrases, clicks and timers the mirror has gone through:
    [widgets[activeWidget]] is never [undefined]. *)
Theorem active_widget_exists (s : State) :
  attainable s -> 0 <= activeWidget s < widgetCount.
Proof.
  intros Hr. exact (sound_widget _ (attainable_Sound _ Hr)).
Qed.

(** The cooldown flag of the navigation is set exactly while one
    [triggerCooldown] timer is pending, and there is never a second
    one: no stale timer can end a later cooldown early. *)
Theorem one_cooldown_timer (s : State) :
  attainable s ->
  (cooldown s = true <-> exists due, cooldownTimers s = [due]) /\
  (cooldown s = false <-> cooldownTimers s = []).
Proof.
  intros Hr. destruct (sound_cooldown _ (attainable_Sound _ Hr))
    as [[Hc Ht]|[Hc [due Ht]]]; rewrite Hc, Ht; split; split;
    try discriminate; try reflexivity; eauto.
  intros [d Hd]. discriminate.
Qed.

End AnyEngine.

(** *** The cooldown of the navigation *)

Ltac split_ifs :=
  repeat match goal with
  | |- context [if ?b then _ else _] => destruct b
  end.

Section AnyEngine.
Context {engine : Engine}.

Lemma onResults_cooling (T now : Z) (lm : option HandLandmarks) (s : State) :
  coolingUntil T s ->
  coolingUntil T (fst (onResults now lm s)) /\
  acted (fst (onResults now lm s)) = acted s.
Proof.
  intros [Hc Ht].
  unfold onResults, navSwipe, handlePinch, handleFist, nextWidget, prevWidget,
    coolingUntil, acted.
  destruct lm as [lm|]; cbn [cooldown setHandPosition]; rewrite ?Hc;
    split_ifs; cbn; auto.
Qed.

Lemma cooling_receive (T now : Z) (i : NavInput) (s s' : State) (evs : list NavEvent) :
  coolingUntil T s -> now < T ->
  byHand {| nav_time := now; nav_input := i |} = true ->
  receive now i s = Some (s', evs) ->
  coolingUntil T s' /\ acted s' = acted s.
Proof.
  intros Hc Hnow Hi H. destruct i; cbn in Hi; try discriminate;
    cbn [receive] in H.
  - inversion H. rewrite (surjective_pairing (onResults now landmarks s)) in H1.
    inversion H1. apply onResults_cooling. exact Hc.
  - unfold cooldownElapsed in H. destruct Hc as [Hc Ht]. rewrite Ht in H.
    destruct (T <=? now) eqn:E; [|discriminate].
    apply Z.leb_le in E. lia.
Qed.

Lemma cooling_run (T : Z) (ds : list NavDelivery) :
  forall (s s' : State) (evs : list NavEvent),
  coolingUntil T s -> handBefore T ds ->
  navigate ds s = Some (s', evs) ->
  coolingUntil T s' /\ acted s' = acted s.
Proof.
  induction ds as [|d ds IH]; intros s s' evs Hc Hb H.
  - inversion H. subst. auto.
  - cbn [navigate] in H.
    destruct (receive _ _ s) as [[s1 evs1]|] eqn:Eh; [|discriminate].
    destruct (navigate ds s1) as [[s2 evs2]|] eqn:Er; inversion H. subst.
    inversion Hb as [|? ? [Hd Ht] Hb']. subst.
    destruct d as [t i]. cbn in *.
    destruct (cooling_receive T t i s s1 evs1 Hc Ht Hd Eh) as [A B].
    destruct (IH _ _ _ A Hb' Er) as [A' B'].
    split; [exact A'|congruence].
Qed.

Lemma negb_differs (b : bool) : negb b <> b.
Proof. destruct b; discriminate. Qed.

Lemma next_differs (a : Z) :
  0 <= a < widgetCount -> Z.rem (a + 1) widgetCount <> a.
Proof.
  unfold widgetCount. intros H.
  assert (Hc : a = 0 \/ a = 1 \/ a = 2 \/ a = 3 \/ a = 4 \/ a = 5) by lia.
  destruct Hc as [->|[->|[->|[->|[->| ->]]]]]; discriminate.
Qed.

Lemma prev_differs (a : Z) :
  0 <= a < widgetCount -> Z.rem (a - 1 + widgetCount) widgetCount <> a.
Proof.
  unfold widgetCount. intros H.
  assert (Hc : a = 0 \/ a = 1 \/ a = 2 \/ a = 3 \/ a = 4 \/ a = 5) by lia.
  destruct Hc as [->|[->|[->|[->|[->| ->]]]]]; discriminate.
Qed.

(** A frame on which a gesture handler is called while the cooldown
    is off acts, and starts the cooldown. *)
Lemma gesture_acts (t : Z) (lm : HandLandmarks) (s : State) :
  Sound s -> cooldown s = false ->
  existsb isGesture (snd (onResults t (Some lm) s)) = true ->
  coolingUntil (t + 1200) (fst (onResults t (Some lm) s)) /\
  acted (fst (onResults t (Some lm) s)) <> acted s.
Proof.
  intros [Hw Hs] Hc.
  destruct Hs as [[_ Ht]|[Hx _]]; [|congruence].
  unfold onResults, navSwipe, handlePinch, handleFist, nextWidget, prevWidget,
    coolingUntil, acted.
  cbn [cooldown setHandPosition activeWidget]. rewrite Hc.
  split_ifs; cbn; try discriminate; intros _; rewrite Ht;
    (split; [auto|]); intros H; inversion H.
  - eapply negb_differs; eassumption.
  - eapply negb_differs; eassumption.
  - eapply next_differs; eassumption.
  - eapply prev_differs; eassumption.
Qed.

(** The gestures of the navigation are rate-limited.  A frame on
    which a gesture handler is called while the cooldown is off acts
    (it moves to another widget, toggles the camera view or toggles the
    music); after it, whatever the hand does during the next 1200ms,
    the widget, the camera view and the music stay as they are. *)
Theorem gestures_are_rate_limited (t : Z) (lm : HandLandmarks) (s : State) :
  attainable s ->
  cooldown s = false ->
  existsb isGesture (snd (onResults t (Some lm) s)) = true ->
  acted (fst (onResults t (Some lm) s)) <> acted s /\
  forall (ds : list NavDelivery) (s' : State) (evs : list NavEvent),
    handBefore (t + 1200) ds ->
    navigate ds (fst (onResults t (Some lm) s)) = Some (s', evs) ->
    acted s' = acted (fst (onResults t (Some lm) s)).
Proof.
  intros Hr Hc Hg.
  destruct (gesture_acts t lm s (attainable_Sound _ Hr) Hc Hg) as [A B].
  split; [exact B|]. intros ds s' evs Hb H.
  exact (proj2 (cooling_run _ _ _ _ _ A Hb H)).
Qed.

(** *** The fitting room and the hand *)

(** Which frames reach the fitting room, and what the hand can do
    there.  A detector result is forwarded to the fitting room's
    [processLandmarks] exactly when the fitting room is the active
    widget, and it is forwarded as it is (the landmarks, or [null]).
    While the fitting room is active, no sequence of frames calls a
    gesture handler of the navigation: the hand cannot leave the
    fitting room, nor toggle the camera view or the music. *)
Theorem fitting_room_keeps_the_hand (s : State) :
  (forall (now : Z) (lm lm' : option HandLandmarks),
     In (Forwarded lm') (snd (onResults now lm s)) <->
     activeWidget s = FITTING_ROOM_INDEX /\ lm' = lm) /\
  (activeWidget s = FITTING_ROOM_INDEX ->
   forall (ds : list NavDelivery) (s' : State) (evs : list NavEvent),
     Forall (fun d => byHand d = true) ds ->
     navigate ds s = Some (s', evs) ->
     acted s' = acted s /\
     Forall (fun e => isGesture e = false) evs).
Proof.
  split.
  - intros now lm lm'. unfold onResults, navSwipe.
    destruct lm as [lm|];
      cbn [activeWidget setHandPosition dropTracking set_gestureState];
      destruct (activeWidget s =? FITTING_ROOM_INDEX) eqn:E.
    + apply Z.eqb_eq in E. cbn. split.
      * intros [[= <-]|[]]. auto.
      * intros [_ ->]. auto.
    + apply Z.eqb_neq in E.
      split; [|tauto]. split_ifs; cbn; intros H;
        repeat (destruct H as [H|H]; try discriminate); contradiction.
    + apply Z.eqb_eq in E. cbn. split.
      * intros [[= <-]|[]]. auto.
      * intros [_ ->]. auto.
    + apply Z.eqb_neq in E. cbn. tauto.
  - intros Hw ds. revert s Hw.
    induction ds as [|d ds IH]; intros s Hw s' evs Hb H.
    + inversion H. subst. auto.
    + cbn [navigate] in H.
      destruct (receive _ _ s) as [[s1 evs1]|] eqn:Eh; [|discriminate].
      destruct (navigate ds s1) as [[s2 evs2]|] eqn:Er; inversion H. subst.
      inversion Hb as [|? ? Hd Hb']. subst. destruct d as [t i].
      cbn in Hd, Eh.
      assert (H1 : acted s1 = acted s /\ Forall (fun e => isGesture e = false) evs1).
      { destruct i; cbn in Hd; try discriminate; cbn [receive] in Eh.
        - unfold onResults in Eh.
          destruct landmarks as [lm|];
            cbn [activeWidget setHandPosition dropTracking set_gestureState] in Eh;
            rewrite Hw in Eh; cbn in Eh; inversion Eh; subst;
            (split; [unfold acted; cbn; rewrite Hw; reflexivity
                    |repeat constructor]).
        - unfold cooldownElapsed in Eh.
          destruct (cooldownTimers s); [discriminate|].
          destruct (_ <=? t); inversion Eh. split; [reflexivity|constructor]. }
      destruct H1 as [A B].
      assert (Hw1 : activeWidget s1 = FITTING_ROOM_INDEX).
      { unfold acted in A. inversion A. congruence. }
      destruct (IH s1 Hw1 s' evs2 Hb' Er) as [A' B'].
      split; [congruence|]. apply Forall_app. split; assumption.
Qed.

(** *** Going round the widgets *)

Lemma thenNext_widget (now : Z) (s : State) :
  activeWidget (thenNext now s) = Z.rem (activeWidget s + 1) widgetCount /\
  cooldown (thenNext now s) = true.
Proof. split; reflexivity. Qed.

Lemma thenPrev_widget (now : Z) (s : State) :
  activeWidget (thenPrev now s)
    = Z.rem (activeWidget s - 1 + widgetCount) widgetCount /\
  cooldown (thenPrev now s) = true.
Proof. split; reflexivity. Qed.

Lemma thenNext_iter (now : Z) (n : nat) (s : State) :
  0 <= activeWidget s < widgetCount ->
  activeWidget (Nat.iter n (thenNext now) s)
    = (activeWidget s + Z.of_nat n) mod widgetCount.
Proof.
  intros Hw. unfold widgetCount in *. induction n as [|n IH].
  - cbn [Nat.iter]. rewrite Z.add_0_r, Z.mod_small; [reflexivity|exact Hw].
  - change (Nat.iter (S n) (thenNext now) s)
      with (thenNext now (Nat.iter n (thenNext now) s)).
    rewrite (proj1 (thenNext_widget now _)), IH. unfold widgetCount.
    rewrite Z.rem_mod_nonneg by
      (pose proof (Z.mod_pos_bound (activeWidget s + Z.of_nat n) 6); lia).
    rewrite Zplus_mod_idemp_l. f_equal. lia.
Qed.

(** The navigation wraps around and its two directions undo each
    other.  Once the cooldown has elapsed, [nextWidget] moves from the
    last widget (the fitting room) to the first (the clock) and
    [prevWidget] from the first to the last; [prevWidget] after
    [nextWidget], or [nextWidget] after [prevWidget], is back on the
    widget it started from, and so are six [nextWidget].  Without the
    cooldown elapsing in between, the second call does nothing. *)
Theorem widgets_wrap_and_invert (s : State) (t1 t2 : Z) :
  attainable s ->
  activeWidget (thenPrev t2 (thenNext t1 s)) = activeWidget s /\
  activeWidget (thenNext t2 (thenPrev t1 s)) = activeWidget s /\
  activeWidget (Nat.iter (Z.to_nat widgetCount) (thenNext t1) s)
    = activeWidget s /\
  (activeWidget s = widgetCount - 1 -> activeWidget (thenNext t1 s) = 0) /\
  (activeWidget s = 0 -> activeWidget (thenPrev t1 s) = widgetCount - 1) /\
  prevWidget t2 (thenNext t1 s) = thenNext t1 s /\
  nextWidget t2 (thenPrev t1 s) = thenPrev t1 s.
Proof.
  intros Hr. pose proof (sound_widget _ (attainable_Sound _ Hr)) as Hw.
  rewrite (thenNext_iter t1 _ s Hw).
  rewrite (proj1 (thenPrev_widget t2 _)), (proj1 (thenNext_widget t2 _)),
    !(proj1 (thenNext_widget t1 _)), !(proj1 (thenPrev_widget t1 _)).
  unfold widgetCount in *.
  assert (Hc : activeWidget s = 0 \/ activeWidget s = 1 \/ activeWidget s = 2
               \/ activeWidget s = 3 \/ activeWidget s = 4
               \/ activeWidget s = 5) by lia.
  split; [|split; [|split; [|split; [|split; [|split]]]]].
  - destruct Hc as [H|[H|[H|[H|[H|H]]]]]; rewrite H; reflexivity.
  - destruct Hc as [H|[H|[H|[H|[H|H]]]]]; rewrite H; reflexivity.
  - destruct Hc as [H|[H|[H|[H|[H|H]]]]]; rewrite H; reflexivity.
  - intros H. rewrite H. reflexivity.
  - intros H. rewrite H. reflexivity.
  - reflexivity.
  - reflexivity.
Qed.

End AnyEngine.

(** *** On sample inputs, with the [binary64] engine *)

Section OnSamples.
#[local] Existing Instance Binary64.binary64.

Lemma active_widget_exists_witness :
  let s := fst (onResults 100 (Some (Hands.openHand 0.8))
                  (fst (onResults 0 (Some (Hands.openHand 0.5)) mounted))) in
  activeWidget s = 5 /\ 0 <= activeWidget s < widgetCount.
Proof.
  intros s.
  assert (Hr : attainable s).
  { apply (navigate_attainable
             [ {| nav_time := 0; nav_input := Results (Some (Hands.openHand 0.5)) |};
               {| nav_time := 100; nav_input := Results (Some (Hands.openHand 0.8)) |} ]
             mounted s [PrevWidgetCalled] attainable_initial).
    vm_compute. reflexivity. }
  split; [vm_compute; reflexivity|exact (active_widget_exists s Hr)].
Defined.

Lemma one_cooldown_timer_witness :
  let s := fst (onResults 100 (Some Hands.fistHand) mounted) in
  cooldown s = true /\ exists due, cooldownTimers s = [due].
Proof.
  intros s.
  assert (Hr : attainable s).
  { apply (attainable_step mounted 100 (Results (Some Hands.fistHand)) s
             (snd (onResults 100 (Some Hands.fistHand) mounted))
             attainable_initial).
    reflexivity. }
  assert (Hc : cooldown s = true) by (vm_compute; reflexivity).
  split; [exact Hc|]. exact (proj1 (proj1 (one_cooldown_timer s Hr)) Hc).
Defined.

Lemma gestures_are_rate_limited_witness :
  let s1 := fst (onResults 100 (Some Hands.fistHand) mounted) in
  let later := [ {| nav_time := 400; nav_input := Results (Some (Hands.openHand 0.5)) |};
                 {| nav_time := 500; nav_input := Results (Some (Hands.openHand 0.2)) |};
                 {| nav_time := 900; nav_input := Results (Some Hands.fistHand) |} ] in
  isPlaying s1 = true /\
  exists s2 evs, navigate later s1 = Some (s2, evs) /\
                 evs = [NextWidgetCalled; FistCalled] /\
                 acted s2 = acted s1.
Proof.
  intros s1 later.
  assert (Hg : existsb isGesture (snd (onResults 100 (Some Hands.fistHand) mounted))
               = true) by (vm_compute; reflexivity).
  destruct (gestures_are_rate_limited 100 Hands.fistHand mounted
              attainable_initial eq_refl Hg) as [_ H].
  split; [vm_compute; reflexivity|].
  assert (Hb : handBefore (100 + 1200) later).
  { repeat constructor; cbn; lia. }
  eexists _, _. split; [vm_compute; reflexivity|].
  split; [reflexivity|].
  apply (H later _ [NextWidgetCalled; FistCalled] Hb).
  vm_compute. reflexivity.
Defined.

Lemma fitting_room_keeps_the_hand_witness :
  let s := {| activeWidget := 5; showCamera := false; isPlaying := false;
              handPosition := None;
              gestureState := {| startX := 0; lastX := 0; startTime := 0;
                                 isTracking := false |};
              cooldown := false; cooldownTimers := [] |} in
  let ds := [ {| nav_time := 0; nav_input := Results (Some (Hands.openHand 0.5)) |};
              {| nav_time := 100; nav_input := Results (Some (Hands.openHand 0.8)) |};
              {| nav_time := 200; nav_input := Results (Some Hands.fistHand) |} ] in
  exists s' evs, navigate ds s = Some (s', evs) /\ activeWidget s' = 5 /\
                 isPlaying s' = false.
Proof.
  intros s ds.
  assert (Hb : Forall (fun d => byHand d = true) ds) by (repeat constructor).
  eexists _, _. split; [vm_compute; reflexivity|].
  match goal with
  | |- activeWidget ?s' = _ /\ _ =>
      destruct (proj2 (fitting_room_keeps_the_hand s) eq_refl ds s'
                  [Forwarded (Some (Hands.openHand 0.5));
                   Forwarded (Some (Hands.openHand 0.8));
                   Forwarded (Some Hands.fistHand)] Hb) as [A _];
        [vm_compute; reflexivity|]
  end.
  unfold acted in A. inversion A. split; reflexivity.
Defined.

Lemma widgets_wrap_and_invert_witness :
  activeWidget (thenPrev 1300 (thenNext 0 mounted)) = 0 /\
  activeWidget (thenPrev 0 mounted) = 5.
Proof.
  destruct (widgets_wrap_and_invert mounted 0 1300 attainable_initial)
    as (A & _ & _ & _ & B & _).
  split; [exact A|]. exact (B eq_refl).
Defined.

End OnSamples.

End MirrorFacts.

(** ** The cells of a capture *)

Module TidyFacts.
Import Geometry Catalog GenerateLook Imagen FittingRoom Invariant InvariantFacts
  PhaseFacts.
Import Consistency.

Section AnyEngine.
Context {engine : Engine}.

Lemma Tidy_initial : Tidy initial.
Proof.
  constructor; cbn; auto.
  intros [H|H]; discriminate.
Qed.

Lemma Tidy_holds (a b : FR) :
  Tidy a -> holds a b ->
  (phase (view b) = phase (view a) \/
   (phase (view a) = catalog /\ phase (view b) = capturing)) ->
  Tidy b.
Proof.
  intros [Hf Hi Hph] (E1 & E2 & E3) Hp.
  constructor; rewrite ?E1, ?E2, ?E3; auto.
  - intros Hb. apply Hi. destruct Hp as [E|[E _]]; rewrite E in *; auto.
  - intros Hb. apply Hph. destruct Hp as [E|[_ Hc]]; [rewrite <- E; exact Hb|].
    destruct Hb; congruence.
Qed.

Lemma Tidy_reset (now : Z) (st : FR) : Tidy (reset now st).
Proof.
  constructor; cbn; auto. intros [H|H]; discriminate.
Qed.

Lemma processCatalog_holds (now : Z) (lm : option HandLandmarks) (st : FR) :
  phase (view st) = catalog ->
  holds st (fst (processCatalog now lm st)) /\
  (phase (view (fst (processCatalog now lm st))) = catalog \/
   phase (view (fst (processCatalog now lm st))) = capturing).
Proof.
  intros Hp.
  unfold processCatalog, openHandGate, catalogSwipe, goNext, goPrev,
    startCapture, holds.
  ScreenFacts.split_ifs; cbn; rewrite ?Hp; auto.
Qed.

Lemma Tidy_processLandmarks (now : Z) (lm : option HandLandmarks) (st : FR) :
  Tidy st -> Tidy (fst (processLandmarks now lm st)).
Proof.
  intros HT. unfold processLandmarks.
  destruct (phase (view st)) eqn:Ep; try exact HT.
  - destruct (processCatalog_holds now lm st Ep) as [A B].
    apply (Tidy_holds st); [exact HT|exact A|].
    rewrite Ep. destruct B as [B|B]; auto.
  - unfold processResults.
    destruct lm as [lm|].
    + set (count := countExtendedFingers lm). clearbody count.
      destruct (isThumbsUp lm).
      * cbn [thumbsUpBuffer refs set_thumbsUpBuffer with_refs set_fingerBuffer
             setLiveFingerCount setThumbsUpProgress with_view].
        destruct (_ <=? _); cbn [fst]; [apply Tidy_reset|].
        apply (Tidy_holds st); [exact HT|repeat split|left; reflexivity].
      * destruct ((1 <=? count) && (count <=? 4)).
        -- cbn [selectedLookIndex view fingerBuffer refs set_thumbsUpBuffer
                with_refs set_fingerBuffer setLiveFingerCount
                setThumbsUpProgress with_view].
           destruct (_ && _); cbn [fst];
             (apply (Tidy_holds st); [exact HT|repeat split|left; reflexivity]).
        -- apply (Tidy_holds st); [exact HT|repeat split|left; reflexivity].
    + apply (Tidy_holds st); [exact HT|repeat split|left; reflexivity].
Qed.

Lemma Tidy_handle (now : Z) (i : Input) (st st' : FR) (evs : list Event) :
  Inv st -> Tidy st -> handle now i st = Some (st', evs) -> Tidy st'.
Proof.
  intros HI HT H. destruct i; cbn [handle] in H.
  - inversion H. rewrite (surjective_pairing (processLandmarks now lm st)) in H1.
    inversion H1. apply Tidy_processLandmarks. exact HT.
  - destruct (catalogInDocument st); inversion H.
    apply (Tidy_holds st); [exact HT| |left; apply goPrev_phase].
    unfold goPrev, holds. ScreenFacts.split_ifs; cbn; auto.
  - destruct (catalogInDocument st); inversion H.
    apply (Tidy_holds st); [exact HT| |left; apply goNext_phase].
    unfold goNext, holds. ScreenFacts.split_ifs; cbn; auto.
  - destruct (_ && _); inversion H.
    apply (Tidy_holds st); [exact HT|repeat split|left; reflexivity].
  - destruct (catalogInDocument st); inversion H.
    apply (Tidy_holds st); [exact HT| |].
    + unfold startCapture, holds. ScreenFacts.split_ifs; cbn; auto.
    + unfold startCapture. destruct (negb _) eqn:E; [left; reflexivity|].
      apply negb_false_iff, phase_eqb_eq in E. right. auto.
  - destruct (resultsInDocument st); inversion H. apply Tidy_reset.
  - destruct (_ && _); inversion H.
    apply (Tidy_holds st); [exact HT|repeat split|left; reflexivity].
  - destruct (findTimer t _) as [tm|]; [|discriminate].
    destruct (mayFire now tm _); inversion H.
    apply (Tidy_holds st); [exact HT| |left];
      unfold fire, holds; destruct (action tm); cbn; auto.
  - destruct (findBatch b _) as [bt|] eqn:Ef; [|discriminate].
    destruct (settleCall index net bt) as [bt'|]; inversion H.
    destruct (batch_in_flight _ _ _ HI Ef) as (Hp & _).
    destruct HT as [Hf Hi Hph].
    constructor; cbn; auto. rewrite Hp. intros [Hx|Hx]; discriminate.
  - destruct (findBatch b _) as [bt|] eqn:Ef; [|discriminate].
    destruct (allSettled bt); inversion H.
    destruct (batch_in_flight _ _ _ HI Ef) as (Hp & _).
    destruct HT as [Hf Hi Hph].
    constructor; cbn; auto. intros [Hx|Hx]; discriminate.
  - destruct (leaving (runtime st)); inversion H.
    apply (Tidy_holds st); [exact HT|repeat split|left; reflexivity].
Qed.

Lemma countdownEffect_photo (now : Z) (cam : option string) (st : FR) :
  countdown (view (countdownEffect now cam st)) = countdown (view st) ->
  capturedPhoto (view (countdownEffect now cam st)) = capturedPhoto (view st).
Proof.
  unfold countdownEffect, takePhoto, clearTimeout.
  destruct (countdownTimer (runtime st)); cbn;
    destruct (countdown (view st)) as [c|]; cbn; try reflexivity;
    destruct (c =? 0); cbn; try reflexivity;
    destruct cam; cbn; try reflexivity; discriminate.
Qed.

Lemma countdownEffect_fist (now : Z) (cam : option string) (st : FR) :
  fistStartTime (refs (countdownEffect now cam st)) = fistStartTime (refs st).
Proof.
  unfold countdownEffect, takePhoto, clearTimeout.
  ScreenFacts.split_ifs; reflexivity.
Qed.

Lemma Tidy_countdownEffect (now : Z) (cam : option string) (st : FR) :
  Tidy st -> Tidy (countdownEffect now cam st).
Proof.
  intros HT.
  destruct (countdownEffect_cases now cam st)
    as [(Hp & Hg & Hc & _)|(Hz & photo & Hcam & Hp & Hph & Hc)].
  - apply (Tidy_holds st); [exact HT| |left; exact Hp].
    split; [apply countdownEffect_fist|].
    split; [apply countdownEffect_photo; exact Hc|exact Hg].
  - destruct HT as [Hf _ _]. constructor.
    + rewrite countdownEffect_fist. exact Hf.
    + rewrite Hp. intros [Hx|Hx]; discriminate.
    + intros _. eauto.
Qed.

Lemma Tidy_commit (now : Z) (cam : option string) (before st : FR) :
  Tidy st -> Tidy (commit now cam before st).
Proof.
  intros HT. unfold commit. destruct (countdown_eqb _ _); [exact HT|].
  destruct (countdown_eqb _ _); repeat apply Tidy_countdownEffect; exact HT.
Qed.

Lemma Tidy_step (now : Z) (cam : option string) (i : Input) (st st' : FR)
    (evs : list Event) :
  Inv st -> Tidy st -> step now cam i st = Some (st', evs) -> Tidy st'.
Proof.
  intros HI HT H. apply step_inv in H. destruct H as (_ & st1 & Hh & ->).
  apply (Tidy_holds (commit now cam st (set_clock now st1)));
    [|repeat split|left; reflexivity].
  apply Tidy_commit.
  apply (Tidy_holds st1); [|repeat split|left; reflexivity].
  eapply Tidy_handle; eassumption.
Qed.

Lemma reachable_Tidy (st : FR) : reachable st -> Tidy st.
Proof.
  induction 1 as [|st now cam i st' evs Hr IH Hs]; [apply Tidy_initial|].
  eapply Tidy_step; [apply reachable_Inv; exact Hr|exact IH|exact Hs].
Qed.

(** A photo and looks are held only from the moment the photo is
    taken to the return to the catalog: on the catalog and during the
    countdown there is no captured photo and no look, while generating
    and in the results the photo of the capture is there. *)
Theorem photo_is_held_only_with_its_looks (st : FR) :
  reachable st ->
  (phase (view st) = catalog \/ phase (view st) = capturing ->
   capturedPhoto (view st) = None /\ generatedLooks (view st) = []) /\
  (phase (view st) = generating \/ phase (view st) = results ->
   exists photo, capturedPhoto (view st) = Some photo).
Proof.
  intros Hr. destruct (reachable_Tidy _ Hr) as [_ Hi Hph]. auto.
Qed.

(** A fist needs no hold.  The hold time of the fist is never
    recorded ([fistStartTime] stays [null]), and on the catalog, with
    the lockout, the hand-open gate and the cooldown off, the first
    frame that shows a fist starts the capture: the component is
    capturing with the countdown at 3. *)
Theorem fist_needs_no_hold (st : FR) :
  reachable st ->
  fistStartTime (refs st) = None /\
  forall (now : Z) (lm : HandLandmarks),
    phase (view st) = catalog ->
    postResetCooldown (refs st) = false ->
    requireOpenHandAfterReset (refs st) = false ->
    catalogCooldown (refs st) = false ->
    isFistGesture lm = true ->
    snd (processLandmarks now (Some lm) st) = [StartCaptureCalled] /\
    phase (view (fst (processLandmarks now (Some lm) st))) = capturing /\
    countdown (view (fst (processLandmarks now (Some lm) st)))
      = Some COUNTDOWN_SECONDS /\
    fistStartTime (refs (fst (processLandmarks now (Some lm) st))) = None.
Proof.
  intros Hr. pose proof (tidy_fist _ (reachable_Tidy _ Hr)) as Hf.
  split; [exact Hf|]. intros now lm Hp Hl Hg Hc Hfist.
  unfold isFistGesture in Hfist.
  unfold processLandmarks. rewrite Hp. unfold processCatalog, openHandGate.
  rewrite Hl, Hg, Hfist.
  cbn [negb catalogCooldown refs stopTracking set_swipeState with_refs].
  rewrite Hc. cbn [negb fst snd]. unfold startCapture. cbn. rewrite Hp. cbn.
  auto.
Qed.

(** *** The pending timers *)

Lemma NoDup_map_filter (f : Timer -> bool) (l : list Timer) :
  List.NoDup (map tid l) -> List.NoDup (map tid (List.filter f l)).
Proof.
  induction l as [|a l IH]; cbn; [auto|].
  intros H. inversion H as [|? ? Hn Hd]. subst.
  destruct (f a); cbn; [|auto].
  constructor; [|auto].
  intros Hin. apply Hn. apply in_map_iff in Hin.
  destruct Hin as (t & Ht & Hin). apply filter_In in Hin.
  apply in_map_iff. exists t. tauto.
Qed.

Lemma NoDup_map_snoc (l : list Timer) (t : Timer) :
  List.NoDup (map tid l) ->
  (forall t', In t' l -> tid t' <> tid t) ->
  List.NoDup (map tid (l ++ [t])).
Proof.
  induction l as [|a l IH]; cbn; intros H Hf.
  - constructor; [intros []|constructor].
  - inversion H as [|? ? Hn Hd]. subst. constructor.
    + rewrite map_app, in_app_iff. cbn. intros [Hin|[Hin|[]]].
      * exact (Hn Hin).
      * symmetry in Hin. exact (Hf a (or_introl eq_refl) Hin).
    + apply IH; [exact Hd|]. intros t' Ht'. apply Hf. auto.
Qed.

Lemma Unique_same_tid (st : FR) (t t' : Timer) :
  Unique st -> In t (timers (runtime st)) -> In t' (timers (runtime st)) ->
  tid t = tid t' -> t = t'.
Proof.
  unfold Unique. generalize (timers (runtime st)). intros l.
  induction l as [|a l IH]; cbn; intros H Ht Ht' E; [contradiction|].
  inversion H as [|? ? Hn Hd]. subst.
  destruct Ht as [<-|Ht], Ht' as [<-|Ht']; auto.
  - exfalso. apply Hn. rewrite E. apply in_map. exact Ht'.
  - exfalso. apply Hn. rewrite <- E. apply in_map. exact Ht.
Qed.

End AnyEngine.

Ltac uniq :=
  repeat first
    [ assumption
    | apply NoDup_map_filter
    | apply NoDup_map_snoc;
      [|intros ? ?; break_in; use_ids; cbn in *; lia] ].

Section AnyEngine.
Context {engine : Engine}.

Lemma Unique_processLandmarks (now : Z) (lm : option HandLandmarks) (st : FR) :
  Inv st -> Unique st -> Unique (fst (processLandmarks now lm st)).
Proof.
  intros HI HU. pose proof (inv_ids _ HI) as Hids. unfold Unique in *.
  unfold processLandmarks, processCatalog, processResults, openHandGate,
    catalogSwipe, goNext, goPrev, startCapture, reset.
  destruct (phase (view st)); try assumption; destruct lm as [lm|];
    try assumption;
    try (set (count := countExtendedFingers lm); clearbody count);
    ScreenFacts.split_ifs; cbn; uniq.
Qed.

Lemma Unique_handle (now : Z) (i : Input) (st st' : FR) (evs : list Event) :
  Inv st -> Unique st -> handle now i st = Some (st', evs) -> Unique st'.
Proof.
  intros HI HU H. pose proof (inv_ids _ HI) as Hids.
  destruct i; cbn [handle] in H.
  - inversion H. rewrite (surjective_pairing (processLandmarks now lm st)) in H1.
    inversion H1. apply Unique_processLandmarks; assumption.
  - destruct (catalogInDocument st); inversion H.
    unfold Unique, goPrev in *. ScreenFacts.split_ifs; cbn; uniq.
  - destruct (catalogInDocument st); inversion H.
    unfold Unique, goNext in *. ScreenFacts.split_ifs; cbn; uniq.
  - destruct (_ && _); inversion H. exact HU.
  - destruct (catalogInDocument st); inversion H.
    unfold Unique, startCapture in *. ScreenFacts.split_ifs; cbn; uniq.
  - destruct (resultsInDocument st); inversion H.
    unfold Unique, reset in *. cbn. uniq.
  - destruct (_ && _); inversion H. exact HU.
  - destruct (findTimer t _) as [tm|]; [|discriminate].
    destruct (mayFire now tm _); inversion H.
    unfold Unique, fire in *. destruct (action tm); cbn; uniq.
  - destruct (findBatch b _) as [bt|]; [|discriminate].
    destruct (settleCall index net bt) as [bt'|]; inversion H. exact HU.
  - destruct (findBatch b _) as [bt|]; [|discriminate].
    destruct (allSettled bt); inversion H. exact HU.
  - destruct (leaving (runtime st)); inversion H. exact HU.
Qed.

Lemma Unique_countdownEffect (now : Z) (cam : option string) (st : FR) :
  Inv st -> Unique st -> Unique (countdownEffect now cam st).
Proof.
  intros HI HU. pose proof (inv_ids _ HI) as Hids. unfold Unique in *.
  unfold countdownEffect, takePhoto, startGeneration, clearTimeout.
  ScreenFacts.split_ifs; cbn; uniq.
Qed.

Lemma Unique_commit (now : Z) (cam : option string) (before st : FR) :
  Inv st -> Unique st -> Unique (commit now cam before st).
Proof.
  intros HI HU. unfold commit. destruct (countdown_eqb _ _); [exact HU|].
  destruct (countdown_eqb _ _).
  - apply Unique_countdownEffect; assumption.
  - apply Unique_countdownEffect;
      [apply Inv_countdownEffect|apply Unique_countdownEffect]; assumption.
Qed.

Lemma Unique_step (now : Z) (cam : option string) (i : Input) (st st' : FR)
    (evs : list Event) :
  Inv st -> staged st -> Unique st -> step now cam i st = Some (st', evs) ->
  Unique st'.
Proof.
  intros HI HS HU H. apply step_inv in H. destruct H as (_ & st1 & Hh & ->).
  change (Unique (commit now cam st (set_clock now st1))).
  apply Unique_commit.
  - apply Inv_set_clock. eapply Inv_handle; eassumption.
  - change (Unique st1). eapply Unique_handle; eassumption.
Qed.

Lemma reachable_Unique (st : FR) : reachable st -> Unique st.
Proof.
  induction 1 as [|st now cam i st' evs Hr IH Hs]; [constructor|].
  eapply Unique_step;
    [apply reachable_Inv; exact Hr|apply reachable_staged; exact Hr
    |exact IH|exact Hs].
Qed.

(** *** The countdown keeps ticking *)

(** The render after the countdown has changed to a positive value
    leaves its tick pending. *)
Lemma commit_tick_pending (now : Z) (cam : option string) (before st : FR)
    (c : Z) :
  countdown (view st) = Some c -> c <> 0 ->
  countdown (view before) <> Some c ->
  exists t, In t (timers (runtime (commit now cam before st))) /\
            action t = CountdownTick /\
            countdownTimer (runtime (commit now cam before st)) = Some (tid t).
Proof.
  intros Hc Hc0 Hb. unfold commit.
  destruct (countdown_eqb (countdown (view before)) (countdown (view st))) eqn:E.
  { apply countdown_eqb_eq in E. congruence. }
  assert (Heff : countdown (view (countdownEffect now cam st)) = Some c /\
            exists t, In t (timers (runtime (countdownEffect now cam st))) /\
              action t = CountdownTick /\
              countdownTimer (runtime (countdownEffect now cam st))
                = Some (tid t)).
  { unfold countdownEffect.
    assert (Hv : view (clearTimeout (countdownTimer (runtime st)) st) = view st)
      by (destruct (countdownTimer (runtime st)); reflexivity).
    revert Hv. generalize (clearTimeout (countdownTimer (runtime st)) st).
    intros s1 Hv.
    cbn [countdown view set_countdownTimer with_runtime]. rewrite Hv, Hc.
    apply Z.eqb_neq in Hc0. rewrite Hc0. cbn. rewrite Hv.
    split; [exact Hc|]. eexists. split; [apply in_app_iff; right; left; reflexivity|].
    split; reflexivity. }
  destruct Heff as (Hcd & Ht).
  rewrite Hcd, Hc. cbn [countdown_eqb]. rewrite Z.eqb_refl. exact Ht.
Qed.

Lemma commit_no_camera (now : Z) (before st : FR) :
  countdown (view st) = Some 0 ->
  countdown (view (commit now None before st)) = Some 0.
Proof.
  intros Hz. unfold commit. destruct (countdown_eqb _ _); [exact Hz|].
  assert (H1 : forall s, countdown (view s) = Some 0 ->
                         countdown (view (countdownEffect now None s)) = Some 0).
  { intros s Hs.
    destruct (countdownEffect_cases now None s)
      as [(_ & _ & Hc & _)|(_ & photo & Hx & _)]; [congruence|discriminate]. }
  destruct (countdown_eqb _ _); auto.
Qed.

Lemma fire_tick (tm : Timer) (st : FR) :
  action tm = CountdownTick ->
  fire tm st = setCountdown (fun c => match c with
                                      | Some c => Some (c - 1)
                                      | None => None
                                      end) st.
Proof. intros H. unfold fire. rewrite H. reflexivity. Qed.

Lemma fire_other (tm : Timer) (st : FR) :
  action tm <> CountdownTick ->
  view (fire tm st) = view st /\ runtime (fire tm st) = runtime st.
Proof.
  intros H. unfold fire. destruct (action tm); [auto|auto|congruence].
Qed.

Lemma ticking_present (before st : FR) :
  ticking st -> ticking (present before st).
Proof. intros H. exact H. Qed.

Lemma ticking_step (now : Z) (cam : option string) (i : Input) (st st0 : FR)
    (evs : list Event) :
  Inv st -> staged st -> Unique st -> ticking st ->
  step now cam i st = Some (st0, evs) -> ticking st0.
Proof.
  intros HI HS HU Htk Hs.
  pose proof (proj1 (Inv_step _ _ _ _ _ _ HI HS Hs)) as HI0.
  apply step_inv in Hs. destruct Hs as (_ & st1 & Hh & ->).
  apply ticking_present.
  assert (HI' : Inv (commit now cam st (set_clock now st1))).
  { revert HI0. apply Inv_core. repeat split. }
  clear HI0.
  remember (commit now cam st (set_clock now st1)) as st' eqn:Hst'.
  intros Hp'.
  pose proof (Inv_set_clock now _ (Inv_handle _ _ _ _ _ HI HS Hh)) as HI1.
  assert (Hgoal : forall c,
            countdown (view st') = Some c ->
            (1 <= c ->
             exists t, In t (timers (runtime st')) /\ action t = CountdownTick
               /\ countdownTimer (runtime st') = Some (tid t)) ->
            exists c, countdown (view st') = Some c /\ 0 <= c <= 3 /\
              (1 <= c ->
               exists t, In t (timers (runtime st')) /\ action t = CountdownTick
                 /\ countdownTimer (runtime st') = Some (tid t))).
  { intros c Hc Ht. exists c. split; [exact Hc|].
    split; [exact (proj2 (inv_countdown _ HI' _ Hc))|exact Ht]. }
  assert (Hstart : forall c, countdown (view st1) = Some c -> c <> 0 ->
            countdown (view st) <> Some c ->
            exists c, countdown (view st') = Some c /\ 0 <= c <= 3 /\
              (1 <= c ->
               exists t, In t (timers (runtime st')) /\ action t = CountdownTick
                 /\ countdownTimer (runtime st') = Some (tid t))).
  { intros c Hc Hc0 Hne. subst st'.
    destruct (FlowFacts.commit_restarts_tick now cam st (set_clock now st1) c HI1)
      as (_ & B & _); [exact Hc|exact Hc0|exact Hne|].
    apply (Hgoal _ B). intros _.
    apply (commit_tick_pending now cam st (set_clock now st1) c);
      [exact Hc|exact Hc0|exact Hne]. }
  destruct (phase (view st)) eqn:Ep.
  - (* from the catalog: the capture starts *)
    destruct (handle_move _ _ _ _ _ HI HS Hh)
      as [Hph Hcd|Hph Hph' Hcd Hcd' Hi|c Hph|n b Hph|Hph]; try congruence.
    + subst st'. rewrite commit_unchanged in Hp' by exact Hcd.
      cbn in Hp'. congruence.
    + apply (Hstart COUNTDOWN_SECONDS);
        [exact Hcd'|discriminate|rewrite Hcd; discriminate].
  - (* capturing *)
    destruct (Htk Ep) as (c & Hc & Hrange & Htick).
    pose proof (FlowFacts.not_capturing_screens st HS Ep) as Hrs.
    destruct (FlowFacts.capturing_clicks now st Ep) as (Hgp & Hgn & Hsc).
    assert (Hsame : countdown (view st1) = countdown (view st) ->
              countdownTimer (runtime st1) = countdownTimer (runtime st) ->
              (forall t, In t (timers (runtime st)) -> action t = CountdownTick ->
                         In t (timers (runtime st1))) ->
              exists c, countdown (view st') = Some c /\ 0 <= c <= 3 /\
                (1 <= c ->
                 exists t, In t (timers (runtime st')) /\ action t = CountdownTick
                   /\ countdownTimer (runtime st') = Some (tid t))).
    { intros E1 E2 E3. subst st'. rewrite commit_unchanged by exact E1.
      exists c. split; [cbn; congruence|]. split; [exact Hrange|].
      intros H1. destruct (Htick H1) as (t & Hin & Ha & Hid).
      exists t. cbn. split; [apply E3; assumption|]. split; [exact Ha|congruence]. }
    destruct i; cbn [handle] in Hh; rewrite ?Hrs, ?Hgp, ?Hgn, ?Hsc in Hh;
      try discriminate.
    + unfold processLandmarks in Hh. rewrite Ep in Hh. inversion Hh. subst st1.
      apply Hsame; auto.
    + destruct (catalogInDocument st); inversion Hh. subst st1.
      apply Hsame; auto.
    + destruct (catalogInDocument st); inversion Hh. subst st1.
      apply Hsame; auto.
    + destruct (_ && _); inversion Hh. subst st1. apply Hsame; auto.
    + destruct (catalogInDocument st); inversion Hh. subst st1.
      apply Hsame; auto.
    + destruct (findTimer t _) as [tm|] eqn:Ef; [|discriminate].
      destruct (mayFire now tm _) eqn:Em; [|discriminate].
      injection Hh as Hst1 Hevs.
      apply findTimer_Some in Ef. destruct Ef as [Hin Hn].
      destruct (action tm) eqn:Ea.
      * destruct (fire_other tm (clearTimeout (Some t) st)) as [Fv Fr];
          [congruence|].
        cbn [clearTimeout] in Fv, Fr. subst st1. apply Hsame; rewrite ?Fv, ?Fr; try reflexivity.
        intros t' Hin' Ha'. cbn. apply filter_In. split; [exact Hin'|].
        apply negb_true_iff, Nat.eqb_neq. intros E.
        assert (t' = tm)
          by (apply (Unique_same_tid st); try assumption; congruence).
        congruence.
      * destruct (fire_other tm (clearTimeout (Some t) st)) as [Fv Fr];
          [congruence|].
        cbn [clearTimeout] in Fv, Fr. subst st1. apply Hsame; rewrite ?Fv, ?Fr; try reflexivity.
        intros t' Hin' Ha'. cbn. apply filter_In. split; [exact Hin'|].
        apply negb_true_iff, Nat.eqb_neq. intros E.
        assert (t' = tm)
          by (apply (Unique_same_tid st); try assumption; congruence).
        congruence.
      * rewrite (fire_tick tm _ Ea) in Hst1.
        assert (Hc1 : countdown (view st1) = Some (c - 1)).
        { rewrite <- Hst1. cbn. rewrite Hc. reflexivity. }
        destruct (Z.eq_dec c 1) as [->|Hne1].
        -- destruct (commit_phase now cam st (set_clock now st1))
             as [(_ & _ & Hx)|(_ & _ & photo & _ & Hg & _)].
           ++ assert (Hcam : cam = None).
              { destruct Hx as [Hx|[Hx|Hx]]; [| exact Hx |].
                - exfalso. apply Hx. exact Hc1.
                - cbn in Hx. rewrite Hc, Hc1 in Hx. discriminate. }
              apply (Hgoal 0); [|lia].
              rewrite Hst', Hcam. apply commit_no_camera. exact Hc1.
           ++ rewrite <- Hst' in Hg. congruence.
        -- apply (Hstart (c - 1)); [exact Hc1|lia|].
           rewrite Hc. intros [= Hx]. lia.
    + rewrite (FlowFacts.no_batch_while_capturing _ _ HI Ep) in Hh. discriminate.
    + rewrite (FlowFacts.no_batch_while_capturing _ _ HI Ep) in Hh. discriminate.
    + destruct (leaving (runtime st)); inversion Hh. subst st1.
      apply Hsame; auto.
  - (* generating: the phase can only become results *)
    destruct (handle_move _ _ _ _ _ HI HS Hh)
      as [Hph Hcd|Hph Hph' Hcd Hcd' Hi|c Hph|n b Hph Hph' Hcd|Hph]; try congruence.
    + subst st'. rewrite commit_unchanged in Hp' by exact Hcd.
      cbn in Hp'. congruence.
    + subst st'. rewrite commit_unchanged in Hp' by exact Hcd.
      cbn in Hp'. congruence.
  - (* results: the phase can only become catalog *)
    destruct (handle_move _ _ _ _ _ HI HS Hh)
      as [Hph Hcd|Hph Hph' Hcd Hcd' Hi|c Hph|n b Hph|Hph Hph' Hcd]; try congruence.
    + subst st'. rewrite commit_unchanged in Hp' by exact Hcd.
      cbn in Hp'. congruence.
    + subst st'. rewrite commit_unchanged in Hp' by exact Hcd.
      cbn in Hp'. congruence.
Qed.

Lemma reachable_ticking (st : FR) : reachable st -> ticking st.
Proof.
  induction 1 as [|st now cam i st' evs Hr IH Hs].
  - intros H. discriminate.
  - eapply ticking_step;
      [apply reachable_Inv; exact Hr|apply reachable_staged; exact Hr
      |apply reachable_Unique; exact Hr|exact IH|exact Hs].
Qed.

(** The countdown keeps ticking.  While the component is capturing, a
    number from 3 down to 0 is on display, and as long as the number is
    positive exactly one tick is pending, the one that will decrement
    it: the countdown cannot hang on 3, 2 or 1, and no second tick can
    make it run fast. *)
Theorem countdown_keeps_ticking (st : FR) :
  reachable st ->
  phase (view st) = capturing ->
  exists c, countdown (view st) = Some c /\ 0 <= c <= 3 /\
    (1 <= c ->
     exists t, In t (timers (runtime st)) /\ action t = CountdownTick /\
       delay t = 1000 /\
       forall t', In t' (timers (runtime st)) -> action t' = CountdownTick ->
                  t' = t).
Proof.
  intros Hr Hp. pose proof (reachable_Inv _ Hr) as HI.
  destruct (reachable_ticking _ Hr Hp) as (c & Hc & Hrange & Ht).
  exists c. split; [exact Hc|]. split; [exact Hrange|].
  intros H1. destruct (Ht H1) as (t & Hin & Ha & Hid).
  exists t. split; [exact Hin|]. split; [exact Ha|].
  split; [exact (proj2 (inv_delay _ HI _ Hin) Ha)|].
  intros t' Hin' Ha'.
  apply (Unique_same_tid st); [apply reachable_Unique; exact Hr|assumption..|].
  destruct (inv_tick _ HI _ Hin' Ha') as (_ & Hid' & _). congruence.
Qed.

End AnyEngine.

(** *** How many timers are pending *)

Section AnyEngine.
Context {engine : Engine}.

Lemma NoDup_map_on (A B : Type) (f : A -> B) (l : list A) :
  (forall x y, In x l -> In y l -> f x = f y -> x = y) ->
  List.NoDup l -> List.NoDup (map f l).
Proof.
  induction l as [|a l IH]; cbn; intros Hinj Hd; [constructor|].
  inversion Hd as [|? ? Hn Hd']. subst. constructor.
  - intros Hin. apply in_map_iff in Hin. destruct Hin as (x & Hx & Hin).
    assert (x = a) by (apply Hinj; auto). subst. contradiction.
  - apply IH; [|exact Hd']. intros x y Hx Hy. apply Hinj; auto.
Qed.

(** The timers that end the catalog cooldown and the ticks of the
    countdown do not pile up: at any time the handles of the pending
    timers are pairwise distinct, at most one timer that ends the
    cooldown and at most one tick are pending, and every other pending
    timer lifts the lockout of a [reset].  Those pile up when [reset] is
    invoked again before the lockout of the one before is lifted; none
    is pending while generating or in the results, where at most one
    timer is pending altogether, and right after a [reset] invoked in
    the results phase exactly one is. *)
Theorem only_lockout_lifts_pile_up :
  (forall st : FR,
     reachable st ->
     List.NoDup (map tid (timers (runtime st))) /\
     List.NoDup (map action (List.filter notLift (timers (runtime st)))) /\
     (length (List.filter notLift (timers (runtime st))) <= 2)%nat /\
     (phase (view st) = generating \/ phase (view st) = results ->
      (forall t, In t (timers (runtime st)) ->
                 action t = ClearCatalogCooldown) /\
      (length (timers (runtime st)) <= 1)%nat)) /\
  (forall (now : Z) (cam : option string) (i : Input) (st st1 : FR)
          (evs : list Event),
     reachable st -> phase (view st) = results ->
     step now cam i st = Some (st1, evs) ->
     i = ClickBack \/ In ResetCalled evs ->
     exists t, In t (timers (runtime st1)) /\ due t = now + 500 /\
       forall t', In t' (timers (runtime st1)) ->
                  action t' = ClearPostResetCooldown -> t' = t).
Proof.
  split.
  - intros st Hr. pose proof (reachable_Inv _ Hr) as HI.
    pose proof (reachable_Unique _ Hr) as HU.
    assert (Hact : List.NoDup
                     (map action (List.filter notLift (timers (runtime st))))).
    { apply NoDup_map_on.
      - intros t t' Ht Ht' Ha. apply filter_In in Ht, Ht'.
        destruct Ht as [Ht Hn], Ht' as [Ht' Hn'].
        apply (Unique_same_tid st t t' HU Ht Ht').
        unfold notLift in Hn. destruct (action t) eqn:Et.
        + exact (inv_cool_one _ HI t t' Ht Ht' Et (eq_sym Ha)).
        + discriminate.
        + destruct (inv_tick _ HI _ Ht Et) as (_ & H1 & _).
          destruct (inv_tick _ HI _ Ht' (eq_sym Ha)) as (_ & H2 & _).
          congruence.
      - apply List.NoDup_filter. apply (NoDup_map_inv tid). exact HU. }
    split; [exact HU|]. split; [exact Hact|]. split.
    + rewrite <- (length_map action).
      apply (NoDup_incl_length
               (l' := [ClearCatalogCooldown; CountdownTick]) Hact).
      intros a Ha. apply in_map_iff in Ha. destruct Ha as (t & <- & Ht).
      apply filter_In in Ht. destruct Ht as [_ Hn]. unfold notLift in Hn.
      destruct (action t); cbn; auto. discriminate.
    + intros Hp.
      assert (Hall : forall t, In t (timers (runtime st)) ->
                               action t = ClearCatalogCooldown).
      { intros t Ht. destruct (action t) eqn:Et; [reflexivity| |].
        - exfalso. eapply (inv_post_late _ HI); eauto. tauto.
        - destruct (inv_tick _ HI _ Ht Et) as (Hx & _).
          destruct Hp; congruence. }
      split; [exact Hall|].
      assert (Hd : List.NoDup (map action (timers (runtime st)))).
      { apply NoDup_map_on.
        - intros t t' Ht Ht' _.
          apply (Unique_same_tid st t t' HU Ht Ht').
          exact (inv_cool_one _ HI t t' Ht Ht' (Hall t Ht) (Hall t' Ht')).
        - apply (NoDup_map_inv tid). exact HU. }
      rewrite <- (length_map action).
      apply (NoDup_incl_length (l' := [ClearCatalogCooldown]) Hd).
      intros a Ha. apply in_map_iff in Ha. destruct Ha as (t & <- & Ht).
      rewrite (Hall t Ht). left. reflexivity.
  - intros now cam i st st1 evs Hr Hp Hs Hi.
    assert (HU1 : Unique st1).
    { apply reachable_Unique. eapply reachable_step; eassumption. }
    destruct (reachable_Inv_staged _ Hr) as [HI HS].
    apply step_inv in Hs. destruct Hs as (_ & s1 & Hh & ->).
    destruct (GateFacts.handle_reset _ _ _ _ _ HS Hh Hi)
      as (s0 & -> & _ & Hp0 & Hc0 & Ht0 & Hb0).
    assert (Hcd : countdown (view st) = None).
    { destruct (countdown (view st)) as [c|] eqn:Ec; [|reflexivity].
      destruct (inv_countdown _ HI _ Ec). congruence. }
    rewrite commit_unchanged in * by (cbn; congruence).
    exists {| tid := nextId (runtime s0); delay := 500; due := now + 500;
              action := ClearPostResetCooldown |}.
    split; [cbn; apply in_app_iff; right; left; reflexivity|].
    split; [reflexivity|].
    intros t' Ht' Ha'. cbn in Ht'. rewrite Ht0 in Ht'.
    apply in_app_iff in Ht'. destruct Ht' as [Ht'|[<-|[]]]; [|reflexivity].
    exfalso. eapply (inv_post_late _ HI); eauto.
Qed.

End AnyEngine.

(** *** On sample inputs, with the [binary64] engine *)

Section OnSamples.
#[local] Existing Instance Binary64.binary64.

Lemma photo_is_held_only_with_its_looks_witness :
  let st := Samples.after [Samples.deliver 4000 ClickBack] Samples.inResults in
  capturedPhoto (view Samples.inResults)
    = Some "data:image/jpeg;base64,AAAA"%string /\
  capturedPhoto (view st) = None /\ generatedLooks (view st) = [].
Proof.
  intros st.
  assert (Hr0 : reachable Samples.inResults).
  { apply (run_reachable Samples.toResults initial Samples.inResults []
             reachable_initial).
    vm_compute. reflexivity. }
  assert (Hr : reachable st).
  { apply (run_reachable [Samples.deliver 4000 ClickBack] Samples.inResults
             st [] Hr0).
    vm_compute. reflexivity. }
  split; [vm_compute; reflexivity|].
  apply (proj1 (photo_is_held_only_with_its_looks st Hr)).
  left. vm_compute. reflexivity.
Defined.

Lemma fist_needs_no_hold_witness :
  snd (processLandmarks 100 (Some Hands.fistHand) initial)
    = [StartCaptureCalled] /\
  phase (view (fst (processLandmarks 100 (Some Hands.fistHand) initial)))
    = capturing.
Proof.
  assert (F : isFistGesture Hands.fistHand = true) by (vm_compute; reflexivity).
  destruct (proj2 (fist_needs_no_hold initial reachable_initial) 100
              Hands.fistHand eq_refl eq_refl eq_refl eq_refl F)
    as (A & B & _).
  split; assumption.
Defined.

Lemma countdown_keeps_ticking_witness :
  let st := Samples.after [Samples.deliver 0 ClickCapture;
                           Samples.deliver 1000 (TimerFires 0)] initial in
  countdown (view st) = Some 2 /\
  exists t, In t (timers (runtime st)) /\ action t = CountdownTick.
Proof.
  intros st.
  assert (Hr : reachable st).
  { apply (run_reachable [Samples.deliver 0 ClickCapture;
                          Samples.deliver 1000 (TimerFires 0)] initial st []
             reachable_initial).
    vm_compute. reflexivity. }
  assert (Hp : phase (view st) = capturing) by (vm_compute; reflexivity).
  assert (Hc : countdown (view st) = Some 2) by (vm_compute; reflexivity).
  split; [exact Hc|].
  destruct (countdown_keeps_ticking st Hr Hp) as (c & Hc' & _ & Ht).
  rewrite Hc in Hc'. inversion Hc'. subst c.
  destruct Ht as (t & Hin & Ha & _); [lia|]. eauto.
Defined.

(** Back from the results, on to the next item and into the capture:
    one timer of each kind is pending.  After the back button was
    clicked twice, two timers that lift the lockout are. *)
Lemma only_lockout_lifts_pile_up_witness :
  let st := Samples.after [Samples.deliver 4000 ClickBack;
                           Samples.deliver 4050 ExitComplete;
                           Samples.deliver 4100 ClickNext;
                           Samples.deliver 4200 ClickCapture]
              Samples.inResults in
  let st' := Samples.after (firstn 2 Samples.backTwice) Samples.inResults in
  reachable st /\
  map action (timers (runtime st))
    = [ClearPostResetCooldown; ClearCatalogCooldown; CountdownTick] /\
  List.NoDup (map action (List.filter notLift (timers (runtime st)))) /\
  reachable st' /\
  map action (timers (runtime st'))
    = [ClearPostResetCooldown; ClearPostResetCooldown] /\
  List.NoDup (map tid (timers (runtime st'))).
Proof.
  intros st st'.
  assert (Hr0 : reachable Samples.inResults).
  { apply (run_reachable Samples.toResults initial Samples.inResults []
             reachable_initial).
    vm_compute. reflexivity. }
  assert (Hr : reachable st).
  { apply (run_reachable [Samples.deliver 4000 ClickBack;
                          Samples.deliver 4050 ExitComplete;
                          Samples.deliver 4100 ClickNext;
                          Samples.deliver 4200 ClickCapture]
             Samples.inResults st [] Hr0).
    vm_compute. reflexivity. }
  assert (Hr' : reachable st').
  { apply (run_reachable (firstn 2 Samples.backTwice) Samples.inResults st' []
             Hr0).
    vm_compute. reflexivity. }
  split; [exact Hr|]. split; [vm_compute; reflexivity|].
  split; [exact (proj1 (proj2 (proj1 only_lockout_lifts_pile_up st Hr)))|].
  split; [exact Hr'|]. split; [vm_compute; reflexivity|].
  exact (proj1 (proj1 only_lockout_lifts_pile_up st' Hr')).
Defined.

End OnSamples.

End TidyFacts.

